(** * Schema-driven tool compiler and request dispatcher

    A shallow embedding of the OpenAPI/Swagger parser (both parser variants
    found in the repository: [ParserA] is the unified parser with the in-flight
    reference set, [ParserB] the parser with separate v2/v3 input-schema
    builders and synthesized operation identifiers), of the request
    dispatcher [handleOpenAPITool] of the MCP server, and of the HTTP client
    the dispatcher hands its requests to, with its retry strategy.

    Modelling conventions.
    - A JavaScript value is a [value]: the JSON constructors plus [VUndef].
      A number is carried by the text [String(n)] returns for it.
    - Strings are sequences of one-byte characters; case conversion acts on
      the ASCII letters.
    - An object is the list of its own enumerable members in enumeration
      order; a new member is appended (the reordering of integer-like keys is
      not modelled).  Object identity is not modelled: two composite values
      are never [===].
    - Property reads look at own members only.  The names the source reads
      as fixed names ([properties], [items], [parameters], ...) are supplied
      by no prototype, so these reads are what the source does.  The two
      reads by a computed key, the segment of a reference pointer and the
      argument of a path placeholder, find a member inherited from a
      prototype when the key names one ([constructor], [toString], ...):
      the statements about them are made for reads that reach no inherited
      member ([ownRead], [ownWalk], [plainArguments]).
    - An assignment [o[k] = v] with the key [__proto__] adds no member
      ([assign]); the prototype it installs is not modelled.
    - [String(v)], as [jsToString], is given for the values that convert:
      an object with an own member [toString] does not ([printable]).
    - Code that may throw returns an [outcome]; recursion that the source
      leaves unbounded is driven by a fuel counter, the depth of the call
      stack, and reports [OutOfFuel] when the counter is exhausted: the
      [RangeError] of a stack overflow, which propagates like an error and
      which the [try]/[catch] around the making of a tool catches. *)

From Stdlib Require Import List String Ascii Bool Arith Lia DecimalString.
Import ListNotations.
Open Scope string_scope.
Open Scope list_scope.

Set Warnings "-register-all".

Infix "+++" := String.append (at level 60, right associativity).

(** ** Values *)

Inductive value : Type :=
| VUndef
| VNull
| VBool (b : bool)
| VNum (repr : string)
| VStr (s : string)
| VArr (elems : list value)
| VObj (members : list (string * value)).

(** ** Strings *)

Definition natToString (n : nat) : string :=
  NilZero.string_of_uint (Nat.to_uint n).

Fixpoint chars (s : string) : list string :=
  match s with
  | EmptyString => []
  | String c r => String c EmptyString :: chars r
  end.

Fixpoint dropN (n : nat) (s : string) : string :=
  match n, s with
  | O, _ => s
  | S n', String _ r => dropN n' r
  | S _, EmptyString => EmptyString
  end.

Definition lowerChar (c : ascii) : ascii :=
  let n := nat_of_ascii c in
  if ((65 <=? n) && (n <=? 90))%nat then ascii_of_nat (n + 32) else c.

Definition upperChar (c : ascii) : ascii :=
  let n := nat_of_ascii c in
  if ((97 <=? n) && (n <=? 122))%nat then ascii_of_nat (n - 32) else c.

Fixpoint mapString (f : ascii -> ascii) (s : string) : string :=
  match s with
  | EmptyString => EmptyString
  | String c r => String (f c) (mapString f r)
  end.

(** [s.toLowerCase()] and [s.toUpperCase()]. *)
Definition toLowerCase : string -> string := mapString lowerChar.
Definition toUpperCase : string -> string := mapString upperChar.

(** [s.startsWith(p)]. *)
Definition startsWith (p s : string) : bool := String.prefix p s.

(** [s.split(sep)] for a one-character separator. *)
Fixpoint splitOn (sep : ascii) (s : string) : list string :=
  match s with
  | EmptyString => [EmptyString]
  | String c r =>
      if Ascii.eqb c sep then EmptyString :: splitOn sep r
      else match splitOn sep r with
           | h :: t => String c h :: t
           | [] => [String c EmptyString]
           end
  end.

(** [parts.join(sep)] on strings. *)
Fixpoint joinWith (sep : string) (l : list string) : string :=
  match l with
  | [] => EmptyString
  | [x] => x
  | x :: r => x +++ sep +++ joinWith sep r
  end.

(** [s.charAt(0).toUpperCase() + s.slice(1)]. *)
Definition capitalize (s : string) : string :=
  match s with
  | EmptyString => EmptyString
  | String c r => String (upperChar c) r
  end.

(** [s.slice(1, -1)]. *)
Fixpoint dropLast (s : string) : string :=
  match s with
  | EmptyString => EmptyString
  | String c EmptyString => EmptyString
  | String c r => String c (dropLast r)
  end.

Definition sliceInner (s : string) : string :=
  match s with
  | EmptyString => EmptyString
  | String _ r => dropLast r
  end.

(** [occurs p s]: the text [p] occurs somewhere in [s] ([s.includes(p)]). *)
Fixpoint occurs (p s : string) : bool :=
  String.prefix p s ||
  match s with
  | EmptyString => false
  | String _ r => occurs p r
  end.

(** ** Reading values *)

Definition truthy (v : value) : bool :=
  match v with
  | VUndef | VNull => false
  | VBool b => b
  | VNum r => negb (String.eqb r "0")
  | VStr s => negb (String.eqb s EmptyString)
  | VArr _ | VObj _ => true
  end.

Fixpoint lookup (k : string) (m : list (string * value)) : option value :=
  match m with
  | [] => None
  | (k', v) :: r => if String.eqb k k' then Some v else lookup k r
  end.

Fixpoint indexedFrom (i : nat) (l : list value) : list (string * value) :=
  match l with
  | [] => []
  | x :: r => (natToString i, x) :: indexedFrom (S i) r
  end.

(** Own enumerable members of [ToObject(v)]: what [Object.entries],
    object spread and [Object.assign] enumerate. *)
Definition ownEntries (v : value) : list (string * value) :=
  match v with
  | VObj m => m
  | VArr l => indexedFrom 0 l
  | VStr s => indexedFrom 0 (map VStr (chars s))
  | _ => []
  end.

(** [v[k]] for a [v] that is neither [null] nor [undefined]: the own
    member, or the [length] of an array or a string.  (A key that names a
    member of a prototype finds that member in the source; see the
    conventions.) *)
Definition getProp (v : value) (k : string) : value :=
  match lookup k (ownEntries v) with
  | Some x => x
  | None =>
      if String.eqb k "length" then
        match v with
        | VArr l => VNum (natToString (List.length l))
        | VStr s => VNum (natToString (String.length s))
        | _ => VUndef
        end
      else VUndef
  end.

(** [k in v] for an object [v]. *)
Definition hasKey (k : string) (v : value) : bool :=
  match lookup k (ownEntries v) with
  | Some _ => true
  | None => false
  end.

(** [typeof v === 'object'] *)
Definition typeofObject (v : value) : bool :=
  match v with
  | VNull | VArr _ | VObj _ => true
  | _ => false
  end.

(** A member [k] with value [v] defined on an object's member list: what
    an object literal, the spread [{...o, k: v}] and [Object.fromEntries] do
    for each key, and what an assignment does for every key but
    [__proto__]. *)
Fixpoint assocSet (k : string) (v : value) (m : list (string * value))
  : list (string * value) :=
  match m with
  | [] => [(k, v)]
  | (k', v') :: r =>
      if String.eqb k k' then (k, v) :: r else (k', v') :: assocSet k v r
  end.

(** [delete o[k]]. *)
Definition assocDel (k : string) (m : list (string * value))
  : list (string * value) :=
  filter (fun kv => negb (String.eqb k (fst kv))) m.

(** [o[k] = v], an assignment.  On an object without own member
    [__proto__] the key [__proto__] reaches the accessor inherited from
    [Object.prototype]: no member is added (the assignment replaces the
    prototype when [v] is an object or [null], and prototypes are not
    modelled). *)
Definition assign (k : string) (v : value) (m : list (string * value))
  : list (string * value) :=
  if String.eqb k "__proto__" && negb (hasKey "__proto__" (VObj m)) then m
  else assocSet k v m.

(** [Object.assign(target, source)] on member lists: one assignment per
    member of the source. *)
Definition objectAssign (target source : list (string * value))
  : list (string * value) :=
  fold_left (fun acc kv => assign (fst kv) (snd kv) acc) source target.

(** [Object.fromEntries(entries)]: one member defined per entry. *)
Definition fromEntries (entries : list (string * value))
  : list (string * value) :=
  fold_left (fun acc kv => assocSet (fst kv) (snd kv) acc) entries [].

(** [a === b]; also the equality of [Set] ([SameValueZero]) on the values
    that occur. *)
Definition strictEquals (a b : value) : bool :=
  match a, b with
  | VUndef, VUndef => true
  | VNull, VNull => true
  | VBool x, VBool y => Bool.eqb x y
  | VNum x, VNum y => String.eqb x y
  | VStr x, VStr y => String.eqb x y
  | _, _ => false
  end.

(** [String(v)]: the coercion used by template literals, string
    concatenation, property keys and [Array.prototype.join], for the values
    that have one (an object with an own member [toString], which is no
    function in a JSON value, throws a [TypeError] instead). *)
Fixpoint jsToString (v : value) : string :=
  match v with
  | VUndef => "undefined"
  | VNull => "null"
  | VBool true => "true"
  | VBool false => "false"
  | VNum r => r
  | VStr s => s
  | VArr l =>
      joinWith ","
        ((fix elems (l : list value) : list string :=
            match l with
            | [] => []
            | x :: r =>
                match x with
                | VUndef | VNull => EmptyString
                | _ => jsToString x
                end :: elems r
            end) l)
  | VObj _ => "[object Object]"
  end.

(** [arr.join(sep)] on values. *)
Definition joinValues (sep : string) (l : list value) : string :=
  joinWith sep
    (map (fun x => match x with
                   | VUndef | VNull => EmptyString
                   | _ => jsToString x
                   end) l).

(** [[...new Set(l)]]: first occurrences, in order. *)
Fixpoint dedupe (l : list value) : list value :=
  match l with
  | [] => []
  | x :: r => x :: filter (fun y => negb (strictEquals x y)) (dedupe r)
  end.

(** ** Outcomes *)

Inductive error : Type :=
| SchemaParseError (msg : string)
| TypeError (msg : string)
| PlainError (msg : string).

Inductive outcome (A : Type) : Type :=
| Ok (a : A)
| Throw (e : error)
| OutOfFuel.

Arguments Ok {A} a.
Arguments Throw {A} e.
Arguments OutOfFuel {A}.

Definition bind {A B : Type} (m : outcome A) (f : A -> outcome B) : outcome B :=
  match m with
  | Ok a => f a
  | Throw e => Throw e
  | OutOfFuel => OutOfFuel
  end.

Notation "x <- m ;; k" := (bind m (fun x => k))
  (at level 61, m at next level, right associativity).

Fixpoint mapM {A B : Type} (f : A -> outcome B) (l : list A) : outcome (list B) :=
  match l with
  | [] => Ok []
  | x :: r => y <- f x ;; ys <- mapM f r ;; Ok (y :: ys)
  end.

(** [Object.entries(v)]: a [TypeError] on [null] and [undefined]. *)
Definition objectEntries (v : value) : outcome (list (string * value)) :=
  match v with
  | VUndef | VNull => Throw (TypeError "Cannot convert undefined or null to object")
  | _ => Ok (ownEntries v)
  end.

(** [v.k] where [v] may be [null] or [undefined]. *)
Definition member (v : value) (k : string) : outcome value :=
  match v with
  | VUndef | VNull => Throw (TypeError "Cannot read properties of undefined or null")
  | _ => Ok (getProp v k)
  end.

(** [v?.k]. *)
Definition optMember (v : value) (k : string) : value :=
  match v with
  | VUndef | VNull => VUndef
  | _ => getProp v k
  end.

(** What [for (const x of v)] and the spread [...v] iterate. *)
Definition iterate (v : value) : outcome (list value) :=
  match v with
  | VArr l => Ok l
  | VStr s => Ok (map VStr (chars s))
  | _ => Throw (TypeError "value is not iterable")
  end.

(** The receiver of an [Array.prototype] method ([map], [find], [join]). *)
Definition asArray (what : string) (v : value) : outcome (list value) :=
  match v with
  | VArr l => Ok l
  | _ => Throw (TypeError (what +++ " is not a function"))
  end.

Fixpoint foldM {A B : Type} (f : B -> A -> outcome B) (l : list A) (b : B)
  : outcome B :=
  match l with
  | [] => Ok b
  | x :: r => b' <- f b x ;; foldM f r b'
  end.

(** [arr.find(p)] for a predicate that may throw. *)
Fixpoint findM (p : value -> outcome bool) (l : list value) : outcome value :=
  match l with
  | [] => Ok VUndef
  | x :: r => b <- p x ;; if b then Ok x else findM p r
  end.

(** The [message] of an error object.  [SchemaParseError]'s constructor
    prefixes the text it is given. *)
Definition schemaParseError (msg : string) : error :=
  SchemaParseError ("Schema parse error: " +++ msg).

Definition errorMessage (e : error) : string :=
  match e with
  | SchemaParseError m | TypeError m | PlainError m => m
  end.

(** [a || b] on values. *)
Definition orElse (a b : value) : value := if truthy a then a else b.

(** [Set<string>.has] on a list of members. *)
Definition setHas (x : value) (s : list value) : bool :=
  existsb (strictEquals x) s.

(** ** Request dispatcher *)

(** The matches of [/{([^}]+)}/g], left to right.  [inside] carries the
    characters read since the opening brace of the match attempt under
    way. *)
Fixpoint scanPlaceholders (inside : option string) (s : string) : list string :=
  match s with
  | EmptyString => []
  | String c r =>
      match inside with
      | None =>
          if Ascii.eqb c "{" then scanPlaceholders (Some EmptyString) r
          else scanPlaceholders None r
      | Some acc =>
          if Ascii.eqb c "}" then
            if String.eqb acc EmptyString then scanPlaceholders None r
            else ("{" +++ acc +++ "}") :: scanPlaceholders None r
          else scanPlaceholders (Some (acc +++ String c EmptyString)) r
      end
  end.

Definition pathParamMatches (path : string) : list string :=
  scanPlaceholders None path.

(** The text before and after the first occurrence of [pat] in [s]. *)
Fixpoint splitAtFirst (pat s : string) : option (string * string) :=
  if String.prefix pat s then Some (EmptyString, dropN (String.length pat) s)
  else match s with
       | EmptyString => None
       | String c r =>
           match splitAtFirst pat r with
           | Some (b, a) => Some (String c b, a)
           | None => None
           end
       end.

(** The replacement patterns of [String.prototype.replace] that apply to
    a string pattern: [$$], [$&], [$`] and [$']. *)
Fixpoint getSubstitution (matched before after repl : string) : string :=
  match repl with
  | EmptyString => EmptyString
  | String x t =>
      if Ascii.eqb x "$" then
        match t with
        | String c r =>
            if Ascii.eqb c "$" then
              String "$" (getSubstitution matched before after r)
            else if Ascii.eqb c "&" then
              matched +++ getSubstitution matched before after r
            else if Ascii.eqb c "`" then
              before +++ getSubstitution matched before after r
            else if Ascii.eqb c "'" then
              after +++ getSubstitution matched before after r
            else String "$" (getSubstitution matched before after t)
        | EmptyString => String "$" EmptyString
        end
      else String x (getSubstitution matched before after t)
  end.

(** [s.replace(pat, repl)] for a string pattern: the first occurrence
    only. *)
Definition replaceFirst (s pat repl : string) : string :=
  match splitAtFirst pat s with
  | Some (b, a) => b +++ getSubstitution pat b a repl +++ a
  | None => s
  end.

(** The configuration handed to the HTTP client's [request]. *)
Record AxiosRequestConfig : Type := {
  params : value;
  method : string;
  url : string;
  data : option value
}.

(** The loop over [pathParamMatches]: the URL built so far and the names
    substituted so far. *)
Definition substituteStep (args : value) (acc : string * list string)
  (matched : string) : string * list string :=
  let paramName := sliceInner matched in
  match getProp args paramName with
  | VUndef => acc
  | v => (replaceFirst (fst acc) matched (jsToString v), snd acc ++ [paramName])
  end.

Definition substitutePath (path : string) (args : value) : string * list string :=
  fold_left (substituteStep args) (pathParamMatches path) (path, []).

(** The loop that separates query parameters from path parameters.  (The
    assignment [queryParams[key] = value] is never made for the key
    [__proto__], which starts with [_].) *)
Definition isQueryKey (pathParams : list string) (key : string) : bool :=
  negb (String.eqb key "body")
  && negb (existsb (String.eqb key) pathParams)
  && negb (startsWith "_" key).

Definition collectQuery (pathParams : list string) (args : value)
  : list (string * value) :=
  fold_left
    (fun q kv => if isQueryKey pathParams (fst kv)
                 then assocSet (fst kv) (snd kv) q else q)
    (ownEntries args) [].

(** [Object.keys(queryParams).length > 0 ? queryParams : undefined] *)
Definition paramsOrUndefined (queryParams : list (string * value)) : value :=
  match queryParams with
  | [] => VUndef
  | _ => VObj queryParams
  end.

(** [handleOpenAPITool], from the operation found by [getOperationInfo]
    ([None]: not found) to the request handed to the HTTP client. *)
Definition handleOpenAPITool (operationInfo : option (string * string))
  (operationId : string) (args : value) : outcome AxiosRequestConfig :=
  match operationInfo with
  | None => Throw (PlainError ("Unknown operation: " +++ operationId))
  | Some (method, path) =>
      bodyData <- member args "body" ;;
      let '(url, pathParams) := substitutePath path args in
      let queryParams := collectQuery pathParams args in
      let params := paramsOrUndefined queryParams in
      let m := toLowerCase method in
      if String.eqb m "get" then
        Ok {| params := params; method := "GET"; url := url; data := None |}
      else if String.eqb m "post" then
        Ok {| params := params; method := "POST"; url := url;
              data := Some bodyData |}
      else if String.eqb m "put" then
        Ok {| params := params; method := "PUT"; url := url;
              data := Some bodyData |}
      else if String.eqb m "patch" then
        Ok {| params := params; method := "PATCH"; url := url;
              data := Some bodyData |}
      else if String.eqb m "delete" then
        Ok {| params := params; method := "DELETE"; url := url; data := None |}
      else Throw (PlainError ("Unsupported HTTP method: " +++ method))
  end.

(** ** What the two parser variants share *)

(** A tool descriptor. *)
Record Tool : Type := {
  name : value;
  description : string;
  inputSchema : value
}.

Definition isHttpMethod (method : string) : bool :=
  existsb (String.eqb (toLowerCase method))
    ["get"; "post"; "put"; "patch"; "delete"; "head"; "options"].

(** One round of the loop of [mergeSchemas]. *)
Definition mergeStep (acc : list (string * value) * list value) (schema : value)
  : outcome (list (string * value) * list value) :=
  p <- member schema "properties" ;;
  let props := if truthy p then objectAssign (fst acc) (ownEntries p)
               else fst acc in
  r <- member schema "required" ;;
  if truthy r then (xs <- iterate r ;; Ok (props, snd acc ++ xs))
  else Ok (props, snd acc).

Definition mergeSchemas (schemas : list value) : outcome value :=
  acc <- foldM mergeStep schemas ([], []) ;;
  let required := dedupe (snd acc) in
  Ok (VObj ([("type", VStr "object"); ("properties", VObj (fst acc))]
            ++ match required with
               | [] => []
               | _ => [("required", VArr required)]
               end)).

(** [x > 0] for the values met as a [length]: numbers and booleans
    (numeric text in a string is not parsed). *)
Definition greaterThanZero (v : value) : bool :=
  match v with
  | VNum r => negb (String.eqb r "0") && negb (startsWith "-" r)
  | VBool b => b
  | _ => false
  end.

Definition newline : string := String (ascii_of_nat 10) EmptyString.

Definition buildDescription (operation : value) (method pathTemplate : string)
  : outcome string :=
  let summary := getProp operation "summary" in
  let descr := getProp operation "description" in
  let tags := getProp operation "tags" in
  first <-
    (if truthy summary then Ok summary
     else if truthy descr then
       match descr with
       | VStr d => Ok (VStr (hd EmptyString (splitOn (ascii_of_nat 10) d)))
       | _ => Throw (TypeError "operation.description.split is not a function")
       end
     else Ok (VStr (toUpperCase method +++ " " +++ pathTemplate))) ;;
  tagPart <-
    (if truthy tags && greaterThanZero (getProp tags "length") then
       l <- asArray "operation.tags.join" tags ;;
       Ok [VStr ("[" +++ joinValues ", " l +++ "]")]
     else Ok []) ;;
  let tail :=
    if truthy descr && truthy summary && negb (strictEquals descr summary)
    then [VStr (newline +++ newline +++ jsToString descr)] else [] in
  Ok (joinValues " " ([first] ++ tagPart ++ tail)).

(** [{...schema, description: d}] *)
Definition withDescription (schema d : value) : value :=
  VObj (assocSet "description" d (ownEntries schema)).

(** The object every input-schema builder returns. *)
Definition inputSchemaObject (properties : list (string * value))
  (required : list value) : value :=
  VObj [("type", VStr "object");
        ("properties", VObj properties);
        ("required", match required with [] => VUndef | _ => VArr required end);
        ("additionalProperties", VBool false)].

(** [try { ... } catch { return null }] around the making of one tool.
    A recursion that exhausts the call stack throws a [RangeError], which
    the [catch] receives like any other error. *)
Definition catchToNull (m : outcome Tool) : outcome (option Tool) :=
  match m with
  | Ok t => Ok (Some t)
  | Throw _ => Ok None
  | OutOfFuel => Ok None
  end.

(** The [catch] of [initialize]: every error is rethrown as a
    [SchemaParseError] carrying its message.  (Nothing that [initialize]
    runs outside the [try]/[catch] of [operationToTool] recurses, so that an
    exhausted stack never reaches this [catch].) *)
Definition rethrowAsSchemaParseError {A : Type} (m : outcome A) : outcome A :=
  match m with
  | Throw e => Throw (schemaParseError (errorMessage e))
  | o => o
  end.

(** [s.startsWith('3.')] on the value of a version marker that is neither
    [null] nor [undefined]. *)
Definition startsWith3 (v : value) : outcome bool :=
  match v with
  | VStr s => Ok (startsWith "3." s)
  | _ => Throw (TypeError "startsWith is not a function")
  end.

(** The [logger.info] call of [initialize] reads [schema.info.title],
    [schema.info.version] and [Object.keys(schema.paths)]. *)
Definition logLoaded (doc : value) : outcome unit :=
  _ <- member (getProp doc "info") "title" ;;
  _ <- objectEntries (getProp doc "paths") ;;
  Ok tt.

(** ** First parser variant: one builder for both formats, in-flight
    reference set *)

Module ParserA.

Definition isSwagger2 (doc : value) : bool :=
  strictEquals (optMember doc "swagger") (VStr "2.0").

Definition isOpenAPI3 (doc : value) : outcome bool :=
  match optMember doc "openapi" with
  | VUndef | VNull => Ok false
  | v => startsWith3 v
  end.

Definition validateSchema (doc : value) : outcome unit :=
  if negb (truthy doc) then Throw (schemaParseError "Schema not loaded")
  else
    v3 <- isOpenAPI3 doc ;;
    let v2 := strictEquals (getProp doc "swagger") (VStr "2.0") in
    if negb v3 && negb v2 then
      let version :=
        orElse (getProp doc "openapi")
               (orElse (getProp doc "swagger") (VStr "unknown")) in
      Throw (schemaParseError
               ("Unsupported API spec version: " +++ jsToString version
                +++ ". Only OpenAPI 3.x and Swagger 2.0 are supported"))
    else
      let paths := getProp doc "paths" in
      if negb (truthy paths)
         || (List.length (ownEntries paths) =? 0)%nat
      then Throw (schemaParseError "No paths found in schema")
      else Ok tt.

(** The walk of [resolveRef] over the pointer's segments. *)
Fixpoint walk (current : value) (parts : list string) : value :=
  match parts with
  | [] => current
  | part :: rest =>
      let next := getProp current part in
      if truthy next then walk next rest
      else VObj [("type", VStr "object")]
  end.

Definition resolveRef (doc : value) (ref : value) : outcome value :=
  if negb (truthy doc) then
    Throw (schemaParseError "Cannot resolve $ref: schema not loaded")
  else
    match ref with
    | VStr r => Ok (walk doc (tl (splitOn "/" r)))
    | _ => Throw (TypeError "ref.split is not a function")
    end.

(** The in-flight set [visited] is one mutable [Set] shared by the whole
    resolution: a computation takes the set and returns it with its
    outcome. *)
Definition resolver (A : Type) : Type :=
  list string -> outcome A * list string.

Definition retR {A : Type} (a : A) : resolver A :=
  fun visited => (Ok a, visited).

Definition liftR {A : Type} (o : outcome A) : resolver A :=
  fun visited => (o, visited).

Definition bindR {A B : Type} (m : resolver A) (f : A -> resolver B)
  : resolver B :=
  fun visited =>
    match m visited with
    | (Ok a, visited1) => f a visited1
    | (Throw e, visited1) => (Throw e, visited1)
    | (OutOfFuel, visited1) => (OutOfFuel, visited1)
    end.

Notation "x <~ m ;; k" := (bindR m (fun x => k))
  (at level 61, m at next level, right associativity).

Fixpoint mapR {A B : Type} (f : A -> resolver B) (l : list A)
  : resolver (list B) :=
  match l with
  | [] => retR []
  | x :: r => y <~ f x ;; ys <~ mapR f r ;; retR (y :: ys)
  end.

Definition setHasRef (r : string) (visited : list string) : bool :=
  existsb (String.eqb r) visited.

Definition setAdd (r : string) (visited : list string) : list string :=
  if setHasRef r visited then visited else visited ++ [r].

Definition setDelete (r : string) (visited : list string) : list string :=
  filter (fun x => negb (String.eqb r x)) visited.

Definition circularPlaceholder (r : string) : value :=
  VObj [("type", VStr "object");
        ("description", VStr ("Circular reference to " +++ r))].

(** The body of [resolveSchema]; [self] stands for the recursive call. *)
Definition resolveSchemaBody (self : value -> resolver value)
  (doc schema : value) : resolver value :=
  if negb (truthy schema) then retR (VObj [("type", VStr "string")])
  else if truthy (getProp schema "$ref") then
    match getProp schema "$ref" with
    | VStr r =>
        fun visited =>
          if setHasRef r visited then
            (Ok (circularPlaceholder r), visited)
          else
            (resolved <~ liftR (resolveRef doc (VStr r)) ;;
             result <~ self resolved ;;
             fun visited2 => (Ok result, setDelete r visited2))
              (setAdd r visited)
    | other =>
        (* a reference that is not a string is never in the set, and
           [resolveRef] throws on it *)
        liftR (resolveRef doc other)
    end
  else if truthy (getProp schema "allOf") then
    match getProp schema "allOf" with
    | VArr l => rs <~ mapR self l ;; liftR (mergeSchemas rs)
    | _ => liftR (Throw (TypeError "schema.allOf.map is not a function"))
    end
  else if truthy (getProp schema "oneOf") || truthy (getProp schema "anyOf")
  then
    let schemas := orElse (getProp schema "oneOf") (getProp schema "anyOf") in
    self (getProp schemas "0")
  else
    let resolved := ownEntries schema in
    let properties := getProp (VObj resolved) "properties" in
    resolved1 <~
      (if truthy properties then
         kvs <~ mapR (fun kv => x <~ self (snd kv) ;; retR (fst kv, x))
                     (ownEntries properties) ;;
         retR (assocSet "properties" (VObj (fromEntries kvs)) resolved)
       else retR resolved) ;;
    let items := getProp (VObj resolved1) "items" in
    if truthy items then
      x <~ self items ;; retR (VObj (assocSet "items" x resolved1))
    else retR (VObj resolved1).

(** [resolveSchema], the recursion bounded by [fuel]. *)
Fixpoint resolveSchema (fuel : nat) (doc : value) (schema : value)
  {struct fuel} : resolver value :=
  match fuel with
  | O => liftR OutOfFuel
  | S fuel' => resolveSchemaBody (resolveSchema fuel' doc) doc schema
  end.

(** A call that passes no [visited] gets a fresh set. *)
Definition resolveSchemaTop (fuel : nat) (doc schema : value) : outcome value :=
  fst (resolveSchema fuel doc schema []).

(** The schema a Swagger 2.0 parameter without [schema] is converted to:
    the listed members, those that are [undefined] removed. *)
Definition legacyParamSchema (param : value) : value :=
  VObj (filter (fun kv => negb (strictEquals (snd kv) VUndef))
          [("type", orElse (getProp param "type") (VStr "string"));
           ("format", getProp param "format");
           ("enum", getProp param "enum");
           ("items", getProp param "items");
           ("minimum", getProp param "minimum");
           ("maximum", getProp param "maximum");
           ("minLength", getProp param "minLength");
           ("maxLength", getProp param "maxLength");
           ("pattern", getProp param "pattern")]).

(** One round of the loop over [operation.parameters]. *)
Definition paramStep (fuel : nat) (doc : value)
  (acc : list (string * value) * list value) (param : value)
  : outcome (list (string * value) * list value) :=
  loc <- (if isSwagger2 doc then member param "in" else Ok VUndef) ;;
  if isSwagger2 doc && strictEquals loc (VStr "body") then Ok acc
  else
    pschema <- member param "schema" ;;
    schema <-
      (if isSwagger2 doc then
         if truthy pschema then resolveSchemaTop fuel doc pschema
         else Ok (legacyParamSchema param)
       else
         resolveSchemaTop fuel doc
           (orElse pschema (VObj [("type", VStr "string")]))) ;;
    let pname := getProp param "name" in
    let properties :=
      assign (jsToString pname)
        (withDescription schema (getProp param "description")) (fst acc) in
    Ok (properties,
        if truthy (getProp param "required") then snd acc ++ [pname]
        else snd acc).

Definition requestBodySchema (operation : value) : value :=
  optMember (optMember (optMember (optMember operation "requestBody")
                          "content") "application/json") "schema".

Definition buildInputSchema (fuel : nat) (doc operation : value)
  : outcome value :=
  let parameters := getProp operation "parameters" in
  acc <- (if truthy parameters then
            l <- iterate parameters ;; foldM (paramStep fuel doc) l ([], [])
          else Ok ([], [])) ;;
  v3 <- isOpenAPI3 doc ;;
  acc2 <-
    (if v3 && truthy (requestBodySchema operation) then
       bodySchema <- resolveSchemaTop fuel doc (requestBodySchema operation) ;;
       Ok (assocSet "body"
             (withDescription bodySchema (VStr "Request body")) (fst acc),
           if truthy (getProp (getProp operation "requestBody") "required")
           then snd acc ++ [VStr "body"] else snd acc)
     else if isSwagger2 doc && truthy parameters then
       l <- asArray "operation.parameters.find" parameters ;;
       bodyParam <-
         findM (fun p => loc <- member p "in" ;;
                         Ok (strictEquals loc (VStr "body"))) l ;;
       if truthy bodyParam then
         bodySchema <-
           resolveSchemaTop fuel doc
             (orElse (getProp bodyParam "schema")
                     (VObj [("type", VStr "object")])) ;;
         Ok (assocSet "body"
               (withDescription bodySchema
                  (orElse (getProp bodyParam "description")
                          (VStr "Request body"))) (fst acc),
             if truthy (getProp bodyParam "required")
             then snd acc ++ [VStr "body"] else snd acc)
       else Ok acc
     else Ok acc) ;;
  Ok (inputSchemaObject (fst acc2) (snd acc2)).

Definition operationToTool (fuel : nat) (doc : value)
  (pathTemplate method : string) (operation : value) : outcome (option Tool) :=
  catchToNull
    (schema <- buildInputSchema fuel doc operation ;;
     d <- buildDescription operation method pathTemplate ;;
     Ok {| name := getProp operation "operationId";
           description := d;
           inputSchema := schema |}).

Definition isOperation (obj : value) : bool :=
  truthy obj && typeofObject obj && hasKey "operationId" obj.

(** The body of the inner loop of [generateTools]: the tools and the
    processed identifiers so far. *)
Definition methodStep (fuel : nat) (doc : value) (pathTemplate : string)
  (acc : list Tool * list value) (entry : string * value)
  : outcome (list Tool * list value) :=
  let '(method, operation) := entry in
  if negb (isHttpMethod method) then Ok acc
  else if negb (isOperation operation) then Ok acc
  else
    let operationId := getProp operation "operationId" in
    if negb (truthy operationId) || setHas operationId (snd acc) then Ok acc
    else
      tool <- operationToTool fuel doc pathTemplate method operation ;;
      match tool with
      | Some t => Ok (fst acc ++ [t], snd acc ++ [operationId])
      | None => Ok acc
      end.

Definition pathStep (fuel : nat) (doc : value)
  (acc : list Tool * list value) (entry : string * value)
  : outcome (list Tool * list value) :=
  methods <- objectEntries (snd entry) ;;
  foldM (methodStep fuel doc (fst entry)) methods acc.

Definition generateTools (fuel : nat) (doc : value) : outcome (list Tool) :=
  if negb (truthy doc) then Throw (schemaParseError "Schema not initialized")
  else
    paths <- objectEntries (getProp doc "paths") ;;
    acc <- foldM (pathStep fuel doc) paths ([], []) ;;
    Ok (fst acc).

(** [initialize], from the parsed document on. *)
Definition initialize (fuel : nat) (doc : value) : outcome (list Tool) :=
  rethrowAsSchemaParseError
    (_ <- validateSchema doc ;;
     _ <- logLoaded doc ;;
     generateTools fuel doc).

(** [getTools()] after [initialize]: the field keeps its initial empty
    list when [initialize] throws. *)
Definition getTools (fuel : nat) (doc : value) : list Tool :=
  match initialize fuel doc with
  | Ok tools => tools
  | _ => []
  end.

Fixpoint findOperation (operationId : string) (pathTemplate : string)
  (methods : list (string * value)) : option (string * string) :=
  match methods with
  | [] => None
  | (method, operation) :: r =>
      if isOperation operation
         && strictEquals (getProp operation "operationId") (VStr operationId)
      then Some (method, pathTemplate)
      else findOperation operationId pathTemplate r
  end.

Fixpoint findInPaths (operationId : string) (paths : list (string * value))
  : outcome (option (string * string)) :=
  match paths with
  | [] => Ok None
  | (pathTemplate, pathItem) :: r =>
      methods <- objectEntries pathItem ;;
      match findOperation operationId pathTemplate methods with
      | Some info => Ok (Some info)
      | None => findInPaths operationId r
      end
  end.

(** [getOperationInfo]: the method and path of the first operation with
    the identifier. *)
Definition getOperationInfo (doc : value) (operationId : string)
  : outcome (option (string * string)) :=
  if negb (truthy doc) then Ok None
  else
    paths <- objectEntries (getProp doc "paths") ;;
    findInPaths operationId paths.

End ParserA.

(** ** Second parser variant: version flag, separate v2/v3 builders,
    synthesized operation identifiers, no in-flight reference set *)

Module ParserB.

(** [k in v]: a [TypeError] unless [v] is an object. *)
Definition inOperator (k : string) (v : value) : outcome bool :=
  match v with
  | VObj _ | VArr _ => Ok (hasKey k v)
  | _ => Throw (TypeError "Cannot use 'in' operator")
  end.

(** [detectVersion]: the value it leaves in the field [isOpenAPI3]. *)
Definition detectVersion (doc : value) : outcome bool :=
  if negb (truthy doc) then Ok false
  else
    hasOpenapi <- inOperator "openapi" doc ;;
    v3 <- (if hasOpenapi then
             marker <- member (getProp doc "openapi") "startsWith" ;;
             startsWith3 (getProp doc "openapi")
           else Ok false) ;;
    if v3 then Ok true
    else
      hasSwagger <- inOperator "swagger" doc ;;
      if hasSwagger && strictEquals (getProp doc "swagger") (VStr "2.0")
      then Ok false
      else Throw (schemaParseError
                    "Unsupported API specification version. Only OpenAPI 3.x and Swagger 2.0 are supported").

Definition validateSchema (doc : value) : outcome unit :=
  if negb (truthy doc) then Throw (schemaParseError "Schema not loaded")
  else
    let paths := getProp doc "paths" in
    if negb (truthy paths) || (List.length (ownEntries paths) =? 0)%nat
    then Throw (schemaParseError "No paths found in schema")
    else Ok tt.

Definition generateOperationId (method path : string) : string :=
  let pathParts :=
    filter (fun p => negb (String.eqb p EmptyString) && negb (startsWith "{" p))
           (splitOn "/" path) in
  let camelCasePath :=
    String.concat EmptyString
      (match pathParts with
       | [] => []
       | part :: rest => part :: map capitalize rest
       end) in
  toLowerCase method +++ capitalize camelCasePath.

(** The walk of [resolveRef]; [current] may be [undefined]. *)
Fixpoint walk (ref : string) (current : value) (parts : list string)
  : outcome value :=
  match parts with
  | [] => Ok current
  | part :: rest =>
      let next := optMember current part in
      if truthy next then walk ref next rest
      else Throw (schemaParseError ("Cannot resolve $ref: " +++ ref))
  end.

Definition resolveRef (v3 : bool) (doc : value) (ref : value) : outcome value :=
  if negb (truthy doc) then
    Throw (schemaParseError "Cannot resolve $ref: schema not loaded")
  else
    match ref with
    | VStr r =>
        let parts := tl (splitOn "/" r) in
        match parts with
        | first :: rest =>
            if negb v3 && String.eqb first "definitions" then
              walk r (getProp doc "definitions") rest
            else if v3 && String.eqb first "components" then
              walk r (getProp doc "components") rest
            else walk r doc parts
        | [] => walk r doc parts
        end
    | _ => Throw (TypeError "ref.split is not a function")
    end.

(** The body of [resolveSchema]; [self] stands for the recursive call. *)
Definition resolveSchemaBody (self : value -> outcome value)
  (v3 : bool) (doc schema : value) : outcome value :=
  if negb (truthy schema) then Ok (VObj [("type", VStr "string")])
  else if truthy (getProp schema "$ref") then
    resolved <- resolveRef v3 doc (getProp schema "$ref") ;;
    self resolved
  else if truthy (getProp schema "allOf") then
    l <- asArray "schema.allOf.map" (getProp schema "allOf") ;;
    rs <- mapM self l ;;
    mergeSchemas rs
  else if truthy (getProp schema "oneOf") || truthy (getProp schema "anyOf")
  then
    let schemas := orElse (getProp schema "oneOf") (getProp schema "anyOf") in
    self (getProp schemas "0")
  else
    let resolved := ownEntries schema in
    let properties := getProp (VObj resolved) "properties" in
    resolved1 <-
      (if truthy properties then
         kvs <- mapM (fun kv => x <- self (snd kv) ;; Ok (fst kv, x))
                     (ownEntries properties) ;;
         Ok (assocSet "properties" (VObj (fromEntries kvs)) resolved)
       else Ok resolved) ;;
    let items := getProp (VObj resolved1) "items" in
    if truthy items then
      x <- self items ;; Ok (VObj (assocSet "items" x resolved1))
    else Ok (VObj resolved1).

(** [resolveSchema], the recursion bounded by [fuel]. *)
Fixpoint resolveSchema (fuel : nat) (v3 : bool) (doc : value) (schema : value)
  {struct fuel} : outcome value :=
  match fuel with
  | O => OutOfFuel
  | S fuel' => resolveSchemaBody (resolveSchema fuel' v3 doc) v3 doc schema
  end.

Definition requestBodySchema (operation : value) : value :=
  optMember (optMember (optMember (optMember operation "requestBody")
                          "content") "application/json") "schema".

(** One round of the parameter loop of [buildInputSchemaV3]. *)
Definition paramStepV3 (fuel : nat) (v3 : bool) (doc : value)
  (acc : list (string * value) * list value) (param : value)
  : outcome (list (string * value) * list value) :=
  pschema <- member param "schema" ;;
  schema <- resolveSchema fuel v3 doc
              (orElse pschema (VObj [("type", VStr "string")])) ;;
  let pname := getProp param "name" in
  Ok (assign (jsToString pname)
        (withDescription schema (getProp param "description")) (fst acc),
      if truthy (getProp param "required") then snd acc ++ [pname]
      else snd acc).

Definition buildInputSchemaV3 (fuel : nat) (v3 : bool) (doc operation : value)
  : outcome value :=
  let parameters := getProp operation "parameters" in
  acc <- (if truthy parameters then
            l <- iterate parameters ;;
            foldM (paramStepV3 fuel v3 doc) l ([], [])
          else Ok ([], [])) ;;
  acc2 <-
    (if truthy (requestBodySchema operation) then
       bodySchema <- resolveSchema fuel v3 doc (requestBodySchema operation) ;;
       Ok (assocSet "body"
             (withDescription bodySchema (VStr "Request body")) (fst acc),
           if truthy (getProp (getProp operation "requestBody") "required")
           then snd acc ++ [VStr "body"] else snd acc)
     else Ok acc) ;;
  Ok (inputSchemaObject (fst acc2) (snd acc2)).

Definition convertSwaggerParamToSchema (param : value) : value :=
  let ptype := getProp param "type" in
  let items := getProp param "items" in
  let s1 := if truthy ptype then [("type", ptype)] else [] in
  let s2 := if truthy items then assocSet "items" items s1 else s1 in
  let s3 := if strictEquals ptype (VStr "integer")
            then assocSet "type" (VStr "number") s2 else s2 in
  VObj s3.

(** One round of the parameter loop of [buildInputSchemaV2]. *)
Definition paramStepV2 (fuel : nat) (v3 : bool) (doc : value)
  (acc : list (string * value) * list value) (param : value)
  : outcome (list (string * value) * list value) :=
  loc <- member param "in" ;;
  if strictEquals loc (VStr "body") then
    bodySchema <- resolveSchema fuel v3 doc
                    (orElse (getProp param "schema")
                            (VObj [("type", VStr "object")])) ;;
    Ok (assocSet "body"
          (withDescription bodySchema
             (orElse (getProp param "description") (VStr "Request body")))
          (fst acc),
        if truthy (getProp param "required") then snd acc ++ [VStr "body"]
        else snd acc)
  else
    let schema := convertSwaggerParamToSchema param in
    let pname := getProp param "name" in
    Ok (assign (jsToString pname)
          (withDescription schema (getProp param "description")) (fst acc),
        if truthy (getProp param "required") then snd acc ++ [pname]
        else snd acc).

Definition buildInputSchemaV2 (fuel : nat) (v3 : bool) (doc operation : value)
  : outcome value :=
  let parameters := getProp operation "parameters" in
  acc <- (if truthy parameters then
            l <- iterate parameters ;;
            foldM (paramStepV2 fuel v3 doc) l ([], [])
          else Ok ([], [])) ;;
  Ok (inputSchemaObject (fst acc) (snd acc)).

Definition operationToTool (fuel : nat) (v3 : bool) (doc : value)
  (pathTemplate method : string) (operation : value) : outcome (option Tool) :=
  catchToNull
    (schema <- (if v3 then buildInputSchemaV3 fuel v3 doc operation
                else buildInputSchemaV2 fuel v3 doc operation) ;;
     d <- buildDescription operation method pathTemplate ;;
     Ok {| name := getProp operation "operationId";
           description := d;
           inputSchema := schema |}).

Definition isOperation (obj : value) : bool :=
  truthy obj && typeofObject obj
  && (hasKey "operationId" obj || hasKey "summary" obj
      || hasKey "description" obj || hasKey "parameters" obj
      || hasKey "responses" obj).

(** [operation.operationId || this.generateOperationId(method, path)] *)
Definition operationIdOf (method pathTemplate : string) (operation : value)
  : value :=
  orElse (getProp operation "operationId")
         (VStr (generateOperationId method pathTemplate)).

Definition methodStep (fuel : nat) (v3 : bool) (doc : value)
  (pathTemplate : string) (acc : list Tool * list value)
  (entry : string * value) : outcome (list Tool * list value) :=
  let '(method, operation) := entry in
  if negb (isHttpMethod method) then Ok acc
  else if negb (isOperation operation) then Ok acc
  else
    let operationId := operationIdOf method pathTemplate operation in
    if setHas operationId (snd acc) then Ok acc
    else
      tool <- operationToTool fuel v3 doc pathTemplate method
                (VObj (assocSet "operationId" operationId
                         (ownEntries operation))) ;;
      match tool with
      | Some t => Ok (fst acc ++ [t], snd acc ++ [operationId])
      | None => Ok acc
      end.

Definition pathStep (fuel : nat) (v3 : bool) (doc : value)
  (acc : list Tool * list value) (entry : string * value)
  : outcome (list Tool * list value) :=
  methods <- objectEntries (snd entry) ;;
  foldM (methodStep fuel v3 doc (fst entry)) methods acc.

Definition generateTools (fuel : nat) (v3 : bool) (doc : value)
  : outcome (list Tool) :=
  if negb (truthy doc) then Throw (schemaParseError "Schema not initialized")
  else
    paths <- objectEntries (getProp doc "paths") ;;
    acc <- foldM (pathStep fuel v3 doc) paths ([], []) ;;
    Ok (fst acc).

Definition initialize (fuel : nat) (doc : value) : outcome (list Tool) :=
  rethrowAsSchemaParseError
    (v3 <- detectVersion doc ;;
     _ <- validateSchema doc ;;
     _ <- logLoaded doc ;;
     generateTools fuel v3 doc).

Definition getTools (fuel : nat) (doc : value) : list Tool :=
  match initialize fuel doc with
  | Ok tools => tools
  | _ => []
  end.

Fixpoint findOperation (operationId : string) (pathTemplate : string)
  (methods : list (string * value)) : option (string * string) :=
  match methods with
  | [] => None
  | (method, operation) :: r =>
      if isOperation operation
         && strictEquals (operationIdOf method pathTemplate operation)
                         (VStr operationId)
      then Some (method, pathTemplate)
      else findOperation operationId pathTemplate r
  end.

Fixpoint findInPaths (operationId : string) (paths : list (string * value))
  : outcome (option (string * string)) :=
  match paths with
  | [] => Ok None
  | (pathTemplate, pathItem) :: r =>
      methods <- objectEntries pathItem ;;
      match findOperation operationId pathTemplate methods with
      | Some info => Ok (Some info)
      | None => findInPaths operationId r
      end
  end.

Definition getOperationInfo (doc : value) (operationId : string)
  : outcome (option (string * string)) :=
  if negb (truthy doc) then Ok None
  else
    paths <- objectEntries (getProp doc "paths") ;;
    findInPaths operationId paths.

Definition getSchemaVersion (doc : value) : outcome string :=
  if negb (truthy doc) then Ok "unknown"
  else
    hasOpenapi <- inOperator "openapi" doc ;;
    if hasOpenapi then Ok ("OpenAPI " +++ jsToString (getProp doc "openapi"))
    else
      hasSwagger <- inOperator "swagger" doc ;;
      if hasSwagger then Ok ("Swagger " +++ jsToString (getProp doc "swagger"))
      else Ok "unknown".

End ParserB.

(** ** The HTTP client and its retry strategy *)

Module Client.

(** What the HTTP library hands back for a request that got an answer
    ([validateStatus] accepts every status): the fields the client reads. *)
Record Response : Type := {
  status : nat;
  statusText : string;
  data : value;
  requestUrl : string
}.

(** The values thrown inside [request], by class.  [AxiosError] is the
    error of the HTTP library (no answer, or a timeout), [OtherError] any
    other instance of [Error], [NotAnError] a thrown value that is no
    [Error]. *)
Inductive thrown : Type :=
| TimeoutError (message : string)
| ArgoAPIError (message : string) (statusCode : nat)
| AuthenticationError (message : string)
| AxiosError (code : option string) (message : string)
             (response : option Response) (timeout : option nat)
| OtherError (message : string)
| NotAnError (v : value).

Inductive result (T : Type) : Type :=
| Returned (t : T)
| Raised (e : thrown).

Arguments Returned {T} t.
Arguments Raised {T} e.

(** The options of [RetryStrategy] that decide whether an attempt is
    repeated.  (The delay options only enter [calculateDelay], whose
    floating-point and random result is the argument of [sleep] and is not
    modelled.) *)
Record RetryOptions : Type := {
  maxAttempts : nat;
  retryableStatuses : option (list nat)
}.

(** The set the constructor builds from
    [options.retryableStatuses || [408, 429, 500, 502, 503, 504]]. *)
Definition statuses (options : RetryOptions) : list nat :=
  match retryableStatuses options with
  | Some l => l
  | None => [408; 429; 500; 502; 503; 504]
  end.

Definition networkErrors : list string :=
  ["ECONNREFUSED"; "ECONNRESET"; "ETIMEDOUT"; "ENOTFOUND"; "ENETUNREACH";
   "EAI_AGAIN"].

Definition shouldRetry (options : RetryOptions) (error : thrown) (attempt : nat)
  : bool :=
  if (maxAttempts options <=? attempt)%nat then false
  else
    match error with
    | TimeoutError _ => true
    | ArgoAPIError _ statusCode => existsb (Nat.eqb statusCode) (statuses options)
    | AuthenticationError message | AxiosError _ message _ _
    | OtherError message =>
        existsb (fun code => occurs code message) networkErrors
    | NotAnError _ => false
    end.

(** What [execute] does besides computing its result: calls of [fn] and
    sleeps, each tagged with the attempt it belongs to. *)
Inductive event : Type :=
| Attempt (n : nat)
| Sleep (n : nat).

(** [lastError || new Error('Max retry attempts reached')] *)
Definition lastErrorOr (lastError : option thrown) : thrown :=
  match lastError with
  | None => OtherError "Max retry attempts reached"
  | Some (NotAnError v) =>
      if truthy v then NotAnError v
      else OtherError "Max retry attempts reached"
  | Some e => e
  end.

(** [lastError.message].  Both branches of the [catch] block read it for
    their log entry, before the error is thrown again or the sleep starts;
    a thrown [null] or [undefined] has no members, and the read throws a
    [TypeError] that leaves [execute] in place of the value. *)
Definition noMessage (error : thrown) : bool :=
  match error with
  | NotAnError VUndef | NotAnError VNull => true
  | _ => false
  end.

Definition messageTypeError (error : thrown) : thrown :=
  OtherError
    ("Cannot read properties of "
     +++ match error with
         | NotAnError VNull => "null"
         | _ => "undefined"
         end
     +++ " (reading 'message')").

(** What leaves [execute] when the attempt that threw [error] is not
    repeated. *)
Definition rethrown (error : thrown) : thrown :=
  if noMessage error then messageTypeError error else error.

(** The loop of [execute] from attempt [attempt] on, [remaining] rounds
    before the loop condition fails.  [fn n] is the outcome of the call of
    [fn] made in attempt [n]. *)
Fixpoint executeFrom {T : Type} (options : RetryOptions)
  (fn : nat -> result T) (remaining attempt : nat) (lastError : option thrown)
  : result T * list event :=
  match remaining with
  | O => (Raised (lastErrorOr lastError), [])
  | S remaining' =>
      match fn attempt with
      | Returned t => (Returned t, [Attempt attempt])
      | Raised error =>
          if negb (shouldRetry options error attempt) then
            (Raised (rethrown error), [Attempt attempt])
          else if noMessage error then
            (Raised (messageTypeError error), [Attempt attempt])
          else
            let '(r, events) :=
              executeFrom options fn remaining' (S attempt) (Some error) in
            (r, Attempt attempt :: Sleep attempt :: events)
      end
  end.

Definition execute {T : Type} (options : RetryOptions) (fn : nat -> result T)
  : result T * list event :=
  executeFrom options fn (maxAttempts options) 1 None.

Definition handleAPIError (response : Response) : thrown :=
  if (status response =? 401)%nat then
    AuthenticationError "Invalid or expired token"
  else if (status response =? 403)%nat then
    AuthenticationError "Insufficient permissions"
  else if (status response =? 404)%nat then
    ArgoAPIError ("Resource not found: " +++ requestUrl response)
                 (status response)
  else if (status response =? 429)%nat then
    ArgoAPIError "Rate limit exceeded" (status response)
  else
    ArgoAPIError
      (jsToString
         (orElse (optMember (data response) "message")
                 (orElse (VStr (statusText response))
                         (VStr "API request failed"))))
      (status response).

Definition transformError (error : thrown) : thrown :=
  match error with
  | AxiosError code message response timeout =>
      if match code with
         | Some c => String.eqb c "ECONNABORTED"
         | None => false
         end
      then
        TimeoutError
          ("Operation 'API request' timed out after "
           +++ natToString (match timeout with Some t => t | None => 0 end)
           +++ "ms")
      else
        match response with
        | Some r => handleAPIError r
        | None =>
            ArgoAPIError
              (if String.eqb message EmptyString then "Unknown API error"
               else message) 0
        end
  | NotAnError v => OtherError (jsToString v)
  | e => e
  end.

(** The function [request] hands to [execute]; [send n] is the outcome of
    the HTTP call made in attempt [n]. *)
Definition attemptRequest (send : nat -> result Response) (attempt : nat)
  : result Response :=
  match send attempt with
  | Returned r =>
      if (400 <=? status r)%nat then Raised (handleAPIError r) else Returned r
  | Raised e => Raised e
  end.

Definition request (options : RetryOptions) (send : nat -> result Response)
  : result value * list event :=
  let '(r, events) := execute options (attemptRequest send) in
  (match r with
   | Returned response => Returned (data response)
   | Raised e => Raised (transformError e)
   end, events).

End Client.

(** ** The workflow service: listing and paging *)

Module WorkflowService.

(** [ListWorkflowsOptions].  An absent option is [VUndef].  The page size
    [limit] is a number, here a natural number; the other options are passed
    on or tested for truthiness only and are kept as values. *)
Record ListWorkflowsOptions : Type := {
  namespace : value;
  labelSelector : value;
  fieldSelector : value;
  limit : option nat;
  continue : value;
  offset : value;
  phase : value;
  createdAfter : value;
  createdBefore : value;
  startedAfter : value;
  startedBefore : value;
  finishedAfter : value;
  finishedBefore : value;
  name : value;
  namePrefix : value;
  status : value;
  sortBy : value;
  sortOrder : value;
  includeCompleted : value;
  resourceVersion : value
}.

(** [{}]: no option given. *)
Definition noOptions : ListWorkflowsOptions :=
  {| namespace := VUndef; labelSelector := VUndef; fieldSelector := VUndef;
     limit := None; continue := VUndef; offset := VUndef; phase := VUndef;
     createdAfter := VUndef; createdBefore := VUndef; startedAfter := VUndef;
     startedBefore := VUndef; finishedAfter := VUndef;
     finishedBefore := VUndef; name := VUndef; namePrefix := VUndef;
     status := VUndef; sortBy := VUndef; sortOrder := VUndef;
     includeCompleted := VUndef; resourceVersion := VUndef |}.

(** [formatDate]: a string is returned as it is; on any other value the
    call of [toISOString] fails (a [Date] object is no JSON value). *)
Definition formatDate (date : value) : outcome value :=
  match date with
  | VStr _ => Ok date
  | _ => Throw (TypeError "date.toISOString is not a function")
  end.

(** [if (v) params[k] = v] and [if (v !== undefined) params[k] = v]. *)
Definition setIfTruthy (k : string) (v : value)
  (params : list (string * value)) : list (string * value) :=
  if truthy v then assocSet k v params else params.

Definition setIfDefined (k : string) (v : value)
  (params : list (string * value)) : list (string * value) :=
  match v with
  | VUndef => params
  | _ => assocSet k v params
  end.

Definition setDate (k : string) (date : value)
  (params : list (string * value)) : outcome (list (string * value)) :=
  if truthy date then d <- formatDate date ;; Ok (assocSet k d params)
  else Ok params.

(** The clauses pushed to [fieldSelectors], in order. *)
Definition fieldSelectors (options : ListWorkflowsOptions) : list string :=
  (if truthy (fieldSelector options) then [jsToString (fieldSelector options)]
   else [])
  ++ (if truthy (phase options) then
        ["status.phase in ("
         +++ joinValues ","
               (match phase options with
                | VArr l => l
                | p => [p]
                end)
         +++ ")"]
      else [])
  ++ (if truthy (name options)
      then ["metadata.name=" +++ jsToString (name options)] else [])
  ++ (if truthy (namePrefix options)
      then ["metadata.name=" +++ jsToString (namePrefix options) +++ "*"]
      else [])
  ++ (if truthy (status options)
      then ["status.phase=" +++ jsToString (status options)] else []).

Definition sortFields : list (string * value) :=
  [("name", VStr "metadata.name");
   ("creationTimestamp", VStr "metadata.creationTimestamp");
   ("startedAt", VStr "status.startedAt");
   ("finishedAt", VStr "status.finishedAt");
   ("phase", VStr "status.phase")].

Definition sortParameter (options : ListWorkflowsOptions) : string :=
  let sortField :=
    orElse (getProp (VObj sortFields) (jsToString (sortBy options)))
           (sortBy options) in
  let order := orElse (sortOrder options) (VStr "desc") in
  (if strictEquals order (VStr "asc") then EmptyString else "-")
  +++ jsToString sortField.

(** The query parameters [listWorkflows] builds. *)
Definition listParameters (options : ListWorkflowsOptions)
  : outcome (list (string * value)) :=
  let p1 :=
    [("limit",
      VNum (natToString (match limit options with
                         | Some l => Nat.min l 1000
                         | None => 100
                         end)))] in
  let p2 := setIfTruthy "continue" (continue options) p1 in
  let p3 := setIfDefined "offset" (offset options) p2 in
  let p4 := setIfTruthy "labelSelector" (labelSelector options) p3 in
  let p5 :=
    match fieldSelectors options with
    | [] => p4
    | clauses => assocSet "fieldSelector" (VStr (joinWith "," clauses)) p4
    end in
  p6 <- setDate "createdAfter" (createdAfter options) p5 ;;
  p7 <- setDate "createdBefore" (createdBefore options) p6 ;;
  p8 <- setDate "startedAfter" (startedAfter options) p7 ;;
  p9 <- setDate "startedBefore" (startedBefore options) p8 ;;
  p10 <- setDate "finishedAfter" (finishedAfter options) p9 ;;
  p11 <- setDate "finishedBefore" (finishedBefore options) p10 ;;
  let p12 :=
    if truthy (sortBy options)
    then assocSet "sort" (VStr (sortParameter options)) p11 else p11 in
  let p13 := setIfDefined "includeCompleted" (includeCompleted options) p12 in
  Ok (setIfTruthy "resourceVersion" (resourceVersion options) p13).

(** The request [listWorkflows] hands to the client's [get];
    [defaultNamespace] is [config.ARGO_NAMESPACE]. *)
Definition listRequest (defaultNamespace : string)
  (options : ListWorkflowsOptions) : outcome AxiosRequestConfig :=
  params <- listParameters options ;;
  Ok {| params := VObj params;
        method := "GET";
        url := "/api/v1/workflows/"
               +++ jsToString (orElse (namespace options)
                                      (VStr defaultNamespace));
        data := None |}.

(** One workflow of the answer, in summary format. *)
Definition summarize (workflow : value) : outcome value :=
  metadata <- member workflow "metadata" ;;
  wname <- member metadata "name" ;;
  let wstatus := getProp workflow "status" in
  Ok (VObj [("metadata",
             VObj [("name", wname);
                   ("namespace", getProp metadata "namespace");
                   ("creationTimestamp", getProp metadata "creationTimestamp");
                   ("labels", getProp metadata "labels")]);
            ("status",
             VObj [("phase",
                    orElse (optMember wstatus "phase") (VStr "Unknown"));
                   ("startedAt", optMember wstatus "startedAt");
                   ("finishedAt", optMember wstatus "finishedAt");
                   ("message", optMember wstatus "message");
                   ("progress", optMember wstatus "progress")])]).

(** What [listWorkflows] returns for the client's answer. *)
Definition listResult (response : value) : outcome value :=
  items0 <- member response "items" ;;
  items <-
    match items0 with
    | VUndef | VNull => Ok (VArr [])
    | VArr l => summaries <- mapM summarize l ;; Ok (VArr summaries)
    | _ => Throw (TypeError "response.items.map is not a function")
    end ;;
  let metadata := getProp response "metadata" in
  Ok (VObj [("items", items);
            ("metadata",
             VObj [("continue", optMember metadata "continue");
                   ("remainingItemCount",
                    optMember metadata "remainingItemCount");
                   ("totalCount", optMember metadata "totalCount");
                   ("resourceVersion",
                    optMember metadata "resourceVersion")])]).

(** [listWorkflows]; [get] stands for the client's [get] at this call. *)
Definition listWorkflows (get : AxiosRequestConfig -> outcome value)
  (defaultNamespace : string) (options : ListWorkflowsOptions)
  : outcome value :=
  request <- listRequest defaultNamespace options ;;
  response <- get request ;;
  listResult response.

(** [{...options, limit: pageSize, continue: continueToken}] *)
Definition pageOptions (options : ListWorkflowsOptions) (pageSize : nat)
  (continueToken : value) : ListWorkflowsOptions :=
  {| namespace := namespace options;
     labelSelector := labelSelector options;
     fieldSelector := fieldSelector options;
     limit := Some pageSize;
     continue := continueToken;
     offset := offset options;
     phase := phase options;
     createdAfter := createdAfter options;
     createdBefore := createdBefore options;
     startedAfter := startedAfter options;
     startedBefore := startedBefore options;
     finishedAfter := finishedAfter options;
     finishedBefore := finishedBefore options;
     name := name options;
     namePrefix := namePrefix options;
     status := status options;
     sortBy := sortBy options;
     sortOrder := sortOrder options;
     includeCompleted := includeCompleted options;
     resourceVersion := resourceVersion options |}.

(** How a run of the generator [paginateWorkflows] ends: the loop is
    left, the consumer stops asking, or a page fails. *)
Inductive ending : Type :=
| Finished
| Suspended
| Failed (e : error).

(** A run of the generator: the pages yielded, the requests handed to the
    client, and how the run ends. *)
Record run : Type := {
  pages : list value;
  requests : list AxiosRequestConfig;
  ended : ending
}.

Definition yielded (page : value) (request : AxiosRequestConfig) (r : run)
  : run :=
  {| pages := page :: pages r;
     requests := request :: requests r;
     ended := ended r |}.

(** The generator [paginateWorkflows] asked for at most [pulls] pages, from
    the round that sends [continueToken] on.  [get n] is the client's [get]
    at its [n]-th call.  A round makes one request and yields one page; the
    token of the page is looked at when the consumer asks again. *)
Fixpoint paginateFrom (pulls : nat)
  (get : nat -> AxiosRequestConfig -> outcome value)
  (defaultNamespace : string) (options : ListWorkflowsOptions)
  (pageSize : nat) (call : nat) (continueToken : value) : run :=
  match pulls with
  | O => {| pages := []; requests := []; ended := Suspended |}
  | S pulls' =>
      match listRequest defaultNamespace
              (pageOptions options pageSize continueToken) with
      | Ok request =>
          match (response <- get call request ;; listResult response) with
          | Ok result =>
              let token := getProp (getProp result "metadata") "continue" in
              yielded (getProp result "items") request
                match pulls' with
                | O => {| pages := []; requests := []; ended := Suspended |}
                | S _ =>
                    if truthy token then
                      paginateFrom pulls' get defaultNamespace options
                        pageSize (S call) token
                    else {| pages := []; requests := []; ended := Finished |}
                end
          | Throw e =>
              {| pages := []; requests := [request]; ended := Failed e |}
          | OutOfFuel =>
              {| pages := []; requests := [request]; ended := Suspended |}
          end
      | Throw e => {| pages := []; requests := []; ended := Failed e |}
      | OutOfFuel => {| pages := []; requests := []; ended := Suspended |}
      end
  end.

Definition paginateWorkflows (pulls : nat)
  (get : nat -> AxiosRequestConfig -> outcome value)
  (defaultNamespace : string) (options : ListWorkflowsOptions)
  (pageSize : nat) : run :=
  paginateFrom pulls get defaultNamespace options pageSize 1 VUndef.

(** [getWorkflowsByLabel], up to the request handed to the client. *)
Definition labelSelectorOf (labels : value) : outcome string :=
  entries <- objectEntries labels ;;
  Ok (joinWith ","
        (map (fun kv => fst kv +++ "=" +++ jsToString (snd kv)) entries)).

Definition getWorkflowsByLabelRequest (defaultNamespace : string)
  (labels ns : value) (l : nat) : outcome AxiosRequestConfig :=
  selector <- labelSelectorOf labels ;;
  listRequest defaultNamespace
    {| namespace := ns; labelSelector := VStr selector;
       fieldSelector := VUndef; limit := Some l; continue := VUndef;
       offset := VUndef; phase := VUndef; createdAfter := VUndef;
       createdBefore := VUndef; startedAfter := VUndef;
       startedBefore := VUndef; finishedAfter := VUndef;
       finishedBefore := VUndef; name := VUndef; namePrefix := VUndef;
       status := VUndef; sortBy := VUndef; sortOrder := VUndef;
       includeCompleted := VUndef; resourceVersion := VUndef |}.

End WorkflowService.

(** * Definitions used by the statements *)

(** [noChar c s]: the character [c] does not occur in [s]. *)
Fixpoint noChar (c : ascii) (s : string) : bool :=
  match s with
  | EmptyString => true
  | String x r => negb (Ascii.eqb x c) && noChar c r
  end.

(** The methods whose client call takes a payload. *)
Definition carriesPayload (method : string) : bool :=
  existsb (String.eqb (toLowerCase method)) ["post"; "put"; "patch"].

(** The methods [handleOpenAPITool] dispatches. *)
Definition dispatchable (method : string) : bool :=
  existsb (String.eqb (toLowerCase method))
    ["get"; "post"; "put"; "patch"; "delete"].

(** The reading of the merge in the specification's words: the
    [properties] dictionary and the [required] list of a branch, the union of
    the dictionaries in which a later branch overwrites an earlier one, and
    the branches the statement is about (objects whose [properties], when
    present, is an object with each key once and whose [required], when
    present, is a list of names). *)
Definition propertiesOf (branch : value) : list (string * value) :=
  match getProp branch "properties" with
  | VObj ps => ps
  | _ => []
  end.

Definition requiredOf (branch : value) : list value :=
  match getProp branch "required" with
  | VArr l => l
  | _ => []
  end.

Fixpoint unionLaterWins (k : string) (branches : list value) : option value :=
  match branches with
  | [] => None
  | b :: r =>
      match unionLaterWins k r with
      | Some v => Some v
      | None => lookup k (propertiesOf b)
      end
  end.

Fixpoint uniqueKeys (m : list (string * value)) : bool :=
  match m with
  | [] => true
  | (k, _) :: r => negb (existsb (fun kv => String.eqb k (fst kv)) r) && uniqueKeys r
  end.

Definition isName (v : value) : bool :=
  match v with
  | VStr _ => true
  | _ => false
  end.

Definition branchShaped (branch : value) : bool :=
  match branch with
  | VObj _ =>
      match getProp branch "properties" with
      | VUndef => true
      | VObj ps => uniqueKeys ps
      | _ => false
      end
      && match getProp branch "required" with
         | VUndef => true
         | VArr l => forallb isName l
         | _ => false
         end
  | _ => false
  end.

(** The two conditions on a schema document: a version marker ([openapi]
    beginning with [3.], or [swagger] equal to [2.0]) and a [paths] member
    with at least one key. *)
Definition versionMarker (doc : value) : bool :=
  match getProp doc "openapi" with
  | VStr s => startsWith "3." s
  | _ => false
  end
  || strictEquals (getProp doc "swagger") (VStr "2.0").

Definition nonEmptyPaths (doc : value) : bool :=
  truthy (getProp doc "paths")
  && negb (List.length (ownEntries (getProp doc "paths")) =? 0)%nat.

(** A Swagger 2.0 document with one operation and a self-referential
    definition [A] ([A.field] refers to [A]). *)
Definition selfRefDoc : value :=
  VObj [("swagger", VStr "2.0");
        ("info", VObj [("title", VStr "Demo"); ("version", VStr "1")]);
        ("paths",
         VObj [("/items",
                VObj [("get", VObj [("operationId", VStr "listItems")])])]);
        ("definitions",
         VObj [("A",
                VObj [("type", VStr "object");
                      ("properties",
                       VObj [("field",
                              VObj [("$ref", VStr "#/definitions/A")])])])])].

(** A document without version marker and without paths. *)
Definition unmarkedDoc : value :=
  VObj [("info", VObj [("title", VStr "Demo"); ("version", VStr "1")])].

(** [restores m]: a computation that returns leaves the in-flight set as it
    found it.  [refines m m']: whatever [m] computes without running out of
    fuel, [m'] computes too. *)
Definition restores {A : Type} (m : ParserA.resolver A) : Prop :=
  forall visited a visited', m visited = (Ok a, visited') -> visited' = visited.

Definition refines {A : Type} (m m' : ParserA.resolver A) : Prop :=
  forall visited o visited',
    m visited = (o, visited') -> o <> OutOfFuel -> m' visited = (o, visited').

Definition refinesO {A : Type} (m m' : outcome A) : Prop :=
  m <> OutOfFuel -> m' = m.

(** The reference to the definition [A] of [selfRefDoc], and [A] itself. *)
Definition refToA : value := VObj [("$ref", VStr "#/definitions/A")].

Definition definitionA : value :=
  VObj [("type", VStr "object");
        ("properties", VObj [("field", refToA)])].

(** The walk in the specification's words: segment by segment from a root,
    failing when a segment is absent (or leads to a falsy value). *)
Fixpoint pointerWalk (root : value) (segments : list string) : option value :=
  match segments with
  | [] => Some root
  | seg :: rest =>
      let next := optMember root seg in
      if truthy next then pointerWalk next rest else None
  end.

(** The segments of a pointer: what follows the leading fragment marker. *)
Definition pointerSegments (ref : string) : list string :=
  tl (splitOn "/" ref).

Definition resolutionError (ref : string) : error :=
  schemaParseError ("Cannot resolve $ref: " +++ ref).

(** The path segments that enter a synthesized name: not empty, not a
    path parameter. *)
Definition keptSegment (p : string) : bool :=
  negb (String.eqb p EmptyString) && negb (startsWith "{" p).

(** An OpenAPI 3.x document whose only operation declares no identifier. *)
Definition unnamedOperationDoc : value :=
  VObj [("openapi", VStr "3.0.0");
        ("info", VObj [("title", VStr "Demo"); ("version", VStr "1")]);
        ("paths",
         VObj [("/workflows/{ns}/{name}",
                VObj [("get", VObj [("summary", VStr "Get a workflow")])])])].

(** The loop of [generateTools] over the operations of a document, seen
    from outside: a candidate is one (path, method, operation) entry in
    iteration order; it is eligible when it passes the guards of the loop,
    has an identifier, and is compiled by [operationToTool]. *)
Definition candidate : Type := string * string * value.

Fixpoint operations (paths : list (string * value)) : outcome (list candidate) :=
  match paths with
  | [] => Ok []
  | (pathTemplate, pathItem) :: r =>
      methods <- objectEntries pathItem ;;
      rest <- operations r ;;
      Ok (map (fun e => (pathTemplate, fst e, snd e)) methods ++ rest)
  end.

Definition documentOperations (doc : value) : outcome (list candidate) :=
  paths <- objectEntries (getProp doc "paths") ;; operations paths.

Definition firstWinsStep (eligible : candidate -> bool)
  (ident : candidate -> value) (compile : candidate -> outcome (option Tool))
  (acc : list Tool * list value) (c : candidate)
  : outcome (list Tool * list value) :=
  if negb (eligible c) then Ok acc
  else if setHas (ident c) (snd acc) then Ok acc
  else
    tool <- compile c ;;
    match tool with
    | Some t => Ok (fst acc ++ [t], snd acc ++ [ident c])
    | None => Ok acc
    end.

Definition eligibleA (c : candidate) : bool :=
  let '(_, method, operation) := c in
  isHttpMethod method && ParserA.isOperation operation
  && truthy (getProp operation "operationId").

Definition identA (c : candidate) : value :=
  getProp (snd c) "operationId".

Definition compileA (fuel : nat) (doc : value) (c : candidate)
  : outcome (option Tool) :=
  let '(pathTemplate, method, operation) := c in
  ParserA.operationToTool fuel doc pathTemplate method operation.

Definition eligibleB (c : candidate) : bool :=
  let '(_, method, operation) := c in
  isHttpMethod method && ParserB.isOperation operation.

Definition identB (c : candidate) : value :=
  let '(pathTemplate, method, operation) := c in
  ParserB.operationIdOf method pathTemplate operation.

Definition compileB (fuel : nat) (v3 : bool) (doc : value) (c : candidate)
  : outcome (option Tool) :=
  let '(pathTemplate, method, operation) := c in
  ParserB.operationToTool fuel v3 doc pathTemplate method
    (VObj (assocSet "operationId"
             (ParserB.operationIdOf method pathTemplate operation)
             (ownEntries operation))).

(** Names that are pairwise different for the equality of the processed
    set. *)
Definition distinctNames (names : list value) : Prop :=
  ForallOrdPairs (fun a b => strictEquals a b = false) names.

(** What the loop guarantees for a tool list made from the candidates. *)
Definition firstCompiledWins (eligible : candidate -> bool)
  (ident : candidate -> value) (compile : candidate -> outcome (option Tool))
  (cands : list candidate) (tools : list Tool) : Prop :=
  distinctNames (map name tools)
  /\ (forall t, In t tools ->
        exists pre c post,
          cands = pre ++ c :: post
          /\ eligible c = true /\ compile c = Ok (Some t) /\ name t = ident c
          /\ forall c', In c' pre -> eligible c' = true ->
                        strictEquals (ident c) (ident c') = true ->
                        compile c' = Ok None)
  /\ (forall c t, In c cands -> eligible c = true -> compile c = Ok (Some t) ->
        In t tools
        \/ exists t', In t' tools /\ strictEquals (ident c) (name t') = true).

(** A Swagger 2.0 document in which two operations carry the identifier
    [foo]; the first refers to a definition that does not exist. *)
Definition danglingOperation : value :=
  VObj [("operationId", VStr "foo");
        ("parameters",
         VArr [VObj [("name", VStr "payload"); ("in", VStr "body");
                     ("schema",
                      VObj [("$ref", VStr "#/definitions/Missing")])]])].

Definition duplicateIdDoc : value :=
  VObj [("swagger", VStr "2.0");
        ("info", VObj [("title", VStr "Demo"); ("version", VStr "1")]);
        ("paths",
         VObj [("/a", VObj [("get", danglingOperation)]);
               ("/b", VObj [("get", VObj [("operationId", VStr "foo")])])]);
        ("definitions", VObj [])].

(** The key under which a parameter enters [properties], and the property a
    parameter without schema gets. *)
Definition propertyKey (param : value) : string :=
  jsToString (getProp param "name").

Definition stringProperty (param : value) : value :=
  VObj [("type", VStr "string"); ("description", getProp param "description")].

(** The key under which [buildInputSchemaV2] stores a parameter, and the
    property a body parameter without schema gets. *)
Definition legacyPropertyKey (param : value) : string :=
  if strictEquals (getProp param "in") (VStr "body") then "body"
  else propertyKey param.

Definition objectProperty (param : value) : value :=
  VObj [("type", VStr "object");
        ("description",
         orElse (getProp param "description") (VStr "Request body"))].

(** An OpenAPI 3.x operation with two parameters without schema, and a
    Swagger 2.0 operation with a body parameter without schema and a legacy
    query parameter. *)
Definition schemalessOperation : value :=
  VObj [("operationId", VStr "listWorkflows");
        ("parameters",
         VArr [VObj [("name", VStr "namespace"); ("in", VStr "path");
                     ("required", VBool true)];
               VObj [("name", VStr "limit"); ("in", VStr "query");
                     ("schema", VNull);
                     ("description", VStr "Page size")]])].

Definition legacyOperation : value :=
  VObj [("operationId", VStr "createWorkflow");
        ("parameters",
         VArr [VObj [("name", VStr "payload"); ("in", VStr "body")];
               VObj [("name", VStr "limit"); ("in", VStr "query");
                     ("type", VStr "integer")]])].

(** The nesting depth of a value, and the reference strings it holds (the
    string members named [$ref], at any depth). *)
Fixpoint height (v : value) : nat :=
  match v with
  | VArr l =>
      S ((fix heights (l : list value) : nat :=
            match l with
            | [] => 0
            | x :: r => Nat.max (height x) (heights r)
            end) l)
  | VObj m =>
      S ((fix heights (m : list (string * value)) : nat :=
            match m with
            | [] => 0
            | kv :: r => Nat.max (height (snd kv)) (heights r)
            end) m)
  | _ => 0
  end.

Fixpoint refsIn (v : value) : list string :=
  match v with
  | VArr l =>
      (fix refs (l : list value) : list string :=
         match l with
         | [] => []
         | x :: r => refsIn x ++ refs r
         end) l
  | VObj m =>
      (fix refs (m : list (string * value)) : list string :=
         match m with
         | [] => []
         | kv :: r =>
             match snd kv with
             | VStr s => if String.eqb (fst kv) "$ref" then [s] else []
             | _ => []
             end ++ refsIn (snd kv) ++ refs r
         end) m
  | _ => []
  end.

(** [terminatesAt m visited]: run on the set [visited], the computation
    does not exhaust its fuel. *)
Definition terminatesAt {A : Type} (m : ParserA.resolver A)
  (visited : list string) : Prop :=
  fst (m visited) <> OutOfFuel.

Definition isDigit (c : ascii) : bool :=
  let n := nat_of_ascii c in ((48 <=? n) && (n <=? 57))%nat.

Definition startsWithDigit (k : string) : bool :=
  match k with
  | EmptyString => false
  | String c _ => isDigit c
  end.

(** [referenceFree v]: an object without a truthy [$ref], [allOf], [oneOf]
    or [anyOf] member, whose [properties] (when truthy) and [items] (when
    truthy) are reference-free in turn: what a reader of a resolved schema
    that follows [properties] and [items] meets. *)
Inductive referenceFree : value -> Prop :=
| referenceFree_object (m : list (string * value)) :
    truthy (getProp (VObj m) "$ref") = false ->
    truthy (getProp (VObj m) "allOf") = false ->
    truthy (getProp (VObj m) "oneOf") = false ->
    truthy (getProp (VObj m) "anyOf") = false ->
    (truthy (getProp (VObj m) "properties") = true ->
     forall k x, In (k, x) (ownEntries (getProp (VObj m) "properties")) ->
                 referenceFree x) ->
    (truthy (getProp (VObj m) "items") = true ->
     referenceFree (getProp (VObj m) "items")) ->
    referenceFree (VObj m).

(** The same test as a function: [referenceFreeWithin depth v] looks
    [depth] levels deep. *)
Fixpoint referenceFreeWithin (depth : nat) (v : value) : bool :=
  match depth with
  | O => false
  | S depth' =>
      match v with
      | VObj _ =>
          negb (truthy (getProp v "$ref"))
          && negb (truthy (getProp v "allOf"))
          && negb (truthy (getProp v "oneOf"))
          && negb (truthy (getProp v "anyOf"))
          && (if truthy (getProp v "properties")
              then forallb (fun kv => referenceFreeWithin depth' (snd kv))
                           (ownEntries (getProp v "properties"))
              else true)
          && (if truthy (getProp v "items")
              then referenceFreeWithin depth' (getProp v "items")
              else true)
      | _ => false
      end
  end.

(** [requiredDeclared schema]: every entry of the schema's [required] list
    other than [__proto__] is, read as a key, a member of its
    [properties]. *)
Definition requiredDeclared (schema : value) : bool :=
  forallb (fun r => String.eqb (jsToString r) "__proto__"
                    || hasKey (jsToString r) (getProp schema "properties"))
          (requiredOf schema).

Definition declares (acc : list (string * value) * list value) : Prop :=
  forall r, In r (snd acc) ->
            jsToString r = "__proto__"
            \/ lookup (jsToString r) (fst acc) <> None.

(** The accumulators of the parameter loops: the properties and the
    required names collected so far.  [resolvedProperties]: every property
    is reference-free; [declares]: every required name other than
    [__proto__] is a property. *)
Definition resolvedProperties (acc : list (string * value) * list value) : Prop :=
  forall k x, In (k, x) (fst acc) -> referenceFree x.

(** [fragmentOf doc s]: [s] is no deeper than the document (or than the
    one-level defaults the parser substitutes) and holds only reference
    strings of the document; [resolutionBudget doc]: a recursion budget that
    depends on the document alone. *)
Definition fragmentOf (doc s : value) : Prop :=
  height s <= Nat.max (height doc) 1 /\ incl (refsIn s) (refsIn doc).

Definition resolutionBudget (doc : value) : nat :=
  List.length (refsIn doc) * S (Nat.max (height doc) 1)
  + Nat.max (height doc) 1.

(** A Swagger 2.0 document with a version marker and paths but no [info]
    member. *)
Definition anonymousDoc : value :=
  VObj [("swagger", VStr "2.0");
        ("paths",
         VObj [("/items",
                VObj [("get", VObj [("operationId", VStr "listItems")])])])].

(** [substitutable args m]: the placeholder [m] has an argument (any value
    but [undefined]) whose text holds no opening brace and no dollar sign. *)
Definition substitutable (args : value) (m : string) : bool :=
  match getProp args (sliceInner m) with
  | VUndef => false
  | v => noChar "{" (jsToString v) && noChar "$" (jsToString v)
  end.

(** The calls and sleeps of a run of [execute] that ends with attempt
    [last]: attempts [first], ..., [last], a sleep after each but the last. *)
Fixpoint schedule (first count : nat) : list Client.event :=
  match count with
  | O => []
  | S O => [Client.Attempt first]
  | S count' => Client.Attempt first :: Client.Sleep first :: schedule (S first) count'
  end.

Definition attemptsIn (events : list Client.event) : nat :=
  List.length (filter (fun e => match e with Client.Attempt _ => true | _ => false end)
                      events).

(** The thrown values that are no errors of the application: the HTTP
    library's own error, and values that are no [Error]. *)
Definition unclassified (e : Client.thrown) : bool :=
  match e with
  | Client.AxiosError _ _ _ _ | Client.NotAnError _ => true
  | _ => false
  end.

(** An OpenAPI 3.x document with one path, two operations and four
    component schemas: [Dog] merges [Pet] with a branch of its own, and
    [Pet] holds a list of [Tag]. *)
Definition petDoc : value :=
  VObj [("openapi", VStr "3.0.0");
        ("info", VObj [("title", VStr "Pets"); ("version", VStr "1")]);
        ("paths",
         VObj [("/pets/{id}",
                VObj [("get",
                       VObj [("operationId", VStr "getPet");
                             ("parameters",
                              VArr [VObj [("name", VStr "id");
                                          ("in", VStr "path");
                                          ("required", VBool true);
                                          ("schema",
                                           VObj [("type", VStr "string")])];
                                    VObj [("name", VStr "kind");
                                          ("in", VStr "query");
                                          ("schema",
                                           VObj [("$ref",
                                                  VStr "#/components/schemas/Kind")])]])]);
                      ("put",
                       VObj [("operationId", VStr "replacePet");
                             ("requestBody",
                              VObj [("required", VBool true);
                                    ("content",
                                     VObj [("application/json",
                                            VObj [("schema",
                                                   VObj [("$ref",
                                                          VStr "#/components/schemas/Dog")])])])])])])]);
        ("components",
         VObj [("schemas",
                VObj [("Tag", VObj [("type", VStr "string")]);
                      ("Kind",
                       VObj [("oneOf",
                              VArr [VObj [("$ref",
                                           VStr "#/components/schemas/Tag")];
                                    VObj [("type", VStr "number")]])]);
                      ("Pet",
                       VObj [("type", VStr "object");
                             ("properties",
                              VObj [("name", VObj [("type", VStr "string")]);
                                    ("tags",
                                     VObj [("type", VStr "array");
                                           ("items",
                                            VObj [("$ref",
                                                   VStr "#/components/schemas/Tag")])])]);
                             ("required", VArr [VStr "name"])]);
                      ("Dog",
                       VObj [("allOf",
                              VArr [VObj [("$ref",
                                           VStr "#/components/schemas/Pet")];
                                    VObj [("properties",
                                           VObj [("breed",
                                                  VObj [("type", VStr "string")])]);
                                          ("required", VArr [VStr "breed"])]])])])])].

Definition refToDog : value :=
  VObj [("$ref", VStr "#/components/schemas/Dog")].

(** The schema [Dog] resolves to. *)
Definition resolvedDog : value :=
  VObj [("type", VStr "object");
        ("properties",
         VObj [("name", VObj [("type", VStr "string")]);
               ("tags",
                VObj [("type", VStr "array");
                      ("items", VObj [("type", VStr "string")])]);
               ("breed", VObj [("type", VStr "string")])]);
        ("required", VArr [VStr "name"; VStr "breed"])].

(** A tool that stands for "no tool" where a list is indexed. *)
Definition noTool : Tool :=
  {| name := VUndef; description := EmptyString; inputSchema := VUndef |}.

(** The member of the document the second variant's [resolveRef] rebases
    a reference on: [components] for OpenAPI 3.x, [definitions] otherwise. *)
Definition referenceStore (v3 : bool) (doc : value) : value :=
  getProp doc (if v3 then "components" else "definitions").

(** [unresolved v3 doc fuel visited]: within the budget [fuel] the second
    variant does not finish resolving any fragment that refers to a member of
    [visited]. *)
Definition unresolved (v3 : bool) (doc : value) (fuel : nat)
  (visited : list string) : Prop :=
  forall r schema,
    In r visited -> truthy schema = true -> getProp schema "$ref" = VStr r ->
    ParserB.resolveSchema fuel v3 doc schema = OutOfFuel.

(** The continuation token of a result of [listWorkflows]. *)
Definition continuationOf (result : value) : value :=
  getProp (getProp result "metadata") "continue".

(** A server with two pages: the first answer carries the continuation
    token [t1], the later ones none. *)
Definition twoPages (call : nat) (request : AxiosRequestConfig)
  : outcome value :=
  if (call =? 1)%nat then
    Ok (VObj [("items", VArr []);
              ("metadata", VObj [("continue", VStr "t1")])])
  else Ok (VObj [("items", VArr []); ("metadata", VObj [])]).

(** The member names of [Object.prototype]: a read [o[k]] with one of
    these names finds the inherited member when the object [o] has no own
    member [k]. *)
Definition inheritedNames : list string :=
  ["constructor"; "toString"; "toLocaleString"; "valueOf"; "hasOwnProperty";
   "isPrototypeOf"; "propertyIsEnumerable"; "__defineGetter__";
   "__defineSetter__"; "__lookupGetter__"; "__lookupSetter__"; "__proto__"].

Definition inherited (k : string) : bool :=
  existsb (String.eqb k) inheritedNames.

(** [ownRead o k]: the read of [o[k]] by a computed key finds no inherited
    member.  On an object, [k] is an own member or no name of
    [Object.prototype]; on an array or a string, [k] is an index in range or
    [length]; an optional read on [undefined] or [null] reads nothing.  Other
    reads (a method name on an array, any key on a number) find members of a
    prototype and are outside the statements. *)
Definition ownRead (o : value) (k : string) : bool :=
  match o with
  | VObj _ => hasKey k o || negb (inherited k)
  | VArr _ | VStr _ => hasKey k o || String.eqb k "length"
  | VUndef | VNull => true
  | _ => false
  end.

(** [ownWalk root segments]: every read of the walk over [segments] from
    [root] is one of these. *)
Fixpoint ownWalk (root : value) (segments : list string) : bool :=
  match segments with
  | [] => true
  | seg :: rest =>
      ownRead root seg
      && (if truthy (optMember root seg) then ownWalk (optMember root seg) rest
          else true)
  end.

(** [printable v]: the conversion [String(v)] returns.  An object with an
    own member [toString] (its value is no function in a JSON value) has
    nothing to convert it, and the conversion throws a [TypeError]; an array
    converts each element that is neither [undefined] nor [null]. *)
Fixpoint printable (v : value) : bool :=
  match v with
  | VObj m => negb (existsb (fun kv => String.eqb "toString" (fst kv)) m)
  | VArr l =>
      (fix all (l : list value) : bool :=
         match l with
         | [] => true
         | x :: r => printable x && all r
         end) l
  | _ => true
  end.

(** [plainArguments args path]: the argument of every placeholder of the
    template is read without reaching an inherited member, and converts to
    text. *)
Definition plainArguments (args : value) (path : string) : bool :=
  forallb (fun m => ownRead args (sliceInner m)
                    && printable (getProp args (sliceInner m)))
          (pathParamMatches path).

(** An OpenAPI 3.x document whose only operation has the method [head]
    and a path parameter. *)
Definition probeDoc : value :=
  VObj [("openapi", VStr "3.0.0");
        ("info", VObj [("title", VStr "Demo"); ("version", VStr "1")]);
        ("paths",
         VObj [("/x/{id}",
                VObj [("head", VObj [("operationId", VStr "probeX")])])])].

(** An OpenAPI 3.x document with a self-referential schema [A]: the
    operation [listA] takes a parameter of schema [A], the operation [listB]
    a required parameter of a plain type. *)
Definition refToComponentA : value :=
  VObj [("$ref", VStr "#/components/schemas/A")].

Definition componentA : value :=
  VObj [("type", VStr "object");
        ("properties", VObj [("field", refToComponentA)])].

Definition cyclicDoc : value :=
  VObj [("openapi", VStr "3.0.0");
        ("info", VObj [("title", VStr "Demo"); ("version", VStr "1")]);
        ("paths",
         VObj [("/a",
                VObj [("get",
                       VObj [("operationId", VStr "listA");
                             ("parameters",
                              VArr [VObj [("name", VStr "filter");
                                          ("in", VStr "query");
                                          ("schema", refToComponentA)]])])]);
               ("/b",
                VObj [("get",
                       VObj [("operationId", VStr "listB");
                             ("parameters",
                              VArr [VObj [("name", VStr "limit");
                                          ("in", VStr "query");
                                          ("required", VBool true);
                                          ("schema",
                                           VObj [("type", VStr "integer")])]])])])]);
        ("components", VObj [("schemas", VObj [("A", componentA)])])].

(** * Properties *)

(** ** Strings *)

Lemma append_assoc_s (a b c : string) : (a +++ b) +++ c = a +++ (b +++ c).
Proof. induction a as [ | x a IH ]; simpl; [ reflexivity | now rewrite IH ]. Qed.

Lemma append_empty_r (a : string) : a +++ EmptyString = a.
Proof. induction a as [ | x a IH ]; simpl; [ reflexivity | now rewrite IH ]. Qed.

Lemma prefix_cons (c d : ascii) (p s : string) :
  String.prefix (String c p) (String d s) = true <-> c = d /\ String.prefix p s = true.
Proof.
  simpl. destruct (ascii_dec c d) as [ -> | Hne ].
  - split; [ intros H; split; [ reflexivity | exact H ] | intros [_ H]; exact H ].
  - split; [ discriminate | intros [H _]; contradiction ].
Qed.

Lemma prefix_empty (s : string) : String.prefix EmptyString s = true.
Proof. destruct s; reflexivity. Qed.

Lemma prefix_append (p r : string) : String.prefix p (p +++ r) = true.
Proof.
  induction p as [ | c p IH ]; simpl.
  - apply prefix_empty.
  - destruct (ascii_dec c c); [ exact IH | contradiction ].
Qed.

Lemma prefix_append_r (p s t : string) :
  String.prefix p s = true -> String.prefix p (s +++ t) = true.
Proof.
  revert s. induction p as [ | c p IH ]; intros s H.
  - apply prefix_empty.
  - destruct s as [ | d s ]; [ discriminate | ].
    apply prefix_cons in H. destruct H as [-> H].
    change (String d s +++ t) with (String d (s +++ t)).
    apply prefix_cons. split; [ reflexivity | now apply IH ].
Qed.

Lemma occurs_unfold (p s : string) :
  occurs p s =
  String.prefix p s || match s with EmptyString => false | String _ r => occurs p r end.
Proof. destruct s; reflexivity. Qed.

Lemma occurs_append_l (p s t : string) :
  occurs p s = true -> occurs p (t +++ s) = true.
Proof.
  intros H. induction t as [ | c t IH ]; simpl; [ exact H | ].
  rewrite IH. apply orb_true_r.
Qed.

Lemma occurs_append_r (p s t : string) :
  occurs p s = true -> occurs p (s +++ t) = true.
Proof.
  induction s as [ | c s IH ]; intros H.
  - rewrite occurs_unfold in H. rewrite orb_false_r in H.
    destruct p; [ | discriminate ]. rewrite occurs_unfold.
    now rewrite prefix_empty.
  - rewrite occurs_unfold in H. apply orb_true_iff in H.
    change (String c s +++ t) with (String c (s +++ t)).
    rewrite occurs_unfold. apply orb_true_iff. destruct H as [H | H].
    + left. now apply (prefix_append_r _ (String c s) t).
    + right. now apply IH.
Qed.

Lemma noChar_append (c : ascii) (a b : string) :
  noChar c (a +++ b) = noChar c a && noChar c b.
Proof.
  induction a as [ | x a IH ]; simpl; [ reflexivity | ].
  now rewrite IH, andb_assoc.
Qed.

Lemma dropLast_snoc (n : string) (c : ascii) :
  dropLast (n +++ String c EmptyString) = n.
Proof.
  induction n as [ | x n IH ]; [ reflexivity | ].
  change (String x n +++ String c EmptyString) with (String x (n +++ String c EmptyString)).
  simpl. rewrite IH. destruct n; reflexivity.
Qed.

Lemma sliceInner_braces (n : string) : sliceInner ("{" +++ n +++ "}") = n.
Proof. simpl. apply dropLast_snoc. Qed.

(** ** The placeholder scan *)

Lemma scanPlaceholders_form (s : string) :
  forall inside m,
    match inside with Some acc => noChar "}" acc = true | None => True end ->
    In m (scanPlaceholders inside s) ->
    exists n, m = "{" +++ n +++ "}" /\ n <> EmptyString /\ noChar "}" n = true.
Proof.
  induction s as [ | c s IH ]; intros inside m Hacc Hin; [ contradiction | ].
  destruct inside as [ acc | ]; simpl in Hin.
  - destruct (Ascii.eqb c "}") eqn:Ec.
    + destruct (String.eqb acc EmptyString) eqn:Ea.
      * now apply (IH None m I).
      * destruct Hin as [ <- | Hin ]; [ | now apply (IH None m I) ].
        exists acc. repeat split; [ | exact Hacc ].
        now apply String.eqb_neq.
    + apply (IH (Some (acc +++ String c EmptyString)) m); [ | exact Hin ].
      rewrite noChar_append, Hacc. simpl. now rewrite Ec.
  - destruct (Ascii.eqb c "{").
    + now apply (IH (Some EmptyString) m).
    + now apply (IH None m I).
Qed.

Lemma scanPlaceholders_occurs (s : string) :
  forall inside m,
    In m (scanPlaceholders inside s) ->
    occurs m (match inside with
              | Some acc => "{" +++ acc +++ s
              | None => s
              end) = true.
Proof.
  induction s as [ | c s IH ]; intros inside m Hin; [ contradiction | ].
  destruct inside as [ acc | ]; simpl in Hin.
  - destruct (Ascii.eqb c "}") eqn:Ec.
    + apply Ascii.eqb_eq in Ec. subst c.
      assert (Hs : In m (scanPlaceholders None s) ->
                   occurs m ("{" +++ acc +++ String "}" s) = true).
      { intros H. apply (IH None) in H.
        change ("{" +++ acc +++ String "}" s)
          with (("{" +++ acc) +++ (String "}" EmptyString +++ s)).
        rewrite <- append_assoc_s. now apply occurs_append_l. }
      destruct (String.eqb acc EmptyString); [ now apply Hs | ].
      destruct Hin as [ <- | Hin ]; [ | now apply Hs ].
      rewrite occurs_unfold. apply orb_true_iff. left.
      replace ("{" +++ acc +++ String "}" s) with (("{" +++ acc +++ "}") +++ s).
      * apply prefix_append.
      * simpl. f_equal. now rewrite append_assoc_s.
    + apply (IH (Some (acc +++ String c EmptyString))) in Hin.
      now rewrite append_assoc_s in Hin.
  - destruct (Ascii.eqb c "{") eqn:Ec.
    + apply Ascii.eqb_eq in Ec. subst c. now apply (IH (Some EmptyString)) in Hin.
    + apply (IH None) in Hin. rewrite occurs_unfold, Hin. apply orb_true_r.
Qed.

(** ** Replacing the first occurrence *)

Lemma prefix_dropN (p s : string) :
  String.prefix p s = true -> s = p +++ dropN (String.length p) s.
Proof.
  revert s. induction p as [ | c p IH ]; intros s H; [ reflexivity | ].
  destruct s as [ | d s ]; [ discriminate | ].
  apply prefix_cons in H. destruct H as [-> H]. simpl. f_equal. now apply IH.
Qed.

Lemma splitAtFirst_spec (pat s b a : string) :
  splitAtFirst pat s = Some (b, a) -> s = b +++ pat +++ a.
Proof.
  revert b a. induction s as [ | c s IH ]; intros b a H.
  - destruct pat; simpl in H; [ | discriminate ].
    now injection H as <- <-.
  - cbn [splitAtFirst] in H.
    destruct (String.prefix pat (String c s)) eqn:Hp.
    + injection H as <- <-. now apply prefix_dropN.
    + destruct (splitAtFirst pat s) as [ [b' a'] | ]; [ | discriminate ].
      injection H as <- <-. simpl. f_equal. now apply IH.
Qed.

Section Overlap.

(** Two placeholders [{p}] and [{q}] with different brace-free names. *)
Variables p q : string.
Hypothesis p_open : noChar "{" p = true.
Hypothesis q_open : noChar "{" q = true.
Hypothesis p_close : noChar "}" p = true.
Hypothesis q_close : noChar "}" q = true.
Hypothesis p_q : p <> q.

Local Abbreviation P := (String "{" (p +++ "}")).

Lemma inner_prefix_before_brace (x b z : string) :
  noChar "{" x = true ->
  String.prefix (x +++ "}") (b +++ String "{" z) = true ->
  String.prefix (x +++ "}") b = true.
Proof.
  revert b. induction x as [ | e x IH ]; intros b Hx H.
  - change (EmptyString +++ "}") with (String "}" EmptyString) in *.
    destruct b as [ | d b ].
    + change (EmptyString +++ String "{" z) with (String "{" z) in H.
      apply prefix_cons in H. destruct H as [H _]. discriminate.
    + change (String d b +++ String "{" z)
        with (String d (b +++ String "{" z)) in H.
      apply prefix_cons in H. destruct H as [-> _].
      apply prefix_cons. split; [ reflexivity | apply prefix_empty ].
  - simpl in Hx. apply andb_true_iff in Hx. destruct Hx as [He Hx].
    destruct b as [ | d b ].
    + change (String e x +++ "}") with (String e (x +++ "}")) in H.
      change (EmptyString +++ String "{" z) with (String "{" z) in H.
      apply prefix_cons in H. destruct H as [-> _]. discriminate.
    + change (String e x +++ "}") with (String e (x +++ "}")) in *.
      change (String d b +++ String "{" z) with (String d (b +++ String "{" z)) in H.
      apply prefix_cons in H. destruct H as [-> H].
      apply prefix_cons. split; [ reflexivity | now apply IH ].
Qed.

Lemma occurs_after_name (x a : string) :
  noChar "{" x = true ->
  occurs P (x +++ String "}" a) = true -> occurs P a = true.
Proof.
  induction x as [ | e x IH ]; intros Hx H.
  - change (EmptyString +++ String "}" a) with (String "}" a) in H.
    rewrite occurs_unfold in H. apply orb_true_iff in H.
    destruct H as [H | H]; [ | exact H ].
    apply prefix_cons in H. destruct H as [H _]. discriminate.
  - simpl in Hx. apply andb_true_iff in Hx. destruct Hx as [He Hx].
    change (String e x +++ String "}" a) with (String e (x +++ String "}" a)) in H.
    rewrite occurs_unfold in H. apply orb_true_iff in H.
    destruct H as [H | H]; [ | now apply IH ].
    apply prefix_cons in H. destruct H as [<- _].
    discriminate.
Qed.

Lemma same_start_same_name (x y a : string) :
  noChar "}" x = true -> noChar "}" y = true ->
  String.prefix (x +++ "}") (y +++ String "}" a) = true -> x = y.
Proof.
  revert y. induction x as [ | e x IH ]; intros y Hx Hy H.
  - destruct y as [ | d y ]; [ reflexivity | ].
    simpl in Hy. apply andb_true_iff in Hy. destruct Hy as [Hd _].
    change (EmptyString +++ "}") with (String "}" EmptyString) in H.
    change (String d y +++ String "}" a) with (String d (y +++ String "}" a)) in H.
    apply prefix_cons in H. destruct H as [<- _]. discriminate.
  - simpl in Hx. apply andb_true_iff in Hx. destruct Hx as [He Hx].
    change (String e x +++ "}") with (String e (x +++ "}")) in H.
    destruct y as [ | d y ].
    + change (EmptyString +++ String "}" a) with (String "}" a) in H.
      apply prefix_cons in H. destruct H as [-> _]. discriminate.
    + simpl in Hy. apply andb_true_iff in Hy. destruct Hy as [_ Hy].
      change (String d y +++ String "}" a) with (String d (y +++ String "}" a)) in H.
      apply prefix_cons in H. destruct H as [-> H].
      f_equal. now apply IH.
Qed.

(** An occurrence of [{p}] never straddles an occurrence of [{q}]. *)
Lemma occurs_around (b a : string) :
  occurs P (b +++ String "{" (q +++ "}") +++ a) = true ->
  occurs P b = true \/ occurs P a = true.
Proof.
  induction b as [ | c b IH ]; intros H.
  - right.
    change (EmptyString +++ String "{" (q +++ "}") +++ a)
      with (String "{" ((q +++ "}") +++ a)) in H.
    rewrite append_assoc_s in H.
    change ("}" +++ a) with (String "}" a) in H.
    rewrite occurs_unfold in H. apply orb_true_iff in H.
    destruct H as [H | H].
    + apply prefix_cons in H. destruct H as [_ H].
      apply same_start_same_name in H; [ contradiction | assumption | assumption ].
    + now apply occurs_after_name in H.
  - change (String c b +++ String "{" (q +++ "}") +++ a)
      with (String c (b +++ String "{" (q +++ "}") +++ a)) in H.
    rewrite occurs_unfold in H. apply orb_true_iff in H.
    destruct H as [H | H].
    + left. rewrite occurs_unfold. apply orb_true_iff. left.
      apply prefix_cons in H. destruct H as [<- H].
      apply prefix_cons. split; [ reflexivity | ].
      change (String "{" (q +++ "}") +++ a)
        with (String "{" ((q +++ "}") +++ a)) in H.
      now apply inner_prefix_before_brace in H.
    + apply IH in H. destruct H as [H | H]; [ left | now right ].
      rewrite occurs_unfold, H. apply orb_true_r.
Qed.

(** Substituting [{q}] leaves an occurrence of [{p}] in the text. *)
Lemma replaceFirst_keeps (u r : string) :
  occurs P u = true ->
  occurs P (replaceFirst u (String "{" (q +++ "}")) r) = true.
Proof.
  intros H. unfold replaceFirst.
  destruct (splitAtFirst (String "{" (q +++ "}")) u) as [ [b a] | ] eqn:E;
    [ | exact H ].
  apply splitAtFirst_spec in E. rewrite E in H.
  apply occurs_around in H. destruct H as [H | H].
  - now apply occurs_append_r.
  - apply occurs_append_l. now apply occurs_append_l.
Qed.

End Overlap.

(** ** Member lists *)

Lemma assocSet_in (k k' : string) (v v' : value) (m : list (string * value)) :
  In (k, v) (assocSet k' v' m) -> (k, v) = (k', v') \/ In (k, v) m.
Proof.
  induction m as [ | [k0 v0] m IH ]; simpl.
  - intros [H | []]. left. now symmetry.
  - destruct (String.eqb k' k0).
    + intros [H | H]; [ left; now symmetry | right; now right ].
    + intros [H | H]; [ right; now left | ].
      destruct (IH H) as [E | E]; [ now left | right; now right ].
Qed.

Lemma assign_in (k k' : string) (v v' : value) (m : list (string * value)) :
  In (k, v) (assign k' v' m) -> (k, v) = (k', v') \/ In (k, v) m.
Proof.
  unfold assign.
  destruct (String.eqb k' "__proto__" && negb (hasKey "__proto__" (VObj m)));
    [ now right | apply assocSet_in ].
Qed.

Lemma assocSet_has_key (k : string) (v : value) (m : list (string * value)) :
  exists v', In (k, v') (assocSet k v m).
Proof.
  induction m as [ | [k0 v0] m [v' IH] ]; simpl.
  - exists v. now left.
  - destruct (String.eqb k k0); [ exists v; now left | exists v'; now right ].
Qed.

Lemma assocSet_keeps_key (k k' : string) (v v' : value) (m : list (string * value)) :
  In (k, v) m -> exists w, In (k, w) (assocSet k' v' m).
Proof.
  induction m as [ | [k0 v0] m IH ]; simpl; [ intros [] | ].
  intros [H | H].
  - injection H as -> ->. destruct (String.eqb k' k) eqn:E.
    + apply String.eqb_eq in E. subst k'. exists v'. now left.
    + exists v. now left.
  - destruct (String.eqb k' k0).
    + exists v. now right.
    + destruct (IH H) as [w Hw]. exists w. now right.
Qed.

Lemma lookup_none_not_in (k : string) (m : list (string * value)) :
  lookup k m = None <-> forall v, ~ In (k, v) m.
Proof.
  induction m as [ | [k0 v0] m IH ]; simpl.
  - split; [ intros _ v [] | reflexivity ].
  - destruct (String.eqb k k0) eqn:E.
    + apply String.eqb_eq in E. subst k0. split; [ discriminate | ].
      intros H. exfalso. apply (H v0). now left.
    + apply String.eqb_neq in E. rewrite IH. split.
      * intros H v [H1 | H1]; [ injection H1 as -> ->; contradiction | now apply (H v) ].
      * intros H v H1. apply (H v). now right.
Qed.

Lemma lookup_some_in (k : string) (v : value) (m : list (string * value)) :
  lookup k m = Some v -> In (k, v) m.
Proof.
  induction m as [ | [k0 v0] m IH ]; simpl; [ discriminate | ].
  destruct (String.eqb k k0) eqn:E.
  - apply String.eqb_eq in E. subst k0. intros H. injection H as ->. now left.
  - intros H. right. now apply IH.
Qed.

Lemma existsb_eqb_in (k : string) (l : list string) :
  existsb (String.eqb k) l = true <-> In k l.
Proof.
  rewrite existsb_exists. split.
  - intros [x [Hx E]]. apply String.eqb_eq in E. now subst x.
  - intros H. exists k. split; [ exact H | apply String.eqb_refl ].
Qed.

(** ** The dispatcher's loops *)

Lemma isQueryKey_spec (pathParams : list string) (k : string) :
  isQueryKey pathParams k = true <->
  k <> "body" /\ ~ In k pathParams /\ startsWith "_" k = false.
Proof.
  unfold isQueryKey. rewrite !andb_true_iff, !negb_true_iff.
  rewrite String.eqb_neq. rewrite <- existsb_eqb_in.
  rewrite not_true_iff_false. tauto.
Qed.

Lemma collectQuery_fold_in (pathParams : list string) (k : string) (v : value) :
  forall l q,
    In (k, v)
       (fold_left (fun q kv => if isQueryKey pathParams (fst kv)
                               then assocSet (fst kv) (snd kv) q else q) l q) ->
    In (k, v) q \/ (In (k, v) l /\ isQueryKey pathParams k = true).
Proof.
  induction l as [ | [k0 v0] l IH ]; intros q H; [ now left | ].
  simpl in H. apply IH in H. destruct H as [H | [H1 H2]].
  - destruct (isQueryKey pathParams k0) eqn:E.
    + apply assocSet_in in H. destruct H as [H | H]; [ | now left ].
      injection H as -> ->. right. split; [ now left | exact E ].
    + now left.
  - right. split; [ now right | exact H2 ].
Qed.

Lemma collectQuery_fold_key (pathParams : list string) (k : string) :
  forall l q,
    (exists v, In (k, v) q)
    \/ ((exists v, In (k, v) l) /\ isQueryKey pathParams k = true) ->
    exists v',
      In (k, v')
         (fold_left (fun q kv => if isQueryKey pathParams (fst kv)
                                 then assocSet (fst kv) (snd kv) q else q) l q).
Proof.
  induction l as [ | [k0 v0] l IH ]; intros q H.
  - destruct H as [H | [[v []] _]]. exact H.
  - simpl. apply IH. destruct H as [[v H] | [[v [H | H]] E]].
    + left. destruct (isQueryKey pathParams k0); [ | now exists v ].
      now apply (assocSet_keeps_key k k0 v v0).
    + injection H as -> ->. left. rewrite E. apply assocSet_has_key.
    + right. split; [ now exists v | exact E ].
Qed.

Lemma substitutePath_fold_names (args : value) (n : string) :
  forall ms u pp,
    In n (snd (fold_left (substituteStep args) ms (u, pp))) <->
    In n pp \/ exists m, In m ms /\ n = sliceInner m /\ getProp args n <> VUndef.
Proof.
  induction ms as [ | m ms IH ]; intros u pp; simpl.
  - split; [ now left | intros [H | [m [[] _]]]; exact H ].
  - assert (Hstep :
      forall acc', substituteStep args (u, pp) m = acc' ->
        (In n (snd acc') <->
         In n pp \/ (n = sliceInner m /\ getProp args n <> VUndef))).
    { intros acc' <-. unfold substituteStep.
      destruct (getProp args (sliceInner m)) eqn:E; simpl;
        try (rewrite in_app_iff; simpl; split;
             [ intros [H | [H | []]];
               [ now left | right; subst n; split; [ reflexivity | rewrite E; discriminate ] ]
             | intros [H | [H _]]; [ now left | right; left; now symmetry ] ]).
      split; [ now left | intros [H | [-> H]]; [ exact H | contradiction ] ]. }
    destruct (substituteStep args (u, pp) m) as [u' pp'] eqn:E.
    rewrite IH. specialize (Hstep _ eq_refl). simpl in Hstep. rewrite Hstep.
    split.
    + intros [[H | [H1 H2]] | [m' [H1 H2]]].
      * now left.
      * right. exists m. split; [ now left | now split ].
      * right. exists m'. split; [ now right | exact H2 ].
    + intros [H | [m' [[H1 | H1] [H2 H3]]]].
      * left. now left.
      * subst m'. left. right. now split.
      * right. exists m'. split; [ exact H1 | now split ].
Qed.

Lemma queryParams_entries (q : list (string * value)) :
  ownEntries (paramsOrUndefined q) = q.
Proof. destruct q; reflexivity. Qed.

Lemma handleOpenAPITool_ok (method path operationId : string)
  (a : list (string * value)) (req : AxiosRequestConfig) :
  handleOpenAPITool (Some (method, path)) operationId (VObj a) = Ok req ->
  url req = fst (substitutePath path (VObj a))
  /\ params req
     = paramsOrUndefined
         (collectQuery (snd (substitutePath path (VObj a))) (VObj a))
  /\ data req = (if carriesPayload method
                 then Some (getProp (VObj a) "body") else None)
  /\ dispatchable method = true.
Proof.
  unfold handleOpenAPITool, carriesPayload, dispatchable.
  cbn [member bind existsb].
  destruct (substitutePath path (VObj a)) as [u pp]. cbn [fst snd].
  destruct (String.eqb (toLowerCase method) "get") eqn:E1.
  { apply String.eqb_eq in E1. try rewrite E1. intros H. injection H as <-.
    cbn. auto. }
  destruct (String.eqb (toLowerCase method) "post") eqn:E2.
  { apply String.eqb_eq in E2. try rewrite E2. intros H. injection H as <-.
    cbn. auto. }
  destruct (String.eqb (toLowerCase method) "put") eqn:E3.
  { apply String.eqb_eq in E3. try rewrite E3. intros H. injection H as <-.
    cbn. auto. }
  destruct (String.eqb (toLowerCase method) "patch") eqn:E4.
  { apply String.eqb_eq in E4. try rewrite E4. intros H. injection H as <-.
    cbn. auto. }
  destruct (String.eqb (toLowerCase method) "delete") eqn:E5.
  { apply String.eqb_eq in E5. try rewrite E5. intros H. injection H as <-.
    cbn. auto. }
  discriminate.
Qed.

Lemma handleOpenAPITool_dispatches (method path operationId : string)
  (a : list (string * value)) :
  dispatchable method = true ->
  exists req, handleOpenAPITool (Some (method, path)) operationId (VObj a) = Ok req.
Proof.
  unfold handleOpenAPITool, dispatchable. cbn [member bind existsb].
  destruct (substitutePath path (VObj a)) as [u pp].
  destruct (String.eqb (toLowerCase method) "get"); [ eauto | ].
  destruct (String.eqb (toLowerCase method) "post"); [ eauto | ].
  destruct (String.eqb (toLowerCase method) "put"); [ eauto | ].
  destruct (String.eqb (toLowerCase method) "patch"); [ eauto | ].
  destruct (String.eqb (toLowerCase method) "delete"); [ eauto | ].
  discriminate.
Qed.

(** ** Request assembly *)

(** C1 (as amended).  For every operation found with method GET (in any
    letter case) and path template [/x/{id}], dispatching the argument map
    [{id: "42", verbose: "true"}] hands the HTTP client a GET request on
    [/x/42], a URL without placeholder, with query parameters exactly
    [{verbose: "true"}] and no payload.  In every dispatch that issues a
    request: the URL is the template with the placeholders substituted whose
    name is an argument key, these names are the path parameters, the query
    holds exactly the arguments whose key is not [body], does not start with
    [_] and is not a path parameter, and the value of [body] is the payload of
    a POST, PUT or PATCH request, while a GET or DELETE request carries no
    payload. *)
Theorem dispatch_request_assembly :
  (forall method operationId : string,
      toLowerCase method = "get" ->
      handleOpenAPITool (Some (method, "/x/{id}")) operationId
        (VObj [("id", VStr "42"); ("verbose", VStr "true")])
      = Ok {| params := VObj [("verbose", VStr "true")];
              method := "GET"; url := "/x/42"; data := None |}
      /\ pathParamMatches "/x/42" = [])
  /\
  (forall (method path operationId : string) (a : list (string * value))
          (req : AxiosRequestConfig),
      handleOpenAPITool (Some (method, path)) operationId (VObj a) = Ok req ->
      let pathParams := snd (substitutePath path (VObj a)) in
      url req = fst (substitutePath path (VObj a))
      /\ (forall n, In n pathParams <->
                    exists m, In m (pathParamMatches path)
                              /\ n = sliceInner m
                              /\ getProp (VObj a) n <> VUndef)
      /\ (forall k v, In (k, v) (ownEntries (params req)) ->
                      In (k, v) a /\ k <> "body"
                      /\ startsWith "_" k = false /\ ~ In k pathParams)
      /\ (forall k v, In (k, v) a -> k <> "body" ->
                      startsWith "_" k = false -> ~ In k pathParams ->
                      exists v', In (k, v') (ownEntries (params req)))
      /\ data req = (if carriesPayload method
                     then Some (getProp (VObj a) "body") else None)).
Proof.
  split.
  - intros method operationId Hm. split; [ | reflexivity ].
    unfold handleOpenAPITool. rewrite Hm. reflexivity.
  - intros method path operationId a req H pathParams.
    apply handleOpenAPITool_ok in H. destruct H as [Hu [Hq [Hd _]]].
    apply (f_equal ownEntries) in Hq. rewrite queryParams_entries in Hq.
    split; [ exact Hu | ]. split; [ | split; [ | split; [ | exact Hd ] ] ].
    + intros n. unfold pathParams, substitutePath.
      rewrite substitutePath_fold_names. split.
      * intros [[] | H]. exact H.
      * intros H. now right.
    + intros k v Hin. rewrite Hq in Hin. unfold collectQuery in Hin.
      apply collectQuery_fold_in in Hin. destruct Hin as [[] | [H1 H2]].
      apply isQueryKey_spec in H2. simpl in H1. tauto.
    + intros k v Hin Hb Hu' Hp. rewrite Hq. unfold collectQuery.
      apply collectQuery_fold_key. right. split.
      * exists v. exact Hin.
      * apply isQueryKey_spec. tauto.
Qed.

Lemma dispatch_request_assembly_witness :
  handleOpenAPITool (Some ("GET", "/x/{id}")) "getX"
    (VObj [("id", VStr "42"); ("verbose", VStr "true")])
  = Ok {| params := VObj [("verbose", VStr "true")];
          method := "GET"; url := "/x/42"; data := None |}
  /\ (let req := {| params := VUndef; method := "POST"; url := "/x/42";
                    data := Some (VStr "payload") |} in
      handleOpenAPITool (Some ("post", "/x/{id}")) "postX"
        (VObj [("id", VStr "42"); ("body", VStr "payload")]) = Ok req
      /\ data req = Some (VStr "payload")).
Proof.
  destruct dispatch_request_assembly as [Hget Hall]. split.
  - apply (Hget "GET" "getX"). reflexivity.
  - split; [ reflexivity | ].
    apply (Hall "post" "/x/{id}" "postX"
             [("id", VStr "42"); ("body", VStr "payload")]).
    reflexivity.
Defined.

(** The claim as first stated fails on a GET operation that is given a
    [body] argument: the value is left out of the query and is not sent. *)
Lemma dispatch_get_drops_body :
  exists req,
    handleOpenAPITool (Some ("get", "/x/{id}")) "getX"
      (VObj [("id", VStr "42"); ("body", VStr "payload")]) = Ok req
    /\ getProp (VObj [("id", VStr "42"); ("body", VStr "payload")]) "body"
       = VStr "payload"
    /\ data req = None
    /\ data req <> Some (VStr "payload").
Proof.
  eexists. split; [ reflexivity | ]. split; [ reflexivity | ].
  split; [ reflexivity | discriminate ].
Qed.

(** ** A placeholder without argument *)

Lemma getProp_absent (a : list (string * value)) (p : string) :
  lookup p a = None -> getProp (VObj a) p = VUndef.
Proof.
  intros H. unfold getProp. simpl. rewrite H.
  now destruct (String.eqb p "length").
Qed.

Lemma substitutePath_fold_keeps (args : value) (p : string) :
  noChar "{" p = true -> noChar "}" p = true ->
  getProp args p = VUndef ->
  forall ms u pp,
    (forall m, In m ms ->
               exists n, m = "{" +++ n +++ "}"
                         /\ noChar "{" n = true /\ noChar "}" n = true) ->
    occurs ("{" +++ p +++ "}") u = true ->
    occurs ("{" +++ p +++ "}")
           (fst (fold_left (substituteStep args) ms (u, pp))) = true.
Proof.
  intros Hpo Hpc Hp. induction ms as [ | m ms IH ]; intros u pp Hms Hu.
  - exact Hu.
  - simpl. destruct (substituteStep args (u, pp) m) as [u' pp'] eqn:E.
    apply IH; [ intros m' Hm'; apply Hms; now right | ].
    destruct (Hms m (or_introl eq_refl)) as [n [-> [Hno Hnc]]].
    unfold substituteStep in E. rewrite sliceInner_braces in E.
    destruct (String.eqb n p) eqn:Enp.
    + apply String.eqb_eq in Enp. subst n. rewrite Hp in E.
      injection E as <- _. exact Hu.
    + apply String.eqb_neq in Enp.
      assert (Hk : forall r, occurs ("{" +++ p +++ "}")
                               (replaceFirst u ("{" +++ n +++ "}") r) = true).
      { intros r. apply (replaceFirst_keeps p n); auto. }
      destruct (getProp args n); injection E as <- _;
        solve [ exact Hu | apply Hk ].
Qed.




(** ** Merging the branches of [allOf] *)

Lemma lookup_assocSet (k k' : string) (v : value) (m : list (string * value)) :
  lookup k (assocSet k' v m) = if String.eqb k k' then Some v else lookup k m.
Proof.
  induction m as [ | [k0 v0] m IH ]; simpl.
  - reflexivity.
  - destruct (String.eqb k' k0) eqn:E0; simpl.
    + apply String.eqb_eq in E0. subst k0.
      destruct (String.eqb k k'); reflexivity.
    + rewrite IH. destruct (String.eqb k k0) eqn:E1; [ | reflexivity ].
      apply String.eqb_eq in E1. subst k0.
      destruct (String.eqb k k') eqn:E2; [ | reflexivity ].
      apply String.eqb_eq in E2. subst k'. now rewrite String.eqb_refl in E0.
Qed.

Lemma lookup_absent_key (k : string) (m : list (string * value)) :
  existsb (fun kv => String.eqb k (fst kv)) m = false -> lookup k m = None.
Proof.
  induction m as [ | [k0 v0] m IH ]; simpl; [ reflexivity | ].
  intros H. apply orb_false_iff in H. destruct H as [H1 H2].
  rewrite H1. now apply IH.
Qed.

Lemma lookup_assign_other (k k' : string) (v : value)
  (m : list (string * value)) :
  k <> k' -> lookup k (assign k' v m) = lookup k m.
Proof.
  intros H. unfold assign.
  destruct (String.eqb k' "__proto__" && negb (hasKey "__proto__" (VObj m)));
    [ reflexivity | ].
  rewrite lookup_assocSet. apply String.eqb_neq in H. now rewrite H.
Qed.

Lemma lookup_assign_same (k : string) (v : value) (m : list (string * value)) :
  k <> "__proto__" -> lookup k (assign k v m) = Some v.
Proof.
  intros H. unfold assign. apply String.eqb_neq in H. rewrite H. cbn [andb].
  now rewrite lookup_assocSet, String.eqb_refl.
Qed.

Lemma lookup_assign (k k' : string) (v : value) (m : list (string * value)) :
  lookup "__proto__" m = None ->
  lookup k (assign k' v m)
  = if String.eqb k' "__proto__" then lookup k m
    else if String.eqb k k' then Some v else lookup k m.
Proof.
  intros H. unfold assign, hasKey. cbn [ownEntries]. rewrite H.
  cbn [negb]. rewrite andb_true_r.
  destruct (String.eqb k' "__proto__"); [ reflexivity | apply lookup_assocSet ].
Qed.

Lemma assign_keeps_prototype_key_out (k : string) (v : value)
  (m : list (string * value)) :
  lookup "__proto__" m = None -> lookup "__proto__" (assign k v m) = None.
Proof.
  intros H. rewrite (lookup_assign _ _ _ _ H).
  destruct (String.eqb k "__proto__") eqn:E; [ exact H | ].
  rewrite String.eqb_sym, E. exact H.
Qed.

Lemma objectAssign_keeps_prototype_key_out (source : list (string * value)) :
  forall target,
    lookup "__proto__" target = None ->
    lookup "__proto__" (objectAssign target source) = None.
Proof.
  unfold objectAssign.
  induction source as [ | [k0 v0] source IH ]; intros target H; [ exact H | ].
  simpl. apply IH. now apply assign_keeps_prototype_key_out.
Qed.

Lemma lookup_objectAssign (k : string) (source : list (string * value)) :
  uniqueKeys source = true ->
  k <> "__proto__" ->
  forall target,
    lookup "__proto__" target = None ->
    lookup k (objectAssign target source) =
    match lookup k source with
    | Some v => Some v
    | None => lookup k target
    end.
Proof.
  unfold objectAssign. intros Hu Hk.
  induction source as [ | [k0 v0] source IH ]; intros target Ht; [ reflexivity | ].
  simpl in Hu. apply andb_true_iff in Hu. destruct Hu as [Hk0 Hu].
  apply negb_true_iff in Hk0. simpl.
  rewrite (IH Hu); [ | now apply assign_keeps_prototype_key_out ].
  rewrite (lookup_assign _ _ _ _ Ht).
  destruct (String.eqb k k0) eqn:E.
  - apply String.eqb_eq in E. subst k0.
    rewrite (lookup_absent_key _ _ Hk0).
    apply String.eqb_neq in Hk. now rewrite Hk.
  - destruct (lookup k source); [ reflexivity | ].
    now destruct (String.eqb k0 "__proto__").
Qed.

Lemma mergeStep_shaped (acc : list (string * value) * list value) (b : value) :
  branchShaped b = true ->
  mergeStep acc b
  = Ok (objectAssign (fst acc) (propertiesOf b), snd acc ++ requiredOf b).
Proof.
  unfold branchShaped, mergeStep, propertiesOf, requiredOf.
  destruct b as [ | | | | | | m ]; try discriminate.
  cbn [member bind]. intros H. apply andb_true_iff in H. destruct H as [Hp Hr].
  destruct (getProp (VObj m) "properties") as [ | | | | | | ps ]; try discriminate;
    destruct (getProp (VObj m) "required") as [ | | | | | l | ];
    try discriminate; simpl; try rewrite app_nil_r; reflexivity.
Qed.

Lemma foldM_mergeStep (bs : list value) :
  forallb branchShaped bs = true ->
  forall acc,
  lookup "__proto__" (fst acc) = None ->
  exists props,
    foldM mergeStep bs acc = Ok (props, snd acc ++ List.concat (map requiredOf bs))
    /\ lookup "__proto__" props = None
    /\ forall k, k <> "__proto__" ->
                 lookup k props = match unionLaterWins k bs with
                                  | Some v => Some v
                                  | None => lookup k (fst acc)
                                  end.
Proof.
  induction bs as [ | b bs IH ]; intros Hs acc Hacc.
  - exists (fst acc). simpl. rewrite app_nil_r. destruct acc. auto.
  - simpl in Hs. apply andb_true_iff in Hs. destruct Hs as [Hb Hs].
    cbn [foldM]. rewrite (mergeStep_shaped acc b Hb). cbn [bind].
    destruct (IH Hs (objectAssign (fst acc) (propertiesOf b),
                     snd acc ++ requiredOf b)) as [props [E [Hp Hl]]].
    { cbn [fst]. now apply objectAssign_keeps_prototype_key_out. }
    exists props. cbn [fst snd] in *. split; [ | split; [ exact Hp | ] ].
    + rewrite E. simpl. now rewrite app_assoc.
    + intros k Hk. rewrite (Hl k Hk). simpl.
      destruct (unionLaterWins k bs); [ reflexivity | ].
      apply lookup_objectAssign; [ | exact Hk | exact Hacc ].
      unfold branchShaped, propertiesOf in *.
      destruct b; try discriminate.
      destruct (getProp (VObj members) "properties"); try reflexivity.
      apply andb_true_iff in Hb. tauto.
Qed.

Lemma strictEquals_names (x y : value) :
  isName x = true -> isName y = true -> (strictEquals x y = true <-> x = y).
Proof.
  destruct x, y; try discriminate. intros _ _. simpl.
  rewrite String.eqb_eq. split; [ now intros -> | now intros [= ->] ].
Qed.

Lemma dedupe_in (l : list value) (x : value) :
  In x (dedupe l) -> In x l.
Proof.
  induction l as [ | y l IH ]; simpl; [ tauto | ].
  intros [H | H]; [ now left | ].
  apply filter_In in H. right. tauto.
Qed.

Lemma dedupe_names (l : list value) :
  forallb isName l = true ->
  NoDup (dedupe l) /\ forall x, In x l -> In x (dedupe l).
Proof.
  induction l as [ | y l IH ]; intros Hn; simpl.
  - split; [ constructor | tauto ].
  - simpl in Hn. apply andb_true_iff in Hn. destruct Hn as [Hy Hn].
    destruct (IH Hn) as [Hnd Hin]. split.
    + constructor.
      * intros H. apply filter_In in H. destruct H as [H1 H2].
        assert (isName y = true) by exact Hy.
        assert (E : strictEquals y y = true) by now apply strictEquals_names.
        rewrite E in H2. discriminate.
      * now apply NoDup_filter.
    + intros x [-> | H]; [ now left | ].
      destruct (strictEquals y x) eqn:E.
      * left. apply strictEquals_names in E; auto.
        rewrite forallb_forall in Hn. now apply Hn.
      * right. apply filter_In. split; [ now apply Hin | now rewrite E ].
Qed.

Lemma forallb_concat_required (bs : list value) :
  forallb branchShaped bs = true ->
  forallb isName (List.concat (map requiredOf bs)) = true.
Proof.
  induction bs as [ | b bs IH ]; intros H; [ reflexivity | ].
  simpl in H. apply andb_true_iff in H. destruct H as [Hb Hs].
  simpl. rewrite forallb_app, (IH Hs), andb_true_r.
  unfold branchShaped, requiredOf in *. destruct b; try discriminate.
  apply andb_true_iff in Hb. destruct Hb as [_ Hb].
  destruct (getProp (VObj members) "required"); try reflexivity. exact Hb.
Qed.



(** C3.  A branch whose [properties] has a member named [__proto__]: the
    claim's union of the dictionaries has the key, but [Object.assign]
    assigns it, which reaches the accessor of [Object.prototype] and adds no
    member, so that the merged [properties] holds [a] alone. *)
Theorem mergeSchemas_loses_prototype_key :
  let branch :=
    VObj [("properties",
           VObj [("a", VObj [("type", VStr "string")]);
                 ("__proto__", VObj [("type", VStr "number")])])] in
  unionLaterWins "__proto__" [branch] = Some (VObj [("type", VStr "number")])
  /\ mergeSchemas [branch]
     = Ok (VObj [("type", VStr "object");
                 ("properties", VObj [("a", VObj [("type", VStr "string")])])]).
Proof. split; reflexivity. Qed.

(** ** What [initialize] accepts *)

Lemma bind_ok {A B : Type} (m : outcome A) (f : A -> outcome B) (y : B) :
  bind m f = Ok y -> exists x, m = Ok x /\ f x = Ok y.
Proof. destruct m; simpl; [ eauto | discriminate | discriminate ]. Qed.

Lemma rethrow_ok {A : Type} (m : outcome A) (x : A) :
  rethrowAsSchemaParseError m = Ok x -> m = Ok x.
Proof. destruct m; simpl; [ auto | discriminate | discriminate ]. Qed.

Lemma rethrow_throw {A : Type} (m : outcome A) (e : error) :
  m = Throw e ->
  exists msg, rethrowAsSchemaParseError m = Throw (SchemaParseError msg).
Proof. intros ->. simpl. unfold schemaParseError. eauto. Qed.

Lemma optMember_truthy (doc : value) (k : string) :
  truthy doc = true -> optMember doc k = getProp doc k.
Proof. destruct doc; simpl; try discriminate; reflexivity. Qed.

Lemma versionMarker_falsy (doc : value) :
  truthy doc = false -> versionMarker doc = false.
Proof.
  destruct doc as [ | | b | r | s | l | m ]; simpl; try discriminate;
    try reflexivity.
  intros H. apply negb_false_iff, String.eqb_eq in H. subst s. reflexivity.
Qed.

Lemma ParserA_validate_ok (doc : value) (u : unit) :
  ParserA.validateSchema doc = Ok u ->
  versionMarker doc = true /\ nonEmptyPaths doc = true.
Proof.
  unfold ParserA.validateSchema, ParserA.isOpenAPI3, versionMarker, nonEmptyPaths.
  destruct (truthy doc) eqn:Ht; simpl; [ | discriminate ].
  rewrite (optMember_truthy _ _ Ht).
  destruct (getProp doc "openapi") as [ | | b | r | s | l | m ]; simpl;
    try discriminate.
  all: destruct (strictEquals (getProp doc "swagger") (VStr "2.0")); simpl;
    try discriminate.
  all: try destruct (startsWith "3." s); simpl; try discriminate.
  all: destruct (truthy (getProp doc "paths")); simpl; try discriminate.
  all: destruct (List.length (ownEntries (getProp doc "paths")) =? 0)%nat;
    simpl; try discriminate; auto.
Qed.

Lemma ParserA_validate_fail (doc : value) :
  versionMarker doc && nonEmptyPaths doc = false ->
  exists e, ParserA.validateSchema doc = Throw e.
Proof.
  unfold ParserA.validateSchema, ParserA.isOpenAPI3, versionMarker, nonEmptyPaths.
  destruct (truthy doc) eqn:Ht; simpl; [ | eauto ].
  rewrite (optMember_truthy _ _ Ht).
  destruct (getProp doc "openapi") as [ | | b | r | s | l | m ]; simpl;
    eauto.
  all: destruct (strictEquals (getProp doc "swagger") (VStr "2.0")); simpl;
    eauto.
  all: try destruct (startsWith "3." s); simpl; eauto.
  all: destruct (truthy (getProp doc "paths")); simpl; eauto.
  all: destruct (List.length (ownEntries (getProp doc "paths")) =? 0)%nat;
    simpl; eauto; discriminate.
Qed.

Lemma getProp_lookup (doc : value) (k : string) :
  String.eqb k "length" = false ->
  getProp doc k = match lookup k (ownEntries doc) with
                  | Some x => x
                  | None => VUndef
                  end.
Proof. intros H. unfold getProp. now rewrite H. Qed.

Lemma ParserB_detect_ok (doc : value) (b : bool) :
  truthy doc = true ->
  ParserB.detectVersion doc = Ok b -> versionMarker doc = true.
Proof.
  intros Ht. unfold ParserB.detectVersion, versionMarker. rewrite Ht. simpl.
  unfold ParserB.inOperator, hasKey.
  rewrite !(getProp_lookup doc "openapi" eq_refl),
          !(getProp_lookup doc "swagger" eq_refl).
  destruct doc as [ | | b0 | r | s | l | m ]; try discriminate;
    cbn [bind].
  all: destruct (lookup "openapi" _) as [ [ | | b1 | r1 | s1 | l1 | m1 ] | ];
    cbn [bind member startsWith3]; try discriminate.
  all: try (destruct (startsWith "3." s1); [ reflexivity | ]).
  all: destruct (lookup "swagger" _) as [ x | ]; cbn [bind andb];
    try discriminate.
  all: destruct (strictEquals x (VStr "2.0")); simpl; try discriminate;
    reflexivity.
Qed.

Lemma ParserB_detect_fail (doc : value) :
  truthy doc = true -> versionMarker doc = false ->
  exists e, ParserB.detectVersion doc = Throw e.
Proof.
  intros Ht. unfold ParserB.detectVersion, versionMarker. rewrite Ht. simpl.
  unfold ParserB.inOperator, hasKey.
  rewrite !(getProp_lookup doc "openapi" eq_refl),
          !(getProp_lookup doc "swagger" eq_refl).
  destruct doc as [ | | b0 | r | s | l | m ]; cbn [bind]; eauto.
  all: destruct (lookup "openapi" _) as [ [ | | b1 | r1 | s1 | l1 | m1 ] | ];
    cbn [bind member startsWith3]; eauto.
  all: try (destruct (startsWith "3." s1); [ discriminate | ]).
  all: destruct (lookup "swagger" _) as [ x | ]; cbn [bind andb orb]; eauto.
  all: destruct (strictEquals x (VStr "2.0")); simpl; eauto; discriminate.
Qed.

Lemma ParserB_validate_ok (doc : value) (u : unit) :
  ParserB.validateSchema doc = Ok u ->
  truthy doc = true /\ nonEmptyPaths doc = true.
Proof.
  unfold ParserB.validateSchema, nonEmptyPaths.
  destruct (truthy doc); simpl; [ | discriminate ].
  destruct (truthy (getProp doc "paths")); simpl; [ | discriminate ].
  destruct (List.length (ownEntries (getProp doc "paths")) =? 0)%nat;
    simpl; [ discriminate | auto ].
Qed.

Lemma ParserB_validate_fail (doc : value) :
  nonEmptyPaths doc = false -> exists e, ParserB.validateSchema doc = Throw e.
Proof.
  unfold ParserB.validateSchema, nonEmptyPaths.
  destruct (truthy doc); simpl; [ | eauto ].
  destruct (truthy (getProp doc "paths")); simpl; [ | eauto ].
  destruct (List.length (ownEntries (getProp doc "paths")) =? 0)%nat;
    simpl; [ eauto | discriminate ].
Qed.

Lemma ParserB_detect_returns (doc : value) :
  ParserB.detectVersion doc <> OutOfFuel.
Proof.
  unfold ParserB.detectVersion. destruct (truthy doc); simpl; [ | discriminate ].
  unfold ParserB.inOperator, hasKey.
  rewrite !(getProp_lookup doc "openapi" eq_refl),
          !(getProp_lookup doc "swagger" eq_refl).
  destruct doc as [ | | b0 | r | s | l | m ]; cbn [bind]; try discriminate.
  all: destruct (lookup "openapi" _) as [ [ | | b1 | r1 | s1 | l1 | m1 ] | ];
    cbn [bind member startsWith3]; try discriminate.
  all: try (destruct (startsWith "3." s1); [ discriminate | ]).
  all: destruct (lookup "swagger" _) as [ x | ]; cbn [bind andb orb];
    try discriminate.
  all: destruct (strictEquals x (VStr "2.0")); simpl; discriminate.
Qed.

(** C8.  In both parser variants [initialize] returns a tool set only for a
    document that carries an [openapi] marker beginning with [3.] or a
    [swagger] marker equal to [2.0] and whose [paths] has at least one key;
    a document that violates either condition is rejected with a schema-parse
    error, and the parser's tool list stays empty. *)
Theorem initialize_requires_version_and_paths (fuel : nat) (doc : value) :
  (forall tools, ParserA.initialize fuel doc = Ok tools ->
                 versionMarker doc = true /\ nonEmptyPaths doc = true)
  /\ (forall tools, ParserB.initialize fuel doc = Ok tools ->
                    versionMarker doc = true /\ nonEmptyPaths doc = true)
  /\ (versionMarker doc && nonEmptyPaths doc = false ->
      (exists msg, ParserA.initialize fuel doc = Throw (SchemaParseError msg))
      /\ ParserA.getTools fuel doc = []
      /\ (exists msg, ParserB.initialize fuel doc = Throw (SchemaParseError msg))
      /\ ParserB.getTools fuel doc = []).
Proof.
  split; [ | split ].
  - intros tools H. unfold ParserA.initialize in H. apply rethrow_ok in H.
    apply bind_ok in H. destruct H as [u [H _]].
    now apply ParserA_validate_ok in H.
  - intros tools H. unfold ParserB.initialize in H. apply rethrow_ok in H.
    apply bind_ok in H. destruct H as [v3 [Hd H]].
    apply bind_ok in H. destruct H as [u [Hv _]].
    apply ParserB_validate_ok in Hv. destruct Hv as [Ht Hp].
    split; [ | exact Hp ]. now apply (ParserB_detect_ok doc v3).
  - intros H.
    assert (HA : exists msg,
               ParserA.initialize fuel doc = Throw (SchemaParseError msg)).
    { destruct (ParserA_validate_fail doc H) as [e He].
      unfold ParserA.initialize. rewrite He. simpl.
      unfold schemaParseError. eauto. }
    assert (HB : exists msg,
               ParserB.initialize fuel doc = Throw (SchemaParseError msg)).
    { unfold ParserB.initialize. apply andb_false_iff in H.
      destruct (truthy doc) eqn:Ht.
      - destruct H as [H | H].
        + destruct (ParserB_detect_fail doc Ht H) as [e He]. rewrite He.
          simpl. unfold schemaParseError. eauto.
        + destruct (ParserB_validate_fail doc H) as [e He].
          destruct (ParserB.detectVersion doc) as [ v3 | e' | ] eqn:Ed.
          * simpl. rewrite He. simpl. unfold schemaParseError. eauto.
          * simpl. unfold schemaParseError. eauto.
          * now apply ParserB_detect_returns in Ed.
      - unfold ParserB.detectVersion, ParserB.validateSchema. rewrite Ht.
        simpl. unfold schemaParseError. eauto. }
    split; [ exact HA | ]. split; [ | split; [ exact HB | ] ].
    + destruct HA as [msg E]. unfold ParserA.getTools. now rewrite E.
    + destruct HB as [msg E]. unfold ParserB.getTools. now rewrite E.
Qed.

Lemma initialize_requires_version_and_paths_witness :
  (versionMarker selfRefDoc = true /\ nonEmptyPaths selfRefDoc = true)
  /\ (exists msg,
        ParserA.initialize 3 unmarkedDoc = Throw (SchemaParseError msg))
  /\ ParserA.getTools 3 unmarkedDoc = []
  /\ (exists msg,
        ParserB.initialize 3 unmarkedDoc = Throw (SchemaParseError msg))
  /\ ParserB.getTools 3 unmarkedDoc = [].
Proof.
  split.
  - destruct (initialize_requires_version_and_paths 3 selfRefDoc) as [HA _].
    apply (HA (ParserA.getTools 3 selfRefDoc)). reflexivity.
  - destruct (initialize_requires_version_and_paths 3 unmarkedDoc) as [_ [_ H]].
    apply H. reflexivity.
Defined.

(** ** The resolvers as functions of document and fragment *)

Lemma restores_retR {A : Type} (a : A) : restores (ParserA.retR a).
Proof. intros v a' v' H. now injection H. Qed.

Lemma restores_liftR {A : Type} (o : outcome A) : restores (ParserA.liftR o).
Proof. intros v a' v' H. now injection H. Qed.

Lemma restores_bindR {A B : Type} (m : ParserA.resolver A)
  (f : A -> ParserA.resolver B) :
  restores m -> (forall a, restores (f a)) -> restores (ParserA.bindR m f).
Proof.
  intros Hm Hf v b v' H. unfold ParserA.bindR in H.
  destruct (m v) as [[a | e | ] v1] eqn:E; try discriminate.
  apply Hm in E. subst v1. now apply Hf in H.
Qed.

Lemma restores_mapR {A B : Type} (f : A -> ParserA.resolver B) (l : list A) :
  (forall x, restores (f x)) -> restores (ParserA.mapR f l).
Proof.
  intros Hf. induction l as [ | x l IH ]; simpl.
  - apply restores_retR.
  - apply restores_bindR; [ apply Hf | ]. intros y.
    apply restores_bindR; [ exact IH | ]. intros ys. apply restores_retR.
Qed.

Lemma setDelete_setAdd (r : string) (visited : list string) :
  ParserA.setHasRef r visited = false ->
  ParserA.setDelete r (ParserA.setAdd r visited) = visited.
Proof.
  intros H. unfold ParserA.setAdd. rewrite H. unfold ParserA.setDelete.
  rewrite filter_app. simpl. rewrite String.eqb_refl. simpl.
  rewrite app_nil_r. unfold ParserA.setHasRef in H.
  induction visited as [ | x visited IH ]; [ reflexivity | ].
  simpl in *. apply orb_false_iff in H. destruct H as [H1 H2].
  rewrite H1. simpl. f_equal. now apply IH.
Qed.

Lemma restores_body (self : value -> ParserA.resolver value) (doc schema : value) :
  (forall s, restores (self s)) ->
  restores (ParserA.resolveSchemaBody self doc schema).
Proof.
  intros Hself. unfold ParserA.resolveSchemaBody.
  destruct (negb (truthy schema)); [ apply restores_retR | ].
  destruct (truthy (getProp schema "$ref")).
  { destruct (getProp schema "$ref") as [ | | b | n | r | l | m ];
      try apply restores_liftR.
    intros v a v' H. destruct (ParserA.setHasRef r v) eqn:Eh.
    - now injection H.
    - unfold ParserA.bindR, ParserA.liftR in H.
      destruct (ParserA.resolveRef doc (VStr r)) as [ resolved | e | ];
        try discriminate.
      destruct (self resolved (ParserA.setAdd r v)) as [[x | e | ] v2] eqn:E;
        try discriminate.
      apply Hself in E. subst v2. injection H as _ <-.
      now apply setDelete_setAdd. }
  destruct (truthy (getProp schema "allOf")).
  { destruct (getProp schema "allOf"); try apply restores_liftR.
    apply restores_bindR; [ now apply restores_mapR | ].
    intros rs. apply restores_liftR. }
  destruct (truthy (getProp schema "oneOf") || truthy (getProp schema "anyOf"));
    [ apply Hself | ].
  apply restores_bindR.
  - destruct (truthy _); [ | apply restores_retR ].
    apply restores_bindR.
    + apply restores_mapR. intros kv. apply restores_bindR; [ apply Hself | ].
      intros x. apply restores_retR.
    + intros kvs. apply restores_retR.
  - intros resolved1. cbv zeta. destruct (truthy _); [ | apply restores_retR ].
    apply restores_bindR; [ apply Hself | ]. intros x. apply restores_retR.
Qed.

Lemma resolveSchema_restores (fuel : nat) (doc schema : value) :
  restores (ParserA.resolveSchema fuel doc schema).
Proof.
  revert schema. induction fuel as [ | fuel IH ]; intros schema.
  - intros v a v' H. discriminate.
  - simpl. now apply restores_body.
Qed.

Lemma refines_refl {A : Type} (m : ParserA.resolver A) : refines m m.
Proof. intros v o v' H _. exact H. Qed.

Lemma refines_bindR {A B : Type} (m m' : ParserA.resolver A)
  (f f' : A -> ParserA.resolver B) :
  refines m m' -> (forall a, refines (f a) (f' a)) ->
  refines (ParserA.bindR m f) (ParserA.bindR m' f').
Proof.
  intros Hm Hf v o v' H Ho. unfold ParserA.bindR in *.
  destruct (m v) as [[a | e | ] v1] eqn:E.
  - rewrite (Hm _ _ _ E); [ now apply Hf | discriminate ].
  - rewrite (Hm _ _ _ E); [ exact H | discriminate ].
  - injection H as <- _. contradiction.
Qed.

Lemma refines_mapR {A B : Type} (f g : A -> ParserA.resolver B) (l : list A) :
  (forall x, refines (f x) (g x)) ->
  refines (ParserA.mapR f l) (ParserA.mapR g l).
Proof.
  intros Hf. induction l as [ | x l IH ]; simpl.
  - apply refines_refl.
  - apply refines_bindR; [ apply Hf | ]. intros y.
    apply refines_bindR; [ exact IH | ]. intros ys. apply refines_refl.
Qed.

Lemma refines_body (self self' : value -> ParserA.resolver value)
  (doc schema : value) :
  (forall s, refines (self s) (self' s)) ->
  refines (ParserA.resolveSchemaBody self doc schema)
          (ParserA.resolveSchemaBody self' doc schema).
Proof.
  intros Hself. unfold ParserA.resolveSchemaBody.
  destruct (negb (truthy schema)); [ apply refines_refl | ].
  destruct (truthy (getProp schema "$ref")).
  { destruct (getProp schema "$ref") as [ | | b | n | r | l | m ];
      try apply refines_refl.
    intros v o v' H Ho. destruct (ParserA.setHasRef r v); [ exact H | ].
    revert H Ho. apply refines_bindR; [ apply refines_refl | ].
    intros resolved. apply refines_bindR; [ apply Hself | ].
    intros result. apply refines_refl. }
  destruct (truthy (getProp schema "allOf")).
  { destruct (getProp schema "allOf"); try apply refines_refl.
    apply refines_bindR; [ now apply refines_mapR | ].
    intros rs. apply refines_refl. }
  destruct (truthy (getProp schema "oneOf") || truthy (getProp schema "anyOf"));
    [ apply Hself | ].
  apply refines_bindR.
  - destruct (truthy _); [ | apply refines_refl ].
    apply refines_bindR.
    + apply refines_mapR. intros kv. apply refines_bindR; [ apply Hself | ].
      intros x. apply refines_refl.
    + intros kvs. apply refines_refl.
  - intros resolved1. cbv zeta. destruct (truthy _); [ | apply refines_refl ].
    apply refines_bindR; [ apply Hself | ]. intros x. apply refines_refl.
Qed.

Lemma resolveSchema_more_fuel (fuel extra : nat) (doc schema : value) :
  refines (ParserA.resolveSchema fuel doc schema)
          (ParserA.resolveSchema (extra + fuel) doc schema).
Proof.
  revert schema. induction fuel as [ | fuel IH ]; intros schema.
  - intros v o v' H Ho. injection H as <- _. contradiction.
  - rewrite Nat.add_succ_r. simpl. now apply refines_body.
Qed.

Lemma refinesO_refl {A : Type} (m : outcome A) : refinesO m m.
Proof. intros _. reflexivity. Qed.

Lemma refinesO_bind {A B : Type} (m m' : outcome A) (f f' : A -> outcome B) :
  refinesO m m' -> (forall a, refinesO (f a) (f' a)) ->
  refinesO (bind m f) (bind m' f').
Proof.
  intros Hm Hf H. destruct m as [ a | e | ]; simpl in *.
  - rewrite Hm by discriminate. simpl. now apply Hf.
  - rewrite Hm by discriminate. reflexivity.
  - contradiction.
Qed.

Lemma refinesO_mapM {A B : Type} (f g : A -> outcome B) (l : list A) :
  (forall x, refinesO (f x) (g x)) -> refinesO (mapM f l) (mapM g l).
Proof.
  intros Hf. induction l as [ | x l IH ]; simpl.
  - apply refinesO_refl.
  - apply refinesO_bind; [ apply Hf | ]. intros y.
    apply refinesO_bind; [ exact IH | ]. intros ys. apply refinesO_refl.
Qed.

Lemma refinesO_body (self self' : value -> outcome value) (v3 : bool)
  (doc schema : value) :
  (forall s, refinesO (self s) (self' s)) ->
  refinesO (ParserB.resolveSchemaBody self v3 doc schema)
           (ParserB.resolveSchemaBody self' v3 doc schema).
Proof.
  intros Hself. unfold ParserB.resolveSchemaBody.
  destruct (negb (truthy schema)); [ apply refinesO_refl | ].
  destruct (truthy (getProp schema "$ref")).
  { apply refinesO_bind; [ apply refinesO_refl | apply Hself ]. }
  destruct (truthy (getProp schema "allOf")).
  { apply refinesO_bind; [ apply refinesO_refl | ]. intros l.
    apply refinesO_bind; [ now apply refinesO_mapM | ].
    intros rs. apply refinesO_refl. }
  destruct (truthy (getProp schema "oneOf") || truthy (getProp schema "anyOf"));
    [ apply Hself | ].
  apply refinesO_bind.
  - destruct (truthy _); [ | apply refinesO_refl ].
    apply refinesO_bind.
    + apply refinesO_mapM. intros kv. apply refinesO_bind; [ apply Hself | ].
      intros x. apply refinesO_refl.
    + intros kvs. apply refinesO_refl.
  - intros resolved1. cbv zeta. destruct (truthy _); [ | apply refinesO_refl ].
    apply refinesO_bind; [ apply Hself | ]. intros x. apply refinesO_refl.
Qed.

Lemma ParserB_resolveSchema_more_fuel (fuel extra : nat) (v3 : bool)
  (doc schema : value) :
  refinesO (ParserB.resolveSchema fuel v3 doc schema)
           (ParserB.resolveSchema (extra + fuel) v3 doc schema).
Proof.
  revert schema. induction fuel as [ | fuel IH ]; intros schema.
  - intros H. contradiction.
  - rewrite Nat.add_succ_r. simpl. now apply refinesO_body.
Qed.

(** ** Resolving twice *)

(** C9.  The resolved schema is a function of the document and the
    fragment.  In the first variant a resolution that returns leaves the
    in-flight set as it found it, so resolving the same fragment again, in the
    set the first resolution left, returns the same schema; and in both
    variants any two resolutions of a fragment that complete, whatever
    recursion budget each is given, have equal outcomes. *)
Theorem resolveSchema_deterministic :
  (forall fuel doc schema visited r visited',
      ParserA.resolveSchema fuel doc schema visited = (Ok r, visited') ->
      visited' = visited
      /\ ParserA.resolveSchema fuel doc schema visited' = (Ok r, visited'))
  /\ (forall fuel1 fuel2 doc schema visited,
         fst (ParserA.resolveSchema fuel1 doc schema visited) <> OutOfFuel ->
         fst (ParserA.resolveSchema fuel2 doc schema visited) <> OutOfFuel ->
         ParserA.resolveSchema fuel1 doc schema visited
         = ParserA.resolveSchema fuel2 doc schema visited)
  /\ (forall fuel1 fuel2 v3 doc schema,
         ParserB.resolveSchema fuel1 v3 doc schema <> OutOfFuel ->
         ParserB.resolveSchema fuel2 v3 doc schema <> OutOfFuel ->
         ParserB.resolveSchema fuel1 v3 doc schema
         = ParserB.resolveSchema fuel2 v3 doc schema).
Proof.
  split; [ | split ].
  - intros fuel doc schema visited r visited' H.
    pose proof (resolveSchema_restores fuel doc schema _ _ _ H) as ->.
    split; [ reflexivity | exact H ].
  - intros fuel1 fuel2 doc schema visited H1 H2.
    destruct (ParserA.resolveSchema fuel1 doc schema visited) as [o1 v1] eqn:E1.
    destruct (ParserA.resolveSchema fuel2 doc schema visited) as [o2 v2] eqn:E2.
    simpl in H1, H2.
    pose proof (resolveSchema_more_fuel fuel1 fuel2 doc schema _ _ _ E1 H1) as E1'.
    pose proof (resolveSchema_more_fuel fuel2 fuel1 doc schema _ _ _ E2 H2) as E2'.
    rewrite Nat.add_comm in E2'. rewrite E1' in E2'. exact E2'.
  - intros fuel1 fuel2 v3 doc schema H1 H2.
    rewrite <- (ParserB_resolveSchema_more_fuel fuel1 fuel2 v3 doc schema H1).
    rewrite <- (ParserB_resolveSchema_more_fuel fuel2 fuel1 v3 doc schema H2).
    now rewrite Nat.add_comm.
Qed.

Lemma resolveSchema_deterministic_witness :
  ParserA.resolveSchema 4 selfRefDoc (VObj [("$ref", VStr "#/definitions/A")]) []
  = ParserA.resolveSchema 9 selfRefDoc (VObj [("$ref", VStr "#/definitions/A")]) []
  /\ ParserB.resolveSchema 2 false selfRefDoc
       (VObj [("type", VStr "array"); ("items", VObj [("type", VStr "string")])])
     = ParserB.resolveSchema 7 false selfRefDoc
         (VObj [("type", VStr "array"); ("items", VObj [("type", VStr "string")])])
  /\ snd (ParserA.resolveSchema 4 selfRefDoc
            (VObj [("$ref", VStr "#/definitions/A")]) ["#/definitions/B"])
     = ["#/definitions/B"].
Proof.
  destruct resolveSchema_deterministic as [Hsame [HA HB]].
  split; [ | split ].
  - apply HA; discriminate.
  - apply HB; discriminate.
  - destruct (ParserA.resolveSchema 4 selfRefDoc
                (VObj [("$ref", VStr "#/definitions/A")]) ["#/definitions/B"])
      as [o v] eqn:E.
    assert (Ho : exists r, o = Ok r).
    { apply (f_equal fst) in E. simpl in E. rewrite <- E. eexists. reflexivity. }
    destruct Ho as [r ->]. apply Hsame in E. destruct E as [-> _]. reflexivity.
Defined.

(** ** Self-referential fragments *)

Lemma ParserB_self_reference_steps (fuel : nat) :
  ParserB.resolveSchema fuel false selfRefDoc refToA = OutOfFuel
  /\ ParserB.resolveSchema fuel false selfRefDoc definitionA = OutOfFuel.
Proof.
  induction fuel as [ | fuel [IH1 IH2] ]; [ split; reflexivity | ].
  split.
  - change (ParserB.resolveSchema (S fuel) false selfRefDoc refToA)
      with (ParserB.resolveSchema fuel false selfRefDoc definitionA).
    exact IH2.
  - change (ParserB.resolveSchema (S fuel) false selfRefDoc definitionA)
      with (ParserB.resolveSchemaBody
              (ParserB.resolveSchema fuel false selfRefDoc)
              false selfRefDoc definitionA).
    cbv -[ParserB.resolveSchema] in IH1 |- *. now rewrite IH1.
Qed.

(** C2 at the failing input.  On the self-referential definition [A]
    ([A.field] refers to [A]) the second parser variant, which keeps no set of
    references in flight, exhausts every recursion budget, while the first
    variant returns the schema of [A] with the placeholder in place of the
    cyclic branch. *)
Theorem ParserB_self_reference_never_resolves :
  (forall fuel,
      ParserB.resolveSchema fuel false selfRefDoc refToA = OutOfFuel)
  /\ ParserA.resolveSchemaTop 3 selfRefDoc refToA
     = Ok (VObj [("type", VStr "object");
                 ("properties",
                  VObj [("field",
                         ParserA.circularPlaceholder "#/definitions/A")])]).
Proof.
  split; [ intros fuel; apply ParserB_self_reference_steps | reflexivity ].
Qed.

(** ** Resolving a reference pointer *)

Lemma ParserB_walk_pointerWalk (ref : string) (segments : list string) :
  forall root,
    ParserB.walk ref root segments
    = match pointerWalk root segments with
      | Some target => Ok target
      | None => Throw (resolutionError ref)
      end.
Proof.
  induction segments as [ | seg rest IH ]; intros root; simpl; [ reflexivity | ].
  destruct (truthy (optMember root seg)); [ apply IH | reflexivity ].
Qed.

Lemma ParserA_walk_pointerWalk (segments : list string) :
  forall root,
    truthy root = true ->
    ParserA.walk root segments
    = match pointerWalk root segments with
      | Some target => target
      | None => VObj [("type", VStr "object")]
      end.
Proof.
  induction segments as [ | seg rest IH ]; intros root Ht; simpl; [ reflexivity | ].
  rewrite (optMember_truthy _ _ Ht).
  destruct (truthy (getProp root seg)) eqn:E; [ now apply IH | reflexivity ].
Qed.

Lemma pointerWalk_absent (root : value) (pre post : list string) (seg : string) :
  forall cur,
    pointerWalk root pre = Some cur ->
    truthy (optMember cur seg) = false ->
    pointerWalk root (pre ++ seg :: post) = None.
Proof.
  revert root. induction pre as [ | s pre IH ]; intros root cur H Hs; simpl in *.
  - injection H as ->. now rewrite Hs.
  - destruct (truthy (optMember root s)); [ now apply (IH _ cur) | discriminate ].
Qed.




(** ** The name of an operation *)

Lemma splitOn_single (sep : ascii) (x : string) :
  noChar sep x = true -> splitOn sep x = [x].
Proof.
  induction x as [ | c x IH ]; intros H; [ reflexivity | ].
  simpl in *. apply andb_true_iff in H. destruct H as [Hc Hx].
  apply negb_true_iff in Hc. rewrite Hc, (IH Hx). reflexivity.
Qed.

Lemma splitOn_append (sep : ascii) (x rest : string) :
  noChar sep x = true ->
  splitOn sep (x +++ String sep rest) = x :: splitOn sep rest.
Proof.
  induction x as [ | c x IH ]; intros H.
  - simpl. now rewrite Ascii.eqb_refl.
  - simpl in *. apply andb_true_iff in H. destruct H as [Hc Hx].
    apply negb_true_iff in Hc. rewrite Hc, (IH Hx). reflexivity.
Qed.

Lemma splitOn_joinWith (segments : list string) :
  segments <> [] -> forallb (noChar "/") segments = true ->
  splitOn "/" (joinWith "/" segments) = segments.
Proof.
  induction segments as [ | x segments IH ]; intros Hne H; [ contradiction | ].
  simpl in H. apply andb_true_iff in H. destruct H as [Hx Hs].
  destruct segments as [ | y segments ].
  - simpl. now apply splitOn_single.
  - change (joinWith "/" (x :: y :: segments))
      with (x +++ String "/" (joinWith "/" (y :: segments))).
    rewrite (splitOn_append _ _ _ Hx). f_equal. apply IH; [ discriminate | exact Hs ].
Qed.

Lemma capitalize_append (a b : string) :
  a <> EmptyString -> capitalize (a +++ b) = capitalize a +++ b.
Proof. destruct a; [ contradiction | reflexivity ]. Qed.

Lemma concat_empty_cons (x : string) (l : list string) :
  String.concat EmptyString (x :: l) = x +++ String.concat EmptyString l.
Proof.
  destruct l as [ | y l ]; simpl; [ now rewrite append_empty_r | reflexivity ].
Qed.

Lemma generateOperationId_segments (method : string) (segments : list string) :
  segments <> [] -> forallb (noChar "/") segments = true ->
  ParserB.generateOperationId method (joinWith "/" segments)
  = toLowerCase method
    +++ String.concat EmptyString (map capitalize (filter keptSegment segments)).
Proof.
  intros Hne Hs. unfold ParserB.generateOperationId.
  rewrite (splitOn_joinWith segments Hne Hs). f_equal.
  change (filter (fun p => negb (String.eqb p EmptyString)
                           && negb (startsWith "{" p)) segments)
    with (filter keptSegment segments).
  destruct (filter keptSegment segments) as [ | first rest ] eqn:E;
    [ reflexivity | ].
  assert (Hk : keptSegment first = true).
  { assert (Hin : In first (filter keptSegment segments))
      by (rewrite E; now left).
    apply filter_In in Hin. tauto. }
  rewrite !concat_empty_cons. cbn [map]. rewrite concat_empty_cons.
  apply capitalize_append. unfold keptSegment in Hk.
  apply andb_true_iff in Hk. destruct Hk as [Hk _].
  apply negb_true_iff in Hk. now apply String.eqb_neq.
Qed.

Lemma getProp_assocSet_same (k : string) (v : value) (m : list (string * value)) :
  String.eqb k "length" = false -> getProp (VObj (assocSet k v m)) k = v.
Proof.
  intros H. unfold getProp. simpl. rewrite lookup_assocSet.
  now rewrite String.eqb_refl.
Qed.

(** C6 (as amended).  In the second parser variant an operation whose
    identifier is absent (or falsy) is named from method and path: the pieces
    of the path between slashes that are empty or begin with an opening brace
    are dropped, the others are capitalized and concatenated, and the
    lower-cased method is put in front, so that [get] with
    [/workflows/{ns}/{name}] gives [getWorkflows]; an operation with an
    identifier keeps it; and the tool made for the operation carries that
    name.  In the first variant an operation without identifier gets no
    tool. *)
Theorem synthesized_operation_name :
  ParserB.generateOperationId "get" "/workflows/{ns}/{name}" = "getWorkflows"
  /\ (forall method segments,
         segments <> [] -> forallb (noChar "/") segments = true ->
         ParserB.generateOperationId method (joinWith "/" segments)
         = toLowerCase method
           +++ String.concat EmptyString
                 (map capitalize (filter keptSegment segments)))
  /\ (forall method path operation,
         truthy (getProp operation "operationId") = false ->
         ParserB.operationIdOf method path operation
         = VStr (ParserB.generateOperationId method path))
  /\ (forall method path operation,
         truthy (getProp operation "operationId") = true ->
         ParserB.operationIdOf method path operation
         = getProp operation "operationId")
  /\ (forall fuel v3 doc path method operation tool,
         ParserB.operationToTool fuel v3 doc path method
           (VObj (assocSet "operationId"
                    (ParserB.operationIdOf method path operation)
                    (ownEntries operation)))
         = Ok (Some tool) ->
         name tool = ParserB.operationIdOf method path operation)
  /\ (forall fuel doc path acc method operation,
         truthy (getProp operation "operationId") = false ->
         ParserA.methodStep fuel doc path acc (method, operation) = Ok acc).
Proof.
  split; [ reflexivity | ].
  split; [ exact generateOperationId_segments | ].
  split; [ | split; [ | split ] ].
  - intros method path operation H. unfold ParserB.operationIdOf, orElse.
    now rewrite H.
  - intros method path operation H. unfold ParserB.operationIdOf, orElse.
    now rewrite H.
  - intros fuel v3 doc path method operation tool H.
    unfold ParserB.operationToTool, catchToNull in H.
    match type of H with
    | match ?m with _ => _ end = _ => destruct m as [ t | e | ] eqn:E
    end; try discriminate.
    injection H as <-. apply bind_ok in E. destruct E as [schema [_ E]].
    apply bind_ok in E. destruct E as [d [_ E]]. injection E as <-.
    cbn [name]. now apply getProp_assocSet_same.
  - intros fuel doc path acc method operation H. unfold ParserA.methodStep.
    destruct (negb (isHttpMethod method)); [ reflexivity | ].
    destruct (negb (ParserA.isOperation operation)); [ reflexivity | ].
    now rewrite H.
Qed.

Lemma synthesized_operation_name_witness :
  ParserB.generateOperationId "GET" "/api/v1/workflows/{namespace}"
  = "getApiV1Workflows"
  /\ ParserB.operationIdOf "get" "/workflows/{ns}/{name}"
       (VObj [("summary", VStr "Get a workflow")])
     = VStr "getWorkflows"
  /\ ParserB.operationIdOf "get" "/workflows/{ns}/{name}"
       (VObj [("operationId", VStr "WorkflowService_Get")])
     = VStr "WorkflowService_Get"
  /\ ParserA.methodStep 3 unnamedOperationDoc "/workflows/{ns}/{name}" ([], [])
       ("get", VObj [("summary", VStr "Get a workflow")])
     = Ok ([], []).
Proof.
  destruct synthesized_operation_name as [_ [H2 [H3 [H4 [_ H6]]]]].
  split; [ | split; [ | split ] ].
  - apply (H2 "GET" [EmptyString; "api"; "v1"; "workflows"; "{namespace}"]);
      [ discriminate | reflexivity ].
  - apply H3. reflexivity.
  - apply H4. reflexivity.
  - apply H6. reflexivity.
Defined.

(** The claim as first stated fails in the first variant: the operation
    without identifier is compiled by the second variant under the synthesized
    name and skipped by the first. *)
Lemma ParserA_skips_unnamed_operation :
  ParserA.initialize 3 unnamedOperationDoc = Ok []
  /\ map name (ParserB.getTools 3 unnamedOperationDoc) = [VStr "getWorkflows"].
Proof. split; reflexivity. Qed.

(** ** Duplicate operation identifiers *)

Lemma strictEquals_sym (a b : value) : strictEquals a b = strictEquals b a.
Proof.
  destruct a, b; simpl; try reflexivity.
  - destruct b, b0; reflexivity.
  - apply String.eqb_sym.
  - apply String.eqb_sym.
Qed.

Lemma strictEquals_trans (a b c : value) :
  strictEquals a b = true -> strictEquals b c = true -> strictEquals a c = true.
Proof.
  destruct a, b; simpl; try discriminate; destruct c; simpl; try discriminate;
    try reflexivity.
  - rewrite !Bool.eqb_true_iff. congruence.
  - rewrite !String.eqb_eq. congruence.
  - rewrite !String.eqb_eq. congruence.
Qed.

Lemma setHas_app (x : value) (l1 l2 : list value) :
  setHas x (l1 ++ l2) = setHas x l1 || setHas x l2.
Proof. unfold setHas. apply existsb_app. Qed.

Lemma setHas_true (x : value) (l : list value) :
  setHas x l = true <-> exists y, In y l /\ strictEquals x y = true.
Proof. unfold setHas. apply existsb_exists. Qed.

Lemma distinctNames_snoc (l : list value) (x : value) :
  distinctNames l -> setHas x l = false -> distinctNames (l ++ [x]).
Proof.
  unfold distinctNames. intros Hd Hx. induction Hd as [ | a l Ha Hd IH ]; simpl.
  - constructor; [ constructor | constructor ].
  - simpl in Hx. apply orb_false_iff in Hx. destruct Hx as [Hxa Hx].
    constructor; [ | now apply IH ].
    apply Forall_app. split; [ exact Ha | ].
    constructor; [ | constructor ]. now rewrite strictEquals_sym.
Qed.

Lemma foldM_app {A B : Type} (f : B -> A -> outcome B) (l1 l2 : list A) (b : B) :
  foldM f (l1 ++ l2) b = (b1 <- foldM f l1 b ;; foldM f l2 b1).
Proof.
  revert b. induction l1 as [ | x l1 IH ]; intros b; simpl; [ reflexivity | ].
  destruct (f b x) as [ b' | e | ]; simpl; [ apply IH | reflexivity | reflexivity ].
Qed.

Lemma foldM_map {A A' B : Type} (f : B -> A' -> outcome B) (g : A -> A')
  (l : list A) (b : B) :
  foldM f (map g l) b = foldM (fun acc x => f acc (g x)) l b.
Proof.
  revert b. induction l as [ | x l IH ]; intros b; simpl; [ reflexivity | ].
  destruct (f b (g x)) as [ b' | e | ]; simpl; [ apply IH | reflexivity | reflexivity ].
Qed.

Lemma foldM_ext {A B : Type} (f g : B -> A -> outcome B) (l : list A) (b : B) :
  (forall acc x, f acc x = g acc x) -> foldM f l b = foldM g l b.
Proof.
  intros H. revert b. induction l as [ | x l IH ]; intros b; simpl; [ reflexivity | ].
  rewrite H. destruct (g b x); simpl; [ apply IH | reflexivity | reflexivity ].
Qed.

Section FirstWins.

Variable eligible : candidate -> bool.
Variable ident : candidate -> value.
Variable compile : candidate -> outcome (option Tool).
Hypothesis compile_name :
  forall c t, compile c = Ok (Some t) -> name t = ident c.

Local Abbreviation step := (firstWinsStep eligible ident compile).

Lemma firstWinsStep_cases (acc acc1 : list Tool * list value) (c : candidate) :
  step acc c = Ok acc1 ->
  (acc1 = acc
   /\ (eligible c = true -> setHas (ident c) (snd acc) = false ->
       compile c = Ok None))
  \/ (exists t,
        eligible c = true /\ setHas (ident c) (snd acc) = false
        /\ compile c = Ok (Some t)
        /\ acc1 = (fst acc ++ [t], snd acc ++ [ident c])).
Proof.
  unfold firstWinsStep. destruct (eligible c); simpl.
  - destruct (setHas (ident c) (snd acc)).
    + intros H. injection H as <-. left. split; [ reflexivity | discriminate ].
    + destruct (compile c) as [ [ t | ] | e | ]; simpl; try discriminate.
      * intros H. injection H as <-. right. exists t. auto.
      * intros H. injection H as <-. left. auto.
  - intros H. injection H as <-. left. split; [ reflexivity | discriminate ].
Qed.

Lemma firstWins_fold (cands : list candidate) :
  forall acc acc',
    foldM step cands acc = Ok acc' ->
    map name (fst acc) = snd acc ->
    distinctNames (snd acc) ->
    map name (fst acc') = snd acc'
    /\ distinctNames (snd acc')
    /\ (exists new, fst acc' = fst acc ++ new)
    /\ (forall t, In t (fst acc') ->
          In t (fst acc)
          \/ exists pre c post,
               cands = pre ++ c :: post
               /\ eligible c = true /\ compile c = Ok (Some t)
               /\ setHas (ident c) (snd acc) = false
               /\ forall c', In c' pre -> eligible c' = true ->
                             strictEquals (ident c) (ident c') = true ->
                             compile c' = Ok None)
    /\ (forall c t, In c cands -> eligible c = true ->
          compile c = Ok (Some t) ->
          In t (fst acc')
          \/ exists t', In t' (fst acc')
                        /\ strictEquals (ident c) (name t') = true).
Proof.
  induction cands as [ | c cands IH ]; intros acc acc' H Hn Hd.
  - simpl in H. injection H as <-.
    split; [ exact Hn | ]. split; [ exact Hd | ].
    split; [ exists []; now rewrite app_nil_r | ].
    split; [ intros t Ht; now left | intros c t [] ].
  - simpl in H. apply bind_ok in H. destruct H as [acc1 [Hs H]].
    apply firstWinsStep_cases in Hs.
    destruct Hs as [[-> Hskip] | [t0 [He [Hp [Hc ->]]]]].
    + destruct (IH acc acc' H Hn Hd) as [Hn' [Hd' [[new Hnew] [Hor Hco]]]].
      split; [ exact Hn' | ]. split; [ exact Hd' | ].
      split; [ now exists new | ]. split.
      * intros t Ht. destruct (Hor t Ht) as [Hin | Hex]; [ now left | right ].
        destruct Hex as [pre [c0 [post [-> [He0 [Hc0 [Hp0 Hpre]]]]]]].
        exists (c :: pre), c0, post. split; [ reflexivity | ].
        repeat split; auto.
        intros c' [<- | Hin] Hel Heq; [ | now apply Hpre ].
        apply Hskip; [ exact Hel | ].
        destruct (setHas (ident c) (snd acc)) eqn:Es; [ | reflexivity ].
        apply setHas_true in Es. destruct Es as [y [Hy Hey]].
        assert (Hx : setHas (ident c0) (snd acc) = true).
        { apply setHas_true. exists y. split; [ exact Hy | ].
          now apply (strictEquals_trans _ (ident c)). }
        rewrite Hx in Hp0. discriminate.
      * intros c1 t [<- | Hin] Hel Hct; [ | now apply (Hco c1 t) ].
        destruct (setHas (ident c) (snd acc)) eqn:Es.
        -- right. apply setHas_true in Es. destruct Es as [y [Hy Hey]].
           rewrite <- Hn in Hy. apply in_map_iff in Hy.
           destruct Hy as [t' [<- Ht']]. exists t'. split; [ | exact Hey ].
           rewrite Hnew. apply in_or_app. now left.
        -- rewrite (Hskip Hel eq_refl) in Hct. discriminate.
    + assert (Hn1 : map name (fst (fst acc ++ [t0], snd acc ++ [ident c]))
                    = snd (fst acc ++ [t0], snd acc ++ [ident c])).
      { simpl. rewrite map_app, Hn. simpl. now rewrite (compile_name c t0 Hc). }
      assert (Hd1 : distinctNames (snd (fst acc ++ [t0], snd acc ++ [ident c]))).
      { simpl. now apply distinctNames_snoc. }
      destruct (IH _ acc' H Hn1 Hd1) as [Hn' [Hd' [[new Hnew] [Hor Hco]]]].
      simpl in Hnew, Hor.
      split; [ exact Hn' | ]. split; [ exact Hd' | ].
      split; [ exists (t0 :: new); now rewrite Hnew, <- app_assoc | ]. split.
      * intros t Ht. destruct (Hor t Ht) as [Hin | Hex].
        -- apply in_app_or in Hin. destruct Hin as [Hin | [<- | []]];
             [ now left | right ].
           exists [], c, cands. split; [ reflexivity | ].
           repeat split; auto. intros c' [].
        -- right. destruct Hex as [pre [c0 [post [-> [He0 [Hc0 [Hp0 Hpre]]]]]]].
           rewrite setHas_app in Hp0. apply orb_false_iff in Hp0.
           destruct Hp0 as [Hp0 Hp1].
           exists (c :: pre), c0, post. split; [ reflexivity | ].
           repeat split; auto.
           intros c' [<- | Hin] Hel Heq; [ | now apply Hpre ].
           simpl in Hp1. rewrite Heq in Hp1. discriminate.
      * intros c1 t [<- | Hin] Hel Hct; [ | now apply (Hco c1 t) ].
        left. rewrite Hct in Hc. injection Hc as ->.
        rewrite Hnew. apply in_or_app. left. apply in_or_app. right. now left.
Qed.

Lemma firstWins_from_empty (cands : list candidate) (acc : list Tool * list value) :
  foldM step cands ([], []) = Ok acc ->
  firstCompiledWins eligible ident compile cands (fst acc).
Proof.
  intros H.
  destruct (firstWins_fold cands _ _ H eq_refl (FOP_nil _))
    as [Hn [Hd [_ [Hor Hco]]]].
  split; [ rewrite Hn; exact Hd | ]. split; [ | exact Hco ].
  intros t Ht. destruct (Hor t Ht) as [[] | Hex].
  destruct Hex as [pre [c [post [E [He [Hc [_ Hpre]]]]]]].
  exists pre, c, post. repeat split; auto.
Qed.

(** The nested loops of [generateTools] visit the candidates in order. *)
Variable methodStep :
  string -> list Tool * list value -> string * value ->
  outcome (list Tool * list value).
Hypothesis methodStep_step :
  forall pathTemplate acc entry,
    methodStep pathTemplate acc entry
    = step acc (pathTemplate, fst entry, snd entry).

Lemma pathLoop_candidates (paths : list (string * value)) :
  forall acc r,
    foldM (fun acc entry =>
             methods <- objectEntries (snd entry) ;;
             foldM (methodStep (fst entry)) methods acc) paths acc = Ok r ->
    exists cands, operations paths = Ok cands /\ foldM step cands acc = Ok r.
Proof.
  induction paths as [ | [pathTemplate pathItem] paths IH ]; intros acc r H.
  - simpl in H. exists []. split; [ reflexivity | exact H ].
  - simpl in H. apply bind_ok in H. destruct H as [acc1 [H1 H]].
    apply bind_ok in H1. destruct H1 as [methods [Hm H1]].
    destruct (IH _ _ H) as [cands [Hc Hf]].
    exists (map (fun e => (pathTemplate, fst e, snd e)) methods ++ cands).
    split.
    + simpl. rewrite Hm, Hc. reflexivity.
    + rewrite foldM_app, foldM_map.
      rewrite (foldM_ext _ (methodStep pathTemplate)).
      * rewrite H1. exact Hf.
      * intros a x. symmetry. apply methodStep_step.
Qed.

End FirstWins.

Lemma ParserA_methodStep_step (fuel : nat) (doc : value) (pathTemplate : string)
  (acc : list Tool * list value) (entry : string * value) :
  ParserA.methodStep fuel doc pathTemplate acc entry
  = firstWinsStep eligibleA identA (compileA fuel doc) acc
      (pathTemplate, fst entry, snd entry).
Proof.
  destruct entry as [method operation].
  unfold ParserA.methodStep, firstWinsStep, eligibleA, identA, compileA.
  cbn [fst snd].
  destruct (isHttpMethod method); [ | reflexivity ].
  destruct (ParserA.isOperation operation); [ | reflexivity ].
  destruct (truthy (getProp operation "operationId")); reflexivity.
Qed.

Lemma ParserB_methodStep_step (fuel : nat) (v3 : bool) (doc : value)
  (pathTemplate : string) (acc : list Tool * list value)
  (entry : string * value) :
  ParserB.methodStep fuel v3 doc pathTemplate acc entry
  = firstWinsStep eligibleB identB (compileB fuel v3 doc) acc
      (pathTemplate, fst entry, snd entry).
Proof.
  destruct entry as [method operation].
  unfold ParserB.methodStep, firstWinsStep, eligibleB, identB, compileB.
  cbn [fst snd].
  destruct (isHttpMethod method); [ | reflexivity ].
  destruct (ParserB.isOperation operation); reflexivity.
Qed.

Lemma compileA_name (fuel : nat) (doc : value) (c : candidate) (t : Tool) :
  compileA fuel doc c = Ok (Some t) -> name t = identA c.
Proof.
  destruct c as [[pathTemplate method] operation].
  unfold compileA, identA, ParserA.operationToTool, catchToNull. cbn [snd].
  intros H.
  match type of H with
  | match ?m with _ => _ end = _ => destruct m as [ t' | e | ] eqn:E
  end; try discriminate.
  injection H as <-. apply bind_ok in E. destruct E as [schema [_ E]].
  apply bind_ok in E. destruct E as [d [_ E]]. now injection E as <-.
Qed.

Lemma compileB_name (fuel : nat) (v3 : bool) (doc : value) (c : candidate)
  (t : Tool) :
  compileB fuel v3 doc c = Ok (Some t) -> name t = identB c.
Proof.
  destruct c as [[pathTemplate method] operation].
  unfold compileB, identB, ParserB.operationToTool, catchToNull.
  intros H.
  match type of H with
  | match ?m with _ => _ end = _ => destruct m as [ t' | e | ] eqn:E
  end; try discriminate.
  injection H as <-. apply bind_ok in E. destruct E as [schema [_ E]].
  apply bind_ok in E. destruct E as [d [_ E]]. injection E as <-.
  cbn [name]. now apply getProp_assocSet_same.
Qed.

Lemma foldM_never_runs_out {A B : Type} (f : B -> A -> outcome B)
  (l : list A) :
  (forall b x, f b x <> OutOfFuel) -> forall b, foldM f l b <> OutOfFuel.
Proof.
  intros Hf. induction l as [ | x l IH ]; intros b; simpl; [ discriminate | ].
  pose proof (Hf b x) as Hx. destruct (f b x) as [ b' | e | ]; simpl;
    [ apply IH | discriminate | contradiction ].
Qed.

Lemma catchToNull_returns (m : outcome Tool) :
  exists r, catchToNull m = Ok r.
Proof. destruct m; simpl; eauto. Qed.

Lemma pathLoop_never_runs_out
  (methodStep : string -> list Tool * list value -> string * value ->
                outcome (list Tool * list value))
  (paths : list (string * value)) :
  (forall p acc e, methodStep p acc e <> OutOfFuel) ->
  forall acc,
    foldM (fun acc entry =>
             methods <- objectEntries (snd entry) ;;
             foldM (methodStep (fst entry)) methods acc) paths acc
    <> OutOfFuel.
Proof.
  intros Hm. apply foldM_never_runs_out. intros b [p item]. cbn [fst snd].
  destruct (objectEntries item) as [ methods | e | ] eqn:E; simpl.
  - apply foldM_never_runs_out. intros b' x. apply Hm.
  - discriminate.
  - destruct item; discriminate.
Qed.

Lemma ParserA_methodStep_never_runs_out (fuel : nat) (doc : value)
  (p : string) (acc : list Tool * list value) (e : string * value) :
  ParserA.methodStep fuel doc p acc e <> OutOfFuel.
Proof.
  destruct e as [method operation]. unfold ParserA.methodStep.
  destruct (negb (isHttpMethod method)); [ discriminate | ].
  destruct (negb (ParserA.isOperation operation)); [ discriminate | ].
  destruct (negb (truthy (getProp operation "operationId"))
            || setHas (getProp operation "operationId") (snd acc));
    [ discriminate | ].
  unfold ParserA.operationToTool.
  match goal with
  | |- context [ catchToNull ?m ] =>
      destruct (catchToNull_returns m) as [r ->]
  end.
  destruct r; discriminate.
Qed.

Lemma ParserB_methodStep_never_runs_out (fuel : nat) (v3 : bool) (doc : value)
  (p : string) (acc : list Tool * list value) (e : string * value) :
  ParserB.methodStep fuel v3 doc p acc e <> OutOfFuel.
Proof.
  destruct e as [method operation]. unfold ParserB.methodStep.
  destruct (negb (isHttpMethod method)); [ discriminate | ].
  destruct (negb (ParserB.isOperation operation)); [ discriminate | ].
  destruct (setHas (ParserB.operationIdOf method p operation) (snd acc));
    [ discriminate | ].
  unfold ParserB.operationToTool.
  match goal with
  | |- context [ catchToNull ?m ] =>
      destruct (catchToNull_returns m) as [r ->]
  end.
  destruct r; discriminate.
Qed.

Lemma ParserA_generateTools_never_runs_out (fuel : nat) (doc : value) :
  ParserA.generateTools fuel doc <> OutOfFuel.
Proof.
  unfold ParserA.generateTools.
  destruct (negb (truthy doc)); [ discriminate | ].
  destruct (objectEntries (getProp doc "paths")) as [ paths | e | ] eqn:E;
    simpl; [ | discriminate | destruct (getProp doc "paths"); discriminate ].
  pose proof (pathLoop_never_runs_out (ParserA.methodStep fuel doc) paths
                (ParserA_methodStep_never_runs_out fuel doc) ([], [])) as H.
  unfold ParserA.pathStep.
  destruct (foldM _ paths ([], [])) as [ acc | e | ];
    simpl; [ discriminate | discriminate | contradiction ].
Qed.

Lemma ParserB_generateTools_never_runs_out (fuel : nat) (v3 : bool)
  (doc : value) :
  ParserB.generateTools fuel v3 doc <> OutOfFuel.
Proof.
  unfold ParserB.generateTools.
  destruct (negb (truthy doc)); [ discriminate | ].
  destruct (objectEntries (getProp doc "paths")) as [ paths | e | ] eqn:E;
    simpl; [ | discriminate | destruct (getProp doc "paths"); discriminate ].
  pose proof (pathLoop_never_runs_out (ParserB.methodStep fuel v3 doc) paths
                (ParserB_methodStep_never_runs_out fuel v3 doc) ([], [])) as H.
  unfold ParserB.pathStep.
  destruct (foldM _ paths ([], [])) as [ acc | e | ];
    simpl; [ discriminate | discriminate | contradiction ].
Qed.

Lemma ParserB_cycle_steps (fuel : nat) :
  ParserB.resolveSchema fuel true cyclicDoc refToComponentA = OutOfFuel
  /\ ParserB.resolveSchema fuel true cyclicDoc componentA = OutOfFuel.
Proof.
  induction fuel as [ | fuel [IH1 IH2] ]; [ split; reflexivity | ].
  split.
  - change (ParserB.resolveSchema (S fuel) true cyclicDoc refToComponentA)
      with (ParserB.resolveSchema fuel true cyclicDoc componentA).
    exact IH2.
  - change (ParserB.resolveSchema (S fuel) true cyclicDoc componentA)
      with (ParserB.resolveSchemaBody
              (ParserB.resolveSchema fuel true cyclicDoc)
              true cyclicDoc componentA).
    cbv -[ParserB.resolveSchema] in IH1 |- *. now rewrite IH1.
Qed.

(** On a document with a self-referential schema the second variant drops
    the operation that reaches the cycle, whatever the depth of the call
    stack, and lists the other one; the first variant lists both. *)
Remark cyclic_operation_is_dropped (fuel : nat) :
  map name (ParserB.getTools (S fuel) cyclicDoc) = [VStr "listB"]
  /\ map name (ParserA.getTools 5 cyclicDoc) = [VStr "listA"; VStr "listB"].
Proof.
  split; [ | reflexivity ].
  unfold ParserB.getTools, ParserB.initialize.
  destruct (ParserB_cycle_steps (S fuel)) as [H _].
  assert (H2 : ParserB.resolveSchema (S fuel) true cyclicDoc
                 (VObj [("type", VStr "integer")])
               = Ok (VObj [("type", VStr "integer")])) by reflexivity.
  cbv -[ParserB.resolveSchema] in H, H2 |- *. now rewrite H, H2.
Qed.

(** C4 (as amended).  In both parser variants tool generation returns on
    every document (an operation whose schema exhausts the call stack is
    dropped like any operation that fails to compile), and the names of the
    compiled tools are pairwise distinct.  Every tool comes from an operation
    that passes the guards of the loop and compiles, and every earlier
    operation with the same identifier failed to compile: the name goes to
    the first occurrence that compiles, and later occurrences are dropped.
    An operation that compiles always finds its name in the tool list, held
    by its own tool or by the tool of an earlier occurrence. *)
Theorem first_compiled_occurrence_wins :
  (forall fuel doc tools,
      ParserA.generateTools fuel doc = Ok tools ->
      exists cands,
        documentOperations doc = Ok cands
        /\ firstCompiledWins eligibleA identA (compileA fuel doc) cands tools)
  /\ (forall fuel v3 doc tools,
         ParserB.generateTools fuel v3 doc = Ok tools ->
         exists cands,
           documentOperations doc = Ok cands
           /\ firstCompiledWins eligibleB identB (compileB fuel v3 doc)
                cands tools)
  /\ (forall fuel doc, ParserA.generateTools fuel doc <> OutOfFuel)
  /\ (forall fuel v3 doc, ParserB.generateTools fuel v3 doc <> OutOfFuel).
Proof.
  split; [ | split; [ | split ] ].
  - intros fuel doc tools H. unfold ParserA.generateTools in H.
    destruct (negb (truthy doc)); [ discriminate | ].
    apply bind_ok in H. destruct H as [paths [Hp H]].
    apply bind_ok in H. destruct H as [acc [Hf H]]. injection H as <-.
    destruct (pathLoop_candidates eligibleA identA (compileA fuel doc)
                (ParserA.methodStep fuel doc)
                (ParserA_methodStep_step fuel doc) paths _ _ Hf)
      as [cands [Hc Hs]].
    exists cands. split.
    + unfold documentOperations. rewrite Hp. exact Hc.
    + apply firstWins_from_empty; [ apply compileA_name | exact Hs ].
  - intros fuel v3 doc tools H. unfold ParserB.generateTools in H.
    destruct (negb (truthy doc)); [ discriminate | ].
    apply bind_ok in H. destruct H as [paths [Hp H]].
    apply bind_ok in H. destruct H as [acc [Hf H]]. injection H as <-.
    destruct (pathLoop_candidates eligibleB identB (compileB fuel v3 doc)
                (ParserB.methodStep fuel v3 doc)
                (ParserB_methodStep_step fuel v3 doc) paths _ _ Hf)
      as [cands [Hc Hs]].
    exists cands. split.
    + unfold documentOperations. rewrite Hp. exact Hc.
    + apply firstWins_from_empty; [ apply compileB_name | exact Hs ].
  - apply ParserA_generateTools_never_runs_out.
  - apply ParserB_generateTools_never_runs_out.
Qed.

Lemma first_compiled_occurrence_wins_witness :
  (exists cands,
      documentOperations duplicateIdDoc = Ok cands
      /\ firstCompiledWins eligibleA identA (compileA 3 duplicateIdDoc) cands
           (ParserA.getTools 3 duplicateIdDoc))
  /\ (exists cands,
         documentOperations duplicateIdDoc = Ok cands
         /\ firstCompiledWins eligibleB identB (compileB 3 false duplicateIdDoc)
              cands (ParserB.getTools 3 duplicateIdDoc))
  /\ (exists cands,
         documentOperations cyclicDoc = Ok cands
         /\ firstCompiledWins eligibleB identB (compileB 6 true cyclicDoc)
              cands (ParserB.getTools 6 cyclicDoc)).
Proof.
  destruct first_compiled_occurrence_wins as [HA [HB _]].
  split; [ | split ].
  - apply HA. reflexivity.
  - apply HB. reflexivity.
  - apply HB. reflexivity.
Defined.

(** The claim as first stated fails when the first occurrence does not
    compile: in the second variant the operation on [/a] is dropped for its
    dangling reference, and the one tool named [foo] is made from the second
    occurrence, on [/b]. *)
Lemma second_occurrence_takes_the_name :
  documentOperations duplicateIdDoc
  = Ok [("/a", "get", danglingOperation);
        ("/b", "get", VObj [("operationId", VStr "foo")])]
  /\ compileB 3 false duplicateIdDoc ("/a", "get", danglingOperation) = Ok None
  /\ map name (ParserB.getTools 3 duplicateIdDoc) = [VStr "foo"]
  /\ map description (ParserB.getTools 3 duplicateIdDoc) = ["GET /b"]
  /\ ParserB.getOperationInfo duplicateIdDoc "foo" = Ok (Some ("get", "/a")).
Proof. repeat split; reflexivity. Qed.

(** ** A parameter without schema *)

Lemma natToString_digit (n : nat) : startsWithDigit (natToString n) = true.
Proof. unfold natToString. destruct (Nat.to_uint n); reflexivity. Qed.

Lemma lookup_indexedFrom (k : string) (l : list value) :
  forall i x, lookup k (indexedFrom i l) = Some x ->
              In x l /\ startsWithDigit k = true.
Proof.
  induction l as [ | y l IH ]; intros i x H; [ discriminate | ].
  simpl in H. destruct (String.eqb k (natToString i)) eqn:E.
  - injection H as ->. apply String.eqb_eq in E. subst k.
    split; [ now left | apply natToString_digit ].
  - apply IH in H. destruct H as [H1 H2]. split; [ now right | exact H2 ].
Qed.

Section ParameterLoop.

Variable key : value -> string.
Variable step :
  list (string * value) * list value -> value ->
  outcome (list (string * value) * list value).
Hypothesis step_other :
  forall acc q acc1 k,
    step acc q = Ok acc1 -> key q <> k ->
    lookup k (fst acc1) = lookup k (fst acc).

Lemma parameterLoop_keeps (k : string) (post : list value) :
  forall acc acc',
    foldM step post acc = Ok acc' ->
    (forall q, In q post -> key q <> k) ->
    lookup k (fst acc') = lookup k (fst acc).
Proof.
  induction post as [ | q post IH ]; intros acc acc' H Hk.
  - simpl in H. now injection H as <-.
  - simpl in H. apply bind_ok in H. destruct H as [acc1 [Hs H]].
    rewrite (IH _ _ H); [ | intros q' Hq'; apply Hk; now right ].
    apply (step_other _ _ _ _ Hs). apply Hk. now left.
Qed.

Lemma parameterLoop_at (pre post : list value) (param : value) :
  forall acc acc',
    foldM step (pre ++ param :: post) acc = Ok acc' ->
    (forall q, In q post -> key q <> key param) ->
    exists a1 a2,
      step a1 param = Ok a2
      /\ lookup (key param) (fst acc') = lookup (key param) (fst a2).
Proof.
  intros acc acc' H Hk. rewrite foldM_app in H.
  apply bind_ok in H. destruct H as [a1 [_ H]].
  simpl in H. apply bind_ok in H. destruct H as [a2 [Hs H]].
  exists a1, a2. split; [ exact Hs | ].
  now apply (parameterLoop_keeps _ post).
Qed.

End ParameterLoop.

Lemma member_ok (v : value) (k : string) (x : value) :
  member v k = Ok x -> x = getProp v k.
Proof. destruct v; simpl; intros H; try discriminate; now injection H. Qed.

Lemma ParserB_paramStepV3_other (fuel : nat) (v3 : bool) (doc : value)
  (acc : list (string * value) * list value) (q : value)
  (acc1 : list (string * value) * list value) (k : string) :
  ParserB.paramStepV3 fuel v3 doc acc q = Ok acc1 -> propertyKey q <> k ->
  lookup k (fst acc1) = lookup k (fst acc).
Proof.
  unfold ParserB.paramStepV3, propertyKey. intros H Hk.
  apply bind_ok in H. destruct H as [pschema [_ H]].
  apply bind_ok in H. destruct H as [schema [_ H]]. injection H as <-.
  cbn [fst]. apply lookup_assign_other. congruence.
Qed.

Lemma ParserB_paramStepV3_schemaless (fuel : nat) (v3 : bool) (doc : value)
  (acc acc1 : list (string * value) * list value) (param : value) :
  propertyKey param <> "__proto__" ->
  truthy (getProp param "schema") = false ->
  ParserB.paramStepV3 fuel v3 doc acc param = Ok acc1 ->
  lookup (propertyKey param) (fst acc1) = Some (stringProperty param).
Proof.
  unfold ParserB.paramStepV3, propertyKey. intros Hn Hs H.
  apply bind_ok in H. destruct H as [pschema [Hm H]].
  apply member_ok in Hm. subst pschema. unfold orElse in H. rewrite Hs in H.
  apply bind_ok in H. destruct H as [schema [Hr H]].
  destruct fuel as [ | fuel ]; [ discriminate | ].
  cbn in Hr. injection Hr as <-. injection H as <-.
  cbn [fst]. now rewrite lookup_assign_same.
Qed.

Lemma ParserA_paramStep_other (fuel : nat) (doc : value)
  (acc : list (string * value) * list value) (q : value)
  (acc1 : list (string * value) * list value) (k : string) :
  ParserA.isSwagger2 doc = false ->
  ParserA.paramStep fuel doc acc q = Ok acc1 -> propertyKey q <> k ->
  lookup k (fst acc1) = lookup k (fst acc).
Proof.
  unfold ParserA.paramStep, propertyKey. intros Hv H Hk. rewrite Hv in H.
  cbn [bind andb] in H.
  apply bind_ok in H. destruct H as [pschema [_ H]].
  apply bind_ok in H. destruct H as [schema [_ H]]. injection H as <-.
  cbn [fst]. apply lookup_assign_other. congruence.
Qed.

Lemma ParserA_paramStep_schemaless (fuel : nat) (doc : value)
  (acc acc1 : list (string * value) * list value) (param : value) :
  ParserA.isSwagger2 doc = false ->
  propertyKey param <> "__proto__" ->
  truthy (getProp param "schema") = false ->
  ParserA.paramStep fuel doc acc param = Ok acc1 ->
  lookup (propertyKey param) (fst acc1) = Some (stringProperty param).
Proof.
  unfold ParserA.paramStep, propertyKey. intros Hv Hn Hs H. rewrite Hv in H.
  cbn [bind andb] in H.
  apply bind_ok in H. destruct H as [pschema [Hm H]].
  apply member_ok in Hm. subst pschema. unfold orElse in H. rewrite Hs in H.
  apply bind_ok in H. destruct H as [schema [Hr H]].
  destruct fuel as [ | fuel ]; [ discriminate | ].
  cbn in Hr. injection Hr as <-. injection H as <-.
  cbn [fst]. now rewrite lookup_assign_same.
Qed.

Lemma strictEquals_string (v : value) (t : string) :
  strictEquals v (VStr t) = true -> v = VStr t.
Proof.
  destruct v; simpl; try discriminate. intros H.
  apply String.eqb_eq in H. now subst.
Qed.

Lemma strictEquals_string_refl (t : string) :
  strictEquals (VStr t) (VStr t) = true.
Proof. simpl. apply String.eqb_refl. Qed.

Lemma ParserB_paramStepV2_other (fuel : nat) (v3 : bool) (doc : value)
  (acc : list (string * value) * list value) (q : value)
  (acc1 : list (string * value) * list value) (k : string) :
  ParserB.paramStepV2 fuel v3 doc acc q = Ok acc1 -> legacyPropertyKey q <> k ->
  lookup k (fst acc1) = lookup k (fst acc).
Proof.
  unfold ParserB.paramStepV2, legacyPropertyKey, propertyKey. intros H Hk.
  apply bind_ok in H. destruct H as [loc [Hm H]].
  apply member_ok in Hm. subst loc.
  destruct (strictEquals (getProp q "in") (VStr "body")).
  - apply bind_ok in H. destruct H as [bodySchema [_ H]]. injection H as <-.
    cbn [fst]. rewrite lookup_assocSet.
    destruct (String.eqb k "body") eqn:E; [ | reflexivity ].
    apply String.eqb_eq in E. now subst k.
  - injection H as <-. cbn [fst]. apply lookup_assign_other. congruence.
Qed.

Lemma ParserB_paramStepV2_schemaless_body (fuel : nat) (v3 : bool) (doc : value)
  (acc acc1 : list (string * value) * list value) (param : value) :
  getProp param "in" = VStr "body" ->
  truthy (getProp param "schema") = false ->
  ParserB.paramStepV2 fuel v3 doc acc param = Ok acc1 ->
  lookup "body" (fst acc1) = Some (objectProperty param).
Proof.
  unfold ParserB.paramStepV2, objectProperty. intros Hin Hs H.
  apply bind_ok in H. destruct H as [loc [Hm H]].
  apply member_ok in Hm. subst loc. rewrite Hin, strictEquals_string_refl in H.
  unfold orElse at 1 in H. rewrite Hs in H.
  apply bind_ok in H. destruct H as [bodySchema [Hr H]].
  destruct fuel as [ | fuel ]; [ discriminate | ].
  cbn in Hr. injection Hr as <-. injection H as <-.
  cbn [fst]. now rewrite lookup_assocSet, String.eqb_refl.
Qed.

Lemma findM_first (p : value -> outcome bool) (pre post : list value)
  (param b : value) :
  (forall q, In q pre -> p q <> Ok true) ->
  p param = Ok true ->
  findM p (pre ++ param :: post) = Ok b -> b = param.
Proof.
  intros Hpre Hp. induction pre as [ | q pre IH ]; simpl; intros H.
  - rewrite Hp in H. cbn in H. now injection H.
  - apply bind_ok in H. destruct H as [t [Hq H]]. destruct t.
    + exfalso. apply (Hpre q); [ now left | exact Hq ].
    + apply IH; [ | exact H ]. intros q' Hq'. apply Hpre. now right.
Qed.

Lemma isBodyParameter_true (param : value) :
  getProp param "in" = VStr "body" ->
  (loc <- member param "in" ;; Ok (strictEquals loc (VStr "body"))) = Ok true
  /\ truthy param = true.
Proof.
  intros H. destruct param as [ | | b | n | s | elements | m ];
    try discriminate; cbn [member bind truthy].
  - exfalso. unfold getProp in H. cbn [ownEntries] in H.
    destruct (lookup "in" (indexedFrom 0 (map VStr (chars s)))) eqn:E;
      [ | discriminate ].
    apply lookup_indexedFrom in E. destruct E as [_ E]. discriminate.
  - exfalso. unfold getProp in H. cbn [ownEntries] in H.
    destruct (lookup "in" (indexedFrom 0 elements)) eqn:E; [ | discriminate ].
    apply lookup_indexedFrom in E. destruct E as [_ E]. discriminate.
  - rewrite H, strictEquals_string_refl. auto.
Qed.

Lemma isBodyParameter_false (q : value) :
  getProp q "in" <> VStr "body" ->
  (loc <- member q "in" ;; Ok (strictEquals loc (VStr "body"))) <> Ok true.
Proof.
  intros H E. apply bind_ok in E. destruct E as [loc [Hm E]].
  apply member_ok in Hm. subst loc. injection E as E.
  now apply strictEquals_string in E.
Qed.

(** C10 (as amended).  [resolveSchema] applied to an absent, null or
    otherwise falsy fragment returns exactly [{type: "string"}], in both
    variants.  For a parameter without schema of an OpenAPI 3.x operation
    (second variant: [buildInputSchemaV3]; first variant: a document that is
    not Swagger 2.0) whose name is not [__proto__], the compiled input
    schema has, under the parameter's name, the property
    [{type: "string", description}], provided no later parameter has the same
    name and the request body, stored under [body], does not take its place.
    A Swagger 2.0 body parameter without schema is compiled to the property
    [body] of type [object]: in the second variant ([buildInputSchemaV2])
    provided no later parameter is stored under [body], in the first variant
    for the first body parameter of an operation without request-body
    schema. *)
Theorem schemaless_parameter_is_string :
  (forall fuel doc s visited,
      truthy s = false ->
      ParserA.resolveSchema (S fuel) doc s visited
      = (Ok (VObj [("type", VStr "string")]), visited))
  /\ (forall fuel v3 doc s,
         truthy s = false ->
         ParserB.resolveSchema (S fuel) v3 doc s
         = Ok (VObj [("type", VStr "string")]))
  /\ (forall fuel v3 doc operation pre param post result,
         getProp operation "parameters" = VArr (pre ++ param :: post) ->
         truthy (getProp param "schema") = false ->
         propertyKey param <> "__proto__" ->
         (forall q, In q post -> propertyKey q <> propertyKey param) ->
         propertyKey param <> "body"
         \/ truthy (ParserB.requestBodySchema operation) = false ->
         ParserB.buildInputSchemaV3 fuel v3 doc operation = Ok result ->
         exists properties required,
           result = inputSchemaObject properties required
           /\ lookup (propertyKey param) properties = Some (stringProperty param))
  /\ (forall fuel doc operation pre param post result,
         ParserA.isSwagger2 doc = false ->
         getProp operation "parameters" = VArr (pre ++ param :: post) ->
         truthy (getProp param "schema") = false ->
         propertyKey param <> "__proto__" ->
         (forall q, In q post -> propertyKey q <> propertyKey param) ->
         propertyKey param <> "body"
         \/ truthy (ParserA.requestBodySchema operation) = false ->
         ParserA.buildInputSchema fuel doc operation = Ok result ->
         exists properties required,
           result = inputSchemaObject properties required
           /\ lookup (propertyKey param) properties = Some (stringProperty param))
  /\ (forall fuel v3 doc operation pre param post result,
         getProp operation "parameters" = VArr (pre ++ param :: post) ->
         getProp param "in" = VStr "body" ->
         truthy (getProp param "schema") = false ->
         (forall q, In q post -> legacyPropertyKey q <> "body") ->
         ParserB.buildInputSchemaV2 fuel v3 doc operation = Ok result ->
         exists properties required,
           result = inputSchemaObject properties required
           /\ lookup "body" properties = Some (objectProperty param))
  /\ (forall fuel doc operation pre param post result,
         ParserA.isSwagger2 doc = true ->
         getProp operation "parameters" = VArr (pre ++ param :: post) ->
         (forall q, In q pre -> getProp q "in" <> VStr "body") ->
         getProp param "in" = VStr "body" ->
         truthy (getProp param "schema") = false ->
         truthy (ParserA.requestBodySchema operation) = false ->
         ParserA.buildInputSchema fuel doc operation = Ok result ->
         exists properties required,
           result = inputSchemaObject properties required
           /\ lookup "body" properties = Some (objectProperty param)).
Proof.
  split; [ | split; [ | split; [ | split; [ | split ] ] ] ].
  - intros fuel doc s visited H. simpl. unfold ParserA.resolveSchemaBody.
    now rewrite H.
  - intros fuel v3 doc s H. simpl. unfold ParserB.resolveSchemaBody.
    now rewrite H.
  - intros fuel v3 doc operation pre param post result Hp Hs Hn Hpost Hbody H.
    unfold ParserB.buildInputSchemaV3 in H. rewrite Hp in H.
    cbn [truthy iterate bind] in H.
    apply bind_ok in H. destruct H as [acc [Hf H]].
    apply bind_ok in H. destruct H as [acc2 [Hb H]]. injection H as <-.
    exists (fst acc2), (snd acc2). split; [ reflexivity | ].
    destruct (parameterLoop_at propertyKey (ParserB.paramStepV3 fuel v3 doc)
                (ParserB_paramStepV3_other fuel v3 doc)
                pre post param _ _ Hf Hpost) as [a1 [a2 [Hstep Hl]]].
    apply (ParserB_paramStepV3_schemaless _ _ _ _ _ _ Hn Hs) in Hstep.
    rewrite Hstep in Hl.
    destruct (truthy (ParserB.requestBodySchema operation)).
    + destruct Hbody as [Hbody | Hbody]; [ | discriminate ].
      apply bind_ok in Hb. destruct Hb as [bodySchema [_ Hb]].
      injection Hb as <-. cbn [fst]. rewrite lookup_assocSet.
      apply String.eqb_neq in Hbody. now rewrite Hbody.
    + now injection Hb as <-.
  - intros fuel doc operation pre param post result Hv Hp Hs Hn Hpost Hbody H.
    unfold ParserA.buildInputSchema in H. rewrite Hp, Hv in H.
    cbn [truthy iterate bind andb] in H.
    apply bind_ok in H. destruct H as [acc [Hf H]].
    apply bind_ok in H. destruct H as [v3 [_ H]].
    apply bind_ok in H. destruct H as [acc2 [Hb H]]. injection H as <-.
    exists (fst acc2), (snd acc2). split; [ reflexivity | ].
    destruct (parameterLoop_at propertyKey (ParserA.paramStep fuel doc)
                (fun acc q acc1 k => ParserA_paramStep_other fuel doc acc q acc1 k Hv)
                pre post param _ _ Hf Hpost) as [a1 [a2 [Hstep Hl]]].
    apply (ParserA_paramStep_schemaless _ _ _ _ _ Hv Hn Hs) in Hstep.
    rewrite Hstep in Hl.
    destruct (v3 && truthy (ParserA.requestBodySchema operation)) eqn:Ev.
    + apply andb_true_iff in Ev. destruct Ev as [_ Ev].
      destruct Hbody as [Hbody | Hbody]; [ | rewrite Ev in Hbody; discriminate ].
      apply bind_ok in Hb. destruct Hb as [bodySchema [_ Hb]].
      injection Hb as <-. cbn [fst]. rewrite lookup_assocSet.
      apply String.eqb_neq in Hbody. now rewrite Hbody.
    + now injection Hb as <-.
  - intros fuel v3 doc operation pre param post result Hp Hin Hs Hpost H.
    unfold ParserB.buildInputSchemaV2 in H. rewrite Hp in H.
    cbn [truthy iterate bind] in H.
    apply bind_ok in H. destruct H as [acc [Hf H]]. injection H as <-.
    exists (fst acc), (snd acc). split; [ reflexivity | ].
    assert (Hkey : legacyPropertyKey param = "body").
    { unfold legacyPropertyKey. now rewrite Hin, strictEquals_string_refl. }
    destruct (parameterLoop_at legacyPropertyKey
                (ParserB.paramStepV2 fuel v3 doc)
                (ParserB_paramStepV2_other fuel v3 doc)
                pre post param _ _ Hf) as [a1 [a2 [Hstep Hl]]].
    { intros q Hq. rewrite Hkey. now apply Hpost. }
    rewrite Hkey in Hl. rewrite Hl.
    now apply (ParserB_paramStepV2_schemaless_body fuel v3 doc a1).
  - intros fuel doc operation pre param post result Hv Hp Hpre Hin Hs Hrb H.
    unfold ParserA.buildInputSchema in H. rewrite Hp, Hv, Hrb in H.
    cbn [truthy iterate asArray] in H.
    apply bind_ok in H. destruct H as [acc [_ H]].
    apply bind_ok in H. destruct H as [v3 [_ H]].
    rewrite andb_false_r in H. cbn [andb bind] in H.
    apply bind_ok in H. destruct H as [acc2 [Hb H]]. injection H as <-.
    exists (fst acc2), (snd acc2). split; [ reflexivity | ].
    apply bind_ok in Hb. destruct Hb as [bodyParam [Hfind Hb]].
    destruct (isBodyParameter_true param Hin) as [Hbody Htruthy].
    apply (findM_first _ pre post param) in Hfind;
      [ | intros q Hq; apply isBodyParameter_false; now apply Hpre
        | exact Hbody ].
    subst bodyParam. rewrite Htruthy in Hb.
    unfold orElse at 1 in Hb. rewrite Hs in Hb.
    apply bind_ok in Hb. destruct Hb as [bodySchema [Hr Hb]].
    destruct fuel as [ | fuel ]; [ discriminate | ].
    cbn in Hr. injection Hr as <-. injection Hb as <-.
    cbn [fst]. now rewrite lookup_assocSet, String.eqb_refl.
Qed.

Lemma schemaless_parameter_is_string_witness :
  (exists properties required,
      inputSchemaObject
        [("namespace", VObj [("type", VStr "string"); ("description", VUndef)]);
         ("limit", VObj [("type", VStr "string");
                         ("description", VStr "Page size")])]
        [VStr "namespace"]
      = inputSchemaObject properties required
      /\ lookup "limit" properties
         = Some (VObj [("type", VStr "string");
                       ("description", VStr "Page size")]))
  /\ (exists properties required,
         inputSchemaObject
           [("namespace", VObj [("type", VStr "string"); ("description", VUndef)]);
            ("limit", VObj [("type", VStr "string");
                            ("description", VStr "Page size")])]
           [VStr "namespace"]
         = inputSchemaObject properties required
         /\ lookup "namespace" properties
            = Some (VObj [("type", VStr "string"); ("description", VUndef)]))
  /\ ParserB.resolveSchema 1 true unnamedOperationDoc VUndef
     = Ok (VObj [("type", VStr "string")])
  /\ (exists properties required,
         inputSchemaObject
           [("body", VObj [("type", VStr "object");
                           ("description", VStr "Request body")]);
            ("limit", VObj [("type", VStr "number");
                            ("description", VUndef)])]
           []
         = inputSchemaObject properties required
         /\ lookup "body" properties
            = Some (VObj [("type", VStr "object");
                          ("description", VStr "Request body")]))
  /\ (exists properties required,
         inputSchemaObject
           [("limit", VObj [("type", VStr "integer");
                            ("description", VUndef)]);
            ("body", VObj [("type", VStr "object");
                           ("description", VStr "Request body")])]
           []
         = inputSchemaObject properties required
         /\ lookup "body" properties
            = Some (VObj [("type", VStr "object");
                          ("description", VStr "Request body")])).
Proof.
  destruct schemaless_parameter_is_string as [_ [HrB [HB [HA [HB2 HA2]]]]].
  split; [ | split; [ | split; [ | split ] ] ].
  - apply (HB 2 true unnamedOperationDoc schemalessOperation
             [VObj [("name", VStr "namespace"); ("in", VStr "path");
                    ("required", VBool true)]]
             (VObj [("name", VStr "limit"); ("in", VStr "query");
                    ("schema", VNull); ("description", VStr "Page size")])
             []).
    + reflexivity.
    + reflexivity.
    + discriminate.
    + intros q [].
    + left. discriminate.
    + reflexivity.
  - apply (HA 2 unnamedOperationDoc schemalessOperation
             []
             (VObj [("name", VStr "namespace"); ("in", VStr "path");
                    ("required", VBool true)])
             [VObj [("name", VStr "limit"); ("in", VStr "query");
                    ("schema", VNull); ("description", VStr "Page size")]]).
    + reflexivity.
    + reflexivity.
    + reflexivity.
    + discriminate.
    + intros q [<- | []]. discriminate.
    + left. discriminate.
    + reflexivity.
  - apply HrB. reflexivity.
  - apply (HB2 2 false selfRefDoc legacyOperation []
             (VObj [("name", VStr "payload"); ("in", VStr "body")])
             [VObj [("name", VStr "limit"); ("in", VStr "query");
                    ("type", VStr "integer")]]).
    + reflexivity.
    + reflexivity.
    + reflexivity.
    + intros q [<- | []]. discriminate.
    + reflexivity.
  - apply (HA2 2 selfRefDoc legacyOperation []
             (VObj [("name", VStr "payload"); ("in", VStr "body")])
             [VObj [("name", VStr "limit"); ("in", VStr "query");
                    ("type", VStr "integer")]]).
    + reflexivity.
    + reflexivity.
    + intros q [].
    + reflexivity.
    + reflexivity.
    + reflexivity.
    + reflexivity.
Defined.

(** The claim as first stated fails on Swagger 2.0 parameters, which carry
    no schema by design of the format: the body parameter [payload] enters
    the input schema as the property [body] of type [object], and the query
    parameter [limit] takes the type its [type] member gives. *)
Lemma legacy_parameters_are_not_strings :
  getProp (VObj [("name", VStr "payload"); ("in", VStr "body")]) "schema" = VUndef
  /\ ParserB.buildInputSchemaV2 2 false selfRefDoc legacyOperation
     = Ok (inputSchemaObject
             [("body", VObj [("type", VStr "object");
                             ("description", VStr "Request body")]);
              ("limit", VObj [("type", VStr "number");
                              ("description", VUndef)])]
             [])
  /\ ParserA.buildInputSchema 2 selfRefDoc legacyOperation
     = Ok (inputSchemaObject
             [("limit", VObj [("type", VStr "integer");
                              ("description", VUndef)]);
              ("body", VObj [("type", VStr "object");
                             ("description", VStr "Request body")])]
             []).
Proof. repeat split; reflexivity. Qed.

(** ** The first variant's resolver always returns *)

Lemma height_member (m : list (string * value)) (k : string) (x : value) :
  In (k, x) m -> height x < height (VObj m).
Proof.
  induction m as [ | kv m IH ]; intros H; [ contradiction | ].
  simpl in *. destruct H as [-> | H].
  - simpl. lia.
  - apply IH in H. lia.
Qed.

Lemma height_element (l : list value) (x : value) :
  In x l -> height x < height (VArr l).
Proof.
  induction l as [ | y l IH ]; intros H; [ contradiction | ].
  simpl in *. destruct H as [-> | H]; [ lia | ]. apply IH in H. lia.
Qed.

Lemma refsIn_member (m : list (string * value)) (k : string) (x : value) :
  In (k, x) m -> incl (refsIn x) (refsIn (VObj m)).
Proof.
  induction m as [ | kv m IH ]; intros H; [ contradiction | ].
  destruct H as [-> | H]; intros r Hr; simpl.
  - apply in_or_app. right. apply in_or_app. now left.
  - apply in_or_app. right. apply in_or_app. right. now apply (IH H).
Qed.

Lemma refsIn_element (l : list value) (x : value) :
  In x l -> incl (refsIn x) (refsIn (VArr l)).
Proof.
  induction l as [ | y l IH ]; intros H; [ contradiction | ].
  destruct H as [-> | H]; intros r Hr; simpl; apply in_or_app.
  - now left.
  - right. now apply (IH H).
Qed.

Lemma refsIn_ref_member (m : list (string * value)) (r : string) :
  In ("$ref", VStr r) m -> In r (refsIn (VObj m)).
Proof.
  induction m as [ | kv m IH ]; intros H; [ contradiction | ].
  destruct H as [-> | H]; simpl.
  - now left.
  - apply in_or_app. right. apply in_or_app. right. now apply IH.
Qed.

Lemma ownEntries_child (v : value) (k : string) (x : value) :
  In (k, x) (ownEntries v) ->
  height x <= height v /\ incl (refsIn x) (refsIn v).
Proof.
  destruct v as [ | | b | n | s | l | m ]; simpl; try contradiction.
  - intros H. assert (Hx : In x (map VStr (chars s))).
    { revert H. generalize 0. induction (map VStr (chars s)) as [ | y t IH ];
        intros i H; [ contradiction | ].
      destruct H as [H | H]; [ injection H as _ ->; now left | right; eauto ]. }
    apply in_map_iff in Hx. destruct Hx as [c [<- _]]. simpl.
    split; [ lia | intros r [] ].
  - intros H. assert (Hx : In x l).
    { revert H. generalize 0. induction l as [ | y t IH ];
        intros i H; [ contradiction | ].
      destruct H as [H | H]; [ injection H as _ ->; now left | right; eauto ]. }
    split; [ apply height_element in Hx; simpl in *; lia
           | now apply refsIn_element ].
  - intros H. split; [ apply height_member in H; simpl in *; lia
                     | now apply (refsIn_member m k) ].
Qed.

Lemma getProp_child (v : value) (k : string) :
  height (getProp v k) <= height v /\ incl (refsIn (getProp v k)) (refsIn v).
Proof.
  unfold getProp. destruct (lookup k (ownEntries v)) as [ x | ] eqn:E.
  - apply lookup_some_in in E. now apply (ownEntries_child v k).
  - destruct (String.eqb k "length"); destruct v; simpl;
      (split; [ lia | intros r [] ]).
Qed.

(** A truthy member read under a name that is no index and not [length]
    sits strictly inside an object. *)
Lemma getProp_truthy_child (v : value) (k : string) :
  startsWithDigit k = false -> String.eqb k "length" = false ->
  truthy (getProp v k) = true ->
  height (getProp v k) < height v
  /\ exists m, v = VObj m /\ In (k, getProp v k) m.
Proof.
  intros Hd Hl. rewrite (getProp_lookup v k Hl).
  destruct v as [ | | b | n | s | l | m ]; simpl; try discriminate.
  - destruct (lookup k (indexedFrom 0 (map VStr (chars s)))) as [ x | ] eqn:E;
      [ | discriminate ].
    apply lookup_indexedFrom in E. destruct E as [_ E]. congruence.
  - destruct (lookup k (indexedFrom 0 l)) as [ x | ] eqn:E; [ | discriminate ].
    apply lookup_indexedFrom in E. destruct E as [_ E]. congruence.
  - destruct (lookup k m) as [ x | ] eqn:E; [ | discriminate ].
    intros _. apply lookup_some_in in E. split.
    + apply height_member in E. exact E.
    + exists m. auto.
Qed.

Lemma ParserA_walk_child (parts : list string) :
  forall cur,
    height (ParserA.walk cur parts) <= Nat.max (height cur) 1
    /\ incl (refsIn (ParserA.walk cur parts)) (refsIn cur).
Proof.
  induction parts as [ | part parts IH ]; intros cur; simpl.
  - split; [ lia | apply incl_refl ].
  - destruct (truthy (getProp cur part)).
    + destruct (IH (getProp cur part)) as [H1 H2].
      destruct (getProp_child cur part) as [H3 H4]. split; [ lia | ].
      now apply (incl_tran H2).
    + simpl. split; [ lia | intros r [] ].
Qed.

Lemma terminatesAt_retR {A : Type} (a : A) (visited : list string) :
  terminatesAt (ParserA.retR a) visited.
Proof. discriminate. Qed.

Lemma terminatesAt_bindR {A B : Type} (m : ParserA.resolver A)
  (f : A -> ParserA.resolver B) (visited : list string) :
  terminatesAt m visited -> restores m ->
  (forall a, terminatesAt (f a) visited) ->
  terminatesAt (ParserA.bindR m f) visited.
Proof.
  unfold terminatesAt, ParserA.bindR. intros Hm Hr Hf.
  destruct (m visited) as [[a | e | ] v1] eqn:E.
  - apply Hr in E. subst v1. apply Hf.
  - discriminate.
  - now simpl in Hm.
Qed.

Lemma terminatesAt_mapR {A B : Type} (f : A -> ParserA.resolver B)
  (l : list A) (visited : list string) :
  (forall x, In x l -> terminatesAt (f x) visited) ->
  (forall x, restores (f x)) ->
  terminatesAt (ParserA.mapR f l) visited.
Proof.
  intros Hf Hr. induction l as [ | x l IH ]; simpl.
  - apply terminatesAt_retR.
  - apply terminatesAt_bindR; [ apply Hf; now left | apply Hr | ].
    intros y. apply terminatesAt_bindR.
    + apply IH. intros x' Hx'. apply Hf. now right.
    + now apply restores_mapR.
    + intros ys. apply terminatesAt_retR.
Qed.

Lemma terminatesAt_bindR_result {A B : Type} (m : ParserA.resolver A)
  (f : A -> ParserA.resolver B) (visited : list string) :
  terminatesAt m visited -> restores m ->
  (forall a, m visited = (Ok a, visited) -> terminatesAt (f a) visited) ->
  terminatesAt (ParserA.bindR m f) visited.
Proof.
  unfold terminatesAt, ParserA.bindR. intros Hm Hr Hf.
  destruct (m visited) as [[a | e | ] v1] eqn:E.
  - pose proof (Hr _ _ _ E) as ->. now apply Hf.
  - discriminate.
  - now simpl in Hm.
Qed.

Lemma mergeSchemas_returns (l : list value) : mergeSchemas l <> OutOfFuel.
Proof.
  unfold mergeSchemas.
  assert (H : forall acc, foldM mergeStep l acc <> OutOfFuel).
  { induction l as [ | x l IH ]; intros acc; simpl; [ discriminate | ].
    destruct (mergeStep acc x) as [ acc1 | e | ] eqn:E; simpl;
      [ apply IH | discriminate | ].
    unfold mergeStep in E. destruct (member x "properties") eqn:E1;
      simpl in E; try discriminate.
    - destruct (member x "required") eqn:E2; simpl in E; try discriminate.
      + destruct (truthy a0); [ | discriminate ].
        destruct (iterate a0) eqn:E3; simpl in E; try discriminate.
        destruct a0; discriminate.
      + destruct x; discriminate.
    - destruct x; discriminate. }
  specialize (H ([], [])). destruct (foldM mergeStep l ([], []));
    simpl; [ discriminate | discriminate | contradiction ].
Qed.

Lemma getProp_ownEntries (v : value) (k : string) :
  String.eqb k "length" = false ->
  getProp (VObj (ownEntries v)) k = getProp v k.
Proof.
  intros H. now rewrite (getProp_lookup _ _ H), (getProp_lookup v _ H).
Qed.

Section BodyTerminates.

Variables (doc : value) (U : list string) (H : nat).
Hypothesis doc_refs : incl (refsIn doc) U.
Hypothesis doc_height : height doc <= H.
Hypothesis H_pos : 1 <= H.

Variable self : value -> ParserA.resolver value.
Hypothesis self_restores : forall s, restores (self s).

Variables (schema : value) (visited : list string).
Hypothesis schema_refs : incl (refsIn schema) U.
Hypothesis self_child :
  forall s, incl (refsIn s) U -> height s < height schema ->
            terminatesAt (self s) visited.
Hypothesis self_jump :
  forall s r, In r U -> ParserA.setHasRef r visited = false ->
              incl (refsIn s) U -> height s <= H ->
              terminatesAt (self s) (visited ++ [r]).

Lemma truthy_child (k : string) :
  startsWithDigit k = false -> String.eqb k "length" = false ->
  truthy (getProp schema k) = true ->
  height (getProp schema k) < height schema
  /\ incl (refsIn (getProp schema k)) U.
Proof.
  intros Hd Hl Ht. destruct (getProp_truthy_child schema k Hd Hl Ht) as [Hlt _].
  split; [ exact Hlt | ].
  apply (incl_tran (proj2 (getProp_child schema k))). exact schema_refs.
Qed.

Lemma body_terminates :
  terminatesAt (ParserA.resolveSchemaBody self doc schema) visited.
Proof.
  unfold ParserA.resolveSchemaBody.
  destruct (negb (truthy schema)); [ apply terminatesAt_retR | ].
  destruct (truthy (getProp schema "$ref")) eqn:Eref.
  { destruct (getProp_truthy_child schema "$ref" eq_refl eq_refl Eref)
      as [_ [m [-> Hin]]].
    destruct (getProp (VObj m) "$ref") as [ | | b | n | r | l | m' ] eqn:Eg;
      try (unfold terminatesAt, ParserA.liftR, ParserA.resolveRef;
           destruct (negb (truthy doc)); discriminate).
    unfold terminatesAt. destruct (ParserA.setHasRef r visited) eqn:Eh;
      [ discriminate | ].
    unfold ParserA.bindR, ParserA.liftR, ParserA.setAdd, ParserA.resolveRef.
    rewrite Eh. destruct (negb (truthy doc)); [ discriminate | ].
    assert (Hj : terminatesAt (self (ParserA.walk doc (tl (splitOn "/" r))))
                   (visited ++ [r])).
    { destruct (ParserA_walk_child (tl (splitOn "/" r)) doc) as [Hh Hr].
      apply self_jump.
      - apply schema_refs. now apply refsIn_ref_member.
      - exact Eh.
      - now apply (incl_tran Hr).
      - lia. }
    unfold terminatesAt in Hj.
    destruct (self (ParserA.walk doc (tl (splitOn "/" r))) (visited ++ [r]))
      as [[x | e | ] v2]; simpl in *; [ discriminate | discriminate | contradiction ]. }
  destruct (truthy (getProp schema "allOf")) eqn:Eall.
  { destruct (truthy_child "allOf" eq_refl eq_refl Eall) as [Hlt Hrefs].
    destruct (getProp schema "allOf") as [ | | b | n | r | l | m' ];
      try discriminate.
    apply terminatesAt_bindR_result.
    - apply terminatesAt_mapR; [ | exact self_restores ].
      intros x Hx. apply self_child.
      + apply (incl_tran (refsIn_element l x Hx)). exact Hrefs.
      + apply height_element in Hx. lia.
    - now apply restores_mapR.
    - intros rs _. unfold terminatesAt, ParserA.liftR. simpl.
      apply mergeSchemas_returns. }
  destruct (truthy (getProp schema "oneOf") || truthy (getProp schema "anyOf"))
    eqn:Eone.
  { assert (Hs : height (orElse (getProp schema "oneOf") (getProp schema "anyOf"))
                 < height schema
                 /\ incl (refsIn (orElse (getProp schema "oneOf")
                                    (getProp schema "anyOf"))) U).
    { unfold orElse. destruct (truthy (getProp schema "oneOf")) eqn:E1.
      - now apply truthy_child.
      - simpl in Eone. now apply truthy_child. }
    destruct Hs as [Hlt Hrefs].
    destruct (getProp_child
                (orElse (getProp schema "oneOf") (getProp schema "anyOf")) "0")
      as [Hh Hr].
    apply self_child; [ now apply (incl_tran Hr) | lia ]. }
  cbv zeta. rewrite (getProp_ownEntries schema "properties" eq_refl).
  apply terminatesAt_bindR_result.
  - destruct (truthy (getProp schema "properties")) eqn:Eprops;
      [ | apply terminatesAt_retR ].
    destruct (truthy_child "properties" eq_refl eq_refl Eprops) as [Hlt Hrefs].
    apply terminatesAt_bindR_result.
    + apply terminatesAt_mapR.
      * intros [k x] Hx. apply ownEntries_child in Hx. destruct Hx as [Hh Hr].
        apply terminatesAt_bindR_result.
        -- apply self_child; [ now apply (incl_tran Hr) | simpl; lia ].
        -- apply self_restores.
        -- intros y _. apply terminatesAt_retR.
      * intros kv. apply restores_bindR; [ apply self_restores | ].
        intros y. apply restores_retR.
    + apply restores_mapR. intros kv.
      apply restores_bindR; [ apply self_restores | ].
      intros y. apply restores_retR.
    + intros kvs _. apply terminatesAt_retR.
  - destruct (truthy (getProp schema "properties")); [ | apply restores_retR ].
    apply restores_bindR.
    + apply restores_mapR. intros kv.
      apply restores_bindR; [ apply self_restores | ].
      intros y. apply restores_retR.
    + intros kvs. apply restores_retR.
  - intros resolved1 Hres.
    assert (Hitems : getProp (VObj resolved1) "items" = getProp schema "items").
    { rewrite (getProp_lookup (VObj resolved1) "items" eq_refl),
              (getProp_lookup schema "items" eq_refl). simpl.
      destruct (truthy (getProp schema "properties")).
      - unfold ParserA.bindR, ParserA.retR in Hres.
        destruct (ParserA.mapR _ _ visited) as [[kvs | e | ] v1];
          try discriminate.
        injection Hres as <- _. now rewrite lookup_assocSet. 
      - injection Hres as <-. reflexivity. }
    rewrite Hitems.
    destruct (truthy (getProp schema "items")) eqn:Eitems;
      [ | apply terminatesAt_retR ].
    destruct (truthy_child "items" eq_refl eq_refl Eitems) as [Hlt Hrefs].
    apply terminatesAt_bindR_result.
    + now apply self_child.
    + apply self_restores.
    + intros y _. apply terminatesAt_retR.
Qed.

End BodyTerminates.

Lemma setHasRef_false (r : string) (visited : list string) :
  ParserA.setHasRef r visited = false <-> ~ In r visited.
Proof.
  unfold ParserA.setHasRef. rewrite <- existsb_eqb_in.
  destruct (existsb (String.eqb r) visited); split; intros H;
    try reflexivity; try discriminate; try (intros H'; discriminate).
  exfalso. now apply H.
Qed.

Lemma resolveSchema_terminates_within (doc : value) (U : list string) (H : nat) :
  incl (refsIn doc) U -> height doc <= H -> 1 <= H ->
  forall fuel schema visited,
    NoDup visited -> incl visited U -> incl (refsIn schema) U ->
    (List.length U - List.length visited) * S H + height schema < fuel ->
    terminatesAt (ParserA.resolveSchema fuel doc schema) visited.
Proof.
  intros Hrefs Hh Hpos. induction fuel as [ | fuel IH ];
    intros schema visited Hnd Hincl Hs Hfuel;
    [ exfalso; apply (Nat.nlt_0_r _ Hfuel) | ].
  simpl. apply (body_terminates doc U H Hrefs Hh Hpos).
  - intros s. apply resolveSchema_restores.
  - exact Hs.
  - intros s Hsr Hlt. apply IH; auto. lia.
  - intros s r Hr Hnot Hsr Hsh. apply setHasRef_false in Hnot.
    assert (Hnd' : NoDup (visited ++ [r])).
    { apply NoDup_app; [ exact Hnd | constructor; [ intros [] | constructor ] | ].
      intros x Hx [<- | []]. contradiction. }
    assert (Hincl' : incl (visited ++ [r]) U).
    { intros x Hx. apply in_app_or in Hx. destruct Hx as [Hx | [<- | []]];
        [ now apply Hincl | exact Hr ]. }
    pose proof (NoDup_incl_length Hnd' Hincl') as Hlen.
    rewrite length_app in Hlen. simpl in Hlen.
    apply IH; auto. rewrite length_app. simpl.
    remember (List.length U - List.length visited) as d eqn:Ed.
    destruct d as [ | d ]; [ lia | ].
    replace (List.length U - (List.length visited + 1)) with d by lia.
    simpl in Hfuel. nia.
Qed.

(** X1.  The first variant's [resolveSchema] returns on every document
    and fragment, cyclic or not: a recursion budget computed from the number
    of references and the nesting depth is never exhausted, and a reference
    that is already in flight is answered with the placeholder that names
    it. *)
Theorem ParserA_resolveSchema_terminates :
  (forall doc schema,
      exists fuel,
        forall fuel', fuel <= fuel' ->
                      ParserA.resolveSchemaTop fuel' doc schema <> OutOfFuel)
  /\ (forall fuel doc schema r visited,
         truthy schema = true ->
         getProp schema "$ref" = VStr r -> r <> EmptyString ->
         In r visited ->
         ParserA.resolveSchema (S fuel) doc schema visited
         = (Ok (VObj [("type", VStr "object");
                      ("description", VStr ("Circular reference to " +++ r))]),
            visited)).
Proof.
  split.
  - intros doc schema.
    set (U := refsIn doc ++ refsIn schema).
    set (H := Nat.max (height doc) 1).
    exists (S (List.length U * S H + height schema)).
    intros fuel' Hfuel. unfold ParserA.resolveSchemaTop.
    apply (resolveSchema_terminates_within doc U H).
    + apply incl_appl, incl_refl.
    + unfold H. lia.
    + unfold H. lia.
    + constructor.
    + intros x [].
    + apply incl_appr, incl_refl.
    + simpl. lia.
  - intros fuel doc schema r visited Ht Hg Hr Hin. simpl.
    unfold ParserA.resolveSchemaBody. rewrite Ht, Hg. simpl.
    apply String.eqb_neq in Hr. rewrite Hr. simpl.
    assert (Hh : ParserA.setHasRef r visited = true).
    { unfold ParserA.setHasRef. now apply existsb_eqb_in. }
    now rewrite Hh.
Qed.

Lemma ParserA_resolveSchema_terminates_witness :
  (exists fuel,
      forall fuel', fuel <= fuel' ->
                    ParserA.resolveSchemaTop fuel' selfRefDoc refToA <> OutOfFuel)
  /\ ParserA.resolveSchema 1 selfRefDoc refToA ["#/definitions/A"]
     = (Ok (VObj [("type", VStr "object");
                  ("description",
                   VStr "Circular reference to #/definitions/A")]),
        ["#/definitions/A"]).
Proof.
  destruct ParserA_resolveSchema_terminates as [Hall Hguard]. split.
  - apply (Hall selfRefDoc refToA).
  - apply (Hguard 0 selfRefDoc refToA "#/definitions/A" ["#/definitions/A"]).
    + reflexivity.
    + reflexivity.
    + discriminate.
    + now left.
Defined.

(** ** Resolved schemas hold no reference *)

Lemma objectAssign_in (source : list (string * value)) :
  forall target k x,
    In (k, x) (objectAssign target source) ->
    In (k, x) target \/ In (k, x) source.
Proof.
  unfold objectAssign.
  induction source as [ | [k0 v0] source IH ]; intros target k x H; simpl in H.
  - now left.
  - apply IH in H. destruct H as [H | H]; [ | right; now right ].
    apply assign_in in H. destruct H as [H | H]; [ | now left ].
    right. left. now symmetry.
Qed.

Lemma fromEntries_in (entries : list (string * value)) (k : string) (x : value) :
  In (k, x) (fromEntries entries) -> In (k, x) entries.
Proof.
  unfold fromEntries.
  assert (H : forall target,
             In (k, x) (fold_left (fun acc kv => assocSet (fst kv) (snd kv) acc)
                          entries target) ->
             In (k, x) target \/ In (k, x) entries).
  { induction entries as [ | [k0 v0] entries IH ]; intros target H; simpl in H.
    - now left.
    - apply IH in H. destruct H as [H | H]; [ | right; now right ].
      apply assocSet_in in H. destruct H as [H | H]; [ | now left ].
      right. left. now symmetry. }
  intros Hin. destruct (H [] Hin) as [[] | Hin']. exact Hin'.
Qed.

Lemma mapM_ok {A B : Type} (f : A -> outcome B) (l : list A) :
  forall ys, mapM f l = Ok ys ->
             Forall2 (fun x y => f x = Ok y) l ys.
Proof.
  induction l as [ | x l IH ]; intros ys H; simpl in H.
  - injection H as <-. constructor.
  - apply bind_ok in H. destruct H as [y [Hy H]].
    apply bind_ok in H. destruct H as [ys' [Hys H]]. injection H as <-.
    constructor; [ exact Hy | now apply IH ].
Qed.

Lemma referenceFree_leaf (m : list (string * value)) :
  lookup "$ref" m = None -> lookup "allOf" m = None ->
  lookup "oneOf" m = None -> lookup "anyOf" m = None ->
  lookup "items" m = None ->
  (forall p, lookup "properties" m = Some p ->
             forall k x, In (k, x) (ownEntries p) -> referenceFree x) ->
  referenceFree (VObj m).
Proof.
  intros H1 H2 H3 H4 H5 H6.
  constructor; unfold getProp; simpl; try rewrite H1; try rewrite H2;
    try rewrite H3; try rewrite H4; try rewrite H5; try reflexivity;
    try discriminate.
  destruct (lookup "properties" m) as [ p | ] eqn:E; [ | discriminate ].
  intros _. now apply H6.
Qed.

Lemma mergeStep_referenceFree (acc acc' : list (string * value) * list value)
  (b : value) :
  referenceFree b ->
  (forall k x, In (k, x) (fst acc) -> referenceFree x) ->
  mergeStep acc b = Ok acc' ->
  forall k x, In (k, x) (fst acc') -> referenceFree x.
Proof.
  intros Hb Hacc H. unfold mergeStep in H.
  inversion Hb as [ m _ _ _ _ Hp _ E ]. subst b. simpl in H.
  assert (Hprops : forall k x,
             In (k, x) (if truthy (getProp (VObj m) "properties")
                        then objectAssign (fst acc)
                               (ownEntries (getProp (VObj m) "properties"))
                        else fst acc) -> referenceFree x).
  { intros k x Hin.
    destruct (truthy (getProp (VObj m) "properties")) eqn:Et;
      [ | now apply (Hacc k) ].
    apply objectAssign_in in Hin. destruct Hin as [Hin | Hin];
      [ now apply (Hacc k) | now apply (Hp eq_refl k) ]. }
  destruct (truthy (getProp (VObj m) "required")).
  - apply bind_ok in H. destruct H as [xs [_ H]]. injection H as <-. exact Hprops.
  - injection H as <-. exact Hprops.
Qed.

Lemma foldM_invariant {A B : Type} (P : B -> Prop) (Q : A -> Prop)
  (f : B -> A -> outcome B) (l : list A) :
  (forall b x b', P b -> Q x -> f b x = Ok b' -> P b') ->
  Forall Q l ->
  forall b b', P b -> foldM f l b = Ok b' -> P b'.
Proof.
  intros Hstep Hl. induction Hl as [ | x l Hx Hl IH ]; intros b b' Hb H.
  - simpl in H. injection H as <-. exact Hb.
  - simpl in H. apply bind_ok in H. destruct H as [b1 [H1 H]].
    apply (IH b1); [ | exact H ]. now apply (Hstep b x).
Qed.

Lemma mergeSchemas_referenceFree (rs : list value) (r : value) :
  Forall referenceFree rs -> mergeSchemas rs = Ok r -> referenceFree r.
Proof.
  intros Hrs H. unfold mergeSchemas in H.
  apply bind_ok in H. destruct H as [acc [Hf H]].
  assert (Hacc : forall k x, In (k, x) (fst acc) -> referenceFree x).
  { apply (foldM_invariant
             (fun acc => forall k x, In (k, x) (fst acc) -> referenceFree x)
             referenceFree mergeStep rs) with (b := ([], [])).
    - intros b x b' Hb Hx Hs. now apply (mergeStep_referenceFree b b' x).
    - exact Hrs.
    - intros k x [].
    - exact Hf. }
  injection H as <-.
  destruct (dedupe (snd acc)); apply referenceFree_leaf; try reflexivity;
    simpl; intros p Hp; injection Hp as <-; exact Hacc.
Qed.

(** The object the last branch of [resolveSchema] returns: the members of
    the fragment, [properties] and [items] replaced by their resolutions. *)
Lemma referenceFree_copy (schema : value) (final : list (string * value)) :
  truthy (getProp schema "$ref") = false ->
  truthy (getProp schema "allOf") = false ->
  truthy (getProp schema "oneOf") = false ->
  truthy (getProp schema "anyOf") = false ->
  (forall k, String.eqb k "properties" = false -> String.eqb k "items" = false ->
             lookup k final = lookup k (ownEntries schema)) ->
  (truthy (getProp (VObj final) "properties") = true ->
   forall k x, In (k, x) (ownEntries (getProp (VObj final) "properties")) ->
               referenceFree x) ->
  (truthy (getProp (VObj final) "items") = true ->
   referenceFree (getProp (VObj final) "items")) ->
  referenceFree (VObj final).
Proof.
  intros H1 H2 H3 H4 Hk Hp Hi.
  assert (Hg : forall k, String.eqb k "length" = false ->
                         String.eqb k "properties" = false ->
                         String.eqb k "items" = false ->
                         getProp (VObj final) k = getProp schema k).
  { intros k Hl Hk1 Hk2.
    rewrite (getProp_lookup (VObj final) k Hl), (getProp_lookup schema k Hl).
    simpl. now rewrite (Hk k Hk1 Hk2). }
  constructor; try assumption.
  - now rewrite (Hg "$ref" eq_refl eq_refl eq_refl).
  - now rewrite (Hg "allOf" eq_refl eq_refl eq_refl).
  - now rewrite (Hg "oneOf" eq_refl eq_refl eq_refl).
  - now rewrite (Hg "anyOf" eq_refl eq_refl eq_refl).
Qed.

Lemma referenceFree_string_default :
  referenceFree (VObj [("type", VStr "string")]).
Proof. apply referenceFree_leaf; try reflexivity. discriminate. Qed.

Section BodyReferenceFree.

Variable self : value -> outcome value.
Hypothesis self_free : forall s r, self s = Ok r -> referenceFree r.

Lemma ParserB_body_referenceFree (v3 : bool) (doc schema r : value) :
  ParserB.resolveSchemaBody self v3 doc schema = Ok r -> referenceFree r.
Proof.
  unfold ParserB.resolveSchemaBody.
  destruct (negb (truthy schema)).
  { intros H. injection H as <-. apply referenceFree_string_default. }
  destruct (truthy (getProp schema "$ref")) eqn:Eref.
  { intros H. apply bind_ok in H. destruct H as [x [_ H]]. eauto. }
  destruct (truthy (getProp schema "allOf")) eqn:Eall.
  { intros H. apply bind_ok in H. destruct H as [l [_ H]].
    apply bind_ok in H. destruct H as [rs [Hrs H]].
    apply (mergeSchemas_referenceFree rs); [ | exact H ].
    apply mapM_ok in Hrs. clear H.
    induction Hrs as [ | x y l rs Hxy _ IH ]; constructor; eauto. }
  destruct (truthy (getProp schema "oneOf")) eqn:Eone.
  { simpl. apply self_free. }
  destruct (truthy (getProp schema "anyOf")) eqn:Eany.
  { simpl. apply self_free. }
  simpl. cbv zeta.
  rewrite (getProp_ownEntries schema "properties" eq_refl).
  intros H. apply bind_ok in H. destruct H as [resolved1 [H1 H]].
  assert (Hkeys : forall k, String.eqb k "properties" = false ->
                            lookup k resolved1 = lookup k (ownEntries schema)).
  { intros k Hk. destruct (truthy (getProp schema "properties")).
    - apply bind_ok in H1. destruct H1 as [kvs [_ H1]]. injection H1 as <-.
      now rewrite lookup_assocSet, Hk.
    - now injection H1 as <-. }
  assert (Hprops : truthy (getProp (VObj resolved1) "properties") = true ->
                   forall k x,
                     In (k, x) (ownEntries (getProp (VObj resolved1) "properties")) ->
                     referenceFree x).
  { destruct (truthy (getProp schema "properties")) eqn:Ep.
    - apply bind_ok in H1. destruct H1 as [kvs [Hkvs H1]]. injection H1 as <-.
      intros _ k x.
      rewrite (getProp_lookup _ "properties" eq_refl). simpl.
      rewrite lookup_assocSet. simpl. intros Hin.
      apply fromEntries_in in Hin.
      apply mapM_ok in Hkvs. clear Ep H Hkeys.
      induction Hkvs as [ | kv y l rs Hxy _ IH ]; [ contradiction | ].
      destruct Hin as [E | Hin]; [ | now apply IH ].
      apply bind_ok in Hxy. destruct Hxy as [x' [Hx' Hxy]].
      rewrite E in Hxy. injection Hxy as _ <-. eauto.
    - injection H1 as <-.
      rewrite (getProp_ownEntries schema "properties" eq_refl), Ep. discriminate. }
  destruct (truthy (getProp (VObj resolved1) "items")) eqn:Ei.
  - apply bind_ok in H. destruct H as [x [Hx H]]. injection H as <-.
    apply (referenceFree_copy schema); try assumption.
    + intros k Hk1 Hk2. now rewrite lookup_assocSet, Hk2, Hkeys.
    + rewrite (getProp_lookup _ "properties" eq_refl). simpl.
      rewrite lookup_assocSet. simpl.
      rewrite (getProp_lookup _ "properties" eq_refl) in Hprops. exact Hprops.
    + intros _. rewrite (getProp_lookup _ "items" eq_refl). simpl.
      rewrite lookup_assocSet. simpl. eauto.
  - injection H as <-.
    apply (referenceFree_copy schema); try assumption.
    + intros k Hk1 Hk2. now apply Hkeys.
    + rewrite Ei. discriminate.
Qed.

End BodyReferenceFree.

Lemma ParserB_resolveSchema_referenceFree (fuel : nat) (v3 : bool) (doc : value) :
  forall schema r,
    ParserB.resolveSchema fuel v3 doc schema = Ok r -> referenceFree r.
Proof.
  induction fuel as [ | fuel IH ]; intros schema r H; [ discriminate | ].
  simpl in H. now apply (ParserB_body_referenceFree _ IH v3 doc schema).
Qed.

Lemma bindR_ok {A B : Type} (m : ParserA.resolver A)
  (f : A -> ParserA.resolver B) (visited visited' : list string) (y : B) :
  ParserA.bindR m f visited = (Ok y, visited') ->
  exists x visited1, m visited = (Ok x, visited1) /\ f x visited1 = (Ok y, visited').
Proof.
  unfold ParserA.bindR. destruct (m visited) as [[x | e | ] visited1];
    [ eauto | discriminate | discriminate ].
Qed.

Lemma mapR_ok {A B : Type} (f : A -> ParserA.resolver B) (l : list A) :
  forall visited ys visited',
    ParserA.mapR f l visited = (Ok ys, visited') ->
    Forall2 (fun x y => exists v1 v2, f x v1 = (Ok y, v2)) l ys.
Proof.
  induction l as [ | x l IH ]; intros visited ys visited' H; simpl in H.
  - injection H as <- _. constructor.
  - apply bindR_ok in H. destruct H as [y [v1 [Hy H]]].
    apply bindR_ok in H. destruct H as [ys' [v2 [Hys H]]].
    injection H as <- _. constructor; [ eauto | now apply (IH v1 ys' v2) ].
Qed.

Lemma referenceFree_placeholder (r : string) :
  referenceFree (ParserA.circularPlaceholder r).
Proof. apply referenceFree_leaf; try reflexivity. discriminate. Qed.

Section BodyReferenceFreeA.

Variable self : value -> ParserA.resolver value.
Hypothesis self_free :
  forall s visited r visited', self s visited = (Ok r, visited') -> referenceFree r.

Lemma ParserA_body_referenceFree (doc schema : value) :
  forall visited r visited',
    ParserA.resolveSchemaBody self doc schema visited = (Ok r, visited') ->
    referenceFree r.
Proof.
  unfold ParserA.resolveSchemaBody. intros visited r visited'.
  destruct (negb (truthy schema)).
  { intros H. injection H as <- _. apply referenceFree_string_default. }
  destruct (truthy (getProp schema "$ref")) eqn:Eref.
  { destruct (getProp schema "$ref") as [ | | b | n | ref | l | m' ];
      try (unfold ParserA.liftR, ParserA.resolveRef;
           destruct (negb (truthy doc)); discriminate).
    destruct (ParserA.setHasRef ref visited).
    - intros H. injection H as <- _. apply referenceFree_placeholder.
    - intros H. apply bindR_ok in H. destruct H as [x [v1 [_ H]]].
      apply bindR_ok in H. destruct H as [y [v2 [Hy H]]].
      injection H as <- _. eauto. }
  destruct (truthy (getProp schema "allOf")) eqn:Eall.
  { destruct (getProp schema "allOf") as [ | | b | n | s | l | m' ];
      try discriminate.
    intros H. apply bindR_ok in H. destruct H as [rs [v1 [Hrs H]]].
    unfold ParserA.liftR in H. injection H as H _.
    apply (mergeSchemas_referenceFree rs); [ | exact H ].
    apply mapR_ok in Hrs. clear H.
    induction Hrs as [ | x y l rs [v2 [v3 Hxy]] _ IH ]; constructor; eauto. }
  destruct (truthy (getProp schema "oneOf")) eqn:Eone.
  { simpl. apply self_free. }
  destruct (truthy (getProp schema "anyOf")) eqn:Eany.
  { simpl. apply self_free. }
  simpl. cbv zeta.
  rewrite (getProp_ownEntries schema "properties" eq_refl).
  intros H. apply bindR_ok in H. destruct H as [resolved1 [v1 [H1 H]]].
  assert (Hprops : truthy (getProp (VObj resolved1) "properties") = true ->
                   forall k x,
                     In (k, x) (ownEntries (getProp (VObj resolved1) "properties")) ->
                     referenceFree x).
  { destruct (truthy (getProp schema "properties")) eqn:Ep.
    - apply bindR_ok in H1. destruct H1 as [kvs [v2 [Hkvs H1]]].
      injection H1 as <- _. intros _ k x.
      rewrite (getProp_lookup _ "properties" eq_refl). simpl.
      rewrite lookup_assocSet. simpl. intros Hin.
      apply fromEntries_in in Hin.
      apply mapR_ok in Hkvs. clear Ep H.
      induction Hkvs as [ | kv y l rs [v3 [v4 Hxy]] _ IH ]; [ contradiction | ].
      destruct Hin as [E | Hin]; [ | now apply IH ].
      apply bindR_ok in Hxy. destruct Hxy as [x' [v5 [Hx' Hxy]]].
      rewrite E in Hxy. injection Hxy as _ <- _. eauto.
    - injection H1 as <- _.
      rewrite (getProp_ownEntries schema "properties" eq_refl), Ep. discriminate. }
  assert (Hkeys : forall k, String.eqb k "properties" = false ->
                            lookup k resolved1 = lookup k (ownEntries schema)).
  { intros k Hk. destruct (truthy (getProp schema "properties")).
    - apply bindR_ok in H1. destruct H1 as [kvs [v2 [_ H1]]].
      injection H1 as <- _. now rewrite lookup_assocSet, Hk.
    - now injection H1 as <- _. }
  destruct (truthy (getProp (VObj resolved1) "items")) eqn:Ei.
  - apply bindR_ok in H. destruct H as [x [v2 [Hx H]]]. injection H as <- _.
    apply (referenceFree_copy schema); try assumption.
    + intros k Hk1 Hk2. now rewrite lookup_assocSet, Hk2, Hkeys.
    + rewrite (getProp_lookup _ "properties" eq_refl). simpl.
      rewrite lookup_assocSet. simpl.
      rewrite (getProp_lookup _ "properties" eq_refl) in Hprops. exact Hprops.
    + intros _. rewrite (getProp_lookup _ "items" eq_refl). simpl.
      rewrite lookup_assocSet. simpl. eauto.
  - injection H as <- _.
    apply (referenceFree_copy schema); try assumption.
    + intros k Hk1 Hk2. now apply Hkeys.
    + rewrite Ei. discriminate.
Qed.

End BodyReferenceFreeA.

Lemma ParserA_resolveSchema_referenceFree (fuel : nat) (doc : value) :
  forall schema visited r visited',
    ParserA.resolveSchema fuel doc schema visited = (Ok r, visited') ->
    referenceFree r.
Proof.
  induction fuel as [ | fuel IH ]; intros schema visited r visited' H;
    [ discriminate | ].
  simpl in H. now apply (ParserA_body_referenceFree _ IH doc schema visited r visited').
Qed.

Lemma resolveSchemaTop_referenceFree (fuel : nat) (doc schema r : value) :
  ParserA.resolveSchemaTop fuel doc schema = Ok r -> referenceFree r.
Proof.
  unfold ParserA.resolveSchemaTop.
  destruct (ParserA.resolveSchema fuel doc schema []) as [o visited'] eqn:E.
  simpl. intros ->. now apply (ParserA_resolveSchema_referenceFree _ _ _ _ _ _ E).
Qed.

(** X4.  Whatever the second variant's [resolveSchema] returns is
    reference-free: an object without a truthy [$ref], [allOf], [oneOf] or
    [anyOf], and so are, level by level, the members of its [properties] and
    its [items].  No hypothesis is made on the document or the fragment. *)
Theorem ParserB_resolved_schema_is_reference_free
  (fuel : nat) (v3 : bool) (doc schema resolved : value) :
  ParserB.resolveSchema fuel v3 doc schema = Ok resolved ->
  referenceFree resolved.
Proof. apply ParserB_resolveSchema_referenceFree. Qed.

(** X3.  Whatever the first variant's [resolveSchema] returns is
    reference-free in the same sense, the placeholder it puts in place of a
    reference in flight included. *)
Theorem ParserA_resolved_schema_is_reference_free
  (fuel : nat) (doc schema resolved : value) :
  ParserA.resolveSchemaTop fuel doc schema = Ok resolved ->
  referenceFree resolved.
Proof. apply resolveSchemaTop_referenceFree. Qed.

(** ** Deciding reference-freedom *)

Lemma referenceFreeWithin_sound (depth : nat) :
  forall v, referenceFreeWithin depth v = true -> referenceFree v.
Proof.
  induction depth as [ | depth IH ]; intros v H; [ discriminate | ].
  destruct v as [ | | b | n | s | l | m ]; try discriminate.
  cbn [referenceFreeWithin] in H.
  repeat (apply andb_true_iff in H; destruct H as [H ?]).
  repeat match goal with
         | Hn : negb _ = true |- _ => apply negb_true_iff in Hn
         end.
  constructor; try assumption.
  - intros Ht k x Hin. rewrite Ht in *.
    match goal with
    | Hf : forallb _ _ = true |- _ =>
        rewrite forallb_forall in Hf; apply IH; exact (Hf (k, x) Hin)
    end.
  - intros Ht. rewrite Ht in *. now apply IH.
Qed.

Lemma referenceFreeWithin_complete (v : value) :
  referenceFree v ->
  forall depth, height v < depth -> referenceFreeWithin depth v = true.
Proof.
  induction 1 as [ m H1 H2 H3 H4 Hp IHp Hi IHi ]. intros depth Hd.
  destruct depth as [ | depth ]; [ lia | ].
  cbn [referenceFreeWithin]. rewrite H1, H2, H3, H4. cbn [negb andb].
  apply andb_true_iff. split.
  - destruct (truthy (getProp (VObj m) "properties")) eqn:Et; [ | reflexivity ].
    apply forallb_forall. intros [k x] Hin. cbn [snd].
    apply (IHp eq_refl k x Hin).
    destruct (getProp_truthy_child (VObj m) "properties" eq_refl eq_refl Et)
      as [Hlt _].
    destruct (ownEntries_child _ k x Hin) as [Hle _]. lia.
  - destruct (truthy (getProp (VObj m) "items")) eqn:Et; [ | reflexivity ].
    apply (IHi eq_refl).
    destruct (getProp_truthy_child (VObj m) "items" eq_refl eq_refl Et)
      as [Hlt _]. lia.
Qed.

Lemma referenceFree_decided (v : value) :
  referenceFree v <-> referenceFreeWithin (S (height v)) v = true.
Proof.
  split.
  - intros H. apply (referenceFreeWithin_complete v H). lia.
  - apply referenceFreeWithin_sound.
Qed.

(** ** Where a compiled tool comes from *)

Lemma catchToNull_some (m : outcome Tool) (t : Tool) :
  catchToNull m = Ok (Some t) -> m = Ok t.
Proof. destruct m; simpl; intros H; now inversion H. Qed.

Lemma ParserA_tool_origin (fuel : nat) (doc : value) (tools : list Tool)
  (t : Tool) :
  ParserA.generateTools fuel doc = Ok tools -> In t tools ->
  exists cands pathTemplate method operation,
    documentOperations doc = Ok cands
    /\ In (pathTemplate, method, operation) cands
    /\ eligibleA (pathTemplate, method, operation) = true
    /\ name t = getProp operation "operationId"
    /\ exists schema d,
         ParserA.buildInputSchema fuel doc operation = Ok schema
         /\ buildDescription operation method pathTemplate = Ok d
         /\ t = {| name := getProp operation "operationId";
                   description := d; inputSchema := schema |}.
Proof.
  intros H Hin. unfold ParserA.generateTools in H.
  destruct (negb (truthy doc)); [ discriminate | ].
  apply bind_ok in H. destruct H as [paths [Hp H]].
  apply bind_ok in H. destruct H as [acc [Hf H]]. injection H as <-.
  destruct (pathLoop_candidates eligibleA identA (compileA fuel doc)
              (ParserA.methodStep fuel doc)
              (ParserA_methodStep_step fuel doc) paths _ _ Hf)
    as [cands [Hc Hs]].
  apply (firstWins_from_empty _ _ _ (compileA_name fuel doc)) in Hs.
  destruct Hs as [_ [Hs _]].
  destruct (Hs t Hin) as [pre [[[p m] op] [post [-> [He [Hcomp [Hn _]]]]]]].
  exists (pre ++ (p, m, op) :: post), p, m, op.
  split; [ unfold documentOperations; rewrite Hp; exact Hc | ].
  split; [ apply in_or_app; right; now left | ].
  split; [ exact He | ]. split; [ exact Hn | ].
  unfold compileA, ParserA.operationToTool in Hcomp.
  apply catchToNull_some in Hcomp.
  apply bind_ok in Hcomp. destruct Hcomp as [s [Hs1 Hcomp]].
  apply bind_ok in Hcomp. destruct Hcomp as [d [Hd Hcomp]].
  injection Hcomp as <-. exists s, d. auto.
Qed.

Lemma ParserB_tool_origin (fuel : nat) (v3 : bool) (doc : value)
  (tools : list Tool) (t : Tool) :
  ParserB.generateTools fuel v3 doc = Ok tools -> In t tools ->
  exists cands pathTemplate method operation,
    documentOperations doc = Ok cands
    /\ In (pathTemplate, method, operation) cands
    /\ eligibleB (pathTemplate, method, operation) = true
    /\ name t = ParserB.operationIdOf method pathTemplate operation
    /\ exists schema,
         (if v3
          then ParserB.buildInputSchemaV3 fuel v3 doc
                 (VObj (assocSet "operationId"
                          (ParserB.operationIdOf method pathTemplate operation)
                          (ownEntries operation)))
          else ParserB.buildInputSchemaV2 fuel v3 doc
                 (VObj (assocSet "operationId"
                          (ParserB.operationIdOf method pathTemplate operation)
                          (ownEntries operation)))) = Ok schema
         /\ inputSchema t = schema.
Proof.
  intros H Hin. unfold ParserB.generateTools in H.
  destruct (negb (truthy doc)); [ discriminate | ].
  apply bind_ok in H. destruct H as [paths [Hp H]].
  apply bind_ok in H. destruct H as [acc [Hf H]]. injection H as <-.
  destruct (pathLoop_candidates eligibleB identB (compileB fuel v3 doc)
              (ParserB.methodStep fuel v3 doc)
              (ParserB_methodStep_step fuel v3 doc) paths _ _ Hf)
    as [cands [Hc Hs]].
  apply (firstWins_from_empty _ _ _ (compileB_name fuel v3 doc)) in Hs.
  destruct Hs as [_ [Hs _]].
  destruct (Hs t Hin) as [pre [[[p m] op] [post [-> [He [Hcomp [Hn _]]]]]]].
  exists (pre ++ (p, m, op) :: post), p, m, op.
  split; [ unfold documentOperations; rewrite Hp; exact Hc | ].
  split; [ apply in_or_app; right; now left | ].
  split; [ exact He | ]. split; [ exact Hn | ].
  unfold compileB, ParserB.operationToTool in Hcomp.
  apply catchToNull_some in Hcomp.
  apply bind_ok in Hcomp. destruct Hcomp as [s [Hs1 Hcomp]].
  apply bind_ok in Hcomp. destruct Hcomp as [d [Hd Hcomp]].
  injection Hcomp as <-. exists s. split; [ exact Hs1 | reflexivity ].
Qed.

(** ** Required names are declared *)

Lemma declares_empty : declares ([], []).
Proof. intros r []. Qed.

Lemma declares_set (acc : list (string * value) * list value)
  (pname x : value) (required : bool) :
  declares acc ->
  declares (assocSet (jsToString pname) x (fst acc),
            if required then snd acc ++ [pname] else snd acc).
Proof.
  intros Hacc r Hr. cbn [fst snd] in *. rewrite lookup_assocSet.
  destruct (String.eqb (jsToString r) (jsToString pname)) eqn:E;
    [ right; discriminate | ].
  apply Hacc. destruct required; [ | exact Hr ].
  apply in_app_or in Hr. destruct Hr as [Hr | [<- | []]]; [ exact Hr | ].
  now rewrite String.eqb_refl in E.
Qed.

Lemma declares_assign (acc : list (string * value) * list value)
  (pname x : value) (required : bool) :
  declares acc ->
  declares (assign (jsToString pname) x (fst acc),
            if required then snd acc ++ [pname] else snd acc).
Proof.
  intros Hacc r Hr. cbn [fst snd] in *.
  destruct (String.eqb (jsToString r) "__proto__") eqn:Ep;
    [ left; now apply String.eqb_eq | right ].
  apply String.eqb_neq in Ep.
  destruct (String.eqb (jsToString r) (jsToString pname)) eqn:E.
  - apply String.eqb_eq in E. rewrite <- E.
    rewrite (lookup_assign_same _ _ _ Ep). discriminate.
  - apply String.eqb_neq in E. rewrite (lookup_assign_other _ _ _ _ E).
    assert (Hin : In r (snd acc)).
    { destruct required; [ | exact Hr ].
      apply in_app_or in Hr. destruct Hr as [Hr | [<- | []]]; [ exact Hr | ].
      now contradiction E. }
    destruct (Hacc r Hin) as [H | H]; [ contradiction | exact H ].
Qed.

Lemma declares_schema (acc : list (string * value) * list value) :
  declares acc -> requiredDeclared (inputSchemaObject (fst acc) (snd acc)) = true.
Proof.
  intros Hacc. unfold requiredDeclared. apply forallb_forall. intros r Hr.
  assert (Hin : In r (snd acc)).
  { unfold requiredOf, inputSchemaObject in Hr.
    destruct (snd acc); [ contradiction | exact Hr ]. }
  apply Hacc in Hin. apply orb_true_iff.
  destruct Hin as [Hin | Hin]; [ left; now apply String.eqb_eq | right ].
  unfold hasKey, inputSchemaObject. simpl.
  destruct (lookup (jsToString r) (fst acc)); [ reflexivity | contradiction ].
Qed.

Lemma foldM_declares (step : list (string * value) * list value -> value ->
                             outcome (list (string * value) * list value))
  (l : list value) :
  (forall acc x acc', declares acc -> step acc x = Ok acc' -> declares acc') ->
  forall acc acc', declares acc -> foldM step l acc = Ok acc' -> declares acc'.
Proof.
  intros Hstep. induction l as [ | x l IH ]; intros acc acc' Hacc H; simpl in H.
  - now injection H as <-.
  - apply bind_ok in H. destruct H as [acc1 [H1 H]].
    apply (IH acc1); [ now apply (Hstep acc x) | exact H ].
Qed.

Lemma ParserA_paramStep_declares (fuel : nat) (doc : value)
  (acc acc' : list (string * value) * list value) (param : value) :
  declares acc -> ParserA.paramStep fuel doc acc param = Ok acc' -> declares acc'.
Proof.
  intros Hacc H. unfold ParserA.paramStep in H.
  apply bind_ok in H. destruct H as [loc [_ H]].
  destruct (ParserA.isSwagger2 doc && strictEquals loc (VStr "body")).
  - now injection H as <-.
  - apply bind_ok in H. destruct H as [pschema [_ H]].
    apply bind_ok in H. destruct H as [schema [_ H]]. injection H as <-.
    now apply declares_assign.
Qed.

Lemma ParserA_buildInputSchema_declares (fuel : nat) (doc operation s : value) :
  ParserA.buildInputSchema fuel doc operation = Ok s ->
  requiredDeclared s = true.
Proof.
  unfold ParserA.buildInputSchema. intros H.
  apply bind_ok in H. destruct H as [acc [Hacc H]].
  apply bind_ok in H. destruct H as [v3 [_ H]].
  apply bind_ok in H. destruct H as [acc2 [Hacc2 H]]. injection H as <-.
  apply declares_schema.
  assert (Hd : declares acc).
  { destruct (truthy (getProp operation "parameters")).
    - apply bind_ok in Hacc. destruct Hacc as [l [_ Hacc]].
      apply (foldM_declares (ParserA.paramStep fuel doc) l) with (acc := ([], []));
        [ | apply declares_empty | exact Hacc ].
      intros a x a'. apply ParserA_paramStep_declares.
    - injection Hacc as <-. apply declares_empty. }
  destruct (v3 && truthy (ParserA.requestBodySchema operation)).
  { apply bind_ok in Hacc2. destruct Hacc2 as [b [_ Hacc2]].
    injection Hacc2 as <-. now apply (declares_set acc (VStr "body")). }
  destruct (ParserA.isSwagger2 doc && truthy (getProp operation "parameters"));
    [ | now injection Hacc2 as <- ].
  apply bind_ok in Hacc2. destruct Hacc2 as [l [_ Hacc2]].
  apply bind_ok in Hacc2. destruct Hacc2 as [bodyParam [_ Hacc2]].
  destruct (truthy bodyParam); [ | now injection Hacc2 as <- ].
  apply bind_ok in Hacc2. destruct Hacc2 as [b [_ Hacc2]].
  injection Hacc2 as <-. now apply (declares_set acc (VStr "body")).
Qed.

Lemma ParserB_buildInputSchemaV3_declares (fuel : nat) (v3 : bool)
  (doc operation s : value) :
  ParserB.buildInputSchemaV3 fuel v3 doc operation = Ok s ->
  requiredDeclared s = true.
Proof.
  unfold ParserB.buildInputSchemaV3. intros H.
  apply bind_ok in H. destruct H as [acc [Hacc H]].
  apply bind_ok in H. destruct H as [acc2 [Hacc2 H]]. injection H as <-.
  apply declares_schema.
  assert (Hd : declares acc).
  { destruct (truthy (getProp operation "parameters")).
    - apply bind_ok in Hacc. destruct Hacc as [l [_ Hacc]].
      apply (foldM_declares (ParserB.paramStepV3 fuel v3 doc) l)
        with (acc := ([], [])); [ | apply declares_empty | exact Hacc ].
      intros a x a' Ha Hs. unfold ParserB.paramStepV3 in Hs.
      apply bind_ok in Hs. destruct Hs as [pschema [_ Hs]].
      apply bind_ok in Hs. destruct Hs as [schema [_ Hs]]. injection Hs as <-.
      now apply declares_assign.
    - injection Hacc as <-. apply declares_empty. }
  destruct (truthy (ParserB.requestBodySchema operation));
    [ | now injection Hacc2 as <- ].
  apply bind_ok in Hacc2. destruct Hacc2 as [b [_ Hacc2]].
  injection Hacc2 as <-. now apply (declares_set acc (VStr "body")).
Qed.

Lemma ParserB_buildInputSchemaV2_declares (fuel : nat) (v3 : bool)
  (doc operation s : value) :
  ParserB.buildInputSchemaV2 fuel v3 doc operation = Ok s ->
  requiredDeclared s = true.
Proof.
  unfold ParserB.buildInputSchemaV2. intros H.
  apply bind_ok in H. destruct H as [acc [Hacc H]]. injection H as <-.
  apply declares_schema.
  destruct (truthy (getProp operation "parameters")).
  - apply bind_ok in Hacc. destruct Hacc as [l [_ Hacc]].
    apply (foldM_declares (ParserB.paramStepV2 fuel v3 doc) l)
      with (acc := ([], [])); [ | apply declares_empty | exact Hacc ].
    intros a x a' Ha Hs. unfold ParserB.paramStepV2 in Hs.
    apply bind_ok in Hs. destruct Hs as [loc [_ Hs]].
    destruct (strictEquals loc (VStr "body")).
    + apply bind_ok in Hs. destruct Hs as [b [_ Hs]]. injection Hs as <-.
      now apply (declares_set a (VStr "body")).
    + injection Hs as <-. now apply declares_assign.
  - injection Hacc as <-. apply declares_empty.
Qed.

(** A required parameter named [__proto__] is the exception: its name is
    pushed to [required], but the assignment [properties[name] = ...] adds
    no member. *)
Remark prototype_parameter_is_not_declared :
  ParserB.buildInputSchemaV3 2 true unnamedOperationDoc
    (VObj [("operationId", VStr "probe");
           ("parameters",
            VArr [VObj [("name", VStr "__proto__"); ("in", VStr "query");
                        ("required", VBool true)]])])
  = Ok (inputSchemaObject [] [VStr "__proto__"]).
Proof. reflexivity. Qed.

(** X6.  In both parser variants every compiled tool has an input schema
    whose [required] entries other than [__proto__] are all declared in its
    [properties]: a name is pushed to [required] only together with the
    property it names. *)
Theorem compiled_tools_declare_required_names :
  (forall fuel doc tools t,
      ParserA.generateTools fuel doc = Ok tools -> In t tools ->
      requiredDeclared (inputSchema t) = true)
  /\ (forall fuel v3 doc tools t,
         ParserB.generateTools fuel v3 doc = Ok tools -> In t tools ->
         requiredDeclared (inputSchema t) = true).
Proof.
  split.
  - intros fuel doc tools t H Hin.
    destruct (ParserA_tool_origin fuel doc tools t H Hin)
      as [cands [p [m [op [_ [_ [_ [_ [s [d [Hs [_ ->]]]]]]]]]]]].
    cbn [inputSchema]. now apply (ParserA_buildInputSchema_declares fuel doc op).
  - intros fuel v3 doc tools t H Hin.
    destruct (ParserB_tool_origin fuel v3 doc tools t H Hin)
      as [cands [p [m [op [_ [_ [_ [_ [s [Hs ->]]]]]]]]]].
    destruct v3.
    + now apply (ParserB_buildInputSchemaV3_declares _ _ _ _ _ Hs).
    + now apply (ParserB_buildInputSchemaV2_declares _ _ _ _ _ Hs).
Qed.

(** ** The properties of an OpenAPI 3.x tool *)

Lemma withDescription_referenceFree (schema d : value) :
  referenceFree schema -> referenceFree (withDescription schema d).
Proof.
  intros H. inversion H as [ m H1 H2 H3 H4 H5 H6 E ]. subst schema.
  unfold withDescription. cbn [ownEntries].
  assert (Hg : forall k, String.eqb k "length" = false ->
                         String.eqb k "description" = false ->
                         getProp (VObj (assocSet "description" d m)) k
                         = getProp (VObj m) k).
  { intros k Hl Hk.
    rewrite (getProp_lookup (VObj (assocSet "description" d m)) k Hl),
            (getProp_lookup (VObj m) k Hl).
    simpl. now rewrite lookup_assocSet, Hk. }
  constructor.
  - now rewrite (Hg "$ref" eq_refl eq_refl).
  - now rewrite (Hg "allOf" eq_refl eq_refl).
  - now rewrite (Hg "oneOf" eq_refl eq_refl).
  - now rewrite (Hg "anyOf" eq_refl eq_refl).
  - now rewrite (Hg "properties" eq_refl eq_refl).
  - now rewrite (Hg "items" eq_refl eq_refl).
Qed.

Lemma resolvedProperties_set (acc : list (string * value) * list value)
  (key : string) (schema d : value) (required : list value) :
  resolvedProperties acc -> referenceFree schema ->
  resolvedProperties (assocSet key (withDescription schema d) (fst acc), required).
Proof.
  intros Hacc Hs k x Hin. cbn [fst] in Hin. apply assocSet_in in Hin.
  destruct Hin as [Hin | Hin]; [ | now apply (Hacc k) ].
  injection Hin as _ ->. now apply withDescription_referenceFree.
Qed.

Lemma resolvedProperties_assign (acc : list (string * value) * list value)
  (key : string) (schema d : value) (required : list value) :
  resolvedProperties acc -> referenceFree schema ->
  resolvedProperties (assign key (withDescription schema d) (fst acc), required).
Proof.
  intros Hacc Hs k x Hin. cbn [fst] in Hin. apply assign_in in Hin.
  destruct Hin as [Hin | Hin]; [ | now apply (Hacc k) ].
  injection Hin as _ ->. now apply withDescription_referenceFree.
Qed.

Lemma resolvedProperties_schema (acc : list (string * value) * list value) :
  resolvedProperties acc ->
  forall k x, In (k, x) (propertiesOf (inputSchemaObject (fst acc) (snd acc))) ->
              referenceFree x.
Proof. intros Hacc k x Hin. now apply (Hacc k). Qed.

Lemma foldM_resolvedProperties
  (step : list (string * value) * list value -> value ->
          outcome (list (string * value) * list value))
  (l : list value) :
  (forall acc x acc', resolvedProperties acc -> step acc x = Ok acc' ->
                      resolvedProperties acc') ->
  forall acc acc', resolvedProperties acc -> foldM step l acc = Ok acc' ->
                   resolvedProperties acc'.
Proof.
  intros Hstep. induction l as [ | x l IH ]; intros acc acc' Hacc H; simpl in H.
  - now injection H as <-.
  - apply bind_ok in H. destruct H as [acc1 [H1 H]].
    apply (IH acc1); [ now apply (Hstep acc x) | exact H ].
Qed.

Lemma ParserB_buildInputSchemaV3_resolved (fuel : nat) (v3 : bool)
  (doc operation s : value) :
  ParserB.buildInputSchemaV3 fuel v3 doc operation = Ok s ->
  forall k x, In (k, x) (propertiesOf s) -> referenceFree x.
Proof.
  unfold ParserB.buildInputSchemaV3. intros H.
  apply bind_ok in H. destruct H as [acc [Hacc H]].
  apply bind_ok in H. destruct H as [acc2 [Hacc2 H]]. injection H as <-.
  apply resolvedProperties_schema.
  assert (Hd : resolvedProperties acc).
  { destruct (truthy (getProp operation "parameters")).
    - apply bind_ok in Hacc. destruct Hacc as [l [_ Hacc]].
      apply (foldM_resolvedProperties (ParserB.paramStepV3 fuel v3 doc) l)
        with (acc := ([], [])); [ | intros k x [] | exact Hacc ].
      intros a x a' Ha Hs. unfold ParserB.paramStepV3 in Hs.
      apply bind_ok in Hs. destruct Hs as [pschema [_ Hs]].
      apply bind_ok in Hs. destruct Hs as [schema [Hr Hs]]. injection Hs as <-.
      apply resolvedProperties_assign; [ exact Ha | ].
      now apply (ParserB_resolveSchema_referenceFree _ _ _ _ _ Hr).
    - injection Hacc as <-. intros k x []. }
  destruct (truthy (ParserB.requestBodySchema operation));
    [ | now injection Hacc2 as <- ].
  apply bind_ok in Hacc2. destruct Hacc2 as [b [Hb Hacc2]].
  injection Hacc2 as <-. apply resolvedProperties_set; [ exact Hd | ].
  now apply (ParserB_resolveSchema_referenceFree _ _ _ _ _ Hb).
Qed.

Lemma ParserA_buildInputSchema_resolved (fuel : nat) (doc operation s : value) :
  ParserA.isSwagger2 doc = false ->
  ParserA.buildInputSchema fuel doc operation = Ok s ->
  forall k x, In (k, x) (propertiesOf s) -> referenceFree x.
Proof.
  intros Hv. unfold ParserA.buildInputSchema. intros H.
  apply bind_ok in H. destruct H as [acc [Hacc H]].
  apply bind_ok in H. destruct H as [v3 [_ H]].
  apply bind_ok in H. destruct H as [acc2 [Hacc2 H]]. injection H as <-.
  apply resolvedProperties_schema.
  assert (Hd : resolvedProperties acc).
  { destruct (truthy (getProp operation "parameters")).
    - apply bind_ok in Hacc. destruct Hacc as [l [_ Hacc]].
      apply (foldM_resolvedProperties (ParserA.paramStep fuel doc) l)
        with (acc := ([], [])); [ | intros k x [] | exact Hacc ].
      intros a x a' Ha Hs. unfold ParserA.paramStep in Hs. rewrite Hv in Hs.
      cbn [bind andb] in Hs.
      apply bind_ok in Hs. destruct Hs as [pschema [_ Hs]].
      apply bind_ok in Hs. destruct Hs as [schema [Hr Hs]]. injection Hs as <-.
      apply resolvedProperties_assign; [ exact Ha | ].
      now apply (resolveSchemaTop_referenceFree _ _ _ _ Hr).
    - injection Hacc as <-. intros k x []. }
  rewrite Hv in Hacc2. cbn [andb] in Hacc2.
  destruct (v3 && truthy (ParserA.requestBodySchema operation));
    [ | now injection Hacc2 as <- ].
  apply bind_ok in Hacc2. destruct Hacc2 as [b [Hb Hacc2]].
  injection Hacc2 as <-. apply resolvedProperties_set; [ exact Hd | ].
  now apply (resolveSchemaTop_referenceFree _ _ _ _ Hb).
Qed.

(** X5.  For a document that is not Swagger 2.0, every property of the
    input schema of every compiled tool is reference-free, in both parser
    variants: what a tool offers to a caller never holds a [$ref], an
    [allOf], a [oneOf] or an [anyOf] along its [properties] and [items]. *)
Theorem openapi3_tool_properties_are_reference_free :
  (forall fuel doc tools t k x,
      ParserA.isSwagger2 doc = false ->
      ParserA.generateTools fuel doc = Ok tools -> In t tools ->
      In (k, x) (propertiesOf (inputSchema t)) -> referenceFree x)
  /\ (forall fuel doc tools t k x,
         ParserB.generateTools fuel true doc = Ok tools -> In t tools ->
         In (k, x) (propertiesOf (inputSchema t)) -> referenceFree x).
Proof.
  split.
  - intros fuel doc tools t k x Hv H Hin.
    destruct (ParserA_tool_origin fuel doc tools t H Hin)
      as [cands [p [m [op [_ [_ [_ [_ [s [d [Hs [_ ->]]]]]]]]]]]].
    cbn [inputSchema]. now apply (ParserA_buildInputSchema_resolved fuel doc op).
  - intros fuel doc tools t k x H Hin.
    destruct (ParserB_tool_origin fuel true doc tools t H Hin)
      as [cands [p [m [op [_ [_ [_ [_ [s [Hs ->]]]]]]]]]].
    now apply (ParserB_buildInputSchemaV3_resolved _ _ _ _ _ Hs).
Qed.

(** ** The first variant's compilation always returns *)

Lemma bind_returns {A B : Type} (m : outcome A) (f : A -> outcome B) :
  m <> OutOfFuel -> (forall a, m = Ok a -> f a <> OutOfFuel) ->
  bind m f <> OutOfFuel.
Proof.
  destruct m as [ a | e | ]; simpl; intros Hm Hf;
    [ now apply Hf | discriminate | contradiction ].
Qed.

Lemma foldM_returns {A B : Type} (f : B -> A -> outcome B) (l : list A) :
  (forall x, In x l -> forall b, f b x <> OutOfFuel) ->
  forall b, foldM f l b <> OutOfFuel.
Proof.
  induction l as [ | x l IH ]; intros Hf b; simpl; [ discriminate | ].
  apply bind_returns; [ apply Hf; now left | ].
  intros b' _. apply IH. intros y Hy. apply Hf. now right.
Qed.

Lemma member_returns (v : value) (k : string) : member v k <> OutOfFuel.
Proof. destruct v; discriminate. Qed.

Lemma iterate_returns (v : value) : iterate v <> OutOfFuel.
Proof. destruct v; discriminate. Qed.

Lemma asArray_returns (what : string) (v : value) : asArray what v <> OutOfFuel.
Proof. destruct v; discriminate. Qed.

Lemma objectEntries_returns (v : value) : objectEntries v <> OutOfFuel.
Proof. destruct v; discriminate. Qed.

Lemma findM_returns (p : value -> outcome bool) (l : list value) :
  (forall x, p x <> OutOfFuel) -> findM p l <> OutOfFuel.
Proof.
  intros Hp. induction l as [ | x l IH ]; simpl; [ discriminate | ].
  apply bind_returns; [ apply Hp | ]. intros [ | ] _; [ discriminate | exact IH ].
Qed.

Lemma findM_result (p : value -> outcome bool) (l : list value) (x : value) :
  findM p l = Ok x -> x = VUndef \/ In x l.
Proof.
  induction l as [ | y l IH ]; simpl.
  - intros H. injection H as <-. now left.
  - intros H. apply bind_ok in H. destruct H as [[ | ] [_ H]].
    + injection H as <-. right. now left.
    + destruct (IH H) as [-> | Hin]; [ now left | right; now right ].
Qed.

Lemma buildDescription_returns (operation : value) (method pathTemplate : string) :
  buildDescription operation method pathTemplate <> OutOfFuel.
Proof.
  unfold buildDescription. apply bind_returns.
  - destruct (truthy (getProp operation "summary")); [ discriminate | ].
    destruct (truthy (getProp operation "description")); [ | discriminate ].
    destruct (getProp operation "description"); discriminate.
  - intros first _. apply bind_returns; [ | discriminate ].
    destruct (truthy (getProp operation "tags")
              && greaterThanZero (getProp (getProp operation "tags") "length"));
      [ | discriminate ].
    apply bind_returns; [ apply asArray_returns | discriminate ].
Qed.

Lemma startsWith3_returns (v : value) : startsWith3 v <> OutOfFuel.
Proof. destruct v; discriminate. Qed.

Lemma ParserA_isOpenAPI3_returns (doc : value) :
  ParserA.isOpenAPI3 doc <> OutOfFuel.
Proof.
  unfold ParserA.isOpenAPI3.
  destruct (optMember doc "openapi"); try discriminate; apply startsWith3_returns.
Qed.

Lemma fragmentOf_self (doc : value) : fragmentOf doc doc.
Proof. split; [ lia | apply incl_refl ]. Qed.

Lemma fragmentOf_getProp (doc s : value) (k : string) :
  fragmentOf doc s -> fragmentOf doc (getProp s k).
Proof.
  intros [Hh Hr]. destruct (getProp_child s k) as [H1 H2].
  split; [ lia | now apply (incl_tran H2) ].
Qed.

Lemma fragmentOf_undefined (doc : value) : fragmentOf doc VUndef.
Proof. split; [ simpl; lia | intros r [] ]. Qed.

Lemma fragmentOf_optMember (doc s : value) (k : string) :
  fragmentOf doc s -> fragmentOf doc (optMember s k).
Proof.
  intros Hs. destruct s; simpl; try apply fragmentOf_undefined;
    now apply fragmentOf_getProp.
Qed.

Lemma fragmentOf_entry (doc s : value) (k : string) (x : value) :
  fragmentOf doc s -> In (k, x) (ownEntries s) -> fragmentOf doc x.
Proof.
  intros [Hh Hr] Hin. destruct (ownEntries_child s k x Hin) as [H1 H2].
  split; [ lia | now apply (incl_tran H2) ].
Qed.

Lemma fragmentOf_iterate (doc s : value) (l : list value) (x : value) :
  fragmentOf doc s -> iterate s = Ok l -> In x l -> fragmentOf doc x.
Proof.
  intros [Hh Hr] Hl Hin. destruct s; try discriminate; injection Hl as <-.
  - apply in_map_iff in Hin. destruct Hin as [c [<- _]].
    split; [ simpl; lia | intros r [] ].
  - split.
    + apply height_element in Hin. lia.
    + apply (incl_tran (refsIn_element _ _ Hin)). exact Hr.
Qed.

Lemma fragmentOf_orElse (doc a b : value) :
  fragmentOf doc a -> fragmentOf doc b -> fragmentOf doc (orElse a b).
Proof. intros Ha Hb. unfold orElse. now destruct (truthy a). Qed.

Lemma fragmentOf_default (doc : value) (t : string) :
  fragmentOf doc (VObj [("type", VStr t)]).
Proof. split; [ simpl; lia | intros r [] ]. Qed.

Section CompileReturns.

Variables (doc : value) (fuel : nat).
Hypothesis enough : resolutionBudget doc < fuel.

Lemma ParserA_resolveSchemaTop_returns (s : value) :
  fragmentOf doc s -> ParserA.resolveSchemaTop fuel doc s <> OutOfFuel.
Proof.
  intros [Hh Hr]. unfold ParserA.resolveSchemaTop.
  apply (resolveSchema_terminates_within doc (refsIn doc)
           (Nat.max (height doc) 1)).
  - apply incl_refl.
  - lia.
  - lia.
  - constructor.
  - intros x [].
  - exact Hr.
  - unfold resolutionBudget in enough. simpl List.length.
    rewrite Nat.sub_0_r. lia.
Qed.

Lemma ParserA_paramStep_returns (param : value)
  (acc : list (string * value) * list value) :
  fragmentOf doc param -> ParserA.paramStep fuel doc acc param <> OutOfFuel.
Proof.
  intros Hp. unfold ParserA.paramStep. apply bind_returns.
  - destruct (ParserA.isSwagger2 doc); [ apply member_returns | discriminate ].
  - intros loc _.
    destruct (ParserA.isSwagger2 doc && strictEquals loc (VStr "body"));
      [ discriminate | ].
    apply bind_returns; [ apply member_returns | ].
    intros pschema Hm. assert (Hs : fragmentOf doc pschema).
    { destruct param; try discriminate; injection Hm as <-;
        now apply fragmentOf_getProp. }
    apply bind_returns; [ | discriminate ].
    destruct (ParserA.isSwagger2 doc).
    + destruct (truthy pschema); [ | discriminate ].
      now apply ParserA_resolveSchemaTop_returns.
    + apply ParserA_resolveSchemaTop_returns.
      apply fragmentOf_orElse; [ exact Hs | apply fragmentOf_default ].
Qed.

Lemma ParserA_buildInputSchema_returns (operation : value) :
  fragmentOf doc operation ->
  ParserA.buildInputSchema fuel doc operation <> OutOfFuel.
Proof.
  intros Ho. unfold ParserA.buildInputSchema.
  pose proof (fragmentOf_getProp doc operation "parameters" Ho) as Hps.
  apply bind_returns.
  { destruct (truthy (getProp operation "parameters")); [ | discriminate ].
    apply bind_returns; [ apply iterate_returns | ].
    intros l Hl. apply foldM_returns. intros x Hx b.
    apply ParserA_paramStep_returns.
    now apply (fragmentOf_iterate doc _ l x Hps). }
  intros acc _. apply bind_returns; [ apply ParserA_isOpenAPI3_returns | ].
  intros v3 _. apply bind_returns; [ | discriminate ].
  destruct (v3 && truthy (ParserA.requestBodySchema operation)).
  { apply bind_returns; [ | discriminate ].
    apply ParserA_resolveSchemaTop_returns.
    unfold ParserA.requestBodySchema.
    repeat apply fragmentOf_optMember. exact Ho. }
  destruct (ParserA.isSwagger2 doc && truthy (getProp operation "parameters"));
    [ | discriminate ].
  apply bind_returns; [ apply asArray_returns | ].
  intros l Hl. apply bind_returns.
  { apply findM_returns. intros p. apply bind_returns;
      [ apply member_returns | discriminate ]. }
  intros bodyParam Hb. destruct (truthy bodyParam); [ | discriminate ].
  apply bind_returns; [ | discriminate ].
  apply ParserA_resolveSchemaTop_returns.
  apply fragmentOf_orElse; [ | apply fragmentOf_default ].
  apply fragmentOf_getProp.
  apply findM_result in Hb. destruct Hb as [-> | Hin];
    [ apply fragmentOf_undefined | ].
  apply (fragmentOf_iterate doc (getProp operation "parameters") l);
    [ exact Hps | | exact Hin ].
  destruct (getProp operation "parameters"); try discriminate.
  injection Hl as <-. reflexivity.
Qed.

Lemma ParserA_operationToTool_returns (pathTemplate method : string)
  (operation : value) :
  fragmentOf doc operation ->
  ParserA.operationToTool fuel doc pathTemplate method operation <> OutOfFuel.
Proof.
  intros Ho. unfold ParserA.operationToTool, catchToNull.
  pose proof (ParserA_buildInputSchema_returns operation Ho) as Hb.
  destruct (ParserA.buildInputSchema fuel doc operation) as [ s | e | ];
    simpl; [ | discriminate | contradiction ].
  pose proof (buildDescription_returns operation method pathTemplate) as Hd.
  destruct (buildDescription operation method pathTemplate) as [ d | e | ];
    simpl; [ discriminate | discriminate | contradiction ].
Qed.

Lemma ParserA_methodStep_returns (pathTemplate : string)
  (acc : list Tool * list value) (entry : string * value) :
  fragmentOf doc (snd entry) ->
  ParserA.methodStep fuel doc pathTemplate acc entry <> OutOfFuel.
Proof.
  destruct entry as [method operation]. simpl. intros Ho.
  unfold ParserA.methodStep.
  destruct (negb (isHttpMethod method)); [ discriminate | ].
  destruct (negb (ParserA.isOperation operation)); [ discriminate | ].
  destruct (negb (truthy (getProp operation "operationId"))
            || setHas (getProp operation "operationId") (snd acc));
    [ discriminate | ].
  apply bind_returns; [ now apply ParserA_operationToTool_returns | ].
  intros [ t | ] _; discriminate.
Qed.

Lemma ParserA_generateTools_returns :
  ParserA.generateTools fuel doc <> OutOfFuel.
Proof.
  unfold ParserA.generateTools.
  destruct (negb (truthy doc)); [ discriminate | ].
  apply bind_returns; [ apply objectEntries_returns | ].
  intros paths Hp. apply bind_returns; [ | discriminate ].
  apply foldM_returns. intros [pathTemplate pathItem] Hin acc.
  assert (Hitem : fragmentOf doc pathItem).
  { apply (fragmentOf_entry doc (getProp doc "paths") pathTemplate).
    - apply fragmentOf_getProp, fragmentOf_self.
    - destruct (getProp doc "paths"); try discriminate;
        injection Hp as <-; exact Hin. }
  unfold ParserA.pathStep. cbn [fst snd].
  apply bind_returns; [ apply objectEntries_returns | ].
  intros methods Hm. apply foldM_returns. intros [method operation] Hin' acc'.
  apply ParserA_methodStep_returns. cbn [snd].
  apply (fragmentOf_entry doc pathItem method); [ exact Hitem | ].
  destruct pathItem; try discriminate; injection Hm as <-; exact Hin'.
Qed.

End CompileReturns.

Lemma bind_congr {A B : Type} (m m' : outcome A) (f g : A -> outcome B) :
  m = m' -> (forall a, m = Ok a -> f a = g a) -> bind m f = bind m' g.
Proof.
  intros <- H. destruct m as [ a | e | ]; simpl; [ now apply H | | ]; reflexivity.
Qed.

Lemma foldM_congr {A B : Type} (f g : B -> A -> outcome B) (l : list A) :
  (forall x, In x l -> forall b, f b x = g b x) ->
  forall b, foldM f l b = foldM g l b.
Proof.
  induction l as [ | x l IH ]; intros H b; simpl; [ reflexivity | ].
  apply bind_congr; [ apply H; now left | ].
  intros b' _. apply IH. intros y Hy. apply H. now right.
Qed.

Section CompileAgrees.

Variables (doc : value) (fuel fuel' : nat).
Hypothesis enough : resolutionBudget doc < fuel.
Hypothesis enough' : resolutionBudget doc < fuel'.

Lemma ParserA_resolveSchemaTop_agrees (s : value) :
  fragmentOf doc s ->
  ParserA.resolveSchemaTop fuel doc s = ParserA.resolveSchemaTop fuel' doc s.
Proof.
  intros Hs.
  pose proof (ParserA_resolveSchemaTop_returns doc fuel enough s Hs) as H1.
  pose proof (ParserA_resolveSchemaTop_returns doc fuel' enough' s Hs) as H2.
  unfold ParserA.resolveSchemaTop in *.
  destruct (ParserA.resolveSchema fuel doc s []) as [o1 v1] eqn:E1.
  destruct (ParserA.resolveSchema fuel' doc s []) as [o2 v2] eqn:E2.
  simpl in *.
  pose proof (resolveSchema_more_fuel fuel fuel' doc s _ _ _ E1 H1) as E1'.
  pose proof (resolveSchema_more_fuel fuel' fuel doc s _ _ _ E2 H2) as E2'.
  rewrite Nat.add_comm in E2'. rewrite E1' in E2'. now injection E2'.
Qed.

Lemma ParserA_paramStep_agrees (param : value)
  (acc : list (string * value) * list value) :
  fragmentOf doc param ->
  ParserA.paramStep fuel doc acc param = ParserA.paramStep fuel' doc acc param.
Proof.
  intros Hp. unfold ParserA.paramStep.
  apply bind_congr; [ reflexivity | ]. intros loc _.
  destruct (ParserA.isSwagger2 doc && strictEquals loc (VStr "body"));
    [ reflexivity | ].
  apply bind_congr; [ reflexivity | ]. intros pschema Hm.
  assert (Hs : fragmentOf doc pschema).
  { destruct param; try discriminate; injection Hm as <-;
      now apply fragmentOf_getProp. }
  apply bind_congr; [ | reflexivity ].
  destruct (ParserA.isSwagger2 doc).
  - destruct (truthy pschema); [ | reflexivity ].
    now apply ParserA_resolveSchemaTop_agrees.
  - apply ParserA_resolveSchemaTop_agrees.
    apply fragmentOf_orElse; [ exact Hs | apply fragmentOf_default ].
Qed.

Lemma ParserA_buildInputSchema_agrees (operation : value) :
  fragmentOf doc operation ->
  ParserA.buildInputSchema fuel doc operation
  = ParserA.buildInputSchema fuel' doc operation.
Proof.
  intros Ho. unfold ParserA.buildInputSchema.
  pose proof (fragmentOf_getProp doc operation "parameters" Ho) as Hps.
  apply bind_congr.
  { destruct (truthy (getProp operation "parameters")); [ | reflexivity ].
    apply bind_congr; [ reflexivity | ].
    intros l Hl. apply foldM_congr. intros x Hx b.
    apply ParserA_paramStep_agrees.
    now apply (fragmentOf_iterate doc _ l x Hps). }
  intros acc _. apply bind_congr; [ reflexivity | ].
  intros v3 _. apply bind_congr; [ | reflexivity ].
  destruct (v3 && truthy (ParserA.requestBodySchema operation)).
  { apply bind_congr; [ | reflexivity ].
    apply ParserA_resolveSchemaTop_agrees.
    unfold ParserA.requestBodySchema.
    repeat apply fragmentOf_optMember. exact Ho. }
  destruct (ParserA.isSwagger2 doc && truthy (getProp operation "parameters"));
    [ | reflexivity ].
  apply bind_congr; [ reflexivity | ].
  intros l Hl. apply bind_congr; [ reflexivity | ].
  intros bodyParam Hb. destruct (truthy bodyParam); [ | reflexivity ].
  apply bind_congr; [ | reflexivity ].
  apply ParserA_resolveSchemaTop_agrees.
  apply fragmentOf_orElse; [ | apply fragmentOf_default ].
  apply fragmentOf_getProp.
  apply findM_result in Hb. destruct Hb as [-> | Hin];
    [ apply fragmentOf_undefined | ].
  apply (fragmentOf_iterate doc (getProp operation "parameters") l);
    [ exact Hps | | exact Hin ].
  destruct (getProp operation "parameters"); try discriminate.
  injection Hl as <-. reflexivity.
Qed.

Lemma ParserA_methodStep_agrees (pathTemplate : string)
  (acc : list Tool * list value) (entry : string * value) :
  fragmentOf doc (snd entry) ->
  ParserA.methodStep fuel doc pathTemplate acc entry
  = ParserA.methodStep fuel' doc pathTemplate acc entry.
Proof.
  destruct entry as [method operation]. simpl. intros Ho.
  unfold ParserA.methodStep, ParserA.operationToTool.
  now rewrite (ParserA_buildInputSchema_agrees operation Ho).
Qed.

Lemma ParserA_generateTools_agrees :
  ParserA.generateTools fuel doc = ParserA.generateTools fuel' doc.
Proof.
  unfold ParserA.generateTools.
  destruct (negb (truthy doc)); [ reflexivity | ].
  apply bind_congr; [ reflexivity | ].
  intros paths Hp. apply bind_congr; [ | reflexivity ].
  apply foldM_congr. intros [pathTemplate pathItem] Hin acc.
  assert (Hitem : fragmentOf doc pathItem).
  { apply (fragmentOf_entry doc (getProp doc "paths") pathTemplate).
    - apply fragmentOf_getProp, fragmentOf_self.
    - destruct (getProp doc "paths"); try discriminate;
        injection Hp as <-; exact Hin. }
  unfold ParserA.pathStep. cbn [fst snd].
  apply bind_congr; [ reflexivity | ].
  intros methods Hm. apply foldM_congr. intros [method operation] Hin' acc'.
  apply ParserA_methodStep_agrees. cbn [snd].
  apply (fragmentOf_entry doc pathItem method); [ exact Hitem | ].
  destruct pathItem; try discriminate; injection Hm as <-; exact Hin'.
Qed.

End CompileAgrees.


(** ** A document without [info] *)

Lemma member_absent (v : value) (k : string) :
  v = VUndef \/ v = VNull -> exists e, member v k = Throw e.
Proof. intros [-> | ->]; simpl; eauto. Qed.

Lemma validateA_returns (doc : value) :
  ParserA.validateSchema doc = Ok tt \/ exists e, ParserA.validateSchema doc = Throw e.
Proof.
  destruct (versionMarker doc && nonEmptyPaths doc) eqn:E.
  - destruct (ParserA.validateSchema doc) as [ [] | e | ] eqn:Ev; eauto.
    exfalso. revert Ev. unfold ParserA.validateSchema, ParserA.isOpenAPI3.
    destruct (negb (truthy doc)); [ discriminate | ].
    destruct (optMember doc "openapi"); simpl; try discriminate.
    all: try match goal with
      | |- context [ if ?c then _ else _ ] => destruct c; try discriminate
      end.
    all: try match goal with
      | |- context [ if ?c then _ else _ ] => destruct c; try discriminate
      end.
    all: try match goal with
      | |- context [ if ?c then _ else _ ] => destruct c; try discriminate
      end.
  - right. now apply ParserA_validate_fail.
Qed.

(** X7.  In both parser variants a document without [info] (absent or
    [null]) is rejected with a schema-parse error even when its version
    marker and its paths are in order: the log statement of [initialize]
    reads [schema.info.title] before any tool is generated. *)
Theorem initialize_requires_info (fuel : nat) (doc : value) :
  getProp doc "info" = VUndef \/ getProp doc "info" = VNull ->
  (exists msg, ParserA.initialize fuel doc = Throw (SchemaParseError msg))
  /\ (exists msg, ParserB.initialize fuel doc = Throw (SchemaParseError msg)).
Proof.
  intros Hinfo.
  assert (Hlog : exists e, logLoaded doc = Throw e).
  { unfold logLoaded. destruct (member_absent _ "title" Hinfo) as [e ->].
    simpl. eauto. }
  destruct Hlog as [e Hlog]. split.
  - unfold ParserA.initialize. apply rethrow_throw with (e :=
      match ParserA.validateSchema doc with Throw e' => e' | _ => e end).
    destruct (validateA_returns doc) as [-> | [e' ->]]; simpl.
    + now rewrite Hlog.
    + reflexivity.
  - unfold ParserB.initialize.
    pose proof (ParserB_detect_returns doc) as Hd.
    destruct (ParserB.detectVersion doc) as [ v3 | e1 | ];
      simpl; [ | unfold schemaParseError; eauto | contradiction ].
    destruct (ParserB.validateSchema doc) as [ [] | e2 | ] eqn:Ev; simpl.
    + rewrite Hlog. simpl. unfold schemaParseError. eauto.
    + unfold schemaParseError. eauto.
    + exfalso. revert Ev. unfold ParserB.validateSchema.
      destruct (negb (truthy doc)); [ discriminate | ].
      destruct (negb (truthy (getProp doc "paths"))
                || (List.length (ownEntries (getProp doc "paths")) =? 0)%nat);
        discriminate.
Qed.

Lemma initialize_requires_info_witness :
  versionMarker anonymousDoc = true /\ nonEmptyPaths anonymousDoc = true
  /\ (exists msg, ParserA.initialize 5 anonymousDoc = Throw (SchemaParseError msg))
  /\ (exists msg, ParserB.initialize 5 anonymousDoc = Throw (SchemaParseError msg)).
Proof.
  split; [ reflexivity | ]. split; [ reflexivity | ].
  apply (initialize_requires_info 5 anonymousDoc). left. reflexivity.
Defined.

(** ** Looking up a compiled tool *)

Lemma findOperationA_some (operationId pathTemplate : string)
  (methods : list (string * value)) (method : string) (operation : value) :
  In (method, operation) methods ->
  ParserA.isOperation operation = true ->
  getProp operation "operationId" = VStr operationId ->
  exists info, ParserA.findOperation operationId pathTemplate methods = Some info.
Proof.
  intros Hin Ho Hid. induction methods as [ | [m o] methods IH ];
    [ contradiction | ].
  simpl. destruct (ParserA.isOperation o
                   && strictEquals (getProp o "operationId") (VStr operationId))
    eqn:E; [ eauto | ].
  destruct Hin as [Heq | Hin]; [ | now apply IH ].
  injection Heq as -> ->. rewrite Ho, Hid in E. simpl in E.
  now rewrite String.eqb_refl in E.
Qed.

Lemma findInPathsA_some (operationId : string) (paths : list (string * value)) :
  forall cands pathTemplate method operation,
    operations paths = Ok cands ->
    In (pathTemplate, method, operation) cands ->
    ParserA.isOperation operation = true ->
    getProp operation "operationId" = VStr operationId ->
    exists info, ParserA.findInPaths operationId paths = Ok (Some info).
Proof.
  induction paths as [ | [p item] paths IH ];
    intros cands pathTemplate method operation Hc Hin Ho Hid; simpl in Hc.
  - injection Hc as <-. contradiction.
  - apply bind_ok in Hc. destruct Hc as [methods [Hm Hc]].
    apply bind_ok in Hc. destruct Hc as [rest [Hr Hc]]. injection Hc as <-.
    simpl. rewrite Hm. simpl.
    destruct (ParserA.findOperation operationId p methods) as [ info | ] eqn:E;
      [ eauto | ].
    apply in_app_or in Hin. destruct Hin as [Hin | Hin].
    + apply in_map_iff in Hin. destruct Hin as [[m o] [Heq Hin]].
      injection Heq as -> -> ->.
      destruct (findOperationA_some operationId pathTemplate methods
                  method operation Hin Ho Hid) as [info Hinfo].
      rewrite Hinfo in E. discriminate.
    + now apply (IH rest pathTemplate method operation).
Qed.

Lemma findOperationB_some (operationId pathTemplate : string)
  (methods : list (string * value)) (method : string) (operation : value) :
  In (method, operation) methods ->
  ParserB.isOperation operation = true ->
  ParserB.operationIdOf method pathTemplate operation = VStr operationId ->
  exists info, ParserB.findOperation operationId pathTemplate methods = Some info.
Proof.
  intros Hin Ho Hid. induction methods as [ | [m o] methods IH ];
    [ contradiction | ].
  simpl. destruct (ParserB.isOperation o
                   && strictEquals (ParserB.operationIdOf m pathTemplate o)
                        (VStr operationId))
    eqn:E; [ eauto | ].
  destruct Hin as [Heq | Hin]; [ | now apply IH ].
  injection Heq as -> ->. rewrite Ho, Hid in E. simpl in E.
  now rewrite String.eqb_refl in E.
Qed.

Lemma findInPathsB_some (operationId : string) (paths : list (string * value)) :
  forall cands pathTemplate method operation,
    operations paths = Ok cands ->
    In (pathTemplate, method, operation) cands ->
    ParserB.isOperation operation = true ->
    ParserB.operationIdOf method pathTemplate operation = VStr operationId ->
    exists info, ParserB.findInPaths operationId paths = Ok (Some info).
Proof.
  induction paths as [ | [p item] paths IH ];
    intros cands pathTemplate method operation Hc Hin Ho Hid; simpl in Hc.
  - injection Hc as <-. contradiction.
  - apply bind_ok in Hc. destruct Hc as [methods [Hm Hc]].
    apply bind_ok in Hc. destruct Hc as [rest [Hr Hc]]. injection Hc as <-.
    simpl. rewrite Hm. simpl.
    destruct (ParserB.findOperation operationId p methods) as [ info | ] eqn:E;
      [ eauto | ].
    apply in_app_or in Hin. destruct Hin as [Hin | Hin].
    + apply in_map_iff in Hin. destruct Hin as [[m o] [Heq Hin]].
      injection Heq as -> -> ->.
      destruct (findOperationB_some operationId pathTemplate methods
                  method operation Hin Ho Hid) as [info Hinfo].
      rewrite Hinfo in E. discriminate.
    + now apply (IH rest pathTemplate method operation).
Qed.

(** X8.  In both parser variants every compiled tool whose name is a
    string is found again by [getOperationInfo] under that name: the
    dispatcher never answers [Unknown operation] for a tool the parser
    listed. *)
Theorem compiled_tools_are_found_by_name :
  (forall fuel doc tools t operationId,
      ParserA.generateTools fuel doc = Ok tools -> In t tools ->
      name t = VStr operationId ->
      exists info, ParserA.getOperationInfo doc operationId = Ok (Some info))
  /\ (forall fuel v3 doc tools t operationId,
         ParserB.generateTools fuel v3 doc = Ok tools -> In t tools ->
         name t = VStr operationId ->
         exists info, ParserB.getOperationInfo doc operationId = Ok (Some info)).
Proof.
  split.
  - intros fuel doc tools t operationId H Hin Hname.
    destruct (ParserA_tool_origin fuel doc tools t H Hin)
      as [cands [p [m [op [Hc [Hcand [He [Hn _]]]]]]]].
    unfold ParserA.generateTools in H. unfold ParserA.getOperationInfo.
    destruct (negb (truthy doc)); [ discriminate | ].
    unfold documentOperations in Hc. apply bind_ok in Hc.
    destruct Hc as [paths [Hp Hc]]. rewrite Hp. simpl.
    unfold eligibleA in He. apply andb_true_iff in He. destruct He as [He _].
    apply andb_true_iff in He. destruct He as [_ He].
    apply (findInPathsA_some operationId paths cands p m op Hc Hcand He).
    now rewrite <- Hn.
  - intros fuel v3 doc tools t operationId H Hin Hname.
    destruct (ParserB_tool_origin fuel v3 doc tools t H Hin)
      as [cands [p [m [op [Hc [Hcand [He [Hn _]]]]]]]].
    unfold ParserB.generateTools in H. unfold ParserB.getOperationInfo.
    destruct (negb (truthy doc)); [ discriminate | ].
    unfold documentOperations in Hc. apply bind_ok in Hc.
    destruct Hc as [paths [Hp Hc]]. rewrite Hp. simpl.
    unfold eligibleB in He. apply andb_true_iff in He. destruct He as [_ He].
    apply (findInPathsB_some operationId paths cands p m op Hc Hcand He).
    now rewrite <- Hn.
Qed.

Lemma compiled_tools_are_found_by_name_witness :
  (exists info, ParserA.getOperationInfo duplicateIdDoc "foo" = Ok (Some info))
  /\ (exists info, ParserB.getOperationInfo duplicateIdDoc "foo" = Ok (Some info))
  /\ (exists info, ParserB.getOperationInfo cyclicDoc "listB" = Ok (Some info)).
Proof.
  destruct compiled_tools_are_found_by_name as [HA HB].
  split; [ | split ].
  - apply (HA 3 duplicateIdDoc (ParserA.getTools 3 duplicateIdDoc)
             (nth 0 (ParserA.getTools 3 duplicateIdDoc)
                  {| name := VUndef; description := EmptyString;
                     inputSchema := VUndef |}) "foo").
    + reflexivity.
    + vm_compute. now left.
    + reflexivity.
  - apply (HB 3 false duplicateIdDoc (ParserB.getTools 3 duplicateIdDoc)
             (nth 0 (ParserB.getTools 3 duplicateIdDoc)
                  {| name := VUndef; description := EmptyString;
                     inputSchema := VUndef |}) "foo").
    + reflexivity.
    + vm_compute. now left.
    + reflexivity.
  - apply (HB 6 true cyclicDoc (ParserB.getTools 6 cyclicDoc)
             (nth 0 (ParserB.getTools 6 cyclicDoc)
                  {| name := VUndef; description := EmptyString;
                     inputSchema := VUndef |}) "listB").
    + reflexivity.
    + vm_compute. now left.
    + reflexivity.
Defined.

(** ** Synthesized names that collide *)

Lemma splitOn_nonempty (sep : ascii) (s : string) : splitOn sep s <> [].
Proof.
  destruct s as [ | c s ]; simpl; [ discriminate | ].
  destruct (Ascii.eqb c sep); [ discriminate | ].
  destruct (splitOn sep s); discriminate.
Qed.

Lemma splitOn_snoc (sep : ascii) (s t : string) :
  noChar sep t = true ->
  splitOn sep (s +++ String sep t) = splitOn sep s ++ [t].
Proof.
  intros Ht. induction s as [ | c s IH ].
  - simpl. rewrite Ascii.eqb_refl. now rewrite (splitOn_single sep t Ht).
  - simpl. destruct (Ascii.eqb c sep); [ now rewrite IH | ].
    rewrite IH. pose proof (splitOn_nonempty sep s) as Hne.
    destruct (splitOn sep s); [ contradiction | reflexivity ].
Qed.

Lemma generateOperationId_trailing_parameter (method path param : string) :
  noChar "/" param = true ->
  ParserB.generateOperationId method (path +++ "/{" +++ param +++ "}")
  = ParserB.generateOperationId method path.
Proof.
  intros Hp. unfold ParserB.generateOperationId.
  change (path +++ "/{" +++ param +++ "}")
    with (path +++ String "/" ("{" +++ param +++ "}")).
  rewrite splitOn_snoc.
  - rewrite filter_app.
    assert (E : filter (fun p => negb (String.eqb p EmptyString)
                                 && negb (startsWith "{" p))
                       ["{" +++ param +++ "}"] = []).
    { cbn [filter]. unfold startsWith.
      change ("{" +++ param +++ "}") with (String "{" (param +++ "}")).
      rewrite (proj2 (prefix_cons "{" "{" EmptyString (param +++ "}"))
                 (conj eq_refl (prefix_empty _))).
      now rewrite andb_false_r. }
    rewrite E. now rewrite app_nil_r.
  - simpl. rewrite noChar_append, Hp. reflexivity.
Qed.

(** X9.  Path parameters do not enter a synthesized name: an operation
    without identifier on [path/{param}] gets the name of the same method on
    [path], and once that name is taken the second parser variant skips the
    operation, which gets no tool. *)
Theorem unnamed_operations_collide_on_path_parameters
  (fuel : nat) (v3 : bool) (doc : value) (method path param : string)
  (operation : value) (acc : list Tool * list value) :
  noChar "/" param = true ->
  truthy (getProp operation "operationId") = false ->
  setHas (VStr (ParserB.generateOperationId method path)) (snd acc) = true ->
  ParserB.generateOperationId method (path +++ "/{" +++ param +++ "}")
  = ParserB.generateOperationId method path
  /\ ParserB.methodStep fuel v3 doc (path +++ "/{" +++ param +++ "}") acc
       (method, operation) = Ok acc.
Proof.
  intros Hp Hid Hhas.
  pose proof (generateOperationId_trailing_parameter method path param Hp) as E.
  split; [ exact E | ]. unfold ParserB.methodStep.
  destruct (negb (isHttpMethod method)); [ reflexivity | ].
  destruct (negb (ParserB.isOperation operation)); [ reflexivity | ].
  unfold ParserB.operationIdOf, orElse. rewrite Hid, E, Hhas. reflexivity.
Qed.

Lemma unnamed_operations_collide_on_path_parameters_witness :
  let acc := ([{| name := VStr "getWorkflows"; description := "List workflows";
                  inputSchema := inputSchemaObject [] [] |}],
              [VStr "getWorkflows"]) in
  ParserB.generateOperationId "get"
    ("/workflows/{namespace}" +++ "/{" +++ "name" +++ "}")
  = ParserB.generateOperationId "get" "/workflows/{namespace}"
  /\ ParserB.methodStep 3 true unnamedOperationDoc
       ("/workflows/{namespace}" +++ "/{" +++ "name" +++ "}") acc
       ("get", VObj [("summary", VStr "Get a workflow")]) = Ok acc.
Proof.
  intros acc.
  apply (unnamed_operations_collide_on_path_parameters 3 true
           unnamedOperationDoc "get" "/workflows/{namespace}" "name"
           (VObj [("summary", VStr "Get a workflow")]) acc);
    reflexivity.
Defined.

(** ** The description of a tool *)

Lemma firstLine_spec (sep : ascii) (d : string) :
  let line := hd EmptyString (splitOn sep d) in
  noChar sep line = true
  /\ (line = d \/ exists rest, d = line +++ String sep rest).
Proof.
  induction d as [ | c d IH ]; simpl.
  - split; [ reflexivity | now left ].
  - destruct (Ascii.eqb c sep) eqn:E.
    + apply Ascii.eqb_eq in E. subst c. simpl.
      split; [ reflexivity | right; now exists d ].
    + simpl in IH. destruct IH as [H1 H2].
      destruct (splitOn sep d) as [ | h t ] eqn:Es.
      * exfalso. now apply (splitOn_nonempty sep d).
      * simpl in *. rewrite E, H1. split; [ reflexivity | ].
        destruct H2 as [-> | [rest ->]]; [ now left | right; now exists rest ].
Qed.

(** X10.  For an operation without summary and without tags whose
    description is a non-empty string, the tool description is the
    description's first line: the text before the first line feed, or the
    whole description when it has none. *)
Theorem description_defaults_to_first_line
  (operation : value) (method pathTemplate d : string) :
  truthy (getProp operation "summary") = false ->
  truthy (getProp operation "tags") = false ->
  getProp operation "description" = VStr d -> d <> EmptyString ->
  exists line,
    buildDescription operation method pathTemplate = Ok line
    /\ noChar (ascii_of_nat 10) line = true
    /\ (line = d \/ exists rest, d = line +++ newline +++ rest).
Proof.
  intros Hs Ht Hd Hne. unfold buildDescription.
  rewrite Hs, Ht, Hd. cbn [truthy]. apply String.eqb_neq in Hne. rewrite Hne.
  cbn [negb bind andb app]. unfold joinValues. cbn [map joinWith jsToString].
  exists (hd EmptyString (splitOn (ascii_of_nat 10) d)).
  split; [ reflexivity | ].
  apply (firstLine_spec (ascii_of_nat 10) d).
Qed.

Lemma description_defaults_to_first_line_witness :
  exists line,
    buildDescription
      (VObj [("operationId", VStr "getWorkflow");
             ("description",
              VStr ("Fetch one workflow." +++ newline +++ "Needs a name."))])
      "get" "/workflows/{name}" = Ok line
    /\ noChar (ascii_of_nat 10) line = true
    /\ (line = "Fetch one workflow." +++ newline +++ "Needs a name."
        \/ exists rest,
             "Fetch one workflow." +++ newline +++ "Needs a name."
             = line +++ newline +++ rest).
Proof.
  apply (description_defaults_to_first_line
           (VObj [("operationId", VStr "getWorkflow");
                  ("description",
                   VStr ("Fetch one workflow." +++ newline +++ "Needs a name."))])
           "get" "/workflows/{name}"
           ("Fetch one workflow." +++ newline +++ "Needs a name."));
    try reflexivity.
  discriminate.
Defined.

(** ** The version a loaded document reports *)

(** X11.  After the second variant's [initialize] has returned a tool
    list, [getSchemaVersion] never answers [unknown]: it answers [OpenAPI]
    followed by the text of the [openapi] member when the document has such a
    member, and [Swagger 2.0] otherwise. *)
Theorem loaded_schema_reports_its_version (fuel : nat) (doc : value)
  (tools : list Tool) :
  ParserB.initialize fuel doc = Ok tools ->
  ParserB.getSchemaVersion doc
  = Ok (if hasKey "openapi" doc
        then "OpenAPI " +++ jsToString (getProp doc "openapi")
        else "Swagger 2.0").
Proof.
  intros H. unfold ParserB.initialize in H. apply rethrow_ok in H.
  apply bind_ok in H. destruct H as [v3 [Hd H]].
  apply bind_ok in H. destruct H as [[] [Hv _]].
  apply ParserB_validate_ok in Hv. destruct Hv as [Ht _].
  unfold ParserB.getSchemaVersion. unfold ParserB.detectVersion in Hd.
  rewrite Ht in *. cbn [negb] in *.
  destruct (ParserB.inOperator "openapi" doc) as [ hasOpenapi | e | ] eqn:Eo;
    try discriminate.
  cbn [bind] in *.
  assert (Ehas : hasOpenapi = hasKey "openapi" doc).
  { destruct doc; try discriminate; now injection Eo as <-. }
  rewrite <- Ehas. destruct hasOpenapi; [ reflexivity | ].
  cbn [bind] in Hd.
  destruct (ParserB.inOperator "swagger" doc) as [ hasSwagger | e | ] eqn:Es;
    try discriminate.
  cbn [bind] in *. destruct hasSwagger; [ | discriminate ].
  cbn [andb] in Hd.
  destruct (getProp doc "swagger") as [ | | b | r | s | l | m ];
    try discriminate.
  simpl in Hd. destruct (String.eqb s "2.0") eqn:E; [ | discriminate ].
  apply String.eqb_eq in E. now subst s.
Qed.

Lemma loaded_schema_reports_its_version_witness :
  ParserB.getSchemaVersion duplicateIdDoc = Ok "Swagger 2.0"
  /\ ParserB.getSchemaVersion unnamedOperationDoc = Ok "OpenAPI 3.0.0"
  /\ ParserB.getSchemaVersion cyclicDoc = Ok "OpenAPI 3.0.0".
Proof.
  split; [ | split ].
  - apply (loaded_schema_reports_its_version 3 duplicateIdDoc
             (ParserB.getTools 3 duplicateIdDoc)). reflexivity.
  - apply (loaded_schema_reports_its_version 3 unnamedOperationDoc
             (ParserB.getTools 3 unnamedOperationDoc)). reflexivity.
  - apply (loaded_schema_reports_its_version 6 cyclicDoc
             (ParserB.getTools 6 cyclicDoc)). reflexivity.
Defined.

(** ** Merging a merged schema *)

Lemma filter_filter_comm {A : Type} (p q : A -> bool) (l : list A) :
  filter p (filter q l) = filter q (filter p l).
Proof.
  induction l as [ | x l IH ]; [ reflexivity | ]. simpl.
  destruct (q x) eqn:Eq; destruct (p x) eqn:Ep; simpl;
    rewrite ?Eq, ?Ep, IH; reflexivity.
Qed.

Lemma filter_absorbs (x y : value) (l : list value) :
  strictEquals x y = true ->
  filter (fun z => negb (strictEquals x z))
         (filter (fun z => negb (strictEquals y z)) l)
  = filter (fun z => negb (strictEquals x z)) l.
Proof.
  intros Hxy. induction l as [ | z l IH ]; [ reflexivity | ]. simpl.
  destruct (strictEquals y z) eqn:Eyz; simpl.
  - rewrite (strictEquals_trans x y z Hxy Eyz). simpl. exact IH.
  - destruct (strictEquals x z); simpl; now rewrite IH.
Qed.

Lemma dedupe_filter (x : value) (l : list value) :
  dedupe (filter (fun z => negb (strictEquals x z)) l)
  = filter (fun z => negb (strictEquals x z)) (dedupe l).
Proof.
  induction l as [ | y l IH ]; [ reflexivity | ]. simpl.
  destruct (strictEquals x y) eqn:Exy; simpl.
  - rewrite IH. symmetry. now apply filter_absorbs.
  - rewrite IH. f_equal. apply filter_filter_comm.
Qed.

Lemma filter_idem {A : Type} (p : A -> bool) (l : list A) :
  filter p (filter p l) = filter p l.
Proof.
  induction l as [ | x l IH ]; [ reflexivity | ]. simpl.
  destruct (p x) eqn:E; simpl; rewrite ?E, IH; reflexivity.
Qed.

Lemma dedupe_idem (l : list value) : dedupe (dedupe l) = dedupe l.
Proof.
  induction l as [ | x l IH ]; [ reflexivity | ]. simpl.
  now rewrite dedupe_filter, IH, filter_idem.
Qed.

Lemma assocSet_fresh (k : string) (v : value) (m : list (string * value)) :
  existsb (fun kv => String.eqb k (fst kv)) m = false ->
  assocSet k v m = m ++ [(k, v)].
Proof.
  induction m as [ | [k0 v0] m IH ]; intros H; [ reflexivity | ].
  simpl in H. apply orb_false_iff in H. destruct H as [H1 H2].
  simpl. rewrite H1. now rewrite IH.
Qed.

Lemma existsb_key_app (k : string) (a b : list (string * value)) :
  existsb (fun kv => String.eqb k (fst kv)) (a ++ b)
  = existsb (fun kv => String.eqb k (fst kv)) a
    || existsb (fun kv => String.eqb k (fst kv)) b.
Proof. apply existsb_app. Qed.

Lemma assign_plain (k : string) (v : value) (m : list (string * value)) :
  String.eqb k "__proto__" = false -> assign k v m = assocSet k v m.
Proof. intros H. unfold assign. now rewrite H. Qed.

Lemma objectAssign_fresh (source : list (string * value)) :
  forall target,
    uniqueKeys source = true ->
    lookup "__proto__" source = None ->
    (forall kv, In kv source ->
                existsb (fun kv' => String.eqb (fst kv) (fst kv')) target = false) ->
    objectAssign target source = target ++ source.
Proof.
  unfold objectAssign.
  induction source as [ | [k v] source IH ]; intros target Hu Hp Hd.
  - now rewrite app_nil_r.
  - simpl in Hu. apply andb_true_iff in Hu. destruct Hu as [Hk Hu].
    apply negb_true_iff in Hk. cbn [lookup] in Hp.
    destruct (String.eqb "__proto__" k) eqn:Epk; [ discriminate | ].
    cbn [fold_left fst snd]. rewrite assign_plain; [ | now rewrite String.eqb_sym ].
    rewrite (assocSet_fresh k v target (Hd (k, v) (or_introl eq_refl))).
    rewrite (IH (target ++ [(k, v)]) Hu Hp).
    + now rewrite <- app_assoc.
    + intros [k' v'] Hin. pose proof (Hd (k', v') (or_intror Hin)) as Hk'.
      cbn [fst] in *. rewrite existsb_key_app, Hk'. simpl. rewrite orb_false_r.
      destruct (String.eqb k' k) eqn:E; [ | reflexivity ].
      apply String.eqb_eq in E. subst k'.
      assert (Ht : existsb (fun kv => String.eqb k (fst kv)) source = true).
      { apply existsb_exists. exists (k, v'). split; [ exact Hin | ].
        apply String.eqb_refl. }
      rewrite Ht in Hk. discriminate.
Qed.

Lemma assocSet_keys (k k' : string) (v : value) (m : list (string * value)) :
  existsb (fun kv => String.eqb k (fst kv)) (assocSet k' v m)
  = String.eqb k k' || existsb (fun kv => String.eqb k (fst kv)) m.
Proof.
  induction m as [ | [k0 v0] m IH ]; simpl.
  - reflexivity.
  - destruct (String.eqb k' k0) eqn:E; simpl.
    + apply String.eqb_eq in E. subst k0.
      destruct (String.eqb k k'); reflexivity.
    + rewrite IH. destruct (String.eqb k k0), (String.eqb k k'); reflexivity.
Qed.

Lemma assocSet_unique (k : string) (v : value) (m : list (string * value)) :
  uniqueKeys m = true -> uniqueKeys (assocSet k v m) = true.
Proof.
  induction m as [ | [k0 v0] m IH ]; intros H; [ reflexivity | ].
  simpl in H. apply andb_true_iff in H. destruct H as [H1 H2].
  simpl. destruct (String.eqb k k0) eqn:E.
  - apply String.eqb_eq in E. subst k0. simpl. now rewrite H1, H2.
  - simpl. rewrite assocSet_keys, (IH H2).
    apply negb_true_iff in H1. rewrite H1.
    rewrite String.eqb_sym, E. reflexivity.
Qed.

Lemma objectAssign_unique (source target : list (string * value)) :
  uniqueKeys target = true -> uniqueKeys (objectAssign target source) = true.
Proof.
  unfold objectAssign. revert target.
  induction source as [ | [k v] source IH ]; intros target H; [ exact H | ].
  simpl. apply IH. unfold assign.
  destruct (String.eqb k "__proto__" && negb (hasKey "__proto__" (VObj target)));
    [ exact H | now apply assocSet_unique ].
Qed.

Lemma foldM_mergeStep_unique (bs : list value) :
  forall acc acc',
    uniqueKeys (fst acc) = true ->
    lookup "__proto__" (fst acc) = None ->
    foldM mergeStep bs acc = Ok acc' ->
    uniqueKeys (fst acc') = true /\ lookup "__proto__" (fst acc') = None.
Proof.
  induction bs as [ | b bs IH ]; intros acc acc' Hu Hn H; simpl in H.
  - injection H as <-. now split.
  - apply bind_ok in H. destruct H as [acc1 [H1 H]].
    unfold mergeStep in H1. apply bind_ok in H1. destruct H1 as [p [_ H1]].
    apply bind_ok in H1. destruct H1 as [r [_ H1]].
    assert (Hp : uniqueKeys (if truthy p then objectAssign (fst acc) (ownEntries p)
                             else fst acc) = true
                 /\ lookup "__proto__"
                      (if truthy p then objectAssign (fst acc) (ownEntries p)
                       else fst acc) = None).
    { destruct (truthy p); [ | now split ]. split.
      - now apply objectAssign_unique.
      - now apply objectAssign_keeps_prototype_key_out. }
    destruct Hp as [Hp1 Hp2].
    apply (IH acc1); [ | | exact H ]; destruct (truthy r).
    + apply bind_ok in H1. destruct H1 as [xs [_ H1]]. now injection H1 as <-.
    + now injection H1 as <-.
    + apply bind_ok in H1. destruct H1 as [xs [_ H1]]. now injection H1 as <-.
    + now injection H1 as <-.
Qed.



(** ** Substituting every placeholder *)

Lemma getSubstitution_literal (matched before after repl : string) :
  noChar "$" repl = true ->
  getSubstitution matched before after repl = repl.
Proof.
  induction repl as [ | x t IH ]; intros H; [ reflexivity | ].
  simpl in H. apply andb_true_iff in H. destruct H as [Hx Ht].
  apply negb_true_iff in Hx. cbn [getSubstitution]. rewrite Hx.
  now rewrite (IH Ht).
Qed.

Lemma dropN_append (p r : string) : dropN (String.length p) (p +++ r) = r.
Proof. induction p as [ | c p IH ]; simpl; [ reflexivity | exact IH ]. Qed.

Lemma replaceFirst_cons (c : ascii) (r pat repl : string) :
  noChar "$" repl = true ->
  String.prefix pat (String c r) = false ->
  replaceFirst (String c r) pat repl = String c (replaceFirst r pat repl).
Proof.
  intros Hl H. unfold replaceFirst. cbn [splitAtFirst]. rewrite H.
  destruct (splitAtFirst pat r) as [ [b a] | ]; [ | reflexivity ].
  now rewrite !(getSubstitution_literal _ _ _ _ Hl).
Qed.

Lemma replaceFirst_at_start (pat r repl : string) :
  noChar "$" repl = true ->
  replaceFirst (pat +++ r) pat repl = repl +++ r.
Proof.
  intros H. unfold replaceFirst.
  assert (E : splitAtFirst pat (pat +++ r) = Some (EmptyString, r)).
  { destruct (pat +++ r) as [ | c s ] eqn:Es.
    - destruct pat; [ | discriminate ]. simpl in Es. subst r. reflexivity.
    - cbn [splitAtFirst]. rewrite <- Es, prefix_append, dropN_append.
      reflexivity. }
  rewrite E. simpl. now rewrite getSubstitution_literal.
Qed.

Lemma scanPlaceholders_literal (v r : string) :
  noChar "{" v = true ->
  scanPlaceholders None (v +++ r) = scanPlaceholders None r.
Proof.
  induction v as [ | c v IH ]; intros H; [ reflexivity | ].
  simpl in H. apply andb_true_iff in H. destruct H as [Hc Hv].
  apply negb_true_iff in Hc. simpl. rewrite Hc. now apply IH.
Qed.

(** A match attempt under way ends at the next closing brace. *)
Lemma scanPlaceholders_run (r : string) :
  forall acc m rest,
    scanPlaceholders (Some acc) r = m :: rest ->
    exists n2 r2,
      r = n2 +++ String "}" r2
      /\ ((acc +++ n2 = EmptyString /\ scanPlaceholders None r2 = m :: rest)
          \/ (m = "{" +++ (acc +++ n2) +++ "}"
              /\ rest = scanPlaceholders None r2)).
Proof.
  induction r as [ | c r IH ]; intros acc m rest H; [ discriminate | ].
  simpl in H. destruct (Ascii.eqb c "}") eqn:Ec.
  - apply Ascii.eqb_eq in Ec. subst c. exists EmptyString, r.
    split; [ reflexivity | ]. rewrite append_empty_r.
    destruct (String.eqb acc EmptyString) eqn:Ea.
    + apply String.eqb_eq in Ea. left. now split.
    + injection H as <- <-. right. now split.
  - apply IH in H. destruct H as [n2 [r2 [-> H]]].
    exists (String c n2), r2. split; [ reflexivity | ].
    rewrite append_assoc_s in H. exact H.
Qed.

Lemma append_inj_r (a b : string) (c : ascii) :
  noChar c a = true -> noChar c b = true ->
  a +++ String c EmptyString = b +++ String c EmptyString -> a = b.
Proof.
  revert b. induction a as [ | x a IH ]; intros b Ha Hb H.
  - destruct b as [ | y b ]; [ reflexivity | ].
    simpl in H. injection H as <- H. simpl in Hb.
    now rewrite Ascii.eqb_refl in Hb.
  - destruct b as [ | y b ].
    + simpl in H. injection H as -> H. simpl in Ha.
      now rewrite Ascii.eqb_refl in Ha.
    + simpl in H. injection H as -> H. simpl in Ha, Hb.
      apply andb_true_iff in Ha, Hb. f_equal. apply IH; tauto.
Qed.

Lemma placeholder_not_at_empty_braces (n r2 : string) :
  n <> EmptyString -> noChar "}" n = true ->
  String.prefix ("{" +++ n +++ "}") (String "{" (String "}" r2)) = false
  /\ String.prefix ("{" +++ n +++ "}") (String "}" r2) = false.
Proof.
  intros Hn Hclose. destruct n as [ | x n' ]; [ contradiction | ].
  simpl in Hclose. apply andb_true_iff in Hclose.
  destruct Hclose as [Hx _]. apply negb_true_iff in Hx.
  change ("{" +++ String x n' +++ "}") with (String "{" (String x (n' +++ "}"))).
  split.
  - destruct (String.prefix _ _) eqn:E; [ | reflexivity ].
    apply prefix_cons in E. destruct E as [_ E].
    apply prefix_cons in E. destruct E as [-> _].
    now rewrite Ascii.eqb_refl in Hx.
  - destruct (String.prefix _ _) eqn:E; [ | reflexivity ].
    apply prefix_cons in E. destruct E as [E _]. discriminate.
Qed.

Lemma noChar_before_last (c : ascii) (a b : string) :
  noChar c b = true ->
  a +++ String c EmptyString = b +++ String c EmptyString ->
  noChar c a = true.
Proof.
  revert b. induction a as [ | y a IH ]; intros b Hb H; [ reflexivity | ].
  destruct b as [ | x b ].
  - simpl in H. injection H as <- H. destruct a; discriminate.
  - simpl in H. injection H as <- H. simpl in Hb.
    apply andb_true_iff in Hb. destruct Hb as [Hx Hb].
    simpl. rewrite Hx. simpl. now apply (IH b).
Qed.

Lemma replaceFirst_first_match (k : nat) :
  forall u n v rest,
    String.length u <= k ->
    n <> EmptyString -> noChar "}" n = true ->
    noChar "{" v = true -> noChar "$" v = true ->
    scanPlaceholders None u = ("{" +++ n +++ "}") :: rest ->
    scanPlaceholders None (replaceFirst u ("{" +++ n +++ "}") v) = rest.
Proof.
  induction k as [ | k IH ]; intros u n v rest Hlen Hn Hclose Hv1 Hv2 H.
  - destruct u; [ discriminate | simpl in Hlen; lia ].
  - destruct u as [ | c r ]; [ discriminate | ]. simpl in Hlen.
    cbn [scanPlaceholders] in H. destruct (Ascii.eqb c "{") eqn:Ec.
    + apply Ascii.eqb_eq in Ec. subst c.
      apply scanPlaceholders_run in H. destruct H as [n2 [r2 [-> H]]].
      destruct H as [[He H] | [Hm Hrest]].
      * simpl in He. subst n2.
        change (EmptyString +++ String "}" r2) with (String "}" r2) in *.
        destruct (placeholder_not_at_empty_braces n r2 Hn Hclose) as [Hp1 Hp2].
        rewrite (replaceFirst_cons _ _ _ _ Hv2 Hp1),
                (replaceFirst_cons _ _ _ _ Hv2 Hp2).
        cbn [scanPlaceholders]. simpl.
        apply IH; auto. simpl in Hlen. lia.
      * change (EmptyString +++ n2) with n2 in Hm.
        change ("{" +++ n +++ "}") with (String "{" (n +++ "}")) in Hm.
        change ("{" +++ n2 +++ "}") with (String "{" (n2 +++ "}")) in Hm.
        injection Hm as Hm.
        assert (Hn2 : noChar "}" n2 = true).
        { now apply (noChar_before_last "}" n2 n Hclose). }
        apply append_inj_r in Hm; [ | exact Hclose | exact Hn2 ].
        subst n2 rest.
        replace (String "{" (n +++ String "}" r2))
          with (("{" +++ n +++ "}") +++ r2).
        -- rewrite (replaceFirst_at_start _ _ _ Hv2).
           now apply scanPlaceholders_literal.
        -- simpl. f_equal. now rewrite append_assoc_s.
    + assert (Hp : String.prefix ("{" +++ n +++ "}") (String c r) = false).
      { destruct (String.prefix _ _) eqn:E; [ | reflexivity ].
        change ("{" +++ n +++ "}") with (String "{" (n +++ "}")) in E.
        apply prefix_cons in E. destruct E as [<- _]. discriminate. }
      rewrite (replaceFirst_cons _ _ _ _ Hv2 Hp). cbn [scanPlaceholders].
      rewrite Ec. apply IH; auto. lia.
Qed.

Lemma substitutePath_fold_all (args : value) (ms : list string) :
  forall u pp,
    scanPlaceholders None u = ms ->
    forallb (substitutable args) ms = true ->
    scanPlaceholders None (fst (fold_left (substituteStep args) ms (u, pp))) = [].
Proof.
  induction ms as [ | m ms IH ]; intros u pp Hu Hall; [ exact Hu | ].
  simpl in Hall. apply andb_true_iff in Hall. destruct Hall as [Hm Hall].
  assert (Hform : exists n, m = "{" +++ n +++ "}" /\ n <> EmptyString
                            /\ noChar "}" n = true).
  { apply (scanPlaceholders_form u None m I). rewrite Hu. now left. }
  destruct Hform as [n [-> [Hn Hclose]]].
  cbn [fold_left]. unfold substituteStep at 2. unfold substitutable in Hm.
  cbn [fst snd].
  assert (Hstep : forall v,
             noChar "{" (jsToString v) && noChar "$" (jsToString v) = true ->
             scanPlaceholders None
               (replaceFirst u ("{" +++ n +++ "}") (jsToString v)) = ms).
  { intros v Hv. apply andb_true_iff in Hv. destruct Hv as [Hv1 Hv2].
    now apply (replaceFirst_first_match (String.length u)). }
  destruct (getProp args (sliceInner ("{" +++ n +++ "}"))) as [ | | b | r | s | l | o ];
    [ discriminate | | | | | | ]; apply IH; auto.
Qed.

(** X13.  When every placeholder of the path template has an argument (any
    value but [undefined]) whose text holds no opening brace and no dollar
    sign, the URL the dispatcher builds has no placeholder left. *)
Theorem substituted_url_has_no_placeholder
  (path : string) (a : list (string * value)) :
  forallb (substitutable (VObj a)) (pathParamMatches path) = true ->
  pathParamMatches (fst (substitutePath path (VObj a))) = [].
Proof.
  intros H. unfold substitutePath, pathParamMatches.
  now apply substitutePath_fold_all.
Qed.

Lemma substituted_url_has_no_placeholder_witness :
  fst (substitutePath "/api/v1/workflows/{namespace}/{name}"
         (VObj [("namespace", VStr "argo"); ("name", VStr "build-42")]))
  = "/api/v1/workflows/argo/build-42"
  /\ pathParamMatches
       (fst (substitutePath "/api/v1/workflows/{namespace}/{name}"
               (VObj [("namespace", VStr "argo"); ("name", VStr "build-42")])))
     = [].
Proof.
  split; [ reflexivity | ].
  apply (substituted_url_has_no_placeholder
           "/api/v1/workflows/{namespace}/{name}"
           [("namespace", VStr "argo"); ("name", VStr "build-42")]).
  reflexivity.
Defined.

(** ** Replacement patterns in argument values *)

Lemma replaceFirst_matched_text (s pat : string) :
  replaceFirst s pat "$&" = s.
Proof.
  unfold replaceFirst. destruct (splitAtFirst pat s) as [ [b a] | ] eqn:E;
    [ | reflexivity ].
  apply splitAtFirst_spec in E. subst s. simpl. now rewrite append_empty_r.
Qed.

Lemma substitutePath_fold_matched_text (args : value) (ms : list string) :
  forall u pp,
    (forall m, In m ms -> getProp args (sliceInner m) = VStr "$&") ->
    fst (fold_left (substituteStep args) ms (u, pp)) = u.
Proof.
  induction ms as [ | m ms IH ]; intros u pp H; [ reflexivity | ].
  cbn [fold_left]. unfold substituteStep at 2.
  rewrite (H m (or_introl eq_refl)). cbn [fst snd jsToString].
  rewrite replaceFirst_matched_text. apply IH.
  intros m' Hm'. apply H. now right.
Qed.

(** X14.  An argument whose text is [$&] is read by [String.replace] as
    the pattern for the matched text: when the arguments of all placeholders
    are [$&], every request the dispatcher issues carries the path template
    unchanged as its URL, and the placeholder names are still taken for path
    parameters, so that no such argument reaches the query either. *)
Theorem matched_text_pattern_keeps_placeholders
  (method path operationId : string) (a : list (string * value))
  (req : AxiosRequestConfig) :
  (forall m, In m (pathParamMatches path) ->
             getProp (VObj a) (sliceInner m) = VStr "$&") ->
  handleOpenAPITool (Some (method, path)) operationId (VObj a) = Ok req ->
  url req = path
  /\ forall m v, In m (pathParamMatches path) ->
                 ~ In (sliceInner m, v) (ownEntries (params req)).
Proof.
  intros Hargs H. apply handleOpenAPITool_ok in H.
  destruct H as [Hu [Hq _]]. split.
  - rewrite Hu. unfold substitutePath.
    now apply substitutePath_fold_matched_text.
  - intros m v Hm Hin. rewrite Hq, queryParams_entries in Hin.
    unfold collectQuery in Hin. apply collectQuery_fold_in in Hin.
    destruct Hin as [[] | [_ Hk]]. apply isQueryKey_spec in Hk.
    destruct Hk as [_ [Hk _]]. apply Hk.
    unfold substitutePath. apply substitutePath_fold_names. right.
    exists m. split; [ exact Hm | ]. split; [ reflexivity | ].
    rewrite (Hargs m Hm). discriminate.
Qed.

Lemma matched_text_pattern_keeps_placeholders_witness :
  let req := {| params := VObj [("limit", VStr "5")]; method := "GET";
                url := "/workflows/{namespace}"; data := None |} in
  handleOpenAPITool (Some ("get", "/workflows/{namespace}")) "listWorkflows"
    (VObj [("namespace", VStr "$&"); ("limit", VStr "5")]) = Ok req
  /\ url req = "/workflows/{namespace}"
  /\ forall m v, In m (pathParamMatches "/workflows/{namespace}") ->
                 ~ In (sliceInner m, v) (ownEntries (params req)).
Proof.
  intros req. split; [ reflexivity | ].
  apply (matched_text_pattern_keeps_placeholders "get" "/workflows/{namespace}"
           "listWorkflows" [("namespace", VStr "$&"); ("limit", VStr "5")]).
  - intros m [<- | []]. reflexivity.
  - reflexivity.
Defined.

(** ** Methods the dispatcher does not serve *)

Lemma eqb_false_of_existsb (x : string) (l : list string) (y : string) :
  existsb (String.eqb x) l = false -> In y l -> String.eqb x y = false.
Proof.
  intros H Hy. destruct (String.eqb x y) eqn:E; [ | reflexivity ].
  assert (Ht : existsb (String.eqb x) l = true).
  { apply existsb_exists. now exists y. }
  rewrite Ht in H. discriminate.
Qed.

Lemma handleOpenAPITool_unserved (method path operationId : string)
  (args : value) :
  args <> VUndef -> args <> VNull -> dispatchable method = false ->
  handleOpenAPITool (Some (method, path)) operationId args
  = Throw (PlainError ("Unsupported HTTP method: " +++ method)).
Proof.
  intros H1 H2 Hd. unfold dispatchable in Hd. unfold handleOpenAPITool.
  assert (Hm : member args "body" = Ok (getProp args "body")).
  { destruct args; try reflexivity; contradiction. }
  rewrite Hm. cbn [bind].
  destruct (substitutePath path args) as [u pp].
  rewrite (eqb_false_of_existsb _ _ "get" Hd) by (simpl; tauto).
  rewrite (eqb_false_of_existsb _ _ "post" Hd) by (simpl; tauto).
  rewrite (eqb_false_of_existsb _ _ "put" Hd) by (simpl; tauto).
  rewrite (eqb_false_of_existsb _ _ "patch" Hd) by (simpl; tauto).
  rewrite (eqb_false_of_existsb _ _ "delete" Hd) by (simpl; tauto).
  reflexivity.
Qed.

Lemma handleOpenAPITool_served (method path operationId : string)
  (args : value) :
  args <> VUndef -> args <> VNull -> dispatchable method = true ->
  exists req, handleOpenAPITool (Some (method, path)) operationId args = Ok req.
Proof.
  intros H1 H2 Hd. unfold dispatchable in Hd. unfold handleOpenAPITool.
  assert (Hm : member args "body" = Ok (getProp args "body")).
  { destruct args; try reflexivity; contradiction. }
  rewrite Hm. cbn [bind existsb] in *.
  destruct (substitutePath path args) as [u pp].
  destruct (String.eqb (toLowerCase method) "get"); [ eauto | ].
  destruct (String.eqb (toLowerCase method) "post"); [ eauto | ].
  destruct (String.eqb (toLowerCase method) "put"); [ eauto | ].
  destruct (String.eqb (toLowerCase method) "patch"); [ eauto | ].
  destruct (String.eqb (toLowerCase method) "delete"); [ eauto | ].
  discriminate.
Qed.

(** X15.  The dispatcher issues a request only for a known operation
    whose method is one of [get], [post], [put], [patch] and [delete] (in any
    letter case) and for arguments that are neither [undefined] nor [null];
    for a known operation under any other method it never issues one.  When
    the arguments are an object in which the argument of every placeholder is
    read without reaching an inherited member and converts to text
    ([plainArguments]), a known operation under one of the five methods is
    dispatched, and under any other method the dispatcher fails with
    [Unsupported HTTP method].  [head] and [options] are the methods the
    parser compiles into tools that can never be called. *)
Theorem dispatch_serves_five_methods
  (operationInfo : option (string * string)) (operationId : string)
  (args : value) :
  ((exists req, handleOpenAPITool operationInfo operationId args = Ok req) ->
   (exists method path,
       operationInfo = Some (method, path) /\ dispatchable method = true)
   /\ args <> VUndef /\ args <> VNull)
  /\ (forall method path req,
         operationInfo = Some (method, path) -> dispatchable method = false ->
         handleOpenAPITool operationInfo operationId args <> Ok req)
  /\ (forall method path a,
         operationInfo = Some (method, path) -> args = VObj a ->
         plainArguments args path = true ->
         if dispatchable method
         then exists req,
                handleOpenAPITool operationInfo operationId args = Ok req
         else handleOpenAPITool operationInfo operationId args
              = Throw (PlainError ("Unsupported HTTP method: " +++ method)))
  /\ (forall method,
         isHttpMethod method = true /\ dispatchable method = false <->
         toLowerCase method = "head" \/ toLowerCase method = "options").
Proof.
  split; [ | split; [ | split ] ].
  - intros [req H]. destruct operationInfo as [ [method path] | ];
      [ | discriminate ].
    assert (Ha : args <> VUndef /\ args <> VNull).
    { split; intros ->; discriminate. }
    destruct Ha as [H1 H2]. split; [ | now split ].
    exists method, path. split; [ reflexivity | ].
    destruct (dispatchable method) eqn:Ed; [ reflexivity | ].
    rewrite (handleOpenAPITool_unserved _ _ _ _ H1 H2 Ed) in H. discriminate.
  - intros method path req -> Hd H.
    assert (Ha : args <> VUndef /\ args <> VNull).
    { split; intros ->; discriminate. }
    destruct Ha as [H1 H2].
    rewrite (handleOpenAPITool_unserved _ _ _ _ H1 H2 Hd) in H. discriminate.
  - intros method path a -> -> _.
    destruct (dispatchable method) eqn:Ed.
    + apply handleOpenAPITool_served; [ discriminate | discriminate | exact Ed ].
    + apply handleOpenAPITool_unserved; [ discriminate | discriminate | exact Ed ].
  - intros method. unfold isHttpMethod, dispatchable. split.
    + intros [Hh Hd]. apply existsb_exists in Hh.
      destruct Hh as [x [Hx E]]. apply String.eqb_eq in E. subst x.
      simpl in Hx.
      destruct Hx as [Hx | [Hx | [Hx | [Hx | [Hx | [Hx | [Hx | []]]]]]]];
        try (left; now symmetry); try (right; now symmetry);
        exfalso; rewrite <- Hx in Hd; discriminate.
    + intros [-> | ->]; split; reflexivity.
Qed.

Lemma dispatch_serves_five_methods_witness :
  isHttpMethod "HEAD" = true
  /\ handleOpenAPITool (Some ("HEAD", "/workflows/{namespace}")) "probe"
       (VObj [("namespace", VStr "argo")])
     = Throw (PlainError "Unsupported HTTP method: HEAD")
  /\ ((exists method path,
          Some ("get", "/workflows") = Some (method, path)
          /\ dispatchable method = true)
      /\ VObj [("limit", VStr "5")] <> VUndef
      /\ VObj [("limit", VStr "5")] <> VNull).
Proof.
  split; [ reflexivity | ]. split.
  - apply (proj1 (proj2 (proj2 (dispatch_serves_five_methods
                                  (Some ("HEAD", "/workflows/{namespace}")) "probe"
                                  (VObj [("namespace", VStr "argo")]))))
             "HEAD" "/workflows/{namespace}" [("namespace", VStr "argo")]);
      reflexivity.
  - apply (proj1 (dispatch_serves_five_methods
                    (Some ("get", "/workflows")) "listWorkflows"
                    (VObj [("limit", VStr "5")]))).
    eexists. reflexivity.
Defined.

(** ** Retrying *)

Lemma schedule_cons (first count : nat) :
  schedule first (S (S count))
  = Client.Attempt first :: Client.Sleep first :: schedule (S first) (S count).
Proof. reflexivity. Qed.

Lemma attemptsIn_schedule (count : nat) :
  forall first, attemptsIn (schedule first count) = count.
Proof.
  induction count as [ | [ | count ] IH ]; intros first; try reflexivity.
  rewrite schedule_cons. unfold attemptsIn in *. cbn [filter List.length].
  now rewrite IH.
Qed.

Lemma shouldRetry_has_message (options : Client.RetryOptions)
  (error : Client.thrown) (attempt : nat) :
  Client.shouldRetry options error attempt = true ->
  Client.noMessage error = false.
Proof.
  unfold Client.shouldRetry.
  destruct (Client.maxAttempts options <=? attempt)%nat; [ discriminate | ].
  destruct error; try reflexivity. discriminate.
Qed.

Lemma executeFrom_spec {T : Type} (options : Client.RetryOptions)
  (fn : nat -> Client.result T) (remaining : nat) :
  forall attempt lastError,
    attempt + remaining = S (Client.maxAttempts options) ->
    1 <= remaining ->
    exists k,
      attempt <= k /\ k <= Client.maxAttempts options
      /\ fst (Client.executeFrom options fn remaining attempt lastError)
         = match fn k with
           | Client.Returned t => Client.Returned t
           | Client.Raised e => Client.Raised (Client.rethrown e)
           end
      /\ snd (Client.executeFrom options fn remaining attempt lastError)
         = schedule attempt (S k - attempt)
      /\ (forall j, attempt <= j -> j < k ->
                    exists e, fn j = Client.Raised e
                              /\ Client.shouldRetry options e j = true)
      /\ match fn k with
         | Client.Returned _ => True
         | Client.Raised e => Client.shouldRetry options e k = false
         end.
Proof.
  induction remaining as [ | remaining IH ]; intros attempt lastError Hsum Hpos;
    [ lia | ].
  cbn [Client.executeFrom].
  destruct (fn attempt) as [ t | error ] eqn:Efn.
  - exists attempt. rewrite Efn. replace (S attempt - attempt) with 1 by lia.
    repeat split; try lia; try reflexivity.
  - destruct (Client.shouldRetry options error attempt) eqn:Es; cbn [negb].
    + rewrite (shouldRetry_has_message _ _ _ Es).
      destruct remaining as [ | remaining ].
      { exfalso. unfold Client.shouldRetry in Es.
        assert (Hle : (Client.maxAttempts options <=? attempt)%nat = true)
          by (apply Nat.leb_le; lia).
        rewrite Hle in Es. discriminate. }
      destruct (IH (S attempt) (Some error)) as [k [H1 [H2 [H3 [H4 [H5 H6]]]]]];
        [ lia | lia | ].
      exists k.
      destruct (Client.executeFrom options fn (S remaining) (S attempt)
                  (Some error)) as [r events].
      cbn [fst snd] in *. split; [ lia | ]. split; [ exact H2 | ].
      split; [ exact H3 | ]. split.
      * rewrite H4. replace (S k - attempt) with (S (S (k - S attempt))) by lia.
        rewrite schedule_cons. repeat f_equal. lia.
      * split; [ | exact H6 ].
        intros j Hj1 Hj2. destruct (Nat.eq_dec j attempt) as [-> | Hne].
        -- exists error. now split.
        -- apply H5; lia.
    + exists attempt. rewrite Efn. replace (S attempt - attempt) with 1 by lia.
      repeat split; try lia; try reflexivity; try exact Es.
Qed.

(** X16.  [execute] with no attempt allowed throws [Max retry attempts
    reached] without calling the function.  Otherwise it ends with the
    outcome of the first attempt [k] that succeeds or fails with an error
    that is not to be retried at that attempt (a thrown [null] or [undefined]
    leaves as the [TypeError] of reading its message), and [k] is at most
    [maxAttempts]: the function is called [k] times, every earlier attempt
    failed with a retryable error, and there is a sleep after each attempt
    but the last. *)
Theorem execute_stops_at_first_decisive_attempt {T : Type}
  (options : Client.RetryOptions) (fn : nat -> Client.result T) :
  (Client.maxAttempts options = 0 ->
   Client.execute options fn
   = (Client.Raised (Client.OtherError "Max retry attempts reached"), []))
  /\ (1 <= Client.maxAttempts options ->
      exists k,
        1 <= k /\ k <= Client.maxAttempts options
        /\ fst (Client.execute options fn)
           = match fn k with
             | Client.Returned t => Client.Returned t
             | Client.Raised e => Client.Raised (Client.rethrown e)
             end
        /\ snd (Client.execute options fn) = schedule 1 k
        /\ attemptsIn (snd (Client.execute options fn)) = k
        /\ (forall j, 1 <= j -> j < k ->
                      exists e, fn j = Client.Raised e
                                /\ Client.shouldRetry options e j = true)
        /\ match fn k with
           | Client.Returned _ => True
           | Client.Raised e => Client.shouldRetry options e k = false
           end).
Proof.
  split.
  - intros H. unfold Client.execute. rewrite H. reflexivity.
  - intros H. unfold Client.execute.
    destruct (executeFrom_spec options fn (Client.maxAttempts options) 1 None)
      as [k [H1 [H2 [H3 [H4 [H5 H6]]]]]]; [ lia | exact H | ].
    exists k. replace (S k - 1) with k in H4 by lia.
    repeat split; auto. rewrite H4. apply attemptsIn_schedule.
Qed.

(** ** Which answers the client retries *)

Lemma handleAPIError_cases (response : Client.Response) :
  (exists message,
      Client.handleAPIError response = Client.AuthenticationError message
      /\ existsb (fun code => occurs code message) Client.networkErrors = false
      /\ (Client.status response = 401 \/ Client.status response = 403))
  \/ (exists message,
         Client.handleAPIError response
         = Client.ArgoAPIError message (Client.status response)
         /\ Client.status response <> 401 /\ Client.status response <> 403).
Proof.
  unfold Client.handleAPIError.
  destruct (Client.status response =? 401)%nat eqn:E1.
  { apply Nat.eqb_eq in E1. left. eexists. split; [ reflexivity | ].
    split; [ reflexivity | now left ]. }
  destruct (Client.status response =? 403)%nat eqn:E2.
  { apply Nat.eqb_eq in E2. left. eexists. split; [ reflexivity | ].
    split; [ reflexivity | now right ]. }
  apply Nat.eqb_neq in E1, E2. right.
  destruct (Client.status response =? 404)%nat; [ eauto | ].
  destruct (Client.status response =? 429)%nat; eauto.
Qed.

Lemma rethrown_handleAPIError (response : Client.Response) :
  Client.rethrown (Client.handleAPIError response)
  = Client.handleAPIError response.
Proof.
  destruct (handleAPIError_cases response) as [[m [-> _]] | [m [-> _]]];
    reflexivity.
Qed.

Lemma transformError_handleAPIError (response : Client.Response) :
  Client.transformError (Client.handleAPIError response)
  = Client.handleAPIError response.
Proof.
  destruct (handleAPIError_cases response) as [[m [-> _]] | [m [-> _]]];
    reflexivity.
Qed.

Lemma shouldRetry_answer (options : Client.RetryOptions)
  (response : Client.Response) (attempt : nat) :
  Client.shouldRetry options (Client.handleAPIError response) attempt
  = (attempt <? Client.maxAttempts options)%nat
    && negb (Client.status response =? 401)%nat
    && negb (Client.status response =? 403)%nat
    && existsb (Nat.eqb (Client.status response)) (Client.statuses options).
Proof.
  unfold Client.shouldRetry. rewrite Nat.ltb_antisym.
  destruct (Client.maxAttempts options <=? attempt)%nat; [ reflexivity | ].
  cbn [negb andb].
  destruct (handleAPIError_cases response) as [[m [-> [Hm Hs]]] | [m [-> [H1 H2]]]].
  - rewrite Hm. destruct Hs as [-> | ->]; reflexivity.
  - apply Nat.eqb_neq in H1, H2. now rewrite H1, H2.
Qed.





Lemma execute_stops_at_first_decisive_attempt_witness :
  let options := {| Client.maxAttempts := 3; Client.retryableStatuses := None |} in
  let fn := fun n : nat =>
              if (n <? 2)%nat
              then Client.Raised (Client.OtherError "connect ECONNREFUSED")
              else Client.Returned n in
  exists k,
    1 <= k /\ k <= 3
    /\ fst (Client.execute options fn)
       = match fn k with
         | Client.Returned t => Client.Returned t
         | Client.Raised e => Client.Raised (Client.rethrown e)
         end
    /\ snd (Client.execute options fn) = schedule 1 k
    /\ attemptsIn (snd (Client.execute options fn)) = k
    /\ (forall j, 1 <= j -> j < k ->
                  exists e, fn j = Client.Raised e
                            /\ Client.shouldRetry options e j = true)
    /\ match fn k with
       | Client.Returned _ => True
       | Client.Raised e => Client.shouldRetry options e k = false
       end.
Proof.
  intros options fn.
  apply (proj2 (execute_stops_at_first_decisive_attempt options fn)).
  simpl. lia.
Defined.

(** ** What [request] throws *)

Lemma transformError_classified (e : Client.thrown) :
  unclassified (Client.transformError e) = false.
Proof.
  destruct e as [ m | m c | m | code m response timeout | m | v ];
    try reflexivity.
  cbn [Client.transformError].
  destruct (match code with
            | Some c => String.eqb c "ECONNABORTED"
            | None => false
            end); [ reflexivity | ].
  destruct response as [ r | ]; [ | reflexivity ].
  destruct (handleAPIError_cases r) as [[x [-> _]] | [x [-> _]]]; reflexivity.
Qed.

Lemma transformError_idempotent (e : Client.thrown) :
  Client.transformError (Client.transformError e) = Client.transformError e.
Proof.
  pose proof (transformError_classified e) as H.
  destruct (Client.transformError e); try reflexivity; discriminate.
Qed.

(** X26.  Whatever the HTTP calls do and whatever number of attempts is
    allowed, an error thrown by [request] is an error of the application:
    never the HTTP library's own error and never a value that is no [Error].
    Transforming it again leaves it as it is. *)
Theorem request_throws_classified_errors (options : Client.RetryOptions)
  (send : nat -> Client.result Client.Response) :
  match fst (Client.request options send) with
  | Client.Returned _ => True
  | Client.Raised e =>
      unclassified e = false /\ Client.transformError e = e
  end.
Proof.
  unfold Client.request.
  destruct (Client.execute options (Client.attemptRequest send)) as [r events].
  cbn [fst]. destruct r as [ response | e ]; [ exact I | ].
  split; [ apply transformError_classified | apply transformError_idempotent ].
Qed.

Lemma ParserB_resolved_schema_is_reference_free_witness :
  ParserB.resolveSchema 8 true petDoc refToDog = Ok resolvedDog
  /\ referenceFree resolvedDog.
Proof.
  split; [ reflexivity | ].
  apply (ParserB_resolved_schema_is_reference_free 8 true petDoc refToDog).
  reflexivity.
Defined.

Lemma ParserA_resolved_schema_is_reference_free_witness :
  ParserA.resolveSchemaTop 8 petDoc refToDog = Ok resolvedDog
  /\ referenceFree resolvedDog
  /\ referenceFree (VObj [("type", VStr "object");
                          ("properties",
                           VObj [("field",
                                  ParserA.circularPlaceholder "#/definitions/A")])]).
Proof.
  split; [ reflexivity | ]. split.
  - apply (ParserA_resolved_schema_is_reference_free 8 petDoc refToDog).
    reflexivity.
  - apply (ParserA_resolved_schema_is_reference_free 6 selfRefDoc refToA).
    reflexivity.
Defined.


Lemma compiled_tools_declare_required_names_witness :
  map (fun t => requiredOf (inputSchema t)) (ParserA.getTools 8 petDoc)
  = [[VStr "id"]; [VStr "body"]]
  /\ requiredDeclared (inputSchema (nth 0 (ParserA.getTools 8 petDoc) noTool))
     = true
  /\ requiredDeclared (inputSchema (nth 1 (ParserB.getTools 8 petDoc) noTool))
     = true
  /\ requiredDeclared (inputSchema (nth 0 (ParserB.getTools 6 cyclicDoc) noTool))
     = true.
Proof.
  destruct compiled_tools_declare_required_names as [HA HB].
  split; [ reflexivity | ]. split; [ | split ].
  - apply (HA 8 petDoc (ParserA.getTools 8 petDoc)); [ reflexivity | ].
    vm_compute. now left.
  - apply (HB 8 true petDoc (ParserB.getTools 8 petDoc)); [ reflexivity | ].
    vm_compute. right. now left.
  - apply (HB 6 true cyclicDoc (ParserB.getTools 6 cyclicDoc)); [ reflexivity | ].
    vm_compute. now left.
Defined.

Lemma openapi3_tool_properties_are_reference_free_witness :
  referenceFree
    (withDescription (VObj [("type", VStr "string")]) VUndef)
  /\ referenceFree (withDescription resolvedDog (VStr "Request body"))
  /\ referenceFree (withDescription (VObj [("type", VStr "integer")]) VUndef).
Proof.
  destruct openapi3_tool_properties_are_reference_free as [HA HB].
  split; [ | split ].
  - apply (HA 8 petDoc (ParserA.getTools 8 petDoc)
              (nth 0 (ParserA.getTools 8 petDoc) noTool) "kind").
    + reflexivity.
    + reflexivity.
    + vm_compute. now left.
    + vm_compute. right. now left.
  - apply (HB 8 petDoc (ParserB.getTools 8 petDoc)
              (nth 1 (ParserB.getTools 8 petDoc) noTool) "body").
    + reflexivity.
    + vm_compute. right. now left.
    + vm_compute. now left.
  - apply (HB 6 cyclicDoc (ParserB.getTools 6 cyclicDoc)
              (nth 0 (ParserB.getTools 6 cyclicDoc) noTool) "limit").
    + reflexivity.
    + vm_compute. now left.
    + vm_compute. now left.
Defined.

(** ** The second variant on fragments without references *)

Lemma mapM_returns {A B : Type} (f : A -> outcome B) (l : list A) :
  (forall x, In x l -> f x <> OutOfFuel) -> mapM f l <> OutOfFuel.
Proof.
  induction l as [ | x l IH ]; intros Hf; simpl; [ discriminate | ].
  apply bind_returns; [ apply Hf; now left | ].
  intros y _. apply bind_returns; [ | discriminate ].
  apply IH. intros x' Hx'. apply Hf. now right.
Qed.

Lemma incl_nil_eq {A : Type} (l : list A) : incl l [] -> l = [].
Proof. destruct l as [ | x l ]; [ reflexivity | ]. intros H. destruct (H x). now left. Qed.

Lemma unreferenced_child (schema : value) (k : string) :
  refsIn schema = [] ->
  startsWithDigit k = false -> String.eqb k "length" = false ->
  truthy (getProp schema k) = true ->
  height (getProp schema k) < height schema /\ refsIn (getProp schema k) = [].
Proof.
  intros Hr Hd Hl Ht.
  destruct (getProp_truthy_child schema k Hd Hl Ht) as [Hlt _].
  split; [ exact Hlt | ]. apply incl_nil_eq. rewrite <- Hr.
  apply (proj2 (getProp_child schema k)).
Qed.

Section BodyUnreferenced.

Variables (v3 : bool) (doc schema : value).
Variable self : value -> outcome value.
Hypothesis schema_refs : refsIn schema = [].
Hypothesis self_child :
  forall s, refsIn s = [] -> height s < height schema -> self s <> OutOfFuel.

Lemma ParserB_body_returns :
  ParserB.resolveSchemaBody self v3 doc schema <> OutOfFuel.
Proof.
  unfold ParserB.resolveSchemaBody.
  destruct (negb (truthy schema)); [ discriminate | ].
  destruct (truthy (getProp schema "$ref")) eqn:Eref.
  { destruct (getProp_truthy_child schema "$ref" eq_refl eq_refl Eref)
      as [_ [m [-> Hin]]].
    unfold ParserB.resolveRef. destruct (negb (truthy doc)); [ discriminate | ].
    destruct (getProp (VObj m) "$ref") as [ | | b | n | r | l | m' ] eqn:Eg;
      try discriminate.
    apply refsIn_ref_member in Hin. rewrite schema_refs in Hin. contradiction. }
  destruct (truthy (getProp schema "allOf")) eqn:Eall.
  { destruct (unreferenced_child schema "allOf" schema_refs eq_refl eq_refl Eall)
      as [Hlt Hrefs].
    apply bind_returns; [ apply asArray_returns | ].
    intros l Hl. apply bind_returns; [ | intros rs _; apply mergeSchemas_returns ].
    destruct (getProp schema "allOf") as [ | | b | n | r | l' | m' ];
      try discriminate. injection Hl as <-.
    apply mapM_returns. intros x Hx. apply self_child.
    - apply incl_nil_eq. rewrite <- Hrefs. now apply refsIn_element.
    - apply height_element in Hx. lia. }
  destruct (truthy (getProp schema "oneOf") || truthy (getProp schema "anyOf"))
    eqn:Eone.
  { assert (Hs : height (orElse (getProp schema "oneOf") (getProp schema "anyOf"))
                 < height schema
                 /\ refsIn (orElse (getProp schema "oneOf")
                              (getProp schema "anyOf")) = []).
    { unfold orElse. destruct (truthy (getProp schema "oneOf")) eqn:E1.
      - now apply unreferenced_child.
      - simpl in Eone. now apply unreferenced_child. }
    destruct Hs as [Hlt Hrefs].
    destruct (getProp_child
                (orElse (getProp schema "oneOf") (getProp schema "anyOf")) "0")
      as [Hh Hr].
    apply self_child; [ | lia ]. apply incl_nil_eq. now rewrite <- Hrefs. }
  cbv zeta. rewrite (getProp_ownEntries schema "properties" eq_refl).
  apply bind_returns.
  - destruct (truthy (getProp schema "properties")) eqn:Eprops;
      [ | discriminate ].
    destruct (unreferenced_child schema "properties" schema_refs eq_refl eq_refl
                Eprops) as [Hlt Hrefs].
    apply bind_returns; [ | discriminate ].
    apply mapM_returns. intros [k x] Hx. apply bind_returns; [ | discriminate ].
    apply ownEntries_child in Hx. destruct Hx as [Hh Hr]. cbn [snd].
    apply self_child; [ | lia ]. apply incl_nil_eq. now rewrite <- Hrefs.
  - intros resolved1 Hres.
    assert (Hitems : getProp (VObj resolved1) "items" = getProp schema "items").
    { rewrite (getProp_lookup (VObj resolved1) "items" eq_refl),
              (getProp_lookup schema "items" eq_refl). simpl.
      destruct (truthy (getProp schema "properties")).
      - apply bind_ok in Hres. destruct Hres as [kvs [_ Hres]].
        injection Hres as <-. now rewrite lookup_assocSet.
      - now injection Hres as <-. }
    rewrite Hitems.
    destruct (truthy (getProp schema "items")) eqn:Eitems; [ | discriminate ].
    destruct (unreferenced_child schema "items" schema_refs eq_refl eq_refl
                Eitems) as [Hlt Hrefs].
    apply bind_returns; [ now apply self_child | discriminate ].
Qed.

End BodyUnreferenced.

(** X19.  On a fragment that holds no reference string, the second
    variant's [resolveSchema] returns within a recursion budget above the
    fragment's nesting depth, whatever the document: it can only fail to
    return by following references. *)
Theorem ParserB_resolves_unreferenced_fragments
  (fuel : nat) (v3 : bool) (doc schema : value) :
  refsIn schema = [] -> height schema < fuel ->
  ParserB.resolveSchema fuel v3 doc schema <> OutOfFuel.
Proof.
  revert schema. induction fuel as [ | fuel IH ]; intros schema Hr Hh; [ lia | ].
  simpl. apply ParserB_body_returns; [ exact Hr | ].
  intros s Hs Hlt. apply IH; [ exact Hs | lia ].
Qed.

Lemma ParserB_resolves_unreferenced_fragments_witness :
  refsIn resolvedDog = [] /\ height resolvedDog < 5
  /\ ParserB.resolveSchema 5 true petDoc resolvedDog <> OutOfFuel.
Proof.
  assert (H1 : refsIn resolvedDog = []) by reflexivity.
  assert (H2 : height resolvedDog < 5) by (apply Nat.ltb_lt; reflexivity).
  split; [ exact H1 | ]. split; [ exact H2 | ].
  apply (ParserB_resolves_unreferenced_fragments 5 true petDoc resolvedDog H1 H2).
Defined.

(** ** The visited set *)

(** X20.  Whenever the first variant's [resolveSchema] returns a schema,
    the visited set is as the call found it: every reference added on the
    way has been removed again. *)
Theorem visited_set_is_restored (fuel : nat) (doc schema : value)
  (visited visited' : list string) (resolved : value) :
  ParserA.resolveSchema fuel doc schema visited = (Ok resolved, visited') ->
  visited' = visited.
Proof. apply (resolveSchema_restores fuel doc schema). Qed.

Lemma visited_set_is_restored_witness :
  ParserA.resolveSchema 8 petDoc refToDog ["#/components/schemas/Tag"]
  = (Ok (VObj [("type", VStr "object");
               ("properties",
                VObj [("name", VObj [("type", VStr "string")]);
                      ("tags",
                       VObj [("type", VStr "array");
                             ("items",
                              ParserA.circularPlaceholder
                                "#/components/schemas/Tag")]);
                      ("breed", VObj [("type", VStr "string")])]);
               ("required", VArr [VStr "name"; VStr "breed"])]),
     ["#/components/schemas/Tag"])
  /\ ["#/components/schemas/Tag"] = ["#/components/schemas/Tag"].
Proof.
  split; [ reflexivity | ].
  apply (visited_set_is_restored 8 petDoc refToDog
           ["#/components/schemas/Tag"] ["#/components/schemas/Tag"]
           (VObj [("type", VStr "object");
               ("properties",
                VObj [("name", VObj [("type", VStr "string")]);
                      ("tags",
                       VObj [("type", VStr "array");
                             ("items",
                              ParserA.circularPlaceholder
                                "#/components/schemas/Tag")]);
                      ("breed", VObj [("type", VStr "string")])]);
               ("required", VArr [VStr "name"; VStr "breed"])])).
  reflexivity.
Defined.

(** ** The two resolvers agree where the second returns *)

Lemma resolveRef_agrees (v3 : bool) (doc ref x : value) :
  truthy (referenceStore v3 doc) = true ->
  ParserB.resolveRef v3 doc ref = Ok x -> ParserA.resolveRef doc ref = Ok x.
Proof.
  unfold referenceStore, ParserB.resolveRef, ParserA.resolveRef. intros Hs.
  destruct (truthy doc) eqn:Hd; cbn [negb]; [ | discriminate ].
  destruct ref as [ | | b | n | r | l | m ]; try discriminate.
  destruct (tl (splitOn "/" r)) as [ | first rest ] eqn:Ep.
  - simpl. intros H. injection H as <-. reflexivity.
  - destruct (negb v3 && String.eqb first "definitions") eqn:E1.
    { apply andb_true_iff in E1. destruct E1 as [Ev E1].
      apply String.eqb_eq in E1. subst first. destruct v3; [ discriminate | ].
      rewrite ParserB_walk_pointerWalk.
      destruct (pointerWalk (getProp doc "definitions") rest) as [ t | ] eqn:Ew;
        [ | discriminate ].
      intros H. injection H as <-. cbn [ParserA.walk]. rewrite Hs.
      now rewrite (ParserA_walk_pointerWalk rest _ Hs), Ew. }
    destruct (v3 && String.eqb first "components") eqn:E2.
    { apply andb_true_iff in E2. destruct E2 as [Ev E2].
      apply String.eqb_eq in E2. subst first. subst v3.
      rewrite ParserB_walk_pointerWalk.
      destruct (pointerWalk (getProp doc "components") rest) as [ t | ] eqn:Ew;
        [ | discriminate ].
      intros H. injection H as <-. cbn [ParserA.walk]. rewrite Hs.
      now rewrite (ParserA_walk_pointerWalk rest _ Hs), Ew. }
    rewrite ParserB_walk_pointerWalk.
    destruct (pointerWalk doc (first :: rest)) as [ t | ] eqn:Ew;
      [ | discriminate ].
    intros H. injection H as <-.
    now rewrite (ParserA_walk_pointerWalk (first :: rest) _ Hd), Ew.
Qed.

Lemma ParserB_less_fuel (v3 : bool) (doc schema : value) (k n : nat) :
  k <= n ->
  ParserB.resolveSchema n v3 doc schema = OutOfFuel ->
  ParserB.resolveSchema k v3 doc schema = OutOfFuel.
Proof.
  intros Hk Hn.
  destruct (ParserB.resolveSchema k v3 doc schema) as [ r | e | ] eqn:E;
    [ | | reflexivity ].
  - pose proof (ParserB_resolveSchema_more_fuel k (n - k) v3 doc schema) as H.
    replace (n - k + k) with n in H by lia. rewrite E in H.
    rewrite H in Hn by discriminate. discriminate.
  - pose proof (ParserB_resolveSchema_more_fuel k (n - k) v3 doc schema) as H.
    replace (n - k + k) with n in H by lia. rewrite E in H.
    rewrite H in Hn by discriminate. discriminate.
Qed.

Lemma unresolved_less_fuel (v3 : bool) (doc : value) (k n : nat)
  (visited : list string) :
  k <= n -> unresolved v3 doc n visited -> unresolved v3 doc k visited.
Proof.
  intros Hk H r schema Hin Ht Hr.
  apply (ParserB_less_fuel v3 doc schema k n Hk). now apply (H r).
Qed.

(** The least budget with which the second variant returns. *)
Lemma ParserB_least_fuel (v3 : bool) (doc schema r : value) (n : nat) :
  ParserB.resolveSchema n v3 doc schema = Ok r ->
  exists m,
    S m <= n
    /\ ParserB.resolveSchema (S m) v3 doc schema = Ok r
    /\ ParserB.resolveSchema m v3 doc schema = OutOfFuel.
Proof.
  induction n as [ | n IH ]; intros H; [ discriminate | ].
  destruct (ParserB.resolveSchema n v3 doc schema) as [ r' | e | ] eqn:E.
  - pose proof (ParserB_resolveSchema_more_fuel n 1 v3 doc schema) as Hm.
    rewrite E in Hm. change (1 + n) with (S n) in Hm.
    rewrite Hm in H by discriminate. injection H as ->.
    destruct (IH eq_refl) as [m [H1 [H2 H3]]]. exists m. split; [ lia | auto ].
  - pose proof (ParserB_resolveSchema_more_fuel n 1 v3 doc schema) as Hm.
    rewrite E in Hm. change (1 + n) with (S n) in Hm.
    rewrite Hm in H by discriminate. discriminate.
  - exists n. split; [ lia | auto ].
Qed.

(** A fragment with a reference is resolved from the reference alone. *)
Lemma ParserB_reference_only (v3 : bool) (doc s s' : value) (r : string)
  (n : nat) :
  truthy s = true -> truthy s' = true ->
  getProp s "$ref" = VStr r -> getProp s' "$ref" = VStr r ->
  r <> EmptyString ->
  ParserB.resolveSchema n v3 doc s' = ParserB.resolveSchema n v3 doc s.
Proof.
  intros Hs Hs' Hr Hr' Hne. destruct n as [ | n ]; [ reflexivity | ].
  assert (Htr : truthy (VStr r) = true).
  { simpl. apply String.eqb_neq in Hne. now rewrite Hne. }
  simpl. unfold ParserB.resolveSchemaBody. rewrite Hs, Hs', Hr, Hr', Htr.
  reflexivity.
Qed.

Lemma mapR_agrees {A B : Type} (f : A -> ParserA.resolver B)
  (visited : list string) (l : list A) (ys : list B) :
  Forall2 (fun x y => f x visited = (Ok y, visited)) l ys ->
  ParserA.mapR f l visited = (Ok ys, visited).
Proof.
  induction 1 as [ | x y l ys Hxy _ IH ]; [ reflexivity | ].
  simpl. unfold ParserA.bindR at 1. rewrite Hxy.
  unfold ParserA.bindR at 1. rewrite IH. reflexivity.
Qed.

Lemma Forall2_impl_in {A B : Type} (P Q : A -> B -> Prop) (l : list A)
  (ys : list B) :
  (forall x y, In x l -> P x y -> Q x y) -> Forall2 P l ys -> Forall2 Q l ys.
Proof.
  intros H F. induction F as [ | x y l ys Hxy _ IH ]; constructor.
  - apply H; [ now left | exact Hxy ].
  - apply IH. intros x' y' Hin. apply H. now right.
Qed.

Section BodiesAgree.

Variables (v3 : bool) (doc : value) (m : nat).
Hypothesis store : truthy (referenceStore v3 doc) = true.

Variables (schema : value) (visited : list string).
Hypothesis inFlight : unresolved v3 doc (S m) visited.
Hypothesis least : ParserB.resolveSchema m v3 doc schema = OutOfFuel.
Hypothesis agree :
  forall s r visited',
    ParserB.resolveSchema m v3 doc s = Ok r ->
    unresolved v3 doc m visited' ->
    ParserA.resolveSchema m doc s visited' = (Ok r, visited').

Lemma bodies_agree (r : value) :
  ParserB.resolveSchema (S m) v3 doc schema = Ok r ->
  ParserA.resolveSchema (S m) doc schema visited = (Ok r, visited).
Proof.
  assert (Hm : unresolved v3 doc m visited).
  { apply (unresolved_less_fuel v3 doc m (S m) visited); [ lia | exact inFlight ]. }
  intros HB. pose proof HB as HB0. simpl in HB. simpl.
  unfold ParserB.resolveSchemaBody in HB. unfold ParserA.resolveSchemaBody.
  destruct (truthy schema) eqn:Ht; cbn [negb] in *;
    [ | injection HB as <-; reflexivity ].
  destruct (truthy (getProp schema "$ref")) eqn:Eref.
  { apply bind_ok in HB. destruct HB as [resolved [Href HB]].
    destruct (getProp schema "$ref") as [ | | b | n | ref | l | o ] eqn:Eg;
      try (unfold ParserB.resolveRef in Href;
           destruct (negb (truthy doc)); discriminate).
    assert (Hne : ref <> EmptyString).
    { intros ->. discriminate. }
    destruct (ParserA.setHasRef ref visited) eqn:Eh.
    - exfalso. unfold ParserA.setHasRef in Eh. apply existsb_eqb_in in Eh.
      rewrite (inFlight ref schema Eh Ht Eg) in HB0. discriminate.
    - unfold ParserA.bindR, ParserA.liftR.
      rewrite (resolveRef_agrees v3 doc (VStr ref) resolved store Href).
      rewrite (agree resolved r (ParserA.setAdd ref visited) HB).
      + now rewrite (setDelete_setAdd ref visited Eh).
      + intros r0 s Hin Hts Hrs. unfold ParserA.setAdd in Hin. rewrite Eh in Hin.
        apply in_app_or in Hin. destruct Hin as [Hin | [<- | []]].
        * now apply (Hm r0).
        * rewrite (ParserB_reference_only v3 doc schema s ref m Ht Hts Eg Hrs Hne).
          exact least. }
  destruct (truthy (getProp schema "allOf")) eqn:Eall.
  { apply bind_ok in HB. destruct HB as [l [Hl HB]].
    apply bind_ok in HB. destruct HB as [rs [Hrs HB]].
    destruct (getProp schema "allOf") as [ | | b | n | s | l' | o ];
      try discriminate. injection Hl as <-.
    unfold ParserA.bindR.
    rewrite (mapR_agrees (ParserA.resolveSchema m doc) visited l' rs).
    - unfold ParserA.liftR. now rewrite HB.
    - apply mapM_ok in Hrs. revert Hrs. apply Forall2_impl_in.
      intros x y _ Hxy. now apply agree. }
  destruct (truthy (getProp schema "oneOf") || truthy (getProp schema "anyOf")).
  { now apply agree. }
  cbv zeta in *.
  apply bind_ok in HB. destruct HB as [resolved1 [H1 HB]].
  assert (HA1 :
    (if truthy (getProp (VObj (ownEntries schema)) "properties")
     then
       ParserA.bindR
         (ParserA.mapR
            (fun kv => ParserA.bindR (ParserA.resolveSchema m doc (snd kv))
                         (fun x => ParserA.retR (fst kv, x)))
            (ownEntries (getProp (VObj (ownEntries schema)) "properties")))
         (fun kvs =>
            ParserA.retR
              (assocSet "properties" (VObj (fromEntries kvs))
                 (ownEntries schema)))
     else ParserA.retR (ownEntries schema)) visited = (Ok resolved1, visited)).
  { destruct (truthy (getProp (VObj (ownEntries schema)) "properties")).
    - apply bind_ok in H1. destruct H1 as [kvs [Hkvs H1]]. injection H1 as <-.
      unfold ParserA.bindR at 1.
      rewrite (mapR_agrees _ visited _ kvs); [ reflexivity | ].
      apply mapM_ok in Hkvs. revert Hkvs. apply Forall2_impl_in.
      intros kv y _ Hxy.
      apply bind_ok in Hxy. destruct Hxy as [x [Hx Hxy]]. injection Hxy as <-.
      unfold ParserA.bindR. now rewrite (agree _ _ visited Hx Hm).
    - now injection H1 as <-. }
  unfold ParserA.bindR at 1. rewrite HA1.
  destruct (truthy (getProp (VObj resolved1) "items")).
  - apply bind_ok in HB. destruct HB as [x [Hx HB]]. injection HB as <-.
    unfold ParserA.bindR. now rewrite (agree _ _ visited Hx Hm).
  - now injection HB as <-.
Qed.

End BodiesAgree.

Lemma resolvers_agree (v3 : bool) (doc : value) :
  truthy (referenceStore v3 doc) = true ->
  forall n s r visited,
    ParserB.resolveSchema n v3 doc s = Ok r ->
    unresolved v3 doc n visited ->
    ParserA.resolveSchema n doc s visited = (Ok r, visited).
Proof.
  intros Hstore n. induction n as [ n IH ] using lt_wf_ind.
  intros s r visited HB Hin.
  destruct (ParserB_least_fuel v3 doc s r n HB) as [m [Hm [HS Hleast]]].
  assert (HA : ParserA.resolveSchema (S m) doc s visited = (Ok r, visited)).
  { apply (bodies_agree v3 doc m Hstore s visited).
    - apply (unresolved_less_fuel v3 doc (S m) n visited Hm Hin).
    - exact Hleast.
    - intros s' r' visited' H1 H2. apply IH; [ lia | exact H1 | exact H2 ].
    - exact HS. }
  pose proof (resolveSchema_more_fuel (S m) (n - S m) doc s visited
                (Ok r) visited HA) as Hmore.
  replace (n - S m + S m) with n in Hmore by lia.
  apply Hmore. discriminate.
Qed.

Lemma cycle_guard_preserves_results_aux
  (fuel : nat) (doc schema resolved : value) :
  truthy (referenceStore true doc) = true ->
  ParserB.resolveSchema fuel true doc schema = Ok resolved ->
  ParserA.resolveSchemaTop fuel doc schema = Ok resolved.
Proof.
  intros Hstore HB. unfold ParserA.resolveSchemaTop.
  rewrite (resolvers_agree true doc Hstore fuel schema resolved [] HB);
    [ reflexivity | ].
  intros r s [].
Qed.

(** X21.  The cycle guard does not alter what resolves without it: when
    the document has its reference store ([components] for OpenAPI 3.x,
    [definitions] otherwise) and the second variant's [resolveSchema] returns
    a schema, the first variant's [resolveSchema] returns the same schema
    with the same recursion budget. *)
Theorem cycle_guard_preserves_results
  (fuel : nat) (v3 : bool) (doc schema resolved : value) :
  truthy (referenceStore v3 doc) = true ->
  ParserB.resolveSchema fuel v3 doc schema = Ok resolved ->
  ParserA.resolveSchemaTop fuel doc schema = Ok resolved.
Proof.
  intros Hstore HB. unfold ParserA.resolveSchemaTop.
  rewrite (resolvers_agree v3 doc Hstore fuel schema resolved [] HB);
    [ reflexivity | ].
  intros r s [].
Qed.

Lemma cycle_guard_preserves_results_witness :
  ParserB.resolveSchema 8 true petDoc refToDog = Ok resolvedDog
  /\ ParserA.resolveSchemaTop 8 petDoc refToDog = Ok resolvedDog.
Proof.
  split; [ reflexivity | ].
  apply (cycle_guard_preserves_results 8 true petDoc refToDog resolvedDog);
    reflexivity.
Defined.

(** ** The two builders agree on OpenAPI 3.x operations *)

Lemma foldM_agrees {A B : Type} (f g : B -> A -> outcome B) (l : list A) :
  (forall b x b', f b x = Ok b' -> g b x = Ok b') ->
  forall b b', foldM f l b = Ok b' -> foldM g l b = Ok b'.
Proof.
  intros H. induction l as [ | x l IH ]; intros b b' Hf; [ exact Hf | ].
  simpl in *. apply bind_ok in Hf. destruct Hf as [b1 [H1 Hf]].
  rewrite (H _ _ _ H1). simpl. now apply IH.
Qed.

(** X22.  On a document whose [openapi] marker begins with [3.], whose
    [swagger] member is not [2.0] (a document carrying both markers is
    compiled as Swagger 2.0 by the first variant) and that has [components],
    the input schema the second variant builds for an operation is the input
    schema the first variant builds for it: where the second variant's
    builder returns, the first returns the same schema. *)
Theorem openapi3_input_schemas_agree
  (fuel : nat) (doc operation schema : value) :
  ParserA.isOpenAPI3 doc = Ok true -> ParserA.isSwagger2 doc = false ->
  truthy (referenceStore true doc) = true ->
  ParserB.buildInputSchemaV3 fuel true doc operation = Ok schema ->
  ParserA.buildInputSchema fuel doc operation = Ok schema.
Proof.
  intros H3 H2 Hstore HB.
  unfold ParserB.buildInputSchemaV3 in HB. unfold ParserA.buildInputSchema.
  apply bind_ok in HB. destruct HB as [acc [Hacc HB]].
  apply bind_ok in HB. destruct HB as [acc2 [Hacc2 HB]].
  assert (HA : (if truthy (getProp operation "parameters")
                then l <- iterate (getProp operation "parameters") ;;
                     foldM (ParserA.paramStep fuel doc) l ([], [])
                else Ok ([], [])) = Ok acc).
  { destruct (truthy (getProp operation "parameters")); [ | exact Hacc ].
    apply bind_ok in Hacc. destruct Hacc as [l [Hl Hacc]]. rewrite Hl. simpl.
    revert Hacc. apply foldM_agrees. intros b x b' Hs.
    unfold ParserB.paramStepV3 in Hs. unfold ParserA.paramStep.
    rewrite H2. cbn [bind andb].
    apply bind_ok in Hs. destruct Hs as [pschema [Hp Hs]].
    apply bind_ok in Hs. destruct Hs as [s [Hr Hs]].
    rewrite Hp. cbn [bind].
    now rewrite (cycle_guard_preserves_results_aux fuel doc _ _ Hstore Hr). }
  rewrite HA, H3. cbn [bind andb].
  destruct (truthy (ParserB.requestBodySchema operation)) eqn:Eb.
  - apply bind_ok in Hacc2. destruct Hacc2 as [b [Hb Hacc2]].
    change (ParserA.requestBodySchema operation)
      with (ParserB.requestBodySchema operation).
    rewrite Eb, (cycle_guard_preserves_results_aux fuel doc _ _ Hstore Hb).
    injection Hacc2 as <-. cbn [bind]. exact HB.
  - change (ParserA.requestBodySchema operation)
      with (ParserB.requestBodySchema operation).
    rewrite Eb, H2. injection Hacc2 as <-. cbn [andb bind]. exact HB.
Qed.

Lemma openapi3_input_schemas_agree_witness :
  let operation :=
    VObj [("operationId", VStr "replacePet");
          ("requestBody",
           VObj [("required", VBool true);
                 ("content",
                  VObj [("application/json",
                         VObj [("schema", refToDog)])])])] in
  let schema :=
    inputSchemaObject
      [("body", withDescription resolvedDog (VStr "Request body"))]
      [VStr "body"] in
  ParserB.buildInputSchemaV3 9 true petDoc operation = Ok schema
  /\ ParserA.buildInputSchema 9 petDoc operation = Ok schema.
Proof.
  intros operation schema. split; [ reflexivity | ].
  apply (openapi3_input_schemas_agree 9 petDoc operation schema);
    reflexivity.
Defined.

(** ** Paging through workflows *)

Lemma lookup_setIfTruthy (k k' : string) (v : value)
  (params : list (string * value)) :
  String.eqb k k' = false ->
  lookup k (WorkflowService.setIfTruthy k' v params) = lookup k params.
Proof.
  intros H. unfold WorkflowService.setIfTruthy.
  destruct (truthy v); [ | reflexivity ]. now rewrite lookup_assocSet, H.
Qed.

Lemma lookup_setIfDefined (k k' : string) (v : value)
  (params : list (string * value)) :
  String.eqb k k' = false ->
  lookup k (WorkflowService.setIfDefined k' v params) = lookup k params.
Proof.
  intros H. unfold WorkflowService.setIfDefined.
  destruct v; try reflexivity; now rewrite lookup_assocSet, H.
Qed.

Lemma lookup_setDate (k k' : string) (date : value)
  (params params' : list (string * value)) :
  String.eqb k k' = false ->
  WorkflowService.setDate k' date params = Ok params' ->
  lookup k params' = lookup k params.
Proof.
  intros H. unfold WorkflowService.setDate.
  destruct (truthy date).
  - intros E. apply bind_ok in E. destruct E as [d [_ E]]. injection E as <-.
    now rewrite lookup_assocSet, H.
  - intros E. now injection E as <-.
Qed.

(** The [limit] and [continue] members of the parameters [listWorkflows]
    builds. *)
Lemma listParameters_paging (options : WorkflowService.ListWorkflowsOptions)
  (params : list (string * value)) :
  WorkflowService.listParameters options = Ok params ->
  lookup "limit" params
  = Some (VNum (natToString
                  (match WorkflowService.limit options with
                   | Some l => Nat.min l 1000
                   | None => 100
                   end)))
  /\ lookup "continue" params
     = (if truthy (WorkflowService.continue options)
        then Some (WorkflowService.continue options) else None).
Proof.
  unfold WorkflowService.listParameters. intros H.
  apply bind_ok in H. destruct H as [p6 [H6 H]].
  apply bind_ok in H. destruct H as [p7 [H7 H]].
  apply bind_ok in H. destruct H as [p8 [H8 H]].
  apply bind_ok in H. destruct H as [p9 [H9 H]].
  apply bind_ok in H. destruct H as [p10 [H10 H]].
  apply bind_ok in H. destruct H as [p11 [H11 H]].
  injection H as <-.
  assert (Hk : forall k,
             String.eqb k "resourceVersion" = false ->
             String.eqb k "includeCompleted" = false ->
             String.eqb k "sort" = false ->
             String.eqb k "finishedBefore" = false ->
             String.eqb k "finishedAfter" = false ->
             String.eqb k "startedBefore" = false ->
             String.eqb k "startedAfter" = false ->
             String.eqb k "createdBefore" = false ->
             String.eqb k "createdAfter" = false ->
             String.eqb k "fieldSelector" = false ->
             String.eqb k "labelSelector" = false ->
             String.eqb k "offset" = false ->
             lookup k
               (WorkflowService.setIfTruthy "resourceVersion"
                  (WorkflowService.resourceVersion options)
                  (WorkflowService.setIfDefined "includeCompleted"
                     (WorkflowService.includeCompleted options)
                     (if truthy (WorkflowService.sortBy options)
                      then assocSet "sort"
                             (VStr (WorkflowService.sortParameter options)) p11
                      else p11)))
             = lookup k
                 (WorkflowService.setIfTruthy "continue"
                    (WorkflowService.continue options)
                    [("limit",
                      VNum (natToString
                              (match WorkflowService.limit options with
                               | Some l => Nat.min l 1000
                               | None => 100
                               end)))])).
  { intros k E1 E2 E3 E4 E5 E6 E7 E8 E9 E10 E11 E12.
    rewrite (lookup_setIfTruthy _ _ _ _ E1), (lookup_setIfDefined _ _ _ _ E2).
    assert (E : lookup k (if truthy (WorkflowService.sortBy options)
                          then assocSet "sort"
                                 (VStr (WorkflowService.sortParameter options)) p11
                          else p11) = lookup k p11).
    { destruct (truthy (WorkflowService.sortBy options)); [ | reflexivity ].
      now rewrite lookup_assocSet, E3. }
    rewrite E.
    rewrite (lookup_setDate _ _ _ _ _ E4 H11), (lookup_setDate _ _ _ _ _ E5 H10),
            (lookup_setDate _ _ _ _ _ E6 H9), (lookup_setDate _ _ _ _ _ E7 H8),
            (lookup_setDate _ _ _ _ _ E8 H7), (lookup_setDate _ _ _ _ _ E9 H6).
    destruct (WorkflowService.fieldSelectors options).
    - now rewrite (lookup_setIfTruthy _ _ _ _ E11), (lookup_setIfDefined _ _ _ _ E12).
    - rewrite lookup_assocSet, E10.
      now rewrite (lookup_setIfTruthy _ _ _ _ E11), (lookup_setIfDefined _ _ _ _ E12). }
  split.
  - rewrite (Hk "limit") by reflexivity.
    now rewrite (lookup_setIfTruthy _ _ _ _ (eq_refl : String.eqb "limit" "continue" = false)).
  - rewrite (Hk "continue") by reflexivity.
    unfold WorkflowService.setIfTruthy.
    destruct (truthy (WorkflowService.continue options)); reflexivity.
Qed.

Lemma listRequest_paging (defaultNamespace : string)
  (options : WorkflowService.ListWorkflowsOptions)
  (request : AxiosRequestConfig) :
  WorkflowService.listRequest defaultNamespace options = Ok request ->
  getProp (params request) "limit"
  = VNum (natToString
            (match WorkflowService.limit options with
             | Some l => Nat.min l 1000
             | None => 100
             end))
  /\ lookup "continue" (ownEntries (params request))
     = (if truthy (WorkflowService.continue options)
        then Some (WorkflowService.continue options) else None).
Proof.
  unfold WorkflowService.listRequest. intros H.
  apply bind_ok in H. destruct H as [ps [Hp H]]. injection H as <-.
  destruct (listParameters_paging options ps Hp) as [H1 H2].
  cbn [params ownEntries]. split; [ | exact H2 ].
  rewrite (getProp_lookup _ "limit" eq_refl). cbn [ownEntries]. now rewrite H1.
Qed.

Lemma paginateFrom_spec (get : nat -> AxiosRequestConfig -> outcome value)
  (defaultNamespace : string) (options : WorkflowService.ListWorkflowsOptions)
  (pageSize : nat) (pulls : nat) :
  forall call token,
    let r := WorkflowService.paginateFrom pulls get defaultNamespace options
               pageSize call token in
    List.length (WorkflowService.requests r) <= pulls
    /\ List.length (WorkflowService.pages r)
       <= List.length (WorkflowService.requests r)
    /\ (forall q, In q (WorkflowService.requests r) ->
                  getProp (params q) "limit"
                  = VNum (natToString (Nat.min pageSize 1000)))
    /\ (forall q, hd_error (WorkflowService.requests r) = Some q ->
                  lookup "continue" (ownEntries (params q))
                  = (if truthy token then Some token else None))
    /\ (forall j q q',
           nth_error (WorkflowService.requests r) j = Some q ->
           nth_error (WorkflowService.requests r) (S j) = Some q' ->
           exists response result,
             get (call + j) q = Ok response
             /\ WorkflowService.listResult response = Ok result
             /\ truthy (continuationOf result) = true
             /\ lookup "continue" (ownEntries (params q'))
                = Some (continuationOf result))
    /\ (WorkflowService.ended r = WorkflowService.Finished ->
        exists q response result,
          nth_error (WorkflowService.requests r)
            (List.length (WorkflowService.requests r) - 1) = Some q
          /\ get (call + (List.length (WorkflowService.requests r) - 1)) q
             = Ok response
          /\ WorkflowService.listResult response = Ok result
          /\ truthy (continuationOf result) = false).
Proof.
  induction pulls as [ | pulls IH ]; intros call token r.
  - subst r. simpl. repeat split; try lia; try contradiction; try discriminate.
    all: try (intros j q q' H; destruct j; discriminate).
  - subst r. cbn [WorkflowService.paginateFrom].
    destruct (WorkflowService.listRequest defaultNamespace
                (WorkflowService.pageOptions options pageSize token))
      as [ request | e | ] eqn:Ereq.
    2, 3: simpl; repeat split; try lia; try contradiction; try discriminate;
          intros j q q' H; destruct j; discriminate.
    destruct (listRequest_paging _ _ _ Ereq) as [Hlimit Hcont].
    cbn [WorkflowService.pageOptions WorkflowService.limit
         WorkflowService.continue] in Hlimit, Hcont.
    destruct (response <- get call request ;; WorkflowService.listResult response)
      as [ result | e | ] eqn:Eres.
    2, 3: simpl; repeat split; try lia; try discriminate;
          [ intros q [<- | []]; exact Hlimit
          | intros q H; injection H as <-; exact Hcont
          | intros j q q' H1 H2; destruct j as [ | [ | j ] ]; discriminate ].
    apply bind_ok in Eres. destruct Eres as [response [Hget Hres]].
    fold (continuationOf result).
    destruct pulls as [ | pulls ].
    + simpl. repeat split; try lia; try discriminate.
      * intros q [<- | []]. exact Hlimit.
      * intros q H. injection H as <-. exact Hcont.
      * intros j q q' H1 H2. destruct j as [ | [ | j ] ]; discriminate.
    + destruct (truthy (continuationOf result)) eqn:Etok.
      * specialize (IH (S call) (continuationOf result)). cbv zeta in IH.
        destruct IH as [I1 [I2 [I3 [I4 [I5 I6]]]]].
        set (rest := WorkflowService.paginateFrom (S pulls) get defaultNamespace
                       options pageSize (S call) (continuationOf result)) in *.
        cbn [WorkflowService.yielded WorkflowService.requests
             WorkflowService.pages WorkflowService.ended List.length].
        split; [ lia | ]. split; [ lia | ]. split.
        { intros q [<- | Hq]; [ exact Hlimit | now apply I3 ]. }
        split.
        { intros q H. injection H as <-. exact Hcont. }
        split.
        { intros j q q' H1 H2. destruct j as [ | j ].
          - injection H1 as <-. cbn [nth_error] in H2.
            exists response, result. rewrite Nat.add_0_r.
            split; [ exact Hget | ]. split; [ exact Hres | ].
            split; [ exact Etok | ].
            assert (Hhd : hd_error (WorkflowService.requests rest) = Some q').
            { destruct (WorkflowService.requests rest); [ discriminate | exact H2 ]. }
            rewrite (I4 q' Hhd), Etok. reflexivity.
          - cbn [nth_error] in H1, H2.
            destruct (I5 j q q' H1 H2) as [resp [res [G1 [G2 [G3 G4]]]]].
            exists resp, res. replace (call + S j) with (S call + j) by lia.
            auto. }
        { intros Hend. destruct (I6 Hend) as [q [resp [res [G1 [G2 [G3 G4]]]]]].
          exists q, resp, res.
          destruct (WorkflowService.requests rest) as [ | q0 qs ] eqn:Eq;
            [ destruct (List.length [] - 1); discriminate | ].
          cbn [List.length] in *.
          replace (S (List.length qs) - 1) with (List.length qs) in G1, G2 by lia.
          replace (S (S (List.length qs)) - 1) with (S (List.length qs)) by lia.
          cbn [nth_error]. split; [ exact G1 | ].
          replace (call + S (List.length qs)) with (S call + List.length qs)
            by lia.
          auto. }
      * simpl. repeat split; try lia; try discriminate.
        -- intros q [<- | []]. exact Hlimit.
        -- intros q H. injection H as <-. exact Hcont.
        -- intros j q q' H1 H2. destruct j as [ | [ | j ] ]; discriminate.
        -- intros _. exists request, response, result.
           rewrite Nat.add_0_r. auto.
Qed.

(** X23.  A run of [paginateWorkflows] makes at most one request per page
    asked for; every request carries the page size, capped at 1000, as its
    [limit]; the first request carries no [continue] parameter, whatever
    [options.continue] is; each later request carries the truthy continuation
    token of the result before it; and the run leaves its loop only after a
    result whose continuation token is falsy. *)
Theorem paginateWorkflows_follows_the_tokens
  (pulls : nat) (get : nat -> AxiosRequestConfig -> outcome value)
  (defaultNamespace : string) (options : WorkflowService.ListWorkflowsOptions)
  (pageSize : nat) :
  let r := WorkflowService.paginateWorkflows pulls get defaultNamespace options
             pageSize in
  List.length (WorkflowService.requests r) <= pulls
  /\ List.length (WorkflowService.pages r)
     <= List.length (WorkflowService.requests r)
  /\ (forall q, In q (WorkflowService.requests r) ->
                getProp (params q) "limit"
                = VNum (natToString (Nat.min pageSize 1000)))
  /\ (forall q, hd_error (WorkflowService.requests r) = Some q ->
                hasKey "continue" (params q) = false)
  /\ (forall j q q',
         nth_error (WorkflowService.requests r) j = Some q ->
         nth_error (WorkflowService.requests r) (S j) = Some q' ->
         exists response result,
           get (S j) q = Ok response
           /\ WorkflowService.listResult response = Ok result
           /\ truthy (continuationOf result) = true
           /\ getProp (params q') "continue" = continuationOf result)
  /\ (WorkflowService.ended r = WorkflowService.Finished ->
      exists q response result,
        nth_error (WorkflowService.requests r)
          (List.length (WorkflowService.requests r) - 1) = Some q
        /\ get (List.length (WorkflowService.requests r)) q = Ok response
        /\ WorkflowService.listResult response = Ok result
        /\ truthy (continuationOf result) = false).
Proof.
  intros r. subst r. unfold WorkflowService.paginateWorkflows.
  destruct (paginateFrom_spec get defaultNamespace options pageSize pulls 1 VUndef)
    as [H1 [H2 [H3 [H4 [H5 H6]]]]].
  split; [ exact H1 | ]. split; [ exact H2 | ]. split; [ exact H3 | ].
  split; [ | split ].
  - intros q Hq. unfold hasKey. now rewrite (H4 q Hq).
  - intros j q q' Hj Hj'. destruct (H5 j q q' Hj Hj') as [resp [res [G1 [G2 [G3 G4]]]]].
    exists resp, res. repeat split; auto.
    rewrite (getProp_lookup _ "continue" eq_refl). now rewrite G4.
  - intros Hend. destruct (H6 Hend) as [q [resp [res [G1 [G2 [G3 G4]]]]]].
    exists q, resp, res. repeat split; auto.
    assert (Hpos : List.length
                     (WorkflowService.requests
                        (WorkflowService.paginateFrom pulls get defaultNamespace
                           options pageSize 1 VUndef)) <> 0).
    { intros E. rewrite E in G1. simpl in G1.
      apply length_zero_iff_nil in E. rewrite E in G1. discriminate. }
    replace (List.length _) with
      (1 + (List.length
              (WorkflowService.requests
                 (WorkflowService.paginateFrom pulls get defaultNamespace
                    options pageSize 1 VUndef)) - 1)) at 1 by lia.
    exact G2.
Qed.

Lemma paginateWorkflows_follows_the_tokens_witness :
  let r := WorkflowService.paginateWorkflows 5 twoPages "argo"
             WorkflowService.noOptions 50 in
  map params (WorkflowService.requests r)
  = [VObj [("limit", VNum "50")];
     VObj [("limit", VNum "50"); ("continue", VStr "t1")]]
  /\ WorkflowService.ended r = WorkflowService.Finished
  /\ List.length (WorkflowService.requests r) <= 5
  /\ (forall q, hd_error (WorkflowService.requests r) = Some q ->
                hasKey "continue" (params q) = false).
Proof.
  intros r. split; [ reflexivity | ]. split; [ reflexivity | ].
  destruct (paginateWorkflows_follows_the_tokens 5 twoPages "argo"
              WorkflowService.noOptions 50) as [H1 [_ [_ [H4 _]]]].
  split; [ exact H1 | exact H4 ].
Defined.

(** ** An empty label map *)

Lemma joinWith_empty (sep : string) (l : list string) :
  (forall x, In x l -> x <> EmptyString) ->
  joinWith sep l = EmptyString -> l = [].
Proof.
  destruct l as [ | x l ]; [ reflexivity | ]. intros H E. exfalso.
  apply (H x (or_introl eq_refl)).
  destruct l as [ | y l ]; simpl in E; [ exact E | ].
  destruct x; [ reflexivity | discriminate ].
Qed.

Lemma labelSelector_parameter (selector : string) (l : nat)
  (params : list (string * value)) :
  WorkflowService.listParameters
    {| WorkflowService.namespace := VUndef;
       WorkflowService.labelSelector := VStr selector;
       WorkflowService.fieldSelector := VUndef;
       WorkflowService.limit := Some l;
       WorkflowService.continue := VUndef;
       WorkflowService.offset := VUndef;
       WorkflowService.phase := VUndef;
       WorkflowService.createdAfter := VUndef;
       WorkflowService.createdBefore := VUndef;
       WorkflowService.startedAfter := VUndef;
       WorkflowService.startedBefore := VUndef;
       WorkflowService.finishedAfter := VUndef;
       WorkflowService.finishedBefore := VUndef;
       WorkflowService.name := VUndef;
       WorkflowService.namePrefix := VUndef;
       WorkflowService.status := VUndef;
       WorkflowService.sortBy := VUndef;
       WorkflowService.sortOrder := VUndef;
       WorkflowService.includeCompleted := VUndef;
       WorkflowService.resourceVersion := VUndef |} = Ok params ->
  params
  = [("limit", VNum (natToString (Nat.min l 1000)))]
    ++ (if String.eqb selector EmptyString then []
        else [("labelSelector", VStr selector)]).
Proof.
  unfold WorkflowService.listParameters.
  cbn -[natToString Nat.min String.eqb].
  unfold WorkflowService.setIfTruthy. cbn [truthy].
  destruct (String.eqb selector EmptyString); cbn -[natToString Nat.min];
    intros H; now injection H as <-.
Qed.

(** X24.  The request of [getWorkflowsByLabel] carries a [labelSelector]
    exactly when the label map has a member: with an empty label map the
    request filters on nothing and lists the workflows of the namespace. *)
Theorem empty_label_map_selects_everything
  (defaultNamespace : string) (labels ns : value) (l : nat)
  (request : AxiosRequestConfig) :
  WorkflowService.getWorkflowsByLabelRequest defaultNamespace labels ns l
  = Ok request ->
  (hasKey "labelSelector" (params request) = true <-> ownEntries labels <> [])
  /\ (ownEntries labels = [] ->
      params request = VObj [("limit", VNum (natToString (Nat.min l 1000)))]).
Proof.
  unfold WorkflowService.getWorkflowsByLabelRequest. intros H.
  apply bind_ok in H. destruct H as [selector [Hsel H]].
  unfold WorkflowService.listRequest in H.
  apply bind_ok in H. destruct H as [ps [Hps H]]. injection H as <-.
  cbn [params].
  assert (Hps' : ps = [("limit", VNum (natToString (Nat.min l 1000)))]
                      ++ (if String.eqb selector EmptyString then []
                          else [("labelSelector", VStr selector)])).
  { apply labelSelector_parameter. exact Hps. }
  clear Hps. subst ps.
  unfold WorkflowService.labelSelectorOf in Hsel.
  apply bind_ok in Hsel. destruct Hsel as [entries [He Hsel]].
  assert (Hentries : entries = ownEntries labels).
  { destruct labels; try discriminate; now injection He as <-. }
  subst entries. injection Hsel as Hsel.
  assert (Hempty : selector = EmptyString <-> ownEntries labels = []).
  { rewrite <- Hsel. split.
    - intros E. apply joinWith_empty in E.
      + destruct (ownEntries labels); [ reflexivity | discriminate ].
      + intros x Hx. apply in_map_iff in Hx. destruct Hx as [kv [<- _]].
        destruct (fst kv); discriminate.
    - intros ->. reflexivity. }
  clear Hsel He.
  destruct (String.eqb selector EmptyString) eqn:E.
  - apply String.eqb_eq in E. split.
    + split; [ discriminate | ]. intros Hne. exfalso. apply Hne.
      now apply Hempty.
    + reflexivity.
  - apply String.eqb_neq in E. split.
    + split; [ | reflexivity ]. intros _ Hnil. apply E. now apply Hempty.
    + intros Hnil. exfalso. apply E. now apply Hempty.
Qed.

Lemma empty_label_map_selects_everything_witness :
  let request := {| params := VObj [("limit", VNum "100")]; method := "GET";
                    url := "/api/v1/workflows/argo"; data := None |} in
  WorkflowService.getWorkflowsByLabelRequest "argo" (VObj []) VUndef 100
  = Ok request
  /\ (hasKey "labelSelector" (params request) = true
      <-> ownEntries (VObj []) <> [])
  /\ (ownEntries (VObj []) = [] ->
      params request = VObj [("limit", VNum (natToString (Nat.min 100 1000)))]).
Proof.
  intros request. split; [ reflexivity | ].
  apply (empty_label_map_selects_everything "argo" (VObj []) VUndef 100 request).
  reflexivity.
Defined.

(** ** The items of a listing *)

Lemma summarize_phase (workflow item : value) :
  WorkflowService.summarize workflow = Ok item ->
  truthy (getProp (getProp item "status") "phase") = true.
Proof.
  unfold WorkflowService.summarize. intros H.
  apply bind_ok in H. destruct H as [metadata [_ H]].
  apply bind_ok in H. destruct H as [wname [_ H]]. injection H as <-.
  cbn [getProp ownEntries lookup String.eqb Ascii.eqb Bool.eqb].
  unfold orElse.
  destruct (truthy (optMember (getProp workflow "status") "phase")) eqn:E;
    [ exact E | reflexivity ].
Qed.

(** X25.  When [listWorkflows] returns for an answer whose [items] is a
    list, the result has one summary for each workflow of the answer, in
    order, and every summary has a truthy [status.phase]: a workflow without
    phase is listed as [Unknown]. *)
Theorem listed_workflows_have_a_phase (response result : value)
  (workflows : list value) :
  WorkflowService.listResult response = Ok result ->
  getProp response "items" = VArr workflows ->
  exists items,
    getProp result "items" = VArr items
    /\ Forall2 (fun workflow item =>
                  WorkflowService.summarize workflow = Ok item
                  /\ truthy (getProp (getProp item "status") "phase") = true)
               workflows items.
Proof.
  unfold WorkflowService.listResult. intros H Hitems.
  apply bind_ok in H. destruct H as [items0 [H0 H]].
  assert (E0 : items0 = VArr workflows).
  { destruct response; try discriminate; injection H0 as <-; exact Hitems. }
  subst items0. apply bind_ok in H. destruct H as [items [Hi H]].
  apply bind_ok in Hi. destruct Hi as [summaries [Hs Hi]].
  injection Hi as <-. injection H as <-. exists summaries.
  split; [ reflexivity | ].
  apply mapM_ok in Hs. revert Hs. apply Forall2_impl_in.
  intros w item _ Hw. split; [ exact Hw | now apply (summarize_phase w) ].
Qed.

Lemma listed_workflows_have_a_phase_witness :
  let response :=
    VObj [("items",
           VArr [VObj [("metadata", VObj [("name", VStr "build-42")])]])] in
  exists result items,
    WorkflowService.listResult response = Ok result
    /\ getProp result "items" = VArr items
    /\ Forall2 (fun workflow item =>
                  WorkflowService.summarize workflow = Ok item
                  /\ truthy (getProp (getProp item "status") "phase") = true)
               [VObj [("metadata", VObj [("name", VStr "build-42")])]] items.
Proof.
  intros response. eexists.
  assert (H : WorkflowService.listResult response = Ok _) by reflexivity.
  destruct (listed_workflows_have_a_phase response _
              [VObj [("metadata", VObj [("name", VStr "build-42")])]] H eq_refl)
    as [items [H1 H2]].
  exists items. split; [ exact H | ]. split; [ exact H1 | exact H2 ].
Defined.
